(* ===== verification/_CoqProject ===== *)
-Q . S2P
Prelude.v
Time.v
Float64.v
Platform.v
Message.v
Codec.v
Scores.v
Validator.v
Errors.v
Setup.v
Config.v
Dial.v
Node.v
Scoring.v
Gossip.v
ReqResp.v
Kad.v
Conn.v
Behaviour.v
Commands.v
Dialing.v
Listen.v
Handle.v
Footprint.v
Events.v
Provenance.v
Network.v
EndToEnd.v
Dht.v
Safety.v
Establish.v
