(* ===== verification/Prelude.v ===== *)
(** * strata-p2p: a verified model of the node

    This library models the crate [strata-p2p] ([src/crates/p2p/src]): the
    node that wraps libp2p's swarm, admits peers, signs and checks messages,
    scores and punishes its peers, and talks to the application through
    channels.  This file holds the shared vocabulary (results, the handler
    monad, the logics for frames and for safety); every other file models one
    part of the crate.

    ** The program

    A node is the struct [P2P] ([swarm/mod.rs]).  Its [listen] loop waits for
    the next of five things: cancellation, an event of libp2p's swarm, a
    command of the application, a gossip or request command of the
    application, the time to publish its DHT record again.  Each is handled to its end by one handler, which reads the
    clock, updates the node's tables, asks things of the swarm and sends
    events to the application.  The crate is built in two ways.  With the
    [byos] feature a peer is identified by an application key that it proves
    in a setup handshake ([swarm/setup]), and dialing goes through a manager
    of address queues ([swarm/dial_manager.rs]).  Without it a peer is its
    transport key; the node keeps scores ([score_manager.rs]), a validator
    judges messages, and penalties mute or ban peers ([validator.rs]).  The
    field [byos] of the modelled node says which build is running, so one set
    of definitions serves both, and a theorem that does not fix it holds of
    both.

    ** Files

    - [Time]: [u64] arithmetic (checked or wrapping), [Duration] and
      [SystemTime] as nanoseconds, and the four different windows in which the
      crate accepts a message's date.
    - [Float64]: the [f64] operations of the scores, computed by the Standard
      Library's executable binary64.
    - [Platform]: the class [Platform] of what libp2p, serde and flexbuffers
      provide (keys, signatures, addresses, byte formats), its laws
      [PlatformLaws], and a concrete instance [Toy] that satisfies them.
    - [Message] ([swarm/message/*], [signer.rs]): the signed envelopes, their
      serde form, [SignedMessage].
    - [Codec] ([swarm/setup/flexbuffers_codec.rs], [swarm/codec_raw.rs]): the
      length-prefixed framing and the raw request/response codec.
    - [Scores], [Validator] ([score_manager.rs], [validator.rs]): scores, the
      default validator, the penalty store and its specification.
    - [Errors] ([swarm/errors.rs]), [Config] ([swarm/mod.rs], the first part).
    - [Setup] ([swarm/setup/*]): the handshake's two upgrades, the
      per-connection handler and the node-wide behaviour with its tables.
    - [Dial] ([swarm/dial_manager.rs]): address queues and the dial order.
    - [Node] ([swarm/mod.rs], [P2P] and [from_config]; [events.rs]): the node's
      state, its effects, its environment, and the creation of a node.
    - [Scoring], [Gossip], [ReqResp], [Kad], [Conn], [Commands] ([commands.rs]
      and [swarm/mod.rs]): one file per group of handlers, with the theorems
      of that group.
    - [Behaviour] ([swarm/behavior.rs]; [finish_swarm!], [with_*_transport]):
      what is asked of libp2p to build the swarm, and that it fits the node.
    - [Dialing]: dial sequences, across the command and the connection events
      that drive them.
    - [Listen]: the event loop ([listen], [handle_swarm_event],
      [handle_behaviour_event]) and what holds along every run of it.
    - [Handle] ([swarm/handle.rs]): the sinks and the queries of the handles,
      as a machine of calls, command channel and node.
    - [Footprint]: what each kind of wake-up may change and do.
    - [Events] ([swarm/handle.rs], [events.rs]): the event receivers, a machine
      of the node, its event channels and handles that are made, cloned, read
      and dropped at any time.
    - [Provenance]: for everything a node passes on or sends, the input that is
      its reason.
    - [Network]: any number of nodes, each with the setup handlers of its
      connections, among adversaries; what a delivery then proves.
    - [EndToEnd]: two nodes; a publication, a request with its answer and a
      record arrive.
    - [Dht]: lookups that run at the same time, the schedule on which the node
      republishes its record, and how long a record stays good.
    - [Safety]: which inputs can make the node panic or stop, for all handlers.
    - [Establish]: [establish_connections], the dialing, subscribing and
      waiting before the loop, during which the setup behaviour already works.

    Operations have the names of the code's functions.  A Rust [Result] is
    [result]; a handler is a computation in [stM] below, which threads the
    node and ends with a value, an error ([?], [return Err]) or a panic
    ([unwrap], overflow in a checked build).

    ** The outside

    The node cannot be run without libp2p, a clock and the channels.  What it
    does to them is recorded, in order, as a list of [Effect]s in the field
    [trace]: a recorded effect is a call that the node makes, whether or not
    the outside honours it.  What they answer is given by the class [Env], whose
    members are functions of the effects so far, so that quantifying over
    [Env] covers every behaviour of the outside.  The clock is an arbitrary
    sequence of readings numbered by the field [ticks]; nothing is assumed of
    it unless a theorem says so, and a handler may use up a number for a
    reading that the code takes only sometimes.  (The monotonic clock,
    which only startup adds to, is an argument of [establish_connections].)  Peer ids, keys, signatures
    and the byte formats are the members of [Platform].  [Toy] (in [Platform])
    and [ToyNode] (in [Node]) instantiate both with computable functions; the
    witnesses run on them.

    ** What is proved

    - Whole node: no event and no command makes it panic and only closed
      channels stop it, under bounds on the clock, the skew and the penalties,
      and one of these bounds is shown to be needed; bans and mutes last until
      their end along every run of the loop; the node's identity and settings
      stay, the fields of one build are never touched in the other, and nothing
      is done but what the kind of wake-up allows; creation.
    - Network: against peers that may do anything but forge signatures, what a
      node delivers under another node's key was given to that node by its
      application, for this destination; keys are bound to their holders; and
      the signed bytes of two messages, of whatever kinds, never agree.
    - Messages: the verdict on every gossip message, request, response and
      DHT record, branch by branch; end to end, what one node's application
      publishes, asks, answers and announces is what the other's is handed.
    - DHT: lookups under way together behave as independent ones, each answered
      once with a newest of its valid records; republications never pile up or
      split, and what ends them; a default record is stale long before it is
      republished.
    - Handles: a query answers what was true of the node at one moment of its
      waiting, and returns; where it may not; what the sinks queue and refuse;
      every handle is told every event since its making, in order, or how many
      it has lost.
    - Building: the three builders agree, one of which repeats the others'
      code; exactly which configurations are refused and which panic; swarm
      and node of one configuration fit together.
    - Startup: which addresses are dialed how often, how long the wait lasts,
      and what happens to the events that arrive meanwhile.
    - Handshake: what is accepted, that the two sides fit, that the two
      tables stay inverse to each other while no two connected peers prove the
      same key and none changes it, and what goes wrong otherwise.
    - Scores: what decays by how much over any sequence of messages and queries.
    - Dialing: every address of the queue is tried once, QUIC first.
    - Data: serde round trips of all envelopes, framing under any chunking,
      size limits, the penalty store against its specification, the rate
      limit that the default validator amounts to.

    The specifications are separate from the definitions they constrain:
    verdict functions and accepted-message predicates stand next to the
    handlers, the penalty store has an abstract store of end times, a dial
    sequence has a list of addresses left, lookups have a table of their own
    ([spec_lookups]), republishing has a count of what is due and under way, the
    log of a handle is read against the node's record of what it did ([reads]).

    [Network] assumes of signatures that nobody else makes one that verifies
    under a member's key ([genuine], a condition on what arrives, for the bytes
    that were signed, whatever they encode); that such bytes are then the
    message they are taken for is proved, from the decoding laws of [Platform].

    ** Proof structure

    Four small logics on [stM] carry the proofs.  [run_simpl] rewrites with
    the equations of the monad and of the primitive operations, and
    [destruct_run] names the outcome of a call.  [moves R m] says that [m]
    relates its start and end states by a preorder [R] (which tables a handler
    leaves alone, which penalties it keeps); [solve_moves] goes through a
    handler by its binds and branches.  [ensures I T m Q] says that from a
    state satisfying [I] the computation never panics, ends in such a state,
    and yields a value in [Q] or throws an error in [T]; [solve_ensures] does
    the same for it.  [yields I m Q] is weaker (the computation may end in any
    way) and made for tracking where values come from.

    ** Termination and bounds

    All definitions are total, and no handler needs fuel: the retry
    loops of [establish_connections] recurse on the retries left; its wait is a
    function of what polling the swarm brings before the timeout, the event
    loop one of the list of events that arrive; reading
    from a stream recurses on the bytes available; draining the setup
    behaviour takes as many steps as there are pending events, and is shown to
    deliver them all with that many.  The default validator's rate limit is
    about floating point and is computed, message by message, for bursts of up
    to the stated length.

    ** Not modelled

    libp2p's behaviours and transports themselves, of which [Behaviour] records
    how they are made; tokio's channels, which are the classes [Tokio] and
    [Broadcast] with their laws; of the handles, the test-only
    [get_setup_tracked_peer_count] and [ErrDroppedMsgs], which nothing makes;
    logging, task wakers, and the tests.

    [Network] has no clock of its own: replays within the date window, and the
    time at which things arrive, are not restricted there.

    Planned: a network in which messages that are sent arrive ([EndToEnd] for
    a whole run), and the handles of [Events] and [Handle] in one machine. *)

From stdpp Require Export base tactics option list numbers gmap sets strings.
From Stdlib Require Export ZArith Lia.
From Stdlib Require Import Init.Byte.

(** ** Results and outcomes

    [result] is Rust's [Result] for pure fallible code; [outcome] is how an
    asynchronous handler of the node ends: with a value, with an error that
    [listen] stops on ([?] or [return Err]), or in a panic. *)

Inductive result (A E : Type) : Type :=
  | Ok (a : A)
  | Err (e : E).
Arguments Ok {_ _} _.
Arguments Err {_ _} _.

Inductive outcome (E A : Type) : Type :=
  | Done (a : A)
  | Throw (e : E)
  | Panic.
Arguments Done {_ _} _.
Arguments Throw {_ _} _.
Arguments Panic {_ _}.

(** [Result::ok]. *)
Definition result_ok {A E} (r : result A E) : option A :=
  match r with Ok a => Some a | Err _ => None end.

(** ** Lists *)

Lemma forallb_false {A} (f : A → bool) l : forallb f l = false → ∃ x, x ∈ l ∧ f x = false.
Proof.
  induction l as [|x l IH]; simpl; [done|]. intros [Hx|Hl]%andb_false_iff.
  - exists x. split; [left|done].
  - destruct (IH Hl) as (y & Hy & Hf). exists y. split; [by right|done].
Qed.

Lemma sublist_full {A} (l k : list A) : l `sublist_of` k → (length k ≤ length l)%nat → l = k.
Proof.
  induction 1 as [|x l k Hs IH|x l k Hs IH]; simpl; [done|intros; f_equal; apply IH; lia|].
  apply sublist_length in Hs. lia.
Qed.

(** ** The handler monad: state passing with an outcome *)

Definition stM (S E A : Type) : Type := S → S * outcome E A.

Section Monad.
Context {S E : Type}.

#[export] Instance stM_ret : MRet (stM S E) := λ A a s, (s, Done a).

#[export] Instance stM_bind : MBind (stM S E) := λ A B f m s,
  match m s with
  | (s', Done a) => f a s'
  | (s', Throw e) => (s', Throw e)
  | (s', Panic) => (s', Panic)
  end.

Definition getS : stM S E S := λ s, (s, Done s).
Definition modS (f : S → S) : stM S E unit := λ s, (f s, Done tt).
Definition throw {A} (e : E) : stM S E A := λ s, (s, Throw e).
Definition panic {A} : stM S E A := λ s, (s, Panic).
Definition getsS {A} (f : S → A) : stM S E A := λ s, (s, Done (f s)).

Lemma bind_ret_l {A B} (a : A) (k : A → stM S E B) s : (mret a ≫= k) s = k a s.
Proof. reflexivity. Qed.

Lemma bind_run {A B} (m : stM S E A) (k : A → stM S E B) s s' o :
  m s = (s', o) →
  (m ≫= k) s = match o with
               | Done a => k a s' | Throw e => (s', Throw e) | Panic => (s', Panic)
               end.
Proof. intros H. unfold mbind, stM_bind. rewrite H. by destruct o. Qed.

Lemma bind_done {A B} (m : stM S E A) (k : A → stM S E B) s s' a :
  m s = (s', Done a) → (m ≫= k) s = k a s'.
Proof. intros H. by rewrite (bind_run _ _ _ _ _ H). Qed.

(** Steps that always succeed. *)
Lemma bind_getsS {A B} (f : S → A) (k : A → stM S E B) s : (getsS f ≫= k) s = k (f s) s.
Proof. reflexivity. Qed.
Lemma bind_modS {B} f (k : unit → stM S E B) s : (modS f ≫= k) s = k tt (f s).
Proof. reflexivity. Qed.

Lemma bind_assoc {A B C} (m : stM S E A) (f : A → stM S E B) (g : B → stM S E C) s :
  ((m ≫= f) ≫= g) s = (m ≫= λ a, f a ≫= g) s.
Proof. unfold mbind, stM_bind. by destruct (m s) as [? []]. Qed.

(** [for x in l { f x }] *)
Fixpoint iterM {A} (f : A → stM S E unit) (l : list A) : stM S E unit :=
  match l with
  | [] => mret tt
  | x :: l' => _ ← f x; iterM f l'
  end.

(** *** Frame reasoning: [moves R m] says [m] only moves the state along the
    preorder [R], however it ends. *)
Definition moves (R : S → S → Prop) {A} (m : stM S E A) : Prop :=
  ∀ s, R s (m s).1.

Section Moves.
Context (R : S → S → Prop) `{!PreOrder R}.

Lemma moves_ret {A} (a : A) : moves R (mret a).
Proof. intros s. simpl. reflexivity. Qed.
Lemma moves_throw {A} e : moves R (@throw A e).
Proof. intros s. simpl. reflexivity. Qed.
Lemma moves_panic {A} : moves R (@panic A).
Proof. intros s. simpl. reflexivity. Qed.
Lemma moves_getS : moves R getS.
Proof. intros s. simpl. reflexivity. Qed.
Lemma moves_getsS {A} (f : S → A) : moves R (getsS f).
Proof. intros s. simpl. reflexivity. Qed.
Lemma moves_modS f : (∀ s, R s (f s)) → moves R (modS f).
Proof. intros H s. apply H. Qed.
Lemma moves_bind {A B} (m : stM S E A) (k : A → stM S E B) :
  moves R m → (∀ a, moves R (k a)) → moves R (m ≫= k).
Proof.
  intros Hm Hk s. specialize (Hm s). unfold mbind, stM_bind.
  destruct (m s) as [s' [a|e|]]; simpl in *; [|done..].
  etrans; [exact Hm|apply Hk].
Qed.
Lemma moves_iterM {A} (f : A → stM S E unit) l :
  (∀ x, moves R (f x)) → moves R (iterM f l).
Proof.
  intros Hf. induction l; [apply moves_ret|]. simpl.
  apply moves_bind; auto.
Qed.
End Moves.

(** *** Safety reasoning: from a state in [I], [m] ends in a state in [I], with
    a value in [Φ] or an error in [T], and never in a panic. *)
Definition ensures (I : S → Prop) (T : E → Prop) {A} (m : stM S E A) (Φ : A → Prop) : Prop :=
  ∀ s, I s →
    I (m s).1 ∧ match (m s).2 with Done a => Φ a | Throw e => T e | Panic => False end.

Section Ensures.
Context (I : S → Prop) (T : E → Prop).

Lemma ens_ret {A} (a : A) (Φ : A → Prop) : Φ a → ensures I T (mret a) Φ.
Proof. intros Ha s Hs. done. Qed.
Lemma ens_throw {A} e (Φ : A → Prop) : T e → ensures I T (throw e) Φ.
Proof. intros He s Hs. done. Qed.
Lemma ens_getsS {A} (f : S → A) (Φ : A → Prop) :
  (∀ s, I s → Φ (f s)) → ensures I T (getsS f) Φ.
Proof. intros Hf s Hs. split; [done|by apply Hf]. Qed.
Lemma ens_getsS_any {A} (f : S → A) : ensures I T (getsS f) (λ _, True).
Proof. by apply ens_getsS. Qed.
Lemma ens_modS f (Φ : unit → Prop) : (∀ s, I s → I (f s)) → Φ tt → ensures I T (modS f) Φ.
Proof. intros Hf Ht s Hs. split; [by apply Hf|done]. Qed.
Lemma ens_bind {A B} (Ψ : A → Prop) (m : stM S E A) (k : A → stM S E B) (Φ : B → Prop) :
  ensures I T m Ψ → (∀ a, Ψ a → ensures I T (k a) Φ) → ensures I T (m ≫= k) Φ.
Proof.
  intros Hm Hk s Hs. destruct (Hm s Hs) as [Hs' Ho]. unfold mbind, stM_bind.
  destruct (m s) as [s' [a|e|]]; simpl in *; [|done..]. by apply (Hk a).
Qed.
Lemma ens_mono {A} (m : stM S E A) (Ψ Φ : A → Prop) :
  ensures I T m Ψ → (∀ a, Ψ a → Φ a) → ensures I T m Φ.
Proof. intros Hm Hi s Hs. destruct (Hm s Hs) as [? Ho]. split; [done|]. case_match; auto. Qed.
End Ensures.

(** *** What values a handler works with: from a state in [I], [m] stays in [I],
    however it ends, and what it returns satisfies [Φ]. *)
Definition yields (I : S → Prop) {A} (m : stM S E A) (Φ : A → Prop) : Prop :=
  ∀ s, I s → I (m s).1 ∧ ∀ a, (m s).2 = Done a → Φ a.

Section Yields.
Context (I : S → Prop).

Lemma yld_ret {A} (a : A) : yields I (mret a) (λ b, b = a).
Proof. intros s Hs. split; [done|]. by intros b [= <-]. Qed.
Lemma yld_throw {A} e (Φ : A → Prop) : yields I (throw e) Φ.
Proof. by intros s Hs. Qed.
Lemma yld_panic {A} (Φ : A → Prop) : yields I panic Φ.
Proof. by intros s Hs. Qed.
Lemma yld_getsS {A} (f : S → A) : yields I (getsS f) (λ a, ∃ s, I s ∧ a = f s).
Proof. intros s Hs. split; [done|]. intros a [= <-]. by exists s. Qed.
Lemma yld_modS f : (∀ s, I s → I (f s)) → yields I (modS f) (λ _, True).
Proof. intros Hf s Hs. split; [by apply Hf|done]. Qed.
Lemma yld_bind {A B} (Ψ : A → Prop) (m : stM S E A) (k : A → stM S E B) (Φ : B → Prop) :
  yields I m Ψ → (∀ a, Ψ a → yields I (k a) Φ) → yields I (m ≫= k) Φ.
Proof.
  intros Hm Hk s Hs. destruct (Hm s Hs) as [Hs' Ho]. unfold mbind, stM_bind.
  destruct (m s) as [s' [a|e|]]; simpl in *; [|done..]. apply (Hk a); auto.
Qed.
Lemma yld_mono {A} (m : stM S E A) (Ψ Φ : A → Prop) :
  yields I m Ψ → (∀ a, Ψ a → Φ a) → yields I m Φ.
Proof. intros Hm Hi s Hs. destruct (Hm s Hs) as [? Ho]. split; [done|]. auto. Qed.
Lemma yld_any {A} (m : stM S E A) (Ψ : A → Prop) : yields I m Ψ → yields I m (λ _, True).
Proof. intros Hm. by eapply yld_mono. Qed.
End Yields.
End Monad.

Arguments getS {_ _}.
Arguments modS {_ _} _.
Arguments throw {_ _ _} _.
Arguments panic {_ _ _}.
Arguments getsS {_ _ _} _.

(** Running a handler step by step: [run_simpl] performs the steps that cannot
    fail; other files add theirs to the [run] database. *)
Create HintDb run.
#[export] Hint Rewrite @bind_ret_l @bind_getsS @bind_modS : run.
Ltac run_simpl := cbv zeta; autorewrite with run; cbv beta.

Lemma run_weaken {A B} (r : A * B) (Φ Ψ : A → B → Prop) :
  (let '(a, b) := r in Φ a b) → (∀ a b, Φ a b → Ψ a b) → let '(a, b) := r in Ψ a b.
Proof. destruct r. auto. Qed.

(** The run a statement [let '(s, o) := run in ...] is about. *)
Ltac destruct_run H s o :=
  match type of H with match ?run with pair _ _ => _ end => destruct run as [s o] end.

(** Hints of the frame rules, and the tactic that walks a handler with them. *)
Create HintDb moves.
#[export] Hint Resolve moves_ret moves_throw moves_panic moves_getS moves_getsS : moves.

Ltac moves_step :=
  lazymatch goal with
  | |- ∀ _, _ => intros ?
  | |- moves _ (mbind _ _) => apply moves_bind; [typeclasses eauto|..]
  | |- moves _ (iterM _ _) => apply moves_iterM; [typeclasses eauto|..]
  | |- moves _ (match ?x with _ => _ end) => destruct x eqn:?
  | |- moves _ _ => solve [eauto with moves typeclass_instances]
  end.
Ltac solve_moves := repeat moves_step.

(** The same for safety, when no value needs to be tracked. *)
Create HintDb ensures.
#[export] Hint Resolve ens_getsS_any : ensures.
#[export] Hint Extern 1 (ensures _ _ (mret _) _) => by apply ens_ret : ensures.

Ltac ensures_step :=
  lazymatch goal with
  | |- ∀ _, True → _ => intros ? _
  | |- ensures _ _ (mbind _ _) _ => eapply (ens_bind _ _ (λ _, True))
  | |- ensures _ _ (match ?x with _ => _ end) _ => destruct x eqn:?
  | |- ensures _ _ _ _ => solve [eauto with ensures]
  end.
Ltac solve_ensures := repeat ensures_step.

(** And for values: a bind hands the strongest postcondition that the database
    knows to the continuation. *)
Create HintDb yields.
#[export] Hint Resolve yld_ret yld_throw yld_panic yld_getsS : yields.

Ltac yields_step :=
  lazymatch goal with
  | |- ∀ _, _ => intros ?
  | |- yields _ (mbind _ _) _ =>
      first [eapply yld_bind; [solve [eauto with yields]|] | apply (yld_bind _ (λ _, True))]
  | |- yields _ (match ?x with _ => _ end) _ => destruct x eqn:?
  | |- yields _ _ (λ _, True) => first [solve [eauto with yields] | eapply yld_any; solve [eauto with yields]]
  end.
Ltac solve_yields := repeat yields_step.
