(* ===== verification/Time.v ===== *)
(** * Time and machine integers

    The parts of Rust's standard library the crate computes timestamps with:
    [u64] arithmetic (wrapping or panicking, by build profile), [Duration]
    and [SystemTime] (both as exact nanosecond counts), and the timestamp
    window that four call sites of the crate test in three different ways
    (gossip, request/response, setup, DHT). *)

From S2P Require Import Prelude.
Open Scope Z_scope.

Definition u64_max : Z := 2 ^ 64 - 1.
Definition i64_max : Z := 2 ^ 63 - 1.
Definition is_u64 (n : Z) : Prop := 0 ≤ n ≤ u64_max.

(** [a + b] on [u64]: with overflow checks (a debug build) it panics, without
    them (a release build) it wraps. *)
Definition u64_add (overflow_checks : bool) (a b : Z) : option Z :=
  if a + b <=? u64_max then Some (a + b)
  else if overflow_checks then None else Some ((a + b) mod 2 ^ 64).

(** [u64::saturating_sub] *)
Definition saturating_sub (a b : Z) : Z := Z.max 0 (a - b).

(** ** [Duration]: a non-negative count of nanoseconds *)

Definition nanos_per_sec : Z := 1000000000.
Definition from_secs (s : Z) : Z := s * nanos_per_sec.
Definition from_millis (ms : Z) : Z := ms * 1000000.
Definition as_secs (d : Z) : Z := d / nanos_per_sec.
Definition as_millis (d : Z) : Z := d / 1000000.
Definition subsec_nanos (d : Z) : Z := d mod nanos_per_sec.
Definition duration_max : Z := u64_max * nanos_per_sec + 999999999.
Definition is_duration (d : Z) : Prop := 0 ≤ d ≤ duration_max.

(** ** [SystemTime]: nanoseconds since the Unix epoch, negative before it *)

(** [later.duration_since(earlier)] *)
Definition duration_since (later earlier : Z) : result Z unit :=
  if earlier <=? later then Ok (later - earlier) else Err tt.

(** [SystemTime + Duration] panics when the seconds overflow an [i64]. *)
Definition systemtime_add (t d : Z) : option Z :=
  if as_secs (t + d) <=? i64_max then Some (t + d) else None.

(** [now.duration_since(UNIX_EPOCH).unwrap_or_default().as_secs()] *)
Definition now_secs_or_default (now : Z) : Z :=
  match duration_since now 0 with Ok d => as_secs d | Err _ => 0 end.

(** ** The timestamp window *)

(** Abstract reading of "not older than [max_age], not further in the future
    than [skew]", on whole seconds. *)
Definition Fresh (now_secs max_age skew date : Z) : Prop :=
  now_secs - as_secs max_age ≤ date ≤ now_secs + as_secs skew.

#[export] Instance Fresh_dec n a k d : Decision (Fresh n a k d) := _.

Lemma duration_since_epoch now : 0 ≤ now → duration_since now 0 = Ok now.
Proof.
  intros H. unfold duration_since. rewrite (proj2 (Z.leb_le _ _)) by done. f_equal. lia.
Qed.

Lemma now_secs_nonneg now : 0 ≤ now_secs_or_default now.
Proof.
  unfold now_secs_or_default, duration_since. destruct (0 <=? now) eqn:H; [|done].
  apply Z.div_pos; unfold nanos_per_sec; lia.
Qed.

Lemma as_secs_from_secs s : as_secs (from_secs s) = s.
Proof. apply Z.div_mul. done. Qed.

(** Comparing a whole number of seconds to a duration, as durations, is
    comparing to the duration's truncated seconds. *)
Lemma from_secs_gt_iff s d : from_secs s > d ↔ s > as_secs d.
Proof.
  unfold from_secs, as_secs, nanos_per_sec.
  pose proof (Z.div_mod d 1000000000 ltac:(done)).
  pose proof (Z.mod_pos_bound d 1000000000 ltac:(done)). lia.
Qed.

Lemma from_secs_ltb s d : (d <? from_secs s) = (as_secs d <? s).
Proof.
  pose proof (from_secs_gt_iff s d).
  destruct (Z.ltb_spec d (from_secs s)), (Z.ltb_spec (as_secs d) s); try done; lia.
Qed.

Lemma as_secs_nonneg d : 0 ≤ d → 0 ≤ as_secs d.
Proof. intros. apply Z.div_pos; unfold nanos_per_sec; lia. Qed.

Lemma u64_add_fits oc a b : a + b ≤ u64_max → u64_add oc a b = Some (a + b).
Proof. intros H. unfold u64_add. by rewrite (proj2 (Z.leb_le _ _) H). Qed.

Lemma u64_add_overflows oc a b :
  is_u64 a → is_u64 b → u64_max < a + b →
  u64_add oc a b = if oc then None else Some (a + b - 2 ^ 64).
Proof.
  unfold is_u64, u64_add. intros Ha Hb H.
  rewrite (proj2 (Z.leb_gt _ _) H). destruct oc; [done|]. f_equal.
  symmetry. apply (Z.mod_unique_pos _ _ 1); unfold u64_max in *; lia.
Qed.

(** ** The forms the timestamp tests take, against the window *)

Lemma stale_test now_secs date max_age :
  0 ≤ max_age →
  (max_age <? from_secs (saturating_sub now_secs date)) = (date <? now_secs - as_secs max_age).
Proof.
  intros Ha. rewrite from_secs_ltb. pose proof (as_secs_nonneg _ Ha). unfold saturating_sub.
  destruct (Z.ltb_spec (as_secs max_age) (Z.max 0 (now_secs - date))),
    (Z.ltb_spec date (now_secs - as_secs max_age)); try done; lia.
Qed.

Lemma future_test now_secs date skew :
  0 ≤ skew →
  ((now_secs <? date) && (skew <? from_secs (date - now_secs)))
    = (now_secs + as_secs skew <? date).
Proof.
  intros Hs. rewrite from_secs_ltb. pose proof (as_secs_nonneg _ Hs).
  destruct (Z.ltb_spec now_secs date), (Z.ltb_spec (as_secs skew) (date - now_secs)),
    (Z.ltb_spec (now_secs + as_secs skew) date); try done; simpl; lia.
Qed.

(** Gossip and request/response: [date > now + skew], and an age as a
    [Duration] against [max_age]. *)
Lemma window_tests now_secs max_age skew date :
  0 ≤ max_age →
  (now_secs + as_secs skew <? date) = false ∧
  (max_age <? from_secs (saturating_sub now_secs date)) = false
  ↔ Fresh now_secs max_age skew date.
Proof.
  intros Ha. rewrite stale_test by done. unfold Fresh.
  rewrite !Z.ltb_ge. lia.
Qed.
