(* ===== verification/Float64.v ===== *)
(** * IEEE 754 binary64

    The crate keeps peer scores as [f64].  They are modelled by the Standard
    Library's executable specification of floating point ([SpecFloat], the
    binary64 instance), so that every score the code computes is computed
    here with the same rounding. *)

From Stdlib Require Export SpecFloat.
From S2P Require Import Prelude Time.
Open Scope Z_scope.

Definition f64 : Type := spec_float.

Definition f64_add : f64 → f64 → f64 := SFadd 53 1024.
Definition f64_sub : f64 → f64 → f64 := SFsub 53 1024.
Definition f64_mul : f64 → f64 → f64 := SFmul 53 1024.
Definition f64_div : f64 → f64 → f64 := SFdiv 53 1024.
Definition f64_ltb : f64 → f64 → bool := SFltb.
Definition f64_leb : f64 → f64 → bool := SFleb.

(** An integer ([u64] or literal) as [f64], rounded to nearest even. *)
Definition f64_of_Z (n : Z) : f64 := binary_normalize 53 1024 n 0 false.

Definition f64_is_nan (x : f64) : bool :=
  match x with S754_nan => true | _ => false end.

(** [f64::min]: the other argument when one is a NaN. *)
Definition f64_min (x y : f64) : f64 :=
  if f64_is_nan x then y else if f64_is_nan y then x
  else if f64_ltb x y then x else y.

Definition f64_zero : f64 := S754_zero false.
(** The literal [0.9], correctly rounded. *)
Definition f64_0_9 : f64 := S754_finite false 8106479329266893 (-53).

(** [Duration::as_secs_f64]. *)
Definition as_secs_f64 (d : Z) : f64 :=
  f64_add (f64_of_Z (as_secs d))
          (f64_div (f64_of_Z (subsec_nanos d)) (f64_of_Z nanos_per_sec)).

Example f64_0_9_literal : f64_0_9 = f64_div (f64_of_Z 9) (f64_of_Z 10).
Proof. reflexivity. Qed.

(** [min] with a non-NaN bound is never a NaN and never above the bound. *)
Lemma f64_min_bound x y :
  f64_is_nan y = false →
  f64_is_nan (f64_min x y) = false ∧ f64_leb (f64_min x y) y = true.
Proof.
  intros Hy. unfold f64_min. rewrite Hy.
  assert (Hrefl : f64_leb y y = true).
  { unfold f64_leb, SFleb. destruct y as [[]|[]| |[] m e]; try done; simpl;
      rewrite Z.compare_refl; change (Pos.compare_cont Eq m m) with (Pos.compare m m);
      by rewrite Pos.compare_refl. }
  destruct (f64_is_nan x) eqn:Hx; [done|].
  destruct (f64_ltb x y) eqn:Hlt; [|done]. split; [done|].
  unfold f64_ltb, f64_leb, SFltb, SFleb in *. by destruct (SFcompare x y) as [[]|].
Qed.
