(* ===== verification/Platform.v ===== *)
(** * The platform: code that is not under [src/]

    libp2p's identities and addresses, serde's data model and flexbuffers'
    byte format are parameters of the model, collected in one class.  Their
    documented behaviour, where a theorem needs it, is the class
    [PlatformLaws].  [Toy] instantiates both with concrete functions. *)

From Stdlib Require Import Init.Byte Strings.Byte.
From S2P Require Import Prelude.
Open Scope Z_scope.

Abbreviation bytes := (list Byte.byte).

#[export] Instance byte_eq_dec : EqDecision Byte.byte := Byte.byte_eq_dec.
#[export] Instance byte_countable : Countable Byte.byte.
Proof.
  refine (inj_countable (λ b, Byte.to_N b) (λ n, Byte.of_N n) _).
  intros b. apply Byte.of_to_N.
Defined.

#[local] Set Warnings "-register-all".

(** ** serde's data model, as far as the messages use it *)

Inductive SerdeValue : Type :=
  | SU64 (n : Z)
  | SStr (s : string)
  | SBytes (b : bytes)
  | SSeq (l : list SerdeValue)
  | SMap (fields : list (string * SerdeValue)).

(** ** Interface *)

Class Platform := {
  (* libp2p::identity *)
  PeerId : Type;
  PeerId_eq_dec :: EqDecision PeerId;
  PeerId_countable :: Countable PeerId;
  PublicKey : Type;
  PublicKey_eq_dec :: EqDecision PublicKey;
  PublicKey_countable :: Countable PublicKey;
  to_peer_id : PublicKey → PeerId;
  peer_id_to_bytes : PeerId → bytes;
  peer_id_from_bytes : bytes → option PeerId;
  encode_protobuf : PublicKey → bytes;
  try_decode_protobuf : bytes → option PublicKey;
  (* PublicKey::verify(message, signature) *)
  pk_verify : PublicKey → bytes → bytes → bool;
  Keypair : Type;
  keypair_public : Keypair → PublicKey;
  keypair_sign : Keypair → bytes → option bytes;

  (* multiaddr *)
  Multiaddr : Type;
  Multiaddr_eq_dec :: EqDecision Multiaddr;
  Multiaddr_countable :: Countable Multiaddr;
  (* the names of the address' protocols, outermost last *)
  protocol_stack : Multiaddr → list string;

  (* libp2p::swarm, gossipsub, request_response, kad: opaque identifiers *)
  ConnectionId : Type;
  ConnectionId_eq_dec :: EqDecision ConnectionId;
  ConnectionId_countable :: Countable ConnectionId;
  MessageId : Type;
  ResponseChannel : Type;
  QueryId : Type;
  QueryId_eq_dec :: EqDecision QueryId;
  QueryId_countable :: Countable QueryId;

  (* opaque configuration types of gossipsub and connection_limits *)
  PeerScoreParams : Type;
  PeerScoreThresholds : Type;
  ConnectionLimits : Type;
  (* Sha256Topic::new(name).hash() *)
  topic_hash : string → bytes;

  (* serde instances of libp2p types *)
  peer_id_to_serde : PeerId → SerdeValue;
  peer_id_of_serde : SerdeValue → option PeerId;
  multiaddr_to_serde : Multiaddr → SerdeValue;
  multiaddr_of_serde : SerdeValue → option Multiaddr;

  (* flexbuffers::to_vec / from_slice *)
  fb_to_vec : SerdeValue → option bytes;
  fb_from_slice : bytes → option SerdeValue;
}.

(** Documented behaviour of those libraries: every encoding is decoded back. *)
Class PlatformLaws `(Platform) : Prop := {
  decode_encode_protobuf k : try_decode_protobuf (encode_protobuf k) = Some k;
  peer_id_from_to_bytes p : peer_id_from_bytes (peer_id_to_bytes p) = Some p;
  peer_id_of_to_serde p : peer_id_of_serde (peer_id_to_serde p) = Some p;
  multiaddr_of_to_serde a : multiaddr_of_serde (multiaddr_to_serde a) = Some a;
  fb_from_to_slice v b : fb_to_vec v = Some b → fb_from_slice b = Some v;
  keypair_sign_verify kp m s :
    keypair_sign kp m = Some s → pk_verify (keypair_public kp) m s = true;
}.

(** [str::contains]. *)
Definition str_contains (s pat : string) : bool :=
  match String.index 0 pat s with Some _ => true | None => false end.

(** ** [SerdeValue] is countable (for the concrete byte format below) *)

Section SerdeCountable.
Abbreviation leaf := (Z + string + bytes)%type.

Fixpoint serde_to_tree (v : SerdeValue) : gen_tree leaf :=
  match v with
  | SU64 n => GenLeaf (inl (inl n))
  | SStr s => GenLeaf (inl (inr s))
  | SBytes b => GenLeaf (inr b)
  | SSeq l => GenNode 0 (map serde_to_tree l)
  | SMap fs => GenNode 1 (map (λ f, GenNode 2 [GenLeaf (inl (inr f.1)); serde_to_tree f.2]) fs)
  end.

Fixpoint serde_of_tree (t : gen_tree leaf) : SerdeValue :=
  match t with
  | GenLeaf (inl (inl n)) => SU64 n
  | GenLeaf (inl (inr s)) => SStr s
  | GenLeaf (inr b) => SBytes b
  | GenNode 0 l => SSeq (map serde_of_tree l)
  | GenNode 1 l => SMap (map (λ t, match t with
                                   | GenNode _ [GenLeaf (inl (inr s)); v] => (s, serde_of_tree v)
                                   | _ => (EmptyString, SU64 0)
                                   end) l)
  | GenNode _ _ => SU64 0
  end.

Lemma serde_of_to_tree v : serde_of_tree (serde_to_tree v) = v.
Proof.
  revert v. fix IH 1. intros [n|s|b|l|fs]; simpl; [done..| |]; f_equal.
  - induction l as [|x l IHl]; simpl; [done|]. by rewrite IH, IHl.
  - induction fs as [|[s x] l IHl]; simpl; [done|]. by rewrite IH, IHl.
Qed.

#[export] Instance serde_eq_dec : EqDecision SerdeValue.
Proof.
  refine (λ x y, cast_if (decide (serde_to_tree x = serde_to_tree y)));
    abstract (pose proof (serde_of_to_tree x); pose proof (serde_of_to_tree y); congruence).
Defined.

#[export] Instance serde_countable : Countable SerdeValue :=
  inj_countable' serde_to_tree serde_of_tree serde_of_to_tree.
End SerdeCountable.

(** ** A concrete platform, for examples and witnesses

    Peers, keys and addresses are numbers.  The peer id of key [k] is
    [k + 100]; a signature by key [k] is 64 bytes that name [k] and the
    message's length.  The byte format is the binary expansion of the
    countable encoding. *)
Module Toy.
Fixpoint pos_bytes (p : positive) : bytes :=
  match p with
  | xH => []
  | xO p => Byte.x00 :: pos_bytes p
  | xI p => Byte.x01 :: pos_bytes p
  end.
Fixpoint bytes_pos (b : bytes) : option positive :=
  match b with
  | [] => Some xH
  | Byte.x00 :: b => xO <$> bytes_pos b
  | Byte.x01 :: b => xI <$> bytes_pos b
  | _ => None
  end.
Lemma bytes_pos_bytes p : bytes_pos (pos_bytes p) = Some p.
Proof. by induction p as [p IH|p IH|]; simpl; rewrite ?IH. Qed.

Definition enc {A} `{Countable A} (a : A) : bytes := pos_bytes (encode a).
Definition dec {A} `{Countable A} (b : bytes) : option A := bytes_pos b ≫= decode.
Lemma dec_enc {A} `{Countable A} (a : A) : dec (enc a) = Some a.
Proof. unfold dec, enc. rewrite bytes_pos_bytes. apply decode_encode. Qed.

Definition sign (k : nat) (m : bytes) : bytes :=
  repeat Byte.x01 (k `mod` 8) ++ repeat Byte.x02 (length m `mod` 50)
    ++ repeat Byte.x00 (64 - k `mod` 8 - length m `mod` 50).

Lemma sign_length k m : length (sign k m) = 64%nat.
Proof.
  unfold sign. rewrite !length_app, !repeat_length.
  pose proof (Nat.mod_upper_bound k 8). pose proof (Nat.mod_upper_bound (length m) 50). lia.
Qed.

(** Odd addresses are QUIC addresses. *)
Definition stack (a : nat) : list string :=
  if Nat.odd a then ["ip4"; "udp"; "quic-v1"]%string else ["ip4"; "tcp"]%string.

#[export] Instance platform : Platform := {|
  PeerId := nat; PublicKey := nat; to_peer_id := Nat.add 100;
  peer_id_to_bytes := enc; peer_id_from_bytes := dec;
  encode_protobuf := enc; try_decode_protobuf := dec;
  pk_verify k m s := bool_decide (s = sign k m);
  Keypair := nat; keypair_public := id; keypair_sign k m := Some (sign k m);
  Multiaddr := nat; protocol_stack := stack;
  ConnectionId := nat; MessageId := nat; ResponseChannel := nat; QueryId := nat;
  PeerScoreParams := unit; PeerScoreThresholds := unit; ConnectionLimits := unit;
  topic_hash := enc;
  peer_id_to_serde p := SBytes (enc p);
  peer_id_of_serde v := match v with SBytes b => dec b | _ => None end;
  multiaddr_to_serde p := SBytes (enc p);
  multiaddr_of_serde v := match v with SBytes b => dec b | _ => None end;
  fb_to_vec v := Some (enc v); fb_from_slice := dec |}.

#[export] Instance platform_laws : PlatformLaws platform.
Proof.
  split; intros; simplify_eq/=; try apply dec_enc. by apply bool_decide_eq_true_2.
Qed.
End Toy.
