(* ===== verification/Message.v ===== *)
(** * Signed messages ([swarm/message/], [signer.rs])

    The four envelopes the crate signs (gossip, request, response, setup) and
    the DHT record, their serde representation, the signature wrapper
    [SignedMessage] and the signers. *)

From Stdlib Require Import Init.Byte.
From S2P Require Import Prelude Time Platform.
Open Scope Z_scope.

(** ** [ProtocolId] (message/mod.rs) *)

Inductive ProtocolId : Type := Setup | Gossip | RequestResponse.

#[export] Instance ProtocolId_eq_dec : EqDecision ProtocolId.
Proof. solve_decision. Defined.

Definition protocol_id_to_u8 (p : ProtocolId) : Z :=
  match p with Setup => 1 | Gossip => 2 | RequestResponse => 3 end.

Definition protocol_id_try_from_u8 (value : Z) : result ProtocolId string :=
  match value with
  | 1 => Ok Setup
  | 2 => Ok Gossip
  | 3 => Ok RequestResponse
  | _ => Err "Invalid protocol ID"%string
  end.

(** [get_timestamp]: panics before the Unix epoch. *)
Definition get_timestamp (now : Z) : option Z :=
  match duration_since now 0 with Ok d => Some (as_secs d) | Err _ => None end.

(** ** Protocol versions *)

Inductive GossipSubProtocolVersion : Type := GossipV1 | GossipV2.
Inductive RequestResponseProtocolVersion : Type := ReqRespV1 | ReqRespV2.
Inductive SetupProtocolVersion : Type := SetupV1.
Inductive DHTProtocolVersion : Type := DHTV1.

#[export] Instance gossip_version_eq_dec : EqDecision GossipSubProtocolVersion.
Proof. solve_decision. Defined.
#[export] Instance reqresp_version_eq_dec : EqDecision RequestResponseProtocolVersion.
Proof. solve_decision. Defined.

(** ** [[u8; 64]] *)

Record bytes64 : Type := Bytes64 {
  b64 : bytes;
  b64_length : bool_decide (length b64 = 64%nat)
}.

Lemma bytes64_eq (x y : bytes64) : b64 x = b64 y → x = y.
Proof.
  destruct x as [bx Hx], y as [b Hy]; simpl. intros ->. f_equal. apply proof_irrel.
Qed.

#[export] Instance bytes64_eq_dec : EqDecision bytes64.
Proof.
  refine (λ x y, cast_if (decide (b64 x = b64 y)));
    [by apply bytes64_eq | abstract congruence].
Defined.

(** [<[u8; 64]>::try_from(&[u8])] *)
Definition bytes64_try_from (b : bytes) : option bytes64 :=
  match decide (length b = 64%nat) with
  | left H => Some (Bytes64 b (bool_decide_pack _ H))
  | right _ => None
  end.

Lemma bytes64_try_from_b64 x : bytes64_try_from (b64 x) = Some x.
Proof.
  unfold bytes64_try_from. destruct (decide _) as [H|H].
  - f_equal. by apply bytes64_eq.
  - destruct H. apply (bool_decide_unpack _ (b64_length x)).
Qed.

Lemma bytes64_try_from_Some b x : bytes64_try_from b = Some x → b64 x = b.
Proof. unfold bytes64_try_from. case_decide; intros; by simplify_eq. Qed.

(** ** Serialization

    [Serialize]/[Deserialize] as derived by serde: a struct is a map of its
    fields by name; on the way back the fields may come in any order, unknown
    ones are ignored, a missing or repeated one is an error; a unit variant
    is its name. *)

#[export] Instance is_u64_dec n : Decision (is_u64 n) := _.

Class Serde (A : Type) := {
  serialize : A → SerdeValue;
  deserialize : SerdeValue → option A
}.

Definition struct_field (name : string) (v : SerdeValue) : option SerdeValue :=
  match v with
  | SMap fs =>
      match filter (λ f, f.1 = name) fs with
      | [(_, x)] => Some x
      | _ => None
      end
  | _ => None
  end.

#[export] Instance serde_u64 : Serde Z := {
  serialize := SU64;
  deserialize v :=
    match v with
    | SU64 n => if bool_decide (is_u64 n) then Some n else None
    | _ => None
    end
}.

(** Borrowed bytes deserialize from bytes or from a string. *)
Definition borrow_bytes (v : SerdeValue) : option bytes :=
  match v with
  | SBytes b => Some b
  | SStr s => Some (String.list_byte_of_string s)
  | _ => None
  end.

Definition unit_variant (v : SerdeValue) : option string :=
  match v with SStr s => Some s | _ => None end.

#[export] Instance serde_protocol_id : Serde ProtocolId := {
  serialize p := SStr (match p with
                       | Setup => "Setup" | Gossip => "Gossip"
                       | RequestResponse => "RequestResponse" end)%string;
  deserialize v :=
    s ← unit_variant v;
    if String.eqb s "Setup" then Some Setup
    else if String.eqb s "Gossip" then Some Gossip
    else if String.eqb s "RequestResponse" then Some RequestResponse
    else None
}.

#[export] Instance serde_gossip_version : Serde GossipSubProtocolVersion := {
  serialize p := SStr (match p with GossipV1 => "V1" | GossipV2 => "V2" end)%string;
  deserialize v :=
    s ← unit_variant v;
    if String.eqb s "V1" then Some GossipV1
    else if String.eqb s "V2" then Some GossipV2 else None
}.

#[export] Instance serde_reqresp_version : Serde RequestResponseProtocolVersion := {
  serialize p := SStr (match p with ReqRespV1 => "V1" | ReqRespV2 => "V2" end)%string;
  deserialize v :=
    s ← unit_variant v;
    if String.eqb s "V1" then Some ReqRespV1
    else if String.eqb s "V2" then Some ReqRespV2 else None
}.

#[export] Instance serde_setup_version : Serde SetupProtocolVersion := {
  serialize _ := SStr "V1"%string;
  deserialize v := s ← unit_variant v; if String.eqb s "V1" then Some SetupV1 else None
}.

#[export] Instance serde_dht_version : Serde DHTProtocolVersion := {
  serialize _ := SStr "V1"%string;
  deserialize v := s ← unit_variant v; if String.eqb s "V1" then Some DHTV1 else None
}.

Section Messages.
Context {P : Platform}.

(** ** [message/serde.rs]: the three custom field serializers *)

Definition pubkey_serialize (data : PublicKey) : SerdeValue :=
  SBytes (encode_protobuf data).
Definition pubkey_deserialize (v : SerdeValue) : option PublicKey :=
  b ← borrow_bytes v; try_decode_protobuf b.

Definition signature_serialize (data : bytes64) : SerdeValue := SBytes (b64 data).
Definition signature_deserialize (v : SerdeValue) : option bytes64 :=
  b ← borrow_bytes v; bytes64_try_from b.

Definition bytes_serialize (data : bytes) : SerdeValue := SBytes data.
Definition bytes_deserialize (v : SerdeValue) : option bytes := borrow_bytes v.

#[export] Instance serde_peer_id : Serde PeerId := {
  serialize := peer_id_to_serde; deserialize := peer_id_of_serde }.

#[export] Instance serde_multiaddrs : Serde (list Multiaddr) := {
  serialize l := SSeq (map multiaddr_to_serde l);
  deserialize v := match v with SSeq l => mapM multiaddr_of_serde l | _ => None end }.

(** ** The messages *)

Record GossipMessage : Type := {
  g_version : GossipSubProtocolVersion;
  g_protocol : ProtocolId;
  g_message : bytes;
  g_public_key : PublicKey;
  g_date : Z
}.

(** [GossipMessage::new]; panics when the clock is before the epoch. *)
Definition GossipMessage_new (now : Z) (app_public_key : PublicKey) (message : bytes)
    : option GossipMessage :=
  timestamp ← get_timestamp now;
  Some {| g_version := GossipV2; g_protocol := Gossip; g_message := message;
          g_public_key := app_public_key; g_date := timestamp |}.

Record RequestMessage : Type := {
  rq_version : RequestResponseProtocolVersion;
  rq_protocol : ProtocolId;
  rq_message : bytes;
  rq_public_key : PublicKey;
  rq_date : Z;
  rq_destination_peer_id : PeerId
}.

Definition RequestMessage_new (now : Z) (app_public_key : PublicKey) (message : bytes)
    (destination_peer_id : PeerId) : option RequestMessage :=
  timestamp ← get_timestamp now;
  Some {| rq_version := ReqRespV2; rq_protocol := RequestResponse; rq_message := message;
          rq_public_key := app_public_key; rq_date := timestamp;
          rq_destination_peer_id := destination_peer_id |}.

Record ResponseMessage : Type := {
  rs_version : RequestResponseProtocolVersion;
  rs_protocol : ProtocolId;
  rs_message : bytes;
  rs_app_public_key : PublicKey;
  rs_date : Z
}.

Definition ResponseMessage_new (now : Z) (app_public_key : PublicKey) (message : bytes)
    : option ResponseMessage :=
  timestamp ← get_timestamp now;
  Some {| rs_version := ReqRespV2; rs_protocol := RequestResponse; rs_message := message;
          rs_app_public_key := app_public_key; rs_date := timestamp |}.

Record SetupMessage : Type := {
  st_version : SetupProtocolVersion;
  st_app_public_key : PublicKey;
  st_local_transport_id : PeerId;
  st_remote_transport_id : PeerId;
  st_date : Z
}.

Definition SetupMessage_new (now : Z) (app_public_key : PublicKey)
    (local_transport_id remote_transport_id : PeerId) : option SetupMessage :=
  timestamp ← get_timestamp now;
  Some {| st_version := SetupV1; st_app_public_key := app_public_key;
          st_local_transport_id := local_transport_id;
          st_remote_transport_id := remote_transport_id; st_date := timestamp |}.

Record RecordData : Type := {
  rd_version : DHTProtocolVersion;
  rd_public_key : PublicKey;
  rd_multiaddresses : list Multiaddr;
  rd_date : Z
}.

Definition RecordData_new (now : Z) (public_key : PublicKey)
    (multiaddresses : list Multiaddr) : option RecordData :=
  timestamp ← get_timestamp now;
  Some {| rd_version := DHTV1; rd_public_key := public_key; rd_date := timestamp;
          rd_multiaddresses := multiaddresses |}.

(** ** [HasPublicKey] (message/signed.rs) *)

Class HasPublicKey (M : Type) := public_key : M → PublicKey.
#[export] Instance gossip_public_key : HasPublicKey GossipMessage := g_public_key.
#[export] Instance request_public_key : HasPublicKey RequestMessage := rq_public_key.
#[export] Instance response_public_key : HasPublicKey ResponseMessage := rs_app_public_key.
#[export] Instance setup_public_key : HasPublicKey SetupMessage := st_app_public_key.
#[export] Instance record_public_key : HasPublicKey RecordData := rd_public_key.

(** ** Derived serialization of the messages *)

#[export] Instance serde_gossip_message : Serde GossipMessage := {
  serialize m := SMap [
    ("version", serialize (g_version m)); ("protocol", serialize (g_protocol m));
    ("message", bytes_serialize (g_message m));
    ("public_key", pubkey_serialize (g_public_key m)); ("date", serialize (g_date m))]%string;
  deserialize v :=
    g_version ← struct_field "version" v ≫= deserialize;
    g_protocol ← struct_field "protocol" v ≫= deserialize;
    g_message ← struct_field "message" v ≫= bytes_deserialize;
    g_public_key ← struct_field "public_key" v ≫= pubkey_deserialize;
    g_date ← struct_field "date" v ≫= deserialize;
    Some (Build_GossipMessage g_version g_protocol g_message g_public_key g_date)
}.

#[export] Instance serde_request_message : Serde RequestMessage := {
  serialize m := SMap [
    ("version", serialize (rq_version m)); ("protocol", serialize (rq_protocol m));
    ("message", bytes_serialize (rq_message m));
    ("public_key", pubkey_serialize (rq_public_key m)); ("date", serialize (rq_date m));
    ("destination_peer_id", serialize (rq_destination_peer_id m))]%string;
  deserialize v :=
    rq_version ← struct_field "version" v ≫= deserialize;
    rq_protocol ← struct_field "protocol" v ≫= deserialize;
    rq_message ← struct_field "message" v ≫= bytes_deserialize;
    rq_public_key ← struct_field "public_key" v ≫= pubkey_deserialize;
    rq_date ← struct_field "date" v ≫= deserialize;
    rq_dest ← struct_field "destination_peer_id" v ≫= deserialize;
    Some (Build_RequestMessage rq_version rq_protocol rq_message rq_public_key rq_date rq_dest)
}.

#[export] Instance serde_response_message : Serde ResponseMessage := {
  serialize m := SMap [
    ("version", serialize (rs_version m)); ("protocol", serialize (rs_protocol m));
    ("message", bytes_serialize (rs_message m));
    ("app_public_key", pubkey_serialize (rs_app_public_key m));
    ("date", serialize (rs_date m))]%string;
  deserialize v :=
    rs_version ← struct_field "version" v ≫= deserialize;
    rs_protocol ← struct_field "protocol" v ≫= deserialize;
    rs_message ← struct_field "message" v ≫= bytes_deserialize;
    rs_key ← struct_field "app_public_key" v ≫= pubkey_deserialize;
    rs_date ← struct_field "date" v ≫= deserialize;
    Some (Build_ResponseMessage rs_version rs_protocol rs_message rs_key rs_date)
}.

#[export] Instance serde_setup_message : Serde SetupMessage := {
  serialize m := SMap [
    ("version", serialize (st_version m));
    ("app_public_key", pubkey_serialize (st_app_public_key m));
    ("local_transport_id", serialize (st_local_transport_id m));
    ("remote_transport_id", serialize (st_remote_transport_id m));
    ("date", serialize (st_date m))]%string;
  deserialize v :=
    st_version ← struct_field "version" v ≫= deserialize;
    st_key ← struct_field "app_public_key" v ≫= pubkey_deserialize;
    st_local ← struct_field "local_transport_id" v ≫= deserialize;
    st_remote ← struct_field "remote_transport_id" v ≫= deserialize;
    st_date ← struct_field "date" v ≫= deserialize;
    Some (Build_SetupMessage st_version st_key st_local st_remote st_date)
}.

#[export] Instance serde_record_data : Serde RecordData := {
  serialize m := SMap [
    ("version", serialize (rd_version m));
    ("public_key", pubkey_serialize (rd_public_key m));
    ("multiaddresses", serialize (rd_multiaddresses m));
    ("date", serialize (rd_date m))]%string;
  deserialize v :=
    rd_version ← struct_field "version" v ≫= deserialize;
    rd_key ← struct_field "public_key" v ≫= pubkey_deserialize;
    rd_addrs ← struct_field "multiaddresses" v ≫= deserialize;
    rd_date ← struct_field "date" v ≫= deserialize;
    Some (Build_RecordData rd_version rd_key rd_addrs rd_date)
}.

(** ** [flexbuffers::to_vec] / [from_slice] at a serde type *)
Definition to_vec {A} `{Serde A} (a : A) : option bytes := fb_to_vec (serialize a).
Definition from_slice {A} `{Serde A} (b : bytes) : option A :=
  fb_from_slice b ≫= deserialize.

(** ** [SignedMessage] *)

Record SignedMessage (M : Type) : Type := {
  message : M;
  signature : bytes64
}.
#[global] Arguments message {_} _.
#[global] Arguments signature {_} _.
#[global] Arguments Build_SignedMessage {_} _ _.

#[export] Instance serde_signed_message {M} `{Serde M} : Serde (SignedMessage M) := {
  serialize sm := SMap [
    ("message", serialize (message sm));
    ("signature", signature_serialize (signature sm))]%string;
  deserialize v :=
    m ← struct_field "message" v ≫= deserialize;
    s ← struct_field "signature" v ≫= signature_deserialize;
    Some (Build_SignedMessage m s)
}.

(** [ApplicationSigner] (signer.rs): the error of the trait is opaque. *)
Record ApplicationSigner : Type := {
  signer_sign : bytes → result bytes64 string
}.

(** [TransportKeypairSigner]: signs with the transport keypair and insists
    on 64 bytes. *)
Definition TransportKeypairSigner_new (keypair : Keypair) : ApplicationSigner := {|
  signer_sign msg :=
    match keypair_sign keypair msg with
    | None => Err "signing error"%string
    | Some sig =>
        match bytes64_try_from sig with
        | Some array => Ok array
        | None => Err "Signature length is not 64 bytes"%string
        end
    end
|}.

(** [SignedMessage::new] *)
Definition SignedMessage_new {M} `{Serde M, HasPublicKey M} (message : M)
    (signer : ApplicationSigner) : result (SignedMessage M) string :=
  match to_vec message with
  | None => Err "serialization error"%string
  | Some b =>
      match signer_sign signer b with
      | Ok signature => Ok (Build_SignedMessage message signature)
      | Err e => Err e
      end
  end.

(** [SignedMessage::verify] *)
Definition verify {M} `{Serde M, HasPublicKey M} (sm : SignedMessage M)
    : result bool string :=
  match to_vec (message sm) with
  | None => Err "serialization error"%string
  | Some serialized =>
      Ok (pk_verify (public_key (message sm)) serialized (b64 (signature sm)))
  end.

(** [verify().unwrap_or(false)] *)
Definition verify_or_false {M} `{Serde M, HasPublicKey M} (sm : SignedMessage M) : bool :=
  match verify sm with Ok b => b | Err _ => false end.

#[export] Instance verify_dec {M} `{Serde M, HasPublicKey M} (sm : SignedMessage M) :
  Decision (verify sm = Ok true).
Proof. destruct (verify sm) as [[]|]; [by left|by right..]. Defined.

Lemma verify_or_false_spec {M} `{Serde M, HasPublicKey M} (sm : SignedMessage M) :
  verify_or_false sm = bool_decide (verify sm = Ok true).
Proof.
  unfold verify_or_false. case_bool_decide as Hv; [by rewrite Hv|].
  by destruct (verify sm) as [[]|].
Qed.
End Messages.

Abbreviation SignedGossipsubMessage := (SignedMessage GossipMessage).
Abbreviation SignedRequestMessage := (SignedMessage RequestMessage).
Abbreviation SignedResponseMessage := (SignedMessage ResponseMessage).
Abbreviation SignedSetupMessage := (SignedMessage SetupMessage).
Abbreviation SignedRecord := (SignedMessage RecordData).

(** ** Round trips *)

Section Roundtrip.
Context {P : Platform} {L : PlatformLaws P}.

(** What the sender encodes is what the receiver decodes. *)
Definition roundtrips {A} `{Serde A} (a : A) : Prop :=
  ∀ b, to_vec a = Some b → from_slice b = Some a.

Lemma roundtrips_intro {A} `{Serde A} (a : A) :
  deserialize (serialize a) = Some a → roundtrips a.
Proof.
  intros Hd b Hb. unfold from_slice, to_vec in *. by rewrite (fb_from_to_slice _ _ Hb).
Qed.

Lemma signature_roundtrip x : signature_deserialize (signature_serialize x) = Some x.
Proof. apply bytes64_try_from_b64. Qed.
Lemma u64_deserialize v n : deserialize (A:=Z) v = Some n → is_u64 n.
Proof. destruct v; simpl; try done. case_bool_decide; intros; by simplify_eq. Qed.
Lemma mapM_multiaddrs (l : list Multiaddr) :
  mapM multiaddr_of_serde (map multiaddr_to_serde l) = Some l.
Proof. induction l as [|a l IH]; simpl; [done|]. by rewrite multiaddr_of_to_serde, IH. Qed.

Lemma signed_roundtrip {M} `{Serde M} (sm : SignedMessage M) :
  deserialize (serialize (message sm)) = Some (message sm) → roundtrips sm.
Proof.
  intros Hm. apply roundtrips_intro. destruct sm as [m s]. simpl in *.
  rewrite Hm. simpl. by rewrite signature_roundtrip.
Qed.
End Roundtrip.


(** One case per version and protocol, then the field laws. *)
Ltac solve_message_roundtrip :=
  let m := fresh "m" in let Hd := fresh "Hd" in
  intros m Hd; destruct m;
  repeat match goal with
         | v : GossipSubProtocolVersion |- _ => destruct v
         | v : RequestResponseProtocolVersion |- _ => destruct v
         | v : SetupProtocolVersion |- _ => destruct v
         | v : DHTProtocolVersion |- _ => destruct v
         | p : ProtocolId |- _ => destruct p
         end;
  simpl in *; unfold pubkey_deserialize, pubkey_serialize, bytes_deserialize, bytes_serialize;
  simpl; rewrite ?decode_encode_protobuf; simpl;
  rewrite ?peer_id_of_to_serde; simpl; rewrite ?peer_id_of_to_serde; simpl;
  rewrite ?mapM_multiaddrs; simpl;
  by rewrite bool_decide_eq_true_2.

Section Properties.
Context {P : Platform} {L : PlatformLaws P}.

Lemma gossip_message_roundtrip (m : GossipMessage) :
  is_u64 (g_date m) → deserialize (serialize m) = Some m.
Proof. revert m. solve_message_roundtrip. Qed.
Lemma request_message_roundtrip (m : RequestMessage) :
  is_u64 (rq_date m) → deserialize (serialize m) = Some m.
Proof. revert m. solve_message_roundtrip. Qed.
Lemma response_message_roundtrip (m : ResponseMessage) :
  is_u64 (rs_date m) → deserialize (serialize m) = Some m.
Proof. revert m. solve_message_roundtrip. Qed.
Lemma setup_message_roundtrip (m : SetupMessage) :
  is_u64 (st_date m) → deserialize (serialize m) = Some m.
Proof. revert m. solve_message_roundtrip. Qed.
Lemma record_data_roundtrip (m : RecordData) :
  is_u64 (rd_date m) → deserialize (serialize m) = Some m.
Proof. revert m. solve_message_roundtrip. Qed.

(** A signature made by the transport keypair verifies under its public key. *)
Lemma transport_signer_signs kp b s :
  signer_sign (TransportKeypairSigner_new kp) b = Ok s →
  pk_verify (keypair_public kp) b (b64 s) = true.
Proof.
  simpl. destruct (keypair_sign kp b) as [sig|] eqn:Hs; [|done].
  destruct (bytes64_try_from sig) eqn:Hb; [|done]. intros [= ->].
  rewrite (bytes64_try_from_Some _ _ Hb). by apply keypair_sign_verify.
Qed.

(** What a signer for key [k] does: every signature it returns verifies. *)
Definition signs_for (signer : ApplicationSigner) (k : PublicKey) : Prop :=
  ∀ b s, signer_sign signer b = Ok s → pk_verify k b (b64 s) = true.

Lemma signed_message_verifies {M} `{Serde M} `{!HasPublicKey M} (m : M) signer sm :
  signs_for signer (public_key m) →
  SignedMessage_new m signer = Ok sm →
  message sm = m ∧ verify sm = Ok true.
Proof.
  intros Hs. unfold SignedMessage_new, verify. destruct (to_vec m) as [b|] eqn:Hb; [|done].
  destruct (signer_sign signer b) as [s|] eqn:Hsig; [|done]. intros [= <-]. simpl.
  rewrite Hb. split; [done|]. by rewrite (Hs _ _ Hsig).
Qed.

(** C29. Every signed envelope the crate sends (gossip message, request,
    response, setup message, DHT record), with a [u64] date, is decoded by the
    receiver to exactly the envelope that was encoded. *)
Theorem signed_envelopes_roundtrip :
  (∀ sm : SignedGossipsubMessage, is_u64 (g_date (message sm)) → roundtrips sm) ∧
  (∀ sm : SignedRequestMessage, is_u64 (rq_date (message sm)) → roundtrips sm) ∧
  (∀ sm : SignedResponseMessage, is_u64 (rs_date (message sm)) → roundtrips sm) ∧
  (∀ sm : SignedSetupMessage, is_u64 (st_date (message sm)) → roundtrips sm) ∧
  (∀ sm : SignedRecord, is_u64 (rd_date (message sm)) → roundtrips sm).
Proof.
  repeat split; intros sm Hd; apply signed_roundtrip;
    [by apply gossip_message_roundtrip|by apply request_message_roundtrip
    |by apply response_message_roundtrip|by apply setup_message_roundtrip
    |by apply record_data_roundtrip].
Qed.
End Properties.

(** ** Domain separation: one signature, one message *)

(** What a signature of this crate can be about. *)
Inductive Signable `{P : Platform} : Type :=
  | EnvGossip (m : GossipMessage)
  | EnvRequest (m : RequestMessage)
  | EnvResponse (m : ResponseMessage)
  | EnvSetup (m : SetupMessage)
  | EnvRecord (m : RecordData).

(** The bytes that are signed. *)
Definition signed_part `{P : Platform} (x : Signable) : option bytes :=
  match x with
  | EnvGossip m => to_vec m
  | EnvRequest m => to_vec m
  | EnvResponse m => to_vec m
  | EnvSetup m => to_vec m
  | EnvRecord m => to_vec m
  end.
Definition signable_key `{P : Platform} (x : Signable) : PublicKey :=
  match x with
  | EnvGossip m => public_key m
  | EnvRequest m => public_key m
  | EnvResponse m => public_key m
  | EnvSetup m => public_key m
  | EnvRecord m => public_key m
  end.

Section Separation.
Context {P : Platform} {L : PlatformLaws P}.

#[export] Instance encode_protobuf_inj : Inj (=) (=) encode_protobuf.
Proof.
  intros k k' H. apply (f_equal try_decode_protobuf) in H. rewrite !decode_encode_protobuf in H.
  by injection H.
Qed.
#[export] Instance peer_id_to_serde_inj : Inj (=) (=) peer_id_to_serde.
Proof.
  intros p p' H. apply (f_equal peer_id_of_serde) in H. rewrite !peer_id_of_to_serde in H.
  by injection H.
Qed.
#[export] Instance map_multiaddrs_inj : Inj (=) (=) (map multiaddr_to_serde).
Proof.
  intros l l' H. apply (f_equal (mapM multiaddr_of_serde)) in H. rewrite !mapM_multiaddrs in H.
  by injection H.
Qed.
#[export] Instance b64_inj : Inj (=) (=) b64.
Proof. intros x y. apply bytes64_eq. Qed.

Definition signable_serde (x : Signable) : SerdeValue :=
  match x with
  | EnvGossip m => serialize m
  | EnvRequest m => serialize m
  | EnvResponse m => serialize m
  | EnvSetup m => serialize m
  | EnvRecord m => serialize m
  end.
Lemma signed_part_eq x : signed_part x = fb_to_vec (signable_serde x).
Proof. by destruct x. Qed.

#[export] Instance signable_serde_inj : Inj (=) (=) signable_serde.
Proof.
  intros [[[] []]|[[] []]|[[] []]|[[]]|[[]]] [[[] []]|[[] []]|[[] []]|[[]]|[[]]] H;
    simpl in H; unfold bytes_serialize, pubkey_serialize in H; by simplify_eq.
Qed.

(** Per kind. *)
#[export] Instance gossip_serialize_inj : Inj (=) (=) (serialize (A:=GossipMessage)).
Proof. intros m m' H. by assert (EnvGossip m = EnvGossip m') as [= ->] by by apply (inj signable_serde). Qed.
#[export] Instance request_serialize_inj : Inj (=) (=) (serialize (A:=RequestMessage)).
Proof. intros m m' H. by assert (EnvRequest m = EnvRequest m') as [= ->] by by apply (inj signable_serde). Qed.
#[export] Instance response_serialize_inj : Inj (=) (=) (serialize (A:=ResponseMessage)).
Proof. intros m m' H. by assert (EnvResponse m = EnvResponse m') as [= ->] by by apply (inj signable_serde). Qed.
#[export] Instance record_serialize_inj : Inj (=) (=) (serialize (A:=RecordData)).
Proof. intros m m' H. by assert (EnvRecord m = EnvRecord m') as [= ->] by by apply (inj signable_serde). Qed.

Lemma to_vec_same {A B} `{Serde A} `{Serde B} (a : A) (a' : B) b :
  to_vec a = Some b → to_vec a' = Some b → serialize a = serialize a'.
Proof.
  unfold to_vec. intros Ha Ha'. apply fb_from_to_slice in Ha, Ha'. congruence.
Qed.

(** Two encodings of envelopes around one kind of message. *)
Lemma same_message {A} `{Serde A} `{!Inj (=) (=) (serialize (A:=A))} (sm sm' : SignedMessage A) b :
  to_vec sm = Some b → to_vec sm' = Some b → message sm = message sm'.
Proof. intros Ha Ha'. pose proof (to_vec_same _ _ _ Ha Ha') as Hs. simpl in Hs. by simplify_eq. Qed.

(** C28. Domain separation: whatever two messages of the crate are signed (gossip
    messages, requests, responses, setup messages, DHT records), the bytes under
    the signature differ unless it is the same kind and the same message.  So a
    signature made for one of them never verifies as another, although nothing
    but the field names tells the kinds apart: a signature over the bytes of [x]
    is one over the bytes of [y] only if [x] and [y] are equal. *)
Theorem envelopes_separated x y b :
  signed_part x = Some b → signed_part y = Some b → x = y.
Proof.
  rewrite !signed_part_eq. intros Hx%fb_from_to_slice Hy%fb_from_to_slice.
  rewrite Hx in Hy. by simplify_eq.
Qed.
End Separation.

(** ** Examples on the toy platform *)
Section Examples.
#[local] Existing Instances Toy.platform Toy.platform_laws.

Definition toy_sig : bytes64 := Bytes64 (Toy.sign 3 []) I.

Definition toy_gossip : SignedGossipsubMessage :=
  {| message := {| g_version := GossipV2; g_protocol := Gossip; g_message := [Byte.x01];
                   g_public_key := 3%nat : PublicKey; g_date := 1000 |};
     signature := toy_sig |}.

Lemma signed_envelopes_roundtrip_witness :
  roundtrips toy_gossip ∧ is_Some (to_vec toy_gossip).
Proof.
  split; [|vm_compute; eauto].
  apply (proj1 signed_envelopes_roundtrip).
  split; vm_compute; discriminate.
Defined.

Lemma envelopes_separated_witness :
  ∃ b, signed_part (EnvGossip (message toy_gossip)) = Some b ∧
       ∀ m : SetupMessage, to_vec m ≠ Some b.
Proof.
  exists (default [] (signed_part (EnvGossip (message toy_gossip)))).
  split; [reflexivity|]. intros m Hm.
  assert (EnvGossip (message toy_gossip) = EnvSetup m) as Hx
    by (refine (envelopes_separated (EnvGossip (message toy_gossip)) (EnvSetup m) _ eq_refl Hm)).
  discriminate Hx.
Defined.
End Examples.
