(* ===== verification/Codec.v ===== *)
(** * Byte codecs

    [swarm/setup/flexbuffers_codec.rs]: the length-prefixed framing of the
    setup handshake (Module [Frame]); [swarm/codec_raw.rs]: the raw
    request/response codec with its process-wide size limits (Module [Raw]). *)

From Stdlib Require Import Init.Byte Strings.Byte.
From S2P Require Import Prelude Time Platform Message.
Open Scope Z_scope.

(** ** Big-endian [u32] *)

Definition byte_of_Z (z : Z) : Byte.byte :=
  match Byte.of_N (Z.to_N (z mod 256)) with Some b => b | None => Byte.x00 end.
Definition byte_to_Z (b : Byte.byte) : Z := Z.of_N (Byte.to_N b).

Definition be32 (n : Z) : bytes :=
  [byte_of_Z (Z.shiftr n 24); byte_of_Z (Z.shiftr n 16); byte_of_Z (Z.shiftr n 8); byte_of_Z n].

(** [u32::from_be_bytes], on the first four bytes. *)
Definition from_be_bytes (b : bytes) : Z :=
  fold_left (λ acc x, Z.lor (Z.shiftl acc 8) (byte_to_Z x)) (take 4 b) 0.

Lemma byte_to_of_Z z : byte_to_Z (byte_of_Z z) = z mod 256.
Proof.
  unfold byte_to_Z, byte_of_Z. pose proof (Z.mod_pos_bound z 256 ltac:(done)) as Hb.
  destruct (Byte.of_N _) as [b|] eqn:H.
  - apply Byte.to_of_N in H. rewrite H. lia.
  - apply Byte.of_N_None_iff in H. lia.
Qed.

Lemma byte_to_Z_bound b : 0 ≤ byte_to_Z b < 256.
Proof. unfold byte_to_Z. pose proof (Byte.to_N_bounded b). lia. Qed.

Lemma lor_shiftl_add a b : 0 ≤ b < 256 → Z.lor (Z.shiftl a 8) b = a * 256 + b.
Proof.
  intros Hb. rewrite Z.shiftl_mul_pow2 by done. change (2 ^ 8) with 256.
  rewrite <-Z.add_lor_land. 
  assert (Z.land (a * 256) b = 0) as ->; [|lia].
  apply Z.bits_inj'. intros n Hn. rewrite Z.land_spec, Z.bits_0.
  change 256 with (2 ^ 8). rewrite Z.mul_pow2_bits by done.
  destruct (decide (n < 8)).
  - by rewrite (Z.testbit_neg_r a) by lia.
  - rewrite (Z.bits_above_log2 b n), andb_false_r; [done|lia|].
    destruct (decide (b = 0)) as [->|]; [simpl; lia|].
    apply Z.log2_lt_pow2; [lia|]. apply Z.lt_le_trans with (2 ^ 8); [lia|].
    apply Z.pow_le_mono_r; lia.
Qed.

Lemma from_be_bytes_be32 n rest : from_be_bytes (be32 n ++ rest) = n mod 2 ^ 32.
Proof.
  unfold from_be_bytes, be32. cbn [take app fold_left].
  rewrite !byte_to_of_Z.
  rewrite !lor_shiftl_add by (apply Z.mod_pos_bound; lia).
  rewrite !Z.shiftr_div_pow2 by lia. change (0 * 256) with 0.
  change (2 ^ 24) with 16777216. change (2 ^ 16) with 65536. change (2 ^ 8) with 256.
  change (2 ^ 32) with 4294967296.
  pose proof (Z.div_mod n 256 ltac:(done)).
  replace (n / 65536) with (n / 256 / 256) by (by rewrite Z.div_div).
  replace (n / 16777216) with (n / 256 / 256 / 256) by (by rewrite !Z.div_div).
  set (a := n / 256) in *. pose proof (Z.div_mod a 256 ltac:(done)).
  set (b := a / 256) in *. pose proof (Z.div_mod b 256 ltac:(done)).
  set (c := b / 256) in *. pose proof (Z.div_mod c 256 ltac:(done)).
  pose proof (Z.mod_pos_bound n 256 ltac:(done)). pose proof (Z.mod_pos_bound a 256 ltac:(done)).
  pose proof (Z.mod_pos_bound b 256 ltac:(done)). pose proof (Z.mod_pos_bound c 256 ltac:(done)).
  rewrite firstn_O. cbn [fold_left]. apply (Z.mod_unique_pos _ _ (c / 256)); lia.
Qed.

Lemma length_be32 n : length (be32 n) = 4%nat.
Proof. done. Qed.

Module Frame.
Section Frame.
Context {P : Platform} {T : Type} `{Serde T}.

Definition MAX_FRAME_SIZE : Z := 1024 * 1024.

(** [io::Error]s of the codec, all of kind [InvalidData]. *)
Inductive CodecError : Type :=
  | SerializeError
  | FrameTooLarge (length : Z)
  | ReaderError
  | DeserializeError.

(** [Encoder::encode]: appends the frame to [dst].  The length is cast to
    [u32]; nothing bounds it by [MAX_FRAME_SIZE]. *)
Definition encode (item : T) (dst : bytes) : bytes * result unit CodecError :=
  match to_vec item with
  | None => (dst, Err SerializeError)
  | Some b => (dst ++ be32 (Z.of_nat (length b) mod 2 ^ 32) ++ b, Ok tt)
  end.

(** [Decoder::decode]: what is left in [src], and the item if one was there. *)
Definition decode (src : bytes) : bytes * result (option T) CodecError :=
  if (length src <? 4)%nat then (src, Ok None)
  else
    let length_ := from_be_bytes src in
    if MAX_FRAME_SIZE <? length_ then (src, Err (FrameTooLarge length_))
    else if Z.of_nat (length src) <? 4 + length_ then (src, Ok None)
    else
      let src := drop 4 src in
      let data := take (Z.to_nat length_) src in
      match fb_from_slice data with
      | None => (src, Err ReaderError)
      | Some reader =>
          match deserialize reader with
          | None => (src, Err DeserializeError)
          | Some item => (drop (Z.to_nat length_) src, Ok (Some item))
          end
      end.

(** Feeding a decoder chunk by chunk until it yields: leftover buffer,
    unread chunks, and what it yielded. *)
Fixpoint feed (src : bytes) (chunks : list bytes)
    : bytes * list bytes * result (option T) CodecError :=
  match decode src with
  | (src', Ok None) =>
      match chunks with
      | [] => (src', [], Ok None)
      | c :: cs => feed (src' ++ c) cs
      end
  | (src', r) => (src', chunks, r)
  end.

Lemma feed_unfold src chunks :
  feed src chunks =
    match decode src with
    | (src', Ok None) =>
        match chunks with [] => (src', [], Ok None) | c :: cs => feed (src' ++ c) cs end
    | (src', r) => (src', chunks, r)
    end.
Proof. by destruct chunks. Qed.

(** The frame of an encodable item. *)
Definition frame (b : bytes) : bytes := be32 (Z.of_nat (length b)) ++ b.

Lemma encode_frame item b dst :
  to_vec item = Some b → Z.of_nat (length b) < 2 ^ 32 →
  encode item dst = (dst ++ frame b, Ok tt).
Proof. intros Hb Hl. unfold encode, frame. rewrite Hb, Z.mod_small by lia. done. Qed.

Lemma decode_frame item b rest :
  roundtrips item → to_vec item = Some b → Z.of_nat (length b) ≤ MAX_FRAME_SIZE →
  decode (frame b ++ rest) = (rest, Ok (Some item)).
Proof.
  intros Hrt Hb Hl. unfold MAX_FRAME_SIZE in Hl. unfold decode, frame.
  rewrite <-app_assoc, from_be_bytes_be32, (Z.mod_small _ (2 ^ 32)) by lia.
  rewrite !length_app, length_be32. simpl (_ <? 4)%nat.
  unfold MAX_FRAME_SIZE. rewrite (proj2 (Z.ltb_ge _ _)) by lia.
  rewrite (proj2 (Z.ltb_ge _ _)) by lia.
  change (drop 4 (be32 ?n ++ ?r)) with r. simpl (drop 4 _).
  rewrite Nat2Z.id, take_app_length, drop_app_length.
  specialize (Hrt _ Hb). unfold from_slice in Hrt.
  destruct (fb_from_slice b); simpl in *; [|done]. by rewrite Hrt.
Qed.

(** An incomplete frame is left alone. *)
Lemma decode_prefix b pre suf :
  Z.of_nat (length b) ≤ MAX_FRAME_SIZE → frame b = pre ++ suf → suf ≠ [] →
  decode pre = (pre, Ok None).
Proof.
  intros Hl Heq Hsuf. unfold MAX_FRAME_SIZE in Hl. unfold decode.
  destruct (length pre <? 4)%nat eqn:H4; [done|]. apply Nat.ltb_ge in H4.
  assert (from_be_bytes pre = Z.of_nat (length b)) as ->.
  { transitivity (from_be_bytes (frame b)).
    - rewrite Heq. unfold from_be_bytes. by rewrite take_app_le.
    - unfold frame. rewrite from_be_bytes_be32, Z.mod_small by lia. done. }
  unfold MAX_FRAME_SIZE. rewrite (proj2 (Z.ltb_ge _ _)) by lia.
  rewrite (proj2 (Z.ltb_lt _ _)); [done|].
  apply (f_equal length) in Heq. unfold frame in Heq.
  rewrite !length_app, length_be32 in Heq. destruct suf; [done|]. simpl in Heq. lia.
Qed.

(** The framed decoder on a cut-up frame. *)
Lemma feed_frame item b chunks rest :
  roundtrips item → to_vec item = Some b → Z.of_nat (length b) ≤ MAX_FRAME_SIZE →
  concat chunks = frame b ++ rest →
  ∃ src' chunks', feed [] chunks = (src', chunks', Ok (Some item)) ∧
    src' ++ concat chunks' = rest.
Proof.
  intros Hrt Hb Hl Hch.
  enough (∀ chunks src, src ++ concat chunks = frame b ++ rest →
            ∃ src' chunks', feed src chunks = (src', chunks', Ok (Some item)) ∧
              src' ++ concat chunks' = rest) as Hgen by (by apply Hgen).
  clear chunks Hch. induction chunks as [|c cs IH]; intros src Hsrc.
  - cbn [concat] in Hsrc. rewrite app_nil_r in Hsrc. subst src.
    rewrite feed_unfold, (decode_frame _ _ _ Hrt Hb Hl). exists rest, []. by rewrite app_nil_r.
  - destruct (decide (length (frame b) ≤ length src)%nat) as [Hle|Hlt].
    + apply app_eq_inv in Hsrc as [(k & -> & Hk)|(k & Hf & Hk)].
      * rewrite feed_unfold, (decode_frame _ _ _ Hrt Hb Hl). eauto.
      * rewrite Hf, length_app in Hle. destruct k; [|simpl in Hle; lia].
        rewrite app_nil_r in Hf. subst src. simpl in Hk. 
        rewrite <-(app_nil_r (frame b)), feed_unfold, (decode_frame _ _ _ Hrt Hb Hl).
        by exists [], (c :: cs).
    + cbn [concat] in Hsrc. pose proof Hsrc as Hsrc'.
      apply app_eq_inv in Hsrc' as [(k & -> & _)|(k & Hf & _)].
      { rewrite length_app in Hlt. lia. }
      assert (k ≠ []) as Hk by (intros ->; rewrite app_nil_r in Hf; subst; lia).
      rewrite feed_unfold, (decode_prefix _ _ _ Hl Hf Hk). apply IH.
      by rewrite <-app_assoc.
Qed.

Lemma encode_frame_inv item b dst :
  to_vec item = Some b → encode item [] = (dst, Ok tt) →
  Z.of_nat (length dst) ≤ MAX_FRAME_SIZE + 4 →
  Z.of_nat (length b) ≤ MAX_FRAME_SIZE ∧ dst = frame b.
Proof.
  intros Hb Henc Hlen. unfold encode in Henc. rewrite Hb in Henc. simplify_eq/=.
  assert (Z.of_nat (length b) ≤ MAX_FRAME_SIZE) by lia. split; [done|].
  unfold frame. rewrite Z.mod_small; [done|]. unfold MAX_FRAME_SIZE in *. lia.
Qed.

(** C27. Framing: however the encoded frame of an item of at most
    [MAX_FRAME_SIZE] bytes is cut into chunks, and whatever follows it, the
    decoder yields that item, consumes exactly the frame, and yields nothing
    before the frame is complete. *)
Theorem feed_encode item b dst chunks rest :
  roundtrips item → to_vec item = Some b → Z.of_nat (length b) ≤ MAX_FRAME_SIZE →
  (encode item []).1 = dst → concat chunks = dst ++ rest →
  ∃ src' chunks', feed [] chunks = (src', chunks', Ok (Some item)) ∧
    src' ++ concat chunks' = rest.
Proof.
  intros Hrt Hb Hl Henc Hch.
  rewrite (encode_frame _ _ _ Hb) in Henc by (unfold MAX_FRAME_SIZE in Hl; lia).
  simpl in Henc. subst dst. by apply (feed_frame _ b).
Qed.

(** C38. Size limit: a frame that announces more than [MAX_FRAME_SIZE] bytes is
    refused as soon as its four length bytes are there, whatever else has
    arrived, and nothing is consumed; the encoder knows no such limit, so an
    item of more than [MAX_FRAME_SIZE] (and less than 2^32) bytes is encoded
    without an error into a frame that every receiver refuses. *)
Theorem oversized_frame_refused :
  (∀ src, (4 ≤ length src)%nat → MAX_FRAME_SIZE < from_be_bytes src →
     decode src = (src, Err (FrameTooLarge (from_be_bytes src)))) ∧
  (∀ item b rest, to_vec item = Some b →
     MAX_FRAME_SIZE < Z.of_nat (length b) < 2 ^ 32 →
     (encode item []).2 = Ok tt ∧
     decode ((encode item []).1 ++ rest)
       = ((encode item []).1 ++ rest, Err (FrameTooLarge (Z.of_nat (length b))))).
Proof.
  assert (∀ src, (4 ≤ length src)%nat → MAX_FRAME_SIZE < from_be_bytes src →
     decode src = (src, Err (FrameTooLarge (from_be_bytes src)))) as Hdec.
  { intros src Hlen Hmax. unfold decode. rewrite (proj2 (Nat.ltb_ge _ _)) by lia.
    by rewrite (proj2 (Z.ltb_lt _ _)). }
  split; [exact Hdec|]. intros item b rest Hb Hl.
  rewrite (encode_frame _ _ _ Hb) by lia. cbn [fst snd app]. split; [done|].
  assert (from_be_bytes (frame b ++ rest) = Z.of_nat (length b)) as Hbe.
  { unfold frame. rewrite <-app_assoc, from_be_bytes_be32, Z.mod_small; [done|lia]. }
  rewrite <-Hbe. apply Hdec; [|lia].
  unfold frame. rewrite !length_app, length_be32. lia.
Qed.
End Frame.
End Frame.

(** ** [codec_raw.rs] *)
Module Raw.
(** The two process-wide atomics. *)
Record Limits : Type := {
  REQUEST_SIZE_MAXIMUM : Z;
  RESPONSE_SIZE_MAXIMUM : Z
}.
Definition initial_limits : Limits :=
  {| REQUEST_SIZE_MAXIMUM := 1024 * 1024; RESPONSE_SIZE_MAXIMUM := 10 * 1024 * 1024 |}.

Definition set_request_max_bytes (max : Z) (l : Limits) : Limits :=
  {| REQUEST_SIZE_MAXIMUM := max; RESPONSE_SIZE_MAXIMUM := RESPONSE_SIZE_MAXIMUM l |}.
Definition set_response_max_bytes (max : Z) (l : Limits) : Limits :=
  {| REQUEST_SIZE_MAXIMUM := REQUEST_SIZE_MAXIMUM l; RESPONSE_SIZE_MAXIMUM := max |}.

(** A stream to read: the bytes it delivers, then either its end or an
    I/O error. *)
Record ReadStream : Type := {
  incoming : bytes;
  io_error : option string
}.

(** [io.take(limit).read_to_end(&mut vec)]: stops at the limit without
    looking further. *)
Definition take_read_to_end (limit : Z) (io : ReadStream) : result bytes string :=
  if limit <=? Z.of_nat (length (incoming io)) then Ok (take (Z.to_nat limit) (incoming io))
  else match io_error io with
       | Some e => Err e
       | None => Ok (incoming io)
       end.

Definition read_request (l : Limits) (io : ReadStream) : result bytes string :=
  take_read_to_end (REQUEST_SIZE_MAXIMUM l) io.
Definition read_response (l : Limits) (io : ReadStream) : result bytes string :=
  take_read_to_end (RESPONSE_SIZE_MAXIMUM l) io.

(** [io.write_all(&req)], on a stream that takes every byte. *)
Definition write_request (io : bytes) (req : bytes) : bytes := io ++ req.
Definition write_response (io : bytes) (resp : bytes) : bytes := io ++ resp.

Lemma take_read_to_end_ok limit b :
  0 ≤ limit → take_read_to_end limit {| incoming := b; io_error := None |} =
    Ok (take (Z.to_nat limit) b).
Proof.
  intros Hl. unfold take_read_to_end. simpl. destruct (Z.leb_spec limit (Z.of_nat (length b)));
    [done|]. by rewrite take_ge by lia.
Qed.

(** C37. A message written by one side and read by the other arrives unchanged
    when it fits the reader's limit; a longer one is not refused but cut to
    exactly the limit; and whatever the stream does, a read never returns more
    bytes than the limit in force. *)
Theorem raw_codec_limits (l : Limits) :
  0 ≤ REQUEST_SIZE_MAXIMUM l → 0 ≤ RESPONSE_SIZE_MAXIMUM l →
  (∀ m, read_request l {| incoming := write_request [] m; io_error := None |} =
          Ok (take (Z.to_nat (REQUEST_SIZE_MAXIMUM l)) m)) ∧
  (∀ m, read_response l {| incoming := write_response [] m; io_error := None |} =
          Ok (take (Z.to_nat (RESPONSE_SIZE_MAXIMUM l)) m)) ∧
  (∀ m, Z.of_nat (length m) ≤ REQUEST_SIZE_MAXIMUM l →
     read_request l {| incoming := write_request [] m; io_error := None |} = Ok m) ∧
  (∀ m, Z.of_nat (length m) ≤ RESPONSE_SIZE_MAXIMUM l →
     read_response l {| incoming := write_response [] m; io_error := None |} = Ok m) ∧
  (∀ io b, read_request l io = Ok b → Z.of_nat (length b) ≤ REQUEST_SIZE_MAXIMUM l) ∧
  (∀ io b, read_response l io = Ok b → Z.of_nat (length b) ≤ RESPONSE_SIZE_MAXIMUM l).
Proof.
  intros Hq Hs. unfold read_request, read_response, write_request, write_response. simpl.
  assert (∀ lim io b, 0 ≤ lim → take_read_to_end lim io = Ok b →
            Z.of_nat (length b) ≤ lim) as Hb.
  { intros lim io b Hlim. unfold take_read_to_end.
    destruct (Z.leb_spec lim (Z.of_nat (length (incoming io)))).
    - intros [= <-]. rewrite length_take. lia.
    - destruct (io_error io); [done|]. intros [= <-]. lia. }
  repeat split; intros; eauto; try (by apply take_read_to_end_ok).
  all: rewrite take_read_to_end_ok by done; by rewrite take_ge by lia.
Qed.

Lemma raw_codec_limits_witness :
  read_request (set_request_max_bytes 2 initial_limits)
    {| incoming := write_request [] [Byte.x01; Byte.x02; Byte.x03]; io_error := None |}
    = Ok [Byte.x01; Byte.x02].
Proof.
  apply (raw_codec_limits (set_request_max_bytes 2 initial_limits)); simpl; lia.
Defined.
End Raw.

Section FrameExamples.
#[local] Existing Instances Toy.platform Toy.platform_laws.

Lemma feed_encode_witness :
  let f := (Frame.encode toy_gossip []).1 in
  ∃ src' chunks',
    Frame.feed [] [take 2 f; drop 2 f ++ [Byte.xff]; [Byte.xfe]]
      = (src', chunks', Ok (Some toy_gossip)) ∧
    src' ++ concat chunks' = [Byte.xff; Byte.xfe].
Proof.
  destruct (to_vec toy_gossip) as [b|] eqn:Hb; [|vm_compute in Hb; done].
  intros f. eapply (Frame.feed_encode toy_gossip b).
  - apply (proj1 signed_envelopes_roundtrip). split; vm_compute; discriminate.
  - done.
  - vm_compute in Hb. injection Hb as <-. vm_compute. discriminate.
  - reflexivity.
  - cbn [concat]. by rewrite app_nil_r, <-app_assoc, app_assoc, take_drop.
Defined.

(** A platform whose only difference is that every value is serialized to
    one byte more than the frame limit. *)
Definition big_platform : Platform := {|
  PeerId := nat; PublicKey := nat; to_peer_id := Nat.add 100;
  peer_id_to_bytes := Toy.enc; peer_id_from_bytes := Toy.dec;
  encode_protobuf := Toy.enc; try_decode_protobuf := Toy.dec;
  pk_verify k m s := bool_decide (s = Toy.sign k m);
  Keypair := nat; keypair_public := id; keypair_sign k m := Some (Toy.sign k m);
  Multiaddr := nat; protocol_stack := Toy.stack;
  ConnectionId := nat; MessageId := nat; ResponseChannel := nat; QueryId := nat;
  PeerScoreParams := unit; PeerScoreThresholds := unit; ConnectionLimits := unit;
  topic_hash := Toy.enc;
  peer_id_to_serde p := SBytes (Toy.enc p);
  peer_id_of_serde v := match v with SBytes b => Toy.dec b | _ => None end;
  multiaddr_to_serde p := SBytes (Toy.enc p);
  multiaddr_of_serde v := match v with SBytes b => Toy.dec b | _ => None end;
  fb_to_vec v := Some (repeat Byte.x00 (Z.to_nat 1048577)); fb_from_slice := Toy.dec |}.

Lemma oversized_frame_refused_witness :
  (@Frame.encode big_platform Z _ 7 []).2 = Ok tt ∧
  @Frame.decode big_platform Z _ ((@Frame.encode big_platform Z _ 7 []).1 ++ [Byte.x01])
    = ((@Frame.encode big_platform Z _ 7 []).1 ++ [Byte.x01], Err (Frame.FrameTooLarge 1048577)).
Proof.
  assert (Z.of_nat (length (repeat Byte.x00 (Z.to_nat 1048577))) = 1048577) as Hl
    by (rewrite repeat_length, Z2Nat.id; lia).
  rewrite <-Hl.
  apply (proj2 (@Frame.oversized_frame_refused big_platform Z _)); [reflexivity|].
  rewrite Hl. unfold Frame.MAX_FRAME_SIZE. lia.
Defined.
End FrameExamples.
