(* ===== verification/Scores.v ===== *)
(** * Peer scores ([score_manager.rs])

    The per-peer application scores and the time of their last decay.  Only
    compiled without the [byos] feature. *)

From S2P Require Import Prelude Time Float64 Platform.
Open Scope Z_scope.

Definition DEFAULT_REQ_RESP_APP_SCORE : f64 := f64_zero.
Definition DEFAULT_GOSSIP_APP_SCORE : f64 := f64_zero.

Section Scores.
Context {P : Platform}.

Record ScoreManager : Type := {
  gossipsub_app_score : gmap PeerId f64;
  req_resp_app_score : gmap PeerId f64;
  last_scoring_decay_time : gmap PeerId Z
}.

Definition ScoreManager_new : ScoreManager :=
  {| gossipsub_app_score := ∅; req_resp_app_score := ∅; last_scoring_decay_time := ∅ |}.

Definition get_gossipsub_app_score (self : ScoreManager) (peer_id : PeerId) : option f64 :=
  gossipsub_app_score self !! peer_id.

Definition get_req_resp_score (self : ScoreManager) (peer_id : PeerId) : option f64 :=
  req_resp_app_score self !! peer_id.

Definition update_gossipsub_app_score (peer_id : PeerId) (new_score : f64)
    (self : ScoreManager) : ScoreManager :=
  {| gossipsub_app_score := <[peer_id := new_score]> (gossipsub_app_score self);
     req_resp_app_score := req_resp_app_score self;
     last_scoring_decay_time := last_scoring_decay_time self |}.

Definition update_req_resp_app_score (peer_id : PeerId) (new_score : f64)
    (self : ScoreManager) : ScoreManager :=
  {| gossipsub_app_score := gossipsub_app_score self;
     req_resp_app_score := <[peer_id := new_score]> (req_resp_app_score self);
     last_scoring_decay_time := last_scoring_decay_time self |}.

(** Returns the previous decay time. *)
Definition update_last_scoring_decay_time (peer_id : PeerId) (time : Z)
    (self : ScoreManager) : ScoreManager * option Z :=
  ({| gossipsub_app_score := gossipsub_app_score self;
      req_resp_app_score := req_resp_app_score self;
      last_scoring_decay_time := <[peer_id := time]> (last_scoring_decay_time self) |},
   last_scoring_decay_time self !! peer_id).

Definition scores_remove_peer (peer_id : PeerId) (self : ScoreManager) : ScoreManager :=
  {| gossipsub_app_score := delete peer_id (gossipsub_app_score self);
     req_resp_app_score := delete peer_id (req_resp_app_score self);
     last_scoring_decay_time := delete peer_id (last_scoring_decay_time self) |}.
End Scores.

Record AppPeerScore : Type := {
  aps_gossipsub_app_score : f64;
  aps_req_resp_app_score : f64
}.

Record PeerScore : Type := {
  app_score : AppPeerScore;
  gossipsub_internal_score : f64
}.
