(* ===== verification/Validator.v ===== *)
(** * Validation and penalties ([validator.rs])

    The [Validator] trait as a record of operations, the default validator,
    and the store of mutes and bans with its abstract specification: a
    penalty end time per peer and kind ([Penalty] group below).  Only compiled
    without the [byos] feature. *)

From S2P Require Import Prelude Time Float64 Platform Scores.
Open Scope Z_scope.

Definition DEFAULT_BAN_PERIOD : Z := from_secs (60 * 60 * 24 * 30).
Definition DEFAULT_DECAY_RATE_PER_SEC : f64 := f64_0_9.
Definition DEFAULT_MESSAGE_COST : f64 := f64_of_Z 1.
Definition DEFAULT_MUTE_THRESHOLD : f64 := f64_of_Z (-100).
Definition DEFAULT_MUTE_DURATION : Z := from_secs 60.

(** [Message] *)
Inductive MessageType : Type :=
  | MGossipsub (data : bytes)
  | MRequest (data : bytes)
  | MResponse (data : bytes).

Inductive PenaltyType : Type :=
  | MuteGossip (d : Z)
  | MuteReqresp (d : Z)
  | MuteBoth (d : Z)
  | Ban (d : option Z).

(** commands.rs *)
Inductive UnpenaltyType : Type :=
  | Unban
  | UnmuteGossipsub
  | UnmuteRequestResponse
  | UnmuteBoth.

Inductive Action : Type :=
  | ApplyPenalty (p : PenaltyType)
  | RemovePenalty (u : UnpenaltyType).

(** The trait; its methods take [&self], so they are functions. *)
Record Validator : Type := {
  validate_msg : MessageType → f64 → f64;
  get_penalty : MessageType → PeerScore → option PenaltyType;
  apply_decay : f64 → Z → f64
}.

(** ** [DefaultP2PValidator] *)

Definition default_validate_msg (msg : MessageType) (old_app_score : f64) : f64 :=
  f64_sub old_app_score DEFAULT_MESSAGE_COST.

Definition default_get_penalty (msg : MessageType) (peer_score : PeerScore)
    : option PenaltyType :=
  match msg with
  | MGossipsub _ =>
      if f64_ltb (aps_gossipsub_app_score (app_score peer_score)) DEFAULT_MUTE_THRESHOLD
      then Some (MuteGossip DEFAULT_MUTE_DURATION) else None
  | MRequest _ | MResponse _ =>
      if f64_ltb (aps_req_resp_app_score (app_score peer_score)) DEFAULT_MUTE_THRESHOLD
      then Some (MuteReqresp DEFAULT_MUTE_DURATION) else None
  end.

Definition default_apply_decay (score : f64) (time_since_last_decay : Z) : f64 :=
  let delta_seconds := as_secs_f64 time_since_last_decay in
  let decay_increment := f64_mul DEFAULT_DECAY_RATE_PER_SEC delta_seconds in
  f64_min (f64_add score decay_increment) f64_zero.

Definition DefaultP2PValidator : Validator := {|
  validate_msg := default_validate_msg;
  get_penalty := default_get_penalty;
  apply_decay := default_apply_decay
|}.

(** ** [PenaltyPeerStorage] *)

Record PenaltyInfo : Type := {
  mute_gossip_until : option Z;
  mute_req_resp_until : option Z;
  ban_until : option Z
}.

Definition PenaltyInfo_new (mg mr b : option Z) : PenaltyInfo :=
  {| mute_gossip_until := mg; mute_req_resp_until := mr; ban_until := b |}.

Section Storage.
Context {P : Platform}.

Record PenaltyPeerStorage : Type := { penalties : gmap PeerId PenaltyInfo }.

Definition PenaltyPeerStorage_new : PenaltyPeerStorage := {| penalties := ∅ |}.

(** [is_some_and(|timestamp| timestamp > SystemTime::now())] *)
Definition active_at (now : Z) (o : option Z) : bool :=
  match o with Some timestamp => now <? timestamp | None => false end.

Definition is_gossip_muted (now : Z) (self : PenaltyPeerStorage) (peer_id : PeerId) : bool :=
  active_at now (penalties self !! peer_id ≫= mute_gossip_until).

Definition is_req_resp_muted (now : Z) (self : PenaltyPeerStorage) (peer_id : PeerId) : bool :=
  active_at now (penalties self !! peer_id ≫= mute_req_resp_until).

Definition is_banned (now : Z) (self : PenaltyPeerStorage) (peer_id : PeerId) : bool :=
  active_at now (penalties self !! peer_id ≫= ban_until).

(** [entry(peer_id).or_insert_with(|| PenaltyInfo::new(None, None, None))] *)
Definition entry_or_new (self : PenaltyPeerStorage) (peer_id : PeerId) : PenaltyInfo :=
  match penalties self !! peer_id with
  | Some penalty => penalty
  | None => PenaltyInfo_new None None None
  end.

Definition mute_peer_gossip (now : Z) (peer_id : PeerId) (until : Z)
    (self : PenaltyPeerStorage) : PenaltyPeerStorage * result unit string :=
  let penalty := entry_or_new self peer_id in
  let set u := {| penalties := <[peer_id :=
        PenaltyInfo_new (Some u) (mute_req_resp_until penalty) (ban_until penalty)]>
      (penalties self) |} in
  match mute_gossip_until penalty with
  | Some mute_until =>
      if now <? mute_until then (set (Z.max mute_until until), Ok tt)
      else (set until, Ok tt)
  | None => (set until, Ok tt)
  end.

Definition mute_peer_req_resp (now : Z) (peer_id : PeerId) (until : Z)
    (self : PenaltyPeerStorage) : PenaltyPeerStorage * result unit string :=
  let penalty := entry_or_new self peer_id in
  let set u := {| penalties := <[peer_id :=
        PenaltyInfo_new (mute_gossip_until penalty) (Some u) (ban_until penalty)]>
      (penalties self) |} in
  match mute_req_resp_until penalty with
  | Some mute_until =>
      if now <? mute_until then (set (Z.max mute_until until), Ok tt)
      else (set until, Ok tt)
  | None => (set until, Ok tt)
  end.

Definition ban_peer (now : Z) (peer_id : PeerId) (until : Z)
    (self : PenaltyPeerStorage) : PenaltyPeerStorage * result unit string :=
  let penalty := entry_or_new self peer_id in
  let set u := {| penalties := <[peer_id :=
        PenaltyInfo_new (mute_gossip_until penalty) (mute_req_resp_until penalty) (Some u)]>
      (penalties self) |} in
  match ban_until penalty with
  | Some ban_until =>
      if now <? ban_until then (set (Z.max ban_until until), Ok tt)
      else (set until, Ok tt)
  | None => (set until, Ok tt)
  end.

Definition unban_peer (peer_id : PeerId) (self : PenaltyPeerStorage) : PenaltyPeerStorage :=
  match penalties self !! peer_id with
  | Some penalty =>
      {| penalties := <[peer_id := PenaltyInfo_new (mute_gossip_until penalty)
            (mute_req_resp_until penalty) None]> (penalties self) |}
  | None => self
  end.

Definition unmute_peer_gossip (peer_id : PeerId) (self : PenaltyPeerStorage)
    : PenaltyPeerStorage :=
  match penalties self !! peer_id with
  | Some penalty =>
      {| penalties := <[peer_id := PenaltyInfo_new None
            (mute_req_resp_until penalty) (ban_until penalty)]> (penalties self) |}
  | None => self
  end.

Definition unmute_peer_req_resp (peer_id : PeerId) (self : PenaltyPeerStorage)
    : PenaltyPeerStorage :=
  match penalties self !! peer_id with
  | Some penalty =>
      {| penalties := <[peer_id := PenaltyInfo_new (mute_gossip_until penalty)
            None (ban_until penalty)]> (penalties self) |}
  | None => self
  end.

(** Reads the clock once per field it looks at, up to three times. *)
Definition has_active_penalties (now1 now2 now3 : Z) (self : PenaltyPeerStorage)
    (peer_id : PeerId) : bool :=
  match penalties self !! peer_id with
  | Some penalty =>
      if active_at now1 (ban_until penalty) then true
      else if active_at now2 (mute_gossip_until penalty) then true
      else if active_at now3 (mute_req_resp_until penalty) then true
      else false
  | None => false
  end.

Definition penalties_remove_peer (peer_id : PeerId) (self : PenaltyPeerStorage)
    : PenaltyPeerStorage :=
  {| penalties := delete peer_id (penalties self) |}.

(** ** Abstract specification: an end time per peer and kind of penalty *)

Inductive PenaltyKind : Type := GossipMute | ReqRespMute | PeerBan.

#[export] Instance PenaltyKind_eq_dec : EqDecision PenaltyKind.
Proof. solve_decision. Defined.

Definition AbstractPenalties : Type := PeerId → PenaltyKind → option Z.

Definition kind_until (k : PenaltyKind) : PenaltyInfo → option Z :=
  match k with
  | GossipMute => mute_gossip_until | ReqRespMute => mute_req_resp_until | PeerBan => ban_until
  end.

(** The abstraction function. *)
Definition penalty_until (st : PenaltyPeerStorage) : AbstractPenalties :=
  λ p k, penalties st !! p ≫= kind_until k.

Definition set_until (a : AbstractPenalties) (p : PeerId) (k : PenaltyKind) (v : option Z)
    : AbstractPenalties :=
  λ p' k', if decide (p' = p ∧ k' = k) then v else a p' k'.

(** A new penalty never ends before one that is still running. *)
Definition extend_until (now : Z) (old : option Z) (until : Z) : Z :=
  match old with
  | Some u => if now <? u then Z.max u until else until
  | None => until
  end.

Definition spec_impose (k : PenaltyKind) (now : Z) (p : PeerId) (until : Z)
    (a : AbstractPenalties) : AbstractPenalties :=
  set_until a p k (Some (extend_until now (a p k) until)).

Definition spec_lift (k : PenaltyKind) (p : PeerId) (a : AbstractPenalties) : AbstractPenalties :=
  set_until a p k None.

Definition spec_forget (p : PeerId) (a : AbstractPenalties) : AbstractPenalties :=
  λ p' k', if decide (p' = p) then None else a p' k'.
End Storage.

Section StorageProperties.
Context {P : Platform}.
Implicit Types (st : PenaltyPeerStorage) (p : PeerId).

Lemma entry_or_new_until st p k :
  kind_until k (entry_or_new st p) = penalty_until st p k.
Proof. unfold entry_or_new, penalty_until. destruct (penalties st !! p); by destruct k. Qed.

(** Writing one field of [p]'s entry is [set_until]. *)
Lemma penalty_until_write st p k v info p' k' :
  kind_until k info = v →
  (∀ k2, k2 ≠ k → kind_until k2 info = penalty_until st p k2) →
  penalty_until {| penalties := <[p := info]> (penalties st) |} p' k'
    = set_until (penalty_until st) p k v p' k'.
Proof.
  intros Hk Hother. unfold set_until. destruct (decide (p' = p ∧ k' = k)) as [[-> ->]|Hne].
  - unfold penalty_until. simpl. by rewrite lookup_insert_eq.
  - destruct (decide (p' = p)) as [->|].
    + unfold penalty_until at 1. simpl. rewrite lookup_insert_eq. simpl. apply Hother. naive_solver.
    + unfold penalty_until. simpl. by rewrite lookup_insert_ne.
Qed.

Ltac impose_tac st p :=
  unfold mute_peer_gossip, mute_peer_req_resp, ban_peer, spec_impose, extend_until;
  rewrite <-(entry_or_new_until st p); simpl;
  repeat case_match; simplify_eq; simpl; apply penalty_until_write; try done;
  intros [] ?; try done; simpl; by rewrite <-(entry_or_new_until st p).

Lemma mute_peer_gossip_refines now p until st p' k :
  penalty_until (mute_peer_gossip now p until st).1 p' k
    = spec_impose GossipMute now p until (penalty_until st) p' k.
Proof. impose_tac st p. Qed.

Lemma mute_peer_req_resp_refines now p until st p' k :
  penalty_until (mute_peer_req_resp now p until st).1 p' k
    = spec_impose ReqRespMute now p until (penalty_until st) p' k.
Proof. impose_tac st p. Qed.

Lemma ban_peer_refines now p until st p' k :
  penalty_until (ban_peer now p until st).1 p' k
    = spec_impose PeerBan now p until (penalty_until st) p' k.
Proof. impose_tac st p. Qed.

Lemma active_at_mono t t' o : t ≤ t' → active_at t' o = true → active_at t o = true.
Proof. destruct o; simpl; [|done]. rewrite !Z.ltb_lt. lia. Qed.

Lemma ban_peer_ok now p until st : (ban_peer now p until st).2 = Ok tt.
Proof. unfold ban_peer. by repeat case_match. Qed.

Ltac lift_tac :=
  unfold unban_peer, unmute_peer_gossip, unmute_peer_req_resp, spec_lift;
  match goal with |- context [penalties ?st !! ?p] =>
    destruct (penalties st !! p) as [info|] eqn:Hp;
    [ apply penalty_until_write; [done|]; intros [] ?; try done;
      unfold penalty_until; by rewrite Hp
    | unfold set_until; destruct (decide _) as [[-> ->]|]; [|done];
      unfold penalty_until; by rewrite Hp ]
  end.

Lemma unban_peer_refines p st p' k :
  penalty_until (unban_peer p st) p' k = spec_lift PeerBan p (penalty_until st) p' k.
Proof. lift_tac. Qed.
Lemma unmute_peer_gossip_refines p st p' k :
  penalty_until (unmute_peer_gossip p st) p' k = spec_lift GossipMute p (penalty_until st) p' k.
Proof. lift_tac. Qed.
Lemma unmute_peer_req_resp_refines p st p' k :
  penalty_until (unmute_peer_req_resp p st) p' k
    = spec_lift ReqRespMute p (penalty_until st) p' k.
Proof. lift_tac. Qed.

Lemma penalties_remove_peer_refines p st p' k :
  penalty_until (penalties_remove_peer p st) p' k = spec_forget p (penalty_until st) p' k.
Proof.
  unfold penalty_until, spec_forget, penalties_remove_peer. simpl.
  rewrite lookup_delete. case_decide as H1; case_decide as H2; by subst.
Qed.

Lemma has_active_penalties_spec now st p :
  has_active_penalties now now now st p = true ↔
  ∃ k, active_at now (penalty_until st p k) = true.
Proof.
  unfold has_active_penalties, penalty_until. destruct (penalties st !! p) as [i|]; simpl.
  - destruct (active_at now (ban_until i)) eqn:Hb, (active_at now (mute_gossip_until i)) eqn:Hg,
      (active_at now (mute_req_resp_until i)) eqn:Hr; split; try done;
      first [intros _; by (exists PeerBan)|intros _; by (exists GossipMute)
            |intros _; by (exists ReqRespMute)|intros [[] Hk]; simpl in Hk; congruence].
  - split; [done|]. intros [[] ?]; done.
Qed.

(** C26. The penalty store implements its specification, an end time per peer and
    kind of penalty: muting and banning extend a running penalty and never cut
    it, lifting clears exactly one peer's kind, removal forgets exactly one
    peer, and the queries read exactly that table.  Every imposing operation
    reports success. *)
Theorem penalty_storage_refines :
  (∀ p k, penalty_until PenaltyPeerStorage_new p k = None) ∧
  (∀ now st p until p' k,
     penalty_until (mute_peer_gossip now p until st).1 p' k
       = spec_impose GossipMute now p until (penalty_until st) p' k ∧
     penalty_until (mute_peer_req_resp now p until st).1 p' k
       = spec_impose ReqRespMute now p until (penalty_until st) p' k ∧
     penalty_until (ban_peer now p until st).1 p' k
       = spec_impose PeerBan now p until (penalty_until st) p' k) ∧
  (∀ st p p' k,
     penalty_until (unmute_peer_gossip p st) p' k = spec_lift GossipMute p (penalty_until st) p' k ∧
     penalty_until (unmute_peer_req_resp p st) p' k
       = spec_lift ReqRespMute p (penalty_until st) p' k ∧
     penalty_until (unban_peer p st) p' k = spec_lift PeerBan p (penalty_until st) p' k ∧
     penalty_until (penalties_remove_peer p st) p' k = spec_forget p (penalty_until st) p' k) ∧
  (∀ now st p,
     is_gossip_muted now st p = active_at now (penalty_until st p GossipMute) ∧
     is_req_resp_muted now st p = active_at now (penalty_until st p ReqRespMute) ∧
     is_banned now st p = active_at now (penalty_until st p PeerBan) ∧
     (has_active_penalties now now now st p = true ↔
        ∃ k, active_at now (penalty_until st p k) = true)) ∧
  (∀ now st p until,
     (mute_peer_gossip now p until st).2 = Ok tt ∧
     (mute_peer_req_resp now p until st).2 = Ok tt ∧ (ban_peer now p until st).2 = Ok tt).
Proof.
  split_and!.
  - intros p k. unfold penalty_until. simpl. by rewrite lookup_empty.
  - auto using mute_peer_gossip_refines, mute_peer_req_resp_refines, ban_peer_refines.
  - auto using unmute_peer_gossip_refines, unmute_peer_req_resp_refines,
      unban_peer_refines, penalties_remove_peer_refines.
  - intros. repeat split; by apply has_active_penalties_spec.
  - intros now st p until. unfold mute_peer_gossip, mute_peer_req_resp, ban_peer.
    split_and!; by repeat case_match.
Qed.

(** An imposed penalty holds up to its end, and keeps running ones running. *)
Lemma spec_impose_active k now p until (a : AbstractPenalties) p' k' t :
  now ≤ t → active_at t (a p' k') = true →
  active_at t (spec_impose k now p until a p' k') = true.
Proof.
  intros Ht. unfold spec_impose, set_until. destruct (decide _) as [[-> ->]|]; [|done]. unfold extend_until.
  destruct (a p k) as [u|]; simpl; [|done]. rewrite Z.ltb_lt. intros Hu.
  rewrite (proj2 (Z.ltb_lt now u)) by lia. rewrite Z.ltb_lt. lia.
Qed.
End StorageProperties.

(** ** The default validator *)

(** The score of a fresh peer after [n] messages with no time for decay. *)
Fixpoint score_after (msg : MessageType) (n : nat) : f64 :=
  match n with
  | O => DEFAULT_GOSSIP_APP_SCORE
  | S n => validate_msg DefaultP2PValidator msg (score_after msg n)
  end.

(** The scores of a peer whose score on [msg]'s protocol is [s]. *)
Definition scores_on (msg : MessageType) (s other internal : f64) : PeerScore :=
  {| app_score := match msg with
                  | MGossipsub _ => {| aps_gossipsub_app_score := s; aps_req_resp_app_score := other |}
                  | _ => {| aps_gossipsub_app_score := other; aps_req_resp_app_score := s |}
                  end;
     gossipsub_internal_score := internal |}.

Definition mute_of (msg : MessageType) : PenaltyType :=
  match msg with
  | MGossipsub _ => MuteGossip DEFAULT_MUTE_DURATION
  | _ => MuteReqresp DEFAULT_MUTE_DURATION
  end.

Lemma default_get_penalty_on msg s other internal :
  get_penalty DefaultP2PValidator msg (scores_on msg s other internal)
    = if f64_ltb s DEFAULT_MUTE_THRESHOLD then Some (mute_of msg) else None.
Proof. by destruct msg. Qed.

Lemma score_after_data msg n : score_after msg n = score_after (MRequest []) n.
Proof. induction n as [|n IH]; [done|]. simpl. by rewrite IH. Qed.

(** Checked by computation for every count up to 1000, in one pass. *)
Fixpoint threshold_pass (fuel k : nat) (s : f64) : bool :=
  eqb (f64_ltb s DEFAULT_MUTE_THRESHOLD) (100 <? k)%nat &&
  match fuel with
  | O => true
  | S fuel => threshold_pass fuel (S k) (default_validate_msg (MRequest []) s)
  end.

Lemma threshold_pass_sound fuel k i :
  threshold_pass fuel k (score_after (MRequest []) k) = true → (i ≤ fuel)%nat →
  f64_ltb (score_after (MRequest []) (k + i)) DEFAULT_MUTE_THRESHOLD = (100 <? k + i)%nat.
Proof.
  revert k i. induction fuel as [|fuel IH]; intros k i H Hi; cbn [threshold_pass] in H;
    apply andb_prop in H as [Hk H].
  - replace i with O by lia. rewrite Nat.add_0_r. by apply eqb_prop.
  - destruct i as [|i]; [rewrite Nat.add_0_r; by apply eqb_prop|].
    replace (k + S i)%nat with (S k + i)%nat by lia. apply IH; [exact H|lia].
Qed.

Lemma below_threshold_at n :
  (n ≤ 1000)%nat →
  f64_ltb (score_after (MRequest []) n) DEFAULT_MUTE_THRESHOLD = (100 <? n)%nat.
Proof. apply (threshold_pass_sound 1000 0 n). vm_compute. reflexivity. Qed.

(** C35. Rate limit of the default validator: a peer that sends messages of one
    protocol with no pause is not penalised for the first 100 of them and is
    muted on that protocol, and on that one only, for 60 s from the 101st on
    (checked for the first 1000); when the mute ends, its decayed score is above the
    threshold again, so its next message is not penalised. *)
Theorem default_validator_rate_limit :
  (∀ msg n other internal, (n ≤ 1000)%nat →
     get_penalty DefaultP2PValidator msg (scores_on msg (score_after msg n) other internal)
       = if (100 <? n)%nat then Some (mute_of msg) else None) ∧
  (∀ msg other internal,
     get_penalty DefaultP2PValidator msg
       (scores_on msg
          (validate_msg DefaultP2PValidator msg
             (apply_decay DefaultP2PValidator (score_after msg 101) DEFAULT_MUTE_DURATION))
          other internal) = None).
Proof.
  split.
  - intros msg n other internal Hn.
    rewrite default_get_penalty_on, score_after_data, (below_threshold_at _ Hn). done.
  - intros msg other internal. rewrite default_get_penalty_on, score_after_data. reflexivity.
Qed.

Lemma default_validator_rate_limit_witness :
  get_penalty DefaultP2PValidator (MGossipsub [])
    (scores_on (MGossipsub []) (score_after (MGossipsub []) 101) f64_zero f64_zero)
  = Some (MuteGossip (from_secs 60)).
Proof. apply (proj1 default_validator_rate_limit (MGossipsub []) 101%nat). lia. Defined.

(** Decay never produces a NaN and never lifts a score above 0, whatever the
    score (infinities and NaN included) and however long the pause. *)
Theorem default_decay_bounded (score : f64) (d : Z) :
  f64_is_nan (apply_decay DefaultP2PValidator score d) = false ∧
  f64_leb (apply_decay DefaultP2PValidator score d) f64_zero = true.
Proof. apply f64_min_bound. reflexivity. Qed.
