(* ===== verification/Errors.v ===== *)
(** * Errors ([swarm/errors.rs])

    The error enums; boxed errors and [io::Error]s keep only their text. *)

From S2P Require Import Prelude Platform.

Inductive SetupError : Type :=
  | SignatureVerificationFailed
  | AppPublicKeyInvalid (e : string)
  | OutboundError (e : string)
  | InboundError (e : string)
  | TransportIdMismatch
  | StaleMessage
  | FutureMessage.

Inductive ProtocolError : Type :=
  | Listen (e : string)
  | GossipEventsChannelClosed (e : string)
  | ReqRespEventChannelClosed (e : string)
  | TransportInitialization (e : string)
  | BehaviourInitialization (e : string)
  | ResponseError (e : string).

Inductive SwarmError : Type :=
  | Protocol (e : ProtocolError).

Inductive SetupUpgradeError : Type :=
  | SignedMessageCreation (e : string)
  | CodecIo (e : string)
  | UnexpectedStreamClose.
