(* ===== verification/Setup.v ===== *)
(** * The setup handshake of BYOS builds ([swarm/setup/])

    [upgrade.rs]: what each side sends and expects on the substream;
    [handler.rs]: the per-connection state machine that checks the received
    message; [behavior.rs]: the node-wide table of application keys. *)

From S2P Require Import Prelude Time Platform Message Codec Errors.
Open Scope Z_scope.

(** [Vec::pop]: takes the last element. *)
Definition vec_pop {A} (l : list A) : option (A * list A) :=
  match last l with
  | Some x => Some (x, removelast l)
  | None => None
  end.

Lemma vec_pop_snoc {A} (l : list A) x : vec_pop (l ++ [x]) = Some (x, l).
Proof. unfold vec_pop. by rewrite last_snoc, removelast_last. Qed.

Section Setup.
Context {P : Platform}.

(** ** Events (events.rs) *)

Inductive SetupHandlerEvent : Type :=
  | HAppKeyReceived (app_public_key : PublicKey)
  | HNegotiationFailed
  | HErrorDuringSetupHandshake (e : SetupError).

Inductive SetupBehaviourEvent : Type :=
  | AppKeyReceived (transport_id : PeerId) (app_public_key : PublicKey) (conn_id : ConnectionId)
  | NegotiationFailed (transport_id : PeerId) (conn_id : ConnectionId)
  | ErrorDuringSetupHandshake (transport_id : PeerId) (conn_id : ConnectionId) (error : SetupError).

(** ** Upgrades (upgrade.rs) *)

Definition SETUP_PROTOCOL_NAME : string := "/handshake/1.0.0".

Record OutboundSetupUpgrade : Type := {
  up_app_public_key : PublicKey;
  up_local_transport_id : PeerId;
  up_remote_transport_id : PeerId;
  up_signer : ApplicationSigner
}.

Definition inbound_protocol_info : list string := [SETUP_PROTOCOL_NAME].
Definition outbound_protocol_info : list string := ["/handshake/1.0.0"%string].

Definition codec_error_text (e : Frame.CodecError) : string :=
  match e with
  | Frame.SerializeError => "Serialize error"
  | Frame.FrameTooLarge _ => "Frame size exceeds maximum allowed size"
  | Frame.ReaderError => "Reader error"
  | Frame.DeserializeError => "Deserialize error"
  end.

(** [upgrade_inbound], after [StreamExt::next(&mut framed)] answered [next]. *)
Definition upgrade_inbound (next : option (result SignedSetupMessage string))
    : result SignedSetupMessage SetupUpgradeError :=
  match next with
  | Some (Ok signed_message) => Ok signed_message
  | Some (Err e) => Err (CodecIo e)
  | None => Err UnexpectedStreamClose
  end.

(** [upgrade_outbound]: the bytes put on the stream, or the error; [None] is
    the panic of [get_timestamp].  [flush] and [close] are how the stream
    answers [send] and [close]. *)
Definition upgrade_outbound (now : Z) (self : OutboundSetupUpgrade)
    (flush close : result unit string) : option (result bytes SetupUpgradeError) :=
  setup_message ← SetupMessage_new now (up_app_public_key self)
                    (up_local_transport_id self) (up_remote_transport_id self);
  Some match SignedMessage_new setup_message (up_signer self) with
  | Err e => Err (SignedMessageCreation e)
  | Ok signed_setup_message =>
      match Frame.encode signed_setup_message [] with
      | (_, Err e) => Err (CodecIo (codec_error_text e))
      | (dst, Ok _) =>
          match flush with
          | Err e => Err (CodecIo e)
          | Ok _ => match close with
                    | Err e => Err (CodecIo e)
                    | Ok _ => Ok dst
                    end
          end
      end
  end.

(** ** Connection handler (handler.rs) *)

(** [ConnectionHandlerEvent] *)
Inductive HandlerOut : Type :=
  | OutboundSubstreamRequest (protocol : OutboundSetupUpgrade)
  | NotifyBehaviour (e : SetupHandlerEvent).

(** libp2p's [StreamUpgradeError], as far as the handler tells cases apart. *)
Inductive StreamUpgradeError : Type :=
  | SUENegotiationFailed
  | SUEOther (e : string).

Inductive ConnectionEvent : Type :=
  | FullyNegotiatedInbound (protocol : SignedSetupMessage)
  | DialUpgradeError (error : StreamUpgradeError)
  | ListenUpgradeError (error : string)
  | OtherConnectionEvent.

Record SetupHandler : Type := {
  outbound_substream : option OutboundSetupUpgrade;
  pending_events : list HandlerOut;
  local_transport_id : PeerId;
  remote_transport_id : PeerId;
  h_envelope_max_age : Z;
  h_max_clock_skew : Z;
  keep_alive : bool
}.

Definition SetupHandler_new (app_public_key : PublicKey) (local_transport_id remote_transport_id : PeerId)
    (signer : ApplicationSigner) (envelope_max_age max_clock_skew : Z) : SetupHandler :=
  let upgrade := {| up_app_public_key := app_public_key;
                    up_local_transport_id := local_transport_id;
                    up_remote_transport_id := remote_transport_id;
                    up_signer := signer |} in
  {| outbound_substream := Some upgrade;
     pending_events := [];
     local_transport_id := local_transport_id;
     remote_transport_id := remote_transport_id;
     h_envelope_max_age := envelope_max_age;
     h_max_clock_skew := max_clock_skew;
     keep_alive := true |}.

Definition connection_keep_alive (self : SetupHandler) : bool := keep_alive self.

Definition with_pending (self : SetupHandler) (l : list HandlerOut) : SetupHandler :=
  {| outbound_substream := outbound_substream self; pending_events := l;
     local_transport_id := local_transport_id self;
     remote_transport_id := remote_transport_id self;
     h_envelope_max_age := h_envelope_max_age self;
     h_max_clock_skew := h_max_clock_skew self; keep_alive := keep_alive self |}.

(** [self.pending_events.push(NotifyBehaviour(e))] *)
Definition push_event (e : SetupHandlerEvent) (self : SetupHandler) : SetupHandler :=
  with_pending self (pending_events self ++ [NotifyBehaviour e]).

Definition not_keep_alive (self : SetupHandler) : SetupHandler :=
  {| outbound_substream := outbound_substream self; pending_events := pending_events self;
     local_transport_id := local_transport_id self;
     remote_transport_id := remote_transport_id self;
     h_envelope_max_age := h_envelope_max_age self;
     h_max_clock_skew := h_max_clock_skew self; keep_alive := false |}.

(** [ConnectionHandler::poll]; [None] is [Poll::Pending]. *)
Definition handler_poll (self : SetupHandler) : SetupHandler * option HandlerOut :=
  match vec_pop (pending_events self) with
  | Some (event, rest) => (with_pending self rest, Some event)
  | None =>
      match outbound_substream self with
      | Some substream =>
          ({| outbound_substream := None; pending_events := pending_events self;
              local_transport_id := local_transport_id self;
              remote_transport_id := remote_transport_id self;
              h_envelope_max_age := h_envelope_max_age self;
              h_max_clock_skew := h_max_clock_skew self; keep_alive := keep_alive self |},
           Some (OutboundSubstreamRequest substream))
      | None => (self, None)
      end
  end.

(** The body of [FullyNegotiatedInbound]: the event the message earns. *)
Definition on_fully_negotiated_inbound (now : Z) (self : SetupHandler)
    (signed_setup_msg : SignedSetupMessage) : SetupHandler :=
  let self := not_keep_alive self in
  let signature_valid := verify_or_false signed_setup_msg in
  if negb signature_valid then
    push_event (HErrorDuringSetupHandshake SignatureVerificationFailed) self
  else
    let setup_message := message signed_setup_msg in
    if negb (bool_decide (st_remote_transport_id setup_message = local_transport_id self))
       || negb (bool_decide (st_local_transport_id setup_message = remote_transport_id self))
    then push_event (HErrorDuringSetupHandshake TransportIdMismatch) self
    else
      let now_secs := now_secs_or_default now in
      let age := from_secs (saturating_sub now_secs (st_date setup_message)) in
      if h_envelope_max_age self <? age then
        push_event (HErrorDuringSetupHandshake StaleMessage) self
      else if (now_secs <? st_date setup_message)
              && (h_max_clock_skew self <? from_secs (st_date setup_message - now_secs)) then
        push_event (HErrorDuringSetupHandshake FutureMessage) self
      else
        push_event (HAppKeyReceived (st_app_public_key setup_message)) self.

Definition on_connection_event (now : Z) (event : ConnectionEvent) (self : SetupHandler)
    : SetupHandler :=
  match event with
  | FullyNegotiatedInbound inbound => on_fully_negotiated_inbound now self inbound
  | DialUpgradeError e =>
      let self := not_keep_alive self in
      let event := match e with
                   | SUENegotiationFailed => HNegotiationFailed
                   | SUEOther error => HErrorDuringSetupHandshake (OutboundError error)
                   end in
      push_event event self
  | ListenUpgradeError e =>
      push_event (HErrorDuringSetupHandshake (InboundError e)) self
  | OtherConnectionEvent => self
  end.

(** ** Behaviour (behavior.rs) *)

Record SetupBehaviour : Type := {
  sb_app_public_key : PublicKey;
  sb_local_transport_id : PeerId;
  sb_signer : ApplicationSigner;
  transport_ids : gmap PeerId PublicKey;
  app_public_keys : gmap PublicKey PeerId;
  events : list SetupBehaviourEvent;
  sb_envelope_max_age : Z;
  sb_max_clock_skew : Z
}.

Definition SetupBehaviour_new (app_public_key : PublicKey) (transport_id : PeerId)
    (signer : ApplicationSigner) (envelope_max_age max_clock_skew : Z) : SetupBehaviour :=
  {| sb_app_public_key := app_public_key; sb_local_transport_id := transport_id;
     sb_signer := signer; transport_ids := ∅; app_public_keys := ∅; events := [];
     sb_envelope_max_age := envelope_max_age; sb_max_clock_skew := max_clock_skew |}.

Definition get_app_public_key_by_transport_id (self : SetupBehaviour) (peer_id : PeerId)
    : option PublicKey := transport_ids self !! peer_id.

Definition get_transport_id_by_application_key (self : SetupBehaviour) (app_pk : PublicKey)
    : option PeerId := app_public_keys self !! app_pk.

Definition tracked_peer_count (self : SetupBehaviour) : nat := size (transport_ids self).

(** Both [handle_established_*_connection]s build the same handler. *)
Definition handle_established_inbound_connection (self : SetupBehaviour)
    (remote_transport_id : PeerId) : SetupHandler :=
  SetupHandler_new (sb_app_public_key self) (sb_local_transport_id self) remote_transport_id
    (sb_signer self) (sb_envelope_max_age self) (sb_max_clock_skew self).
Definition handle_established_outbound_connection (self : SetupBehaviour)
    (remote_transport_id : PeerId) : SetupHandler :=
  SetupHandler_new (sb_app_public_key self) (sb_local_transport_id self) remote_transport_id
    (sb_signer self) (sb_envelope_max_age self) (sb_max_clock_skew self).

Definition with_tables (self : SetupBehaviour) (t : gmap PeerId PublicKey)
    (a : gmap PublicKey PeerId) : SetupBehaviour :=
  {| sb_app_public_key := sb_app_public_key self;
     sb_local_transport_id := sb_local_transport_id self; sb_signer := sb_signer self;
     transport_ids := t; app_public_keys := a; events := events self;
     sb_envelope_max_age := sb_envelope_max_age self;
     sb_max_clock_skew := sb_max_clock_skew self |}.

Definition with_events (self : SetupBehaviour) (l : list SetupBehaviourEvent)
    : SetupBehaviour :=
  {| sb_app_public_key := sb_app_public_key self;
     sb_local_transport_id := sb_local_transport_id self; sb_signer := sb_signer self;
     transport_ids := transport_ids self; app_public_keys := app_public_keys self;
     events := l; sb_envelope_max_age := sb_envelope_max_age self;
     sb_max_clock_skew := sb_max_clock_skew self |}.

(** libp2p's [FromSwarm], as far as the behaviour tells cases apart. *)
Inductive FromSwarm : Type :=
  | ConnectionClosed (peer_id : PeerId) (remaining_established : nat)
  | OtherFromSwarm.

Definition on_swarm_event (event : FromSwarm) (self : SetupBehaviour) : SetupBehaviour :=
  match event with
  | ConnectionClosed peer_id remaining_established =>
      if (remaining_established =? 0)%nat then
        match transport_ids self !! peer_id with
        | Some app_public_key =>
            with_tables self (delete peer_id (transport_ids self))
              (delete app_public_key (app_public_keys self))
        | None => self
        end
      else self
  | OtherFromSwarm => self
  end.

Definition on_connection_handler_event (peer_id : PeerId) (conn_id : ConnectionId)
    (event : SetupHandlerEvent) (self : SetupBehaviour) : SetupBehaviour :=
  match event with
  | HAppKeyReceived app_public_key =>
      let self := with_tables self (<[peer_id := app_public_key]> (transport_ids self))
                    (<[app_public_key := peer_id]> (app_public_keys self)) in
      with_events self (events self ++ [AppKeyReceived peer_id app_public_key conn_id])
  | HNegotiationFailed =>
      with_events self (events self ++ [NegotiationFailed peer_id conn_id])
  | HErrorDuringSetupHandshake error =>
      with_events self (events self ++ [ErrorDuringSetupHandshake peer_id conn_id error])
  end.

(** [NetworkBehaviour::poll]; [None] is [Poll::Pending]. *)
Definition behaviour_poll (self : SetupBehaviour)
    : SetupBehaviour * option SetupBehaviourEvent :=
  match vec_pop (events self) with
  | Some (event, rest) => (with_events self rest, Some event)
  | None => (self, None)
  end.
End Setup.

(** ** The checks on a received setup message *)

Section HandlerProperties.
Context {P : Platform}.

(** The message names this connection's two ends. *)
Definition names_connection (self : SetupHandler) (m : SetupMessage) : Prop :=
  st_remote_transport_id m = local_transport_id self ∧
  st_local_transport_id m = remote_transport_id self.

#[export] Instance names_connection_dec self m : Decision (names_connection self m) := _.

(** What a message earns, by the first check it fails. *)
Definition setup_event (now : Z) (self : SetupHandler) (sm : SignedSetupMessage)
    : SetupHandlerEvent :=
  if decide (verify_or_false sm = false) then
    HErrorDuringSetupHandshake SignatureVerificationFailed
  else if decide (¬ names_connection self (message sm)) then
    HErrorDuringSetupHandshake TransportIdMismatch
  else if decide (st_date (message sm) < now_secs_or_default now - as_secs (h_envelope_max_age self))
  then HErrorDuringSetupHandshake StaleMessage
  else if decide (now_secs_or_default now + as_secs (h_max_clock_skew self) < st_date (message sm))
  then HErrorDuringSetupHandshake FutureMessage
  else HAppKeyReceived (st_app_public_key (message sm)).

Lemma inbound_pushes now self sm :
  0 ≤ h_envelope_max_age self → 0 ≤ h_max_clock_skew self →
  on_connection_event now (FullyNegotiatedInbound sm) self
    = push_event (setup_event now self sm) (not_keep_alive self).
Proof.
  intros Ha Hs. simpl. unfold on_fully_negotiated_inbound, setup_event.
  destruct (verify_or_false sm); simpl; [|done].
  unfold names_connection.
  rewrite stale_test, future_test by done.
  case_bool_decide as H1; simpl; [case_bool_decide as H2; simpl|].
  - rewrite decide_False by naive_solver.
    destruct (Z.ltb_spec (st_date (message sm))
                (now_secs_or_default now - as_secs (h_envelope_max_age self))) as [Hd|Hd];
      [by rewrite decide_True by lia|rewrite decide_False by lia].
    destruct (Z.ltb_spec (now_secs_or_default now + as_secs (h_max_clock_skew self))
                (st_date (message sm))) as [Hd'|Hd'];
      [by rewrite decide_True by lia|by rewrite decide_False by lia].
  - by rewrite decide_True by naive_solver.
  - by rewrite decide_True by naive_solver.
Qed.

Lemma setup_event_accepts now self sm k :
  setup_event now self sm = HAppKeyReceived k ↔
  verify sm = Ok true ∧ names_connection self (message sm) ∧
  Fresh (now_secs_or_default now) (h_envelope_max_age self) (h_max_clock_skew self)
    (st_date (message sm)) ∧
  k = st_app_public_key (message sm).
Proof.
  unfold setup_event, Fresh, verify_or_false.
  destruct (verify sm) as [[]|]; simpl; repeat case_decide;
    (split; [intros Hk|intros (Hv & Hn & Hf & ->)]); try done; try tauto; try lia.
  simplify_eq. split_and!; try done; lia.
Qed.

(** C7. Setup handshake, receiving side: an inbound setup message always yields
    exactly one event and releases the connection's keep-alive; the event
    accepts key [k] if and only if the message carries [k], its signature
    verifies under [k], it names this connection's two ends, and its date is in
    the window of [envelope_max_age] and [max_clock_skew]; otherwise it is the
    error of the first check that fails, and nothing else of the handler
    changes. *)
Theorem inbound_setup_message now self sm k :
  0 ≤ h_envelope_max_age self → 0 ≤ h_max_clock_skew self →
  let self' := on_connection_event now (FullyNegotiatedInbound sm) self in
  self' = push_event (setup_event now self sm) (not_keep_alive self) ∧
  (NotifyBehaviour (HAppKeyReceived k) ∈ pending_events self' ↔
     NotifyBehaviour (HAppKeyReceived k) ∈ pending_events self ∨
     (verify sm = Ok true ∧ names_connection self (message sm) ∧
      Fresh (now_secs_or_default now) (h_envelope_max_age self) (h_max_clock_skew self)
        (st_date (message sm)) ∧
      k = st_app_public_key (message sm))).
Proof.
  intros Ha Hs self'. pose proof (inbound_pushes now self sm Ha Hs) as Hp.
  split; [exact Hp|]. subst self'. rewrite Hp. simpl.
  rewrite elem_of_app, list_elem_of_singleton, <-setup_event_accepts.
  split; (intros [?|?]; [by left|right; congruence]).
Qed.

(** C8. Setup handshake, end to end: what [upgrade_outbound] writes for a node
    with key [k] whose signer signs for [k], cut into any chunks by the stream
    and read by the framed decoder, makes the peer's handler accept exactly
    [k] and its behaviour map the dialer's transport id to [k] and back,
    provided the frame fits [MAX_FRAME_SIZE], the handler's ends are the
    upgrade's ends swapped and the sender's clock is in the receiver's window. *)
Theorem setup_handshake_accepts `{!PlatformLaws P} now_a now_b up h sb c dst chunks rest :
  signs_for (up_signer up) (up_app_public_key up) →
  upgrade_outbound now_a up (Ok tt) (Ok tt) = Some (Ok dst) →
  Z.of_nat (length dst) ≤ Frame.MAX_FRAME_SIZE + 4 →
  0 ≤ now_a → is_u64 (as_secs now_a) →
  0 ≤ h_envelope_max_age h → 0 ≤ h_max_clock_skew h →
  local_transport_id h = up_remote_transport_id up →
  remote_transport_id h = up_local_transport_id up →
  Fresh (now_secs_or_default now_b) (h_envelope_max_age h) (h_max_clock_skew h) (as_secs now_a) →
  concat chunks = dst ++ rest →
  ∃ src chunks' (sm : SignedSetupMessage),
    Frame.feed [] chunks = (src, chunks', Ok (Some sm)) ∧ src ++ concat chunks' = rest ∧
    on_connection_event now_b (FullyNegotiatedInbound sm) h
      = push_event (HAppKeyReceived (up_app_public_key up)) (not_keep_alive h) ∧
    let sb' := on_connection_handler_event (up_local_transport_id up) c
                 (HAppKeyReceived (up_app_public_key up)) sb in
    get_app_public_key_by_transport_id sb' (up_local_transport_id up)
      = Some (up_app_public_key up) ∧
    get_transport_id_by_application_key sb' (up_app_public_key up)
      = Some (up_local_transport_id up).
Proof.
  intros Hsig Hup Hlen Hna Hu64 Ha Hs Hl Hr Hf Hch.
  unfold upgrade_outbound, SetupMessage_new, get_timestamp in Hup.
  rewrite duration_since_epoch in Hup by done. cbn [mbind option_bind] in Hup.
  set (m := {| st_version := _ |}) in Hup.
  destruct (SignedMessage_new m (up_signer up)) as [sm|] eqn:Hsm; [|done].
  apply signed_message_verifies in Hsm as [Hm Hv]; [|done].
  destruct (Frame.encode sm []) as [dst' [[]|]] eqn:Henc; [|done]. injection Hup as ->.
  destruct (to_vec sm) as [b|] eqn:Hb; [|by unfold Frame.encode in Henc; rewrite Hb in Henc].
  destruct (Frame.encode_frame_inv _ _ _ Hb Henc Hlen) as [Hbl ->].
  assert (roundtrips sm) as Hrt
    by (apply signed_roundtrip, setup_message_roundtrip; by rewrite Hm).
  destruct (Frame.feed_frame _ _ _ _ Hrt Hb Hbl Hch) as (src & chunks' & Hfeed & Hrest).
  exists src, chunks', sm. split; [done|]. split; [done|].
  split; [|cbv zeta; split; apply lookup_insert_eq].
  rewrite inbound_pushes by done. f_equal. apply setup_event_accepts. rewrite Hm.
  by split_and!.
Qed.
End HandlerProperties.

(** ** The tables of the behaviour *)

Section Tables.
Context {P : Platform}.

(** What the swarm feeds the behaviour. *)
Inductive SetupInput : Type :=
  | FromHandler (peer_id : PeerId) (conn_id : ConnectionId) (e : SetupHandlerEvent)
  | FromTheSwarm (e : FromSwarm).

Definition sb_step (i : SetupInput) (self : SetupBehaviour) : SetupBehaviour :=
  match i with
  | FromHandler peer_id conn_id e => on_connection_handler_event peer_id conn_id e self
  | FromTheSwarm e => on_swarm_event e self
  end.

Definition sb_run (l : list SetupInput) (self : SetupBehaviour) : SetupBehaviour :=
  foldl (λ s i, sb_step i s) self l.

(** Abstract specification: the key a peer last proved since its last
    connection was closed. *)
Definition last_key_step (p : PeerId) (i : SetupInput) (o : option PublicKey)
    : option PublicKey :=
  match i with
  | FromHandler q _ (HAppKeyReceived k) => if decide (q = p) then Some k else o
  | FromTheSwarm (ConnectionClosed q 0) => if decide (q = p) then None else o
  | _ => o
  end.

Definition last_key (p : PeerId) (l : list SetupInput) : option PublicKey :=
  foldl (λ o i, last_key_step p i o) None l.

(** A key is proved by at most one transport id at a time, and a transport id
    does not change its key while it is connected. *)
Definition respects_bijection (i : SetupInput) (self : SetupBehaviour) : Prop :=
  match i with
  | FromHandler p _ (HAppKeyReceived k) =>
      (∀ k', transport_ids self !! p = Some k' → k' = k) ∧
      (∀ p', app_public_keys self !! k = Some p' → p' = p)
  | _ => True
  end.

Inductive clean_run : list SetupInput → SetupBehaviour → Prop :=
  | clean_nil s : clean_run [] s
  | clean_cons i l s : respects_bijection i s → clean_run l (sb_step i s) → clean_run (i :: l) s.

(** The tables are inverse to each other. *)
Definition inverse_tables (self : SetupBehaviour) : Prop :=
  ∀ p k, get_app_public_key_by_transport_id self p = Some k ↔
         get_transport_id_by_application_key self k = Some p.

Lemma sb_step_transport i self p :
  transport_ids (sb_step i self) !! p = last_key_step p i (transport_ids self !! p).
Proof.
  destruct i as [q c [k| |e]|[q n|]]; simpl; try done.
  - case_decide; subst; [apply lookup_insert_eq|by apply lookup_insert_ne].
  - destruct n as [|n]; simpl; [|done].
    destruct (transport_ids self !! q) eqn:Hq; simpl; case_decide; subst;
      rewrite ?lookup_delete_eq, ?lookup_delete_ne by done; done.
Qed.

Lemma sb_run_transport l self p :
  transport_ids (sb_run l self) !! p
    = foldl (λ o i, last_key_step p i o) (transport_ids self !! p) l.
Proof.
  revert self. induction l as [|i l IH]; intros self; simpl; [done|].
  by rewrite IH, sb_step_transport.
Qed.

Lemma inverse_step i self :
  inverse_tables self → respects_bijection i self → inverse_tables (sb_step i self).
Proof.
  unfold inverse_tables, get_app_public_key_by_transport_id, get_transport_id_by_application_key.
  intros Hinv Hc p k. destruct i as [q c [k'| |e]|[q n|]]; simpl in *; auto.
  - destruct Hc as [Hp Hk]. rewrite !lookup_insert_Some.
    specialize (Hinv p k). naive_solver.
  - destruct (n =? 0)%nat; [|done]. destruct (transport_ids self !! q) as [k'|] eqn:Hq; [|done].
    simpl. rewrite !lookup_delete_Some, Hinv. pose proof (proj1 (Hinv q k') Hq).
    naive_solver.
Qed.

(** C25. The behaviour's tables: after any sequence of events the transport
    table holds for every peer the key it last proved since it was last fully
    disconnected; and as long as no two connected peers prove the same key and
    no connected peer changes its key, the two tables stay inverse to each
    other, so that looking up by key finds the peer and vice versa. *)
Theorem setup_tables_correct l key tid signer age skew :
  let init := SetupBehaviour_new key tid signer age skew in
  (∀ p, get_app_public_key_by_transport_id (sb_run l init) p = last_key p l) ∧
  (clean_run l init → inverse_tables (sb_run l init)).
Proof.
  intros init. split.
  - intros p. unfold get_app_public_key_by_transport_id. by rewrite sb_run_transport.
  - intros Hc.
    enough (∀ s, inverse_tables s → clean_run l s → inverse_tables (sb_run l s)) as Hgen
      by (apply Hgen; [done|exact Hc]).
    clear Hc. induction l as [|i l IH]; intros s Hs Hc; inversion Hc; subst; [done|].
    by apply IH; [apply inverse_step|].
Qed.

(** C39. Outside that discipline the key table is wrong: when two peers prove
    the same key, closing the first makes the key unfindable although the
    second is still connected under it; and when a connected peer proves a
    second key, the first still leads to it after it has disconnected. *)
Theorem setup_tables_limits (self : SetupBehaviour) p1 p2 c1 c2 k1 k2 :
  p1 ≠ p2 → k1 ≠ k2 →
  let shared := sb_run [FromHandler p1 c1 (HAppKeyReceived k1);
                        FromHandler p2 c2 (HAppKeyReceived k1);
                        FromTheSwarm (ConnectionClosed p1 0)] self in
  let changed := sb_run [FromHandler p1 c1 (HAppKeyReceived k1);
                         FromHandler p1 c2 (HAppKeyReceived k2);
                         FromTheSwarm (ConnectionClosed p1 0)] self in
  (get_app_public_key_by_transport_id shared p2 = Some k1 ∧
   get_transport_id_by_application_key shared k1 = None) ∧
  (get_app_public_key_by_transport_id changed p1 = None ∧
   get_transport_id_by_application_key changed k1 = Some p1).
Proof.
  intros Hp Hk. unfold get_app_public_key_by_transport_id, get_transport_id_by_application_key.
  simpl. rewrite (lookup_insert_ne _ p2 p1), !lookup_insert_eq by done. simpl.
  split; split; by simplify_map_eq.
Qed.

(** *** Delivery order *)

(** Polling until nothing is pending. *)
Fixpoint behaviour_drain (fuel : nat) (self : SetupBehaviour)
    : SetupBehaviour * list SetupBehaviourEvent :=
  match fuel with
  | O => (self, [])
  | S fuel =>
      match behaviour_poll self with
      | (self, Some e) =>
          let '(self, l) := behaviour_drain fuel self in (self, e :: l)
      | (self, None) => (self, [])
      end
  end.

Fixpoint handler_drain (fuel : nat) (self : SetupHandler) : SetupHandler * list HandlerOut :=
  match fuel with
  | O => (self, [])
  | S fuel =>
      match handler_poll self with
      | (self, Some e) => let '(self, l) := handler_drain fuel self in (self, e :: l)
      | (self, None) => (self, [])
      end
  end.

Lemma behaviour_drain_rev l fuel self :
  events self = rev l → (length l < fuel)%nat →
  behaviour_drain fuel self = (with_events self [], l).
Proof.
  revert fuel self. induction l as [|e l IH]; intros [|fuel] self Hl Hf; simpl in *; try lia.
  - unfold behaviour_poll. rewrite Hl. simpl. destruct self; simpl in *. by subst.
  - unfold behaviour_poll. rewrite Hl, vec_pop_snoc. by rewrite (IH fuel) by (done || lia).
Qed.

Lemma handler_drain_rev l fuel self :
  pending_events self = rev l → (length l + 1 < fuel)%nat →
  let (self', out) := handler_drain fuel self in
  pending_events self' = [] ∧ outbound_substream self' = None ∧
  handler_poll self' = (self', None) ∧
  out = l ++ match outbound_substream self with
             | Some u => [OutboundSubstreamRequest u] | None => [] end.
Proof.
  revert fuel self. induction l as [|e l IH]; intros [|fuel] self Hl Hf; simpl in *; try lia.
  - unfold handler_poll at 1. rewrite Hl. cbn [vec_pop last].
    destruct self as [[u|] pe lt rt age skew ka]; simpl in *; subst; [|done].
    destruct fuel as [|fuel]; [lia|]. done.
  - unfold handler_poll at 1. rewrite Hl, vec_pop_snoc.
    specialize (IH fuel (with_pending self (rev l)) eq_refl).
    destruct (handler_drain fuel _) as [s out]. simpl in *.
    destruct IH as (?&?&?&->); [lia|done].
Qed.

(** Delivery: polling until nothing is pending delivers every event exactly
    once, newest first, and then (for a handler) asks once for the outbound
    substream; after that there is nothing left to deliver. *)
Theorem setup_delivery :
  (∀ sb fuel, (length (events sb) < fuel)%nat →
     behaviour_drain fuel sb = (with_events sb [], rev (events sb)) ∧
     behaviour_poll (with_events sb []) = (with_events sb [], None)) ∧
  (∀ h fuel, (length (pending_events h) + 1 < fuel)%nat →
     let (h', out) := handler_drain fuel h in
     out = rev (pending_events h)
             ++ match outbound_substream h with
                | Some u => [OutboundSubstreamRequest u] | None => [] end ∧
     handler_poll h' = (h', None)).
Proof.
  split.
  - intros sb fuel Hf. split; [|done].
    apply behaviour_drain_rev; [by rewrite rev_involutive|by rewrite length_rev].
  - intros h fuel Hf.
    pose proof (handler_drain_rev (rev (pending_events h)) fuel h) as Hd.
    destruct (handler_drain fuel h) as [h' out].
    rewrite rev_involutive, length_rev in Hd. destruct Hd as (?&?&?&?); done.
Qed.
End Tables.

(** ** Examples on the toy platform *)

Section SetupExamples.
#[local] Existing Instances Toy.platform Toy.platform_laws.

(** Node 3 (transport id 7) dials node 8's transport. *)
Definition toy_upgrade : OutboundSetupUpgrade :=
  {| up_app_public_key := 3%nat : PublicKey; up_local_transport_id := 7%nat : PeerId;
     up_remote_transport_id := 8%nat : PeerId;
     up_signer := TransportKeypairSigner_new (3%nat : Keypair) |}.
Definition toy_handler : SetupHandler :=
  SetupHandler_new (5%nat : PublicKey) (8%nat : PeerId) (7%nat : PeerId)
    (TransportKeypairSigner_new (5%nat : Keypair)) (from_secs 300) (from_secs 10).
Definition toy_behaviour : SetupBehaviour :=
  SetupBehaviour_new (5%nat : PublicKey) (8%nat : PeerId)
    (TransportKeypairSigner_new (5%nat : Keypair)) (from_secs 300) (from_secs 10).
Definition toy_setup_bytes : bytes :=
  match upgrade_outbound (from_secs 1000) toy_upgrade (Ok tt) (Ok tt) with
  | Some (Ok b) => b | _ => []
  end.
Definition toy_setup_message : SignedSetupMessage :=
  {| message := {| st_version := SetupV1; st_app_public_key := 3%nat : PublicKey;
                   st_local_transport_id := 7%nat : PeerId;
                   st_remote_transport_id := 8%nat : PeerId; st_date := 1000 |};
     signature := toy_sig |}.

Lemma inbound_setup_message_witness :
  on_connection_event (from_secs 1200) (FullyNegotiatedInbound toy_setup_message) toy_handler
    = push_event (setup_event (from_secs 1200) toy_handler toy_setup_message)
        (not_keep_alive toy_handler).
Proof.
  refine (proj1 (inbound_setup_message (from_secs 1200) toy_handler toy_setup_message
            (3%nat : PublicKey) _ _)); vm_compute; discriminate.
Defined.

Lemma setup_handshake_accepts_witness :
  ∃ src chunks' (sm : SignedSetupMessage),
    Frame.feed [] [toy_setup_bytes] = (src, chunks', Ok (Some sm)) ∧
    on_connection_event (from_secs 1200) (FullyNegotiatedInbound sm) toy_handler
      = push_event (HAppKeyReceived (3%nat : PublicKey)) (not_keep_alive toy_handler).
Proof.
  destruct (setup_handshake_accepts (from_secs 1000) (from_secs 1200) toy_upgrade toy_handler
              toy_behaviour 0%nat toy_setup_bytes [toy_setup_bytes] [])
    as (src & chunks' & sm & Hf & _ & Ha & _);
    [exact (transport_signer_signs (3%nat : Keypair))|vm_compute; reflexivity|vm_compute; discriminate
    |vm_compute; discriminate|split; vm_compute; discriminate|vm_compute; discriminate
    |vm_compute; discriminate|reflexivity|reflexivity|split; vm_compute; discriminate
    |reflexivity|].
  exists src, chunks', sm. split; [exact Hf|exact Ha].
Defined.

Lemma setup_tables_correct_witness :
  clean_run [FromHandler (7%nat : PeerId) 0%nat (HAppKeyReceived (3%nat : PublicKey))]
    toy_behaviour ∧
  inverse_tables (sb_run [FromHandler (7%nat : PeerId) 0%nat (HAppKeyReceived (3%nat : PublicKey))]
    toy_behaviour).
Proof.
  assert (clean_run [FromHandler (7%nat : PeerId) 0%nat (HAppKeyReceived (3%nat : PublicKey))]
    toy_behaviour) as Hc.
  { constructor; [split; intros ?; vm_compute; discriminate|constructor]. }
  split; [exact Hc|]. exact (proj2 (setup_tables_correct _ _ _ _ _ _) Hc).
Defined.

Lemma setup_tables_limits_witness :
  get_transport_id_by_application_key
    (sb_run [FromHandler (7%nat : PeerId) 0%nat (HAppKeyReceived (3%nat : PublicKey));
             FromHandler (9%nat : PeerId) 1%nat (HAppKeyReceived (3%nat : PublicKey));
             FromTheSwarm (ConnectionClosed (7%nat : PeerId) 0)] toy_behaviour)
    (3%nat : PublicKey) = None.
Proof.
  assert ((7%nat : PeerId) ≠ 9%nat) as Hp by discriminate.
  assert ((3%nat : PublicKey) ≠ 4%nat) as Hk by discriminate.
  exact (proj2 (proj1 (setup_tables_limits toy_behaviour 7%nat 9%nat 0%nat 1%nat 3%nat 4%nat Hp Hk))).
Defined.

Lemma setup_delivery_witness :
  behaviour_drain 1 toy_behaviour = (toy_behaviour, []).
Proof. exact (proj1 (proj1 setup_delivery toy_behaviour 1%nat (Nat.lt_0_succ 0))). Defined.
End SetupExamples.
