(* ===== verification/Config.v ===== *)
(** * Configuration ([swarm/mod.rs], lines 60 to 493)

    Defaults, protocol names and [P2PConfig].  The record has the fields of
    every build; [cfg_app_public_key] exists with the [byos] feature only,
    [cfg_transport_allowlist] without it only, and the two memory limits each
    with a feature of its own ([None] in a build without it). *)

From S2P Require Import Prelude Time Float64 Platform.
Open Scope Z_scope.

(** ** Protocol names *)

Inductive KadProtocol : Type := KadV1.

Definition kad_stream_protocol (p : KadProtocol) : string :=
  match p with KadV1 => "/kad/strata/0.0.1" end.

Inductive GossipsubVersion : Type := V1_2_0 | V1_1_0 | V1_0_0.

Definition get_supported_versions : list GossipsubVersion := [V1_2_0; V1_1_0; V1_0_0].

Definition gossipsub_stream_protocol (v : GossipsubVersion) : string :=
  match v with
  | V1_2_0 => "/meshsub/1.2.0"
  | V1_1_0 => "/meshsub/1.1.0"
  | V1_0_0 => "/meshsub/1.0.0"
  end.

(** ** Defaults *)

Definition MAX_TRANSMIT_SIZE : Z := 512 * 1024.
Definition PROTOCOL_NAME : string := "/strata".
Definition DEFAULT_MAX_RETRIES : nat := 3.
Definition DEFAULT_DIAL_TIMEOUT : Z := from_millis 250.
Definition DEFAULT_GENERAL_TIMEOUT : Z := from_millis 250.
Definition DEFAULT_CONNECTION_CHECK_INTERVAL : Z := from_millis 500.
Definition DEFAULT_CHANNEL_TIMEOUT : Z := from_secs 5.
Definition DEFAULT_HANDLE_TIMEOUT : Z := from_secs 1.
Definition DEFAULT_KAD_RECORD_TTL : Z := from_secs (60 * 60).
Definition DEFAULT_KAD_TIMER_PUT_RECORD_ERROR : Z := from_secs (5 * 60).
Definition DEFAULT_ENVELOPE_MAX_AGE : Z := from_secs 300.
Definition DEFAULT_GOSSIP_EVENT_BUFFER_SIZE : nat := 256.
Definition DEFAULT_COMMAND_EVENT_BUFFER_SIZE : nat := 256.
Definition DEFAULT_COMMAND_BUFFER_SIZE : nat := 64.
Definition DEFAULT_REQ_RESP_EVENT_BUFFER_SIZE : nat := 64.
Definition DEFAULT_REQ_RESP_COMMAND_BUFFER_SIZE : nat := 64.
Definition DEFAULT_GOSSIP_COMMAND_BUFFER_SIZE : nat := 64.

(** ** The process-wide handle timeout, in milliseconds *)

Definition handle_default_timeout_ms_init : Z := 1000.

(** [duration.as_millis() as u64] truncates. *)
Definition set_handle_default_timeout (duration : Z) : Z := as_millis duration mod 2 ^ 64.

Definition default_handle_timeout (handle_default_timeout_ms : Z) : Z :=
  from_millis handle_default_timeout_ms.

Section Config.
Context {P : Platform}.

Record P2PConfig : Type := {
  cfg_app_public_key : PublicKey;
  cfg_transport_keypair : Keypair;
  cfg_idle_connection_timeout : Z;
  cfg_max_retries : option nat;
  cfg_dial_timeout : option Z;
  cfg_general_timeout : option Z;
  cfg_connection_check_interval : option Z;
  cfg_listening_addrs : list Multiaddr;
  cfg_connect_to : list Multiaddr;
  cfg_transport_allowlist : option (list PeerId);
  cfg_protocol_name : option string;
  cfg_channel_timeout : option Z;
  cfg_gossipsub_topic : option string;
  cfg_gossipsub_max_transmit_size : option Z;
  cfg_gossipsub_score_params : option PeerScoreParams;
  cfg_gossipsub_score_thresholds : option PeerScoreThresholds;
  cfg_gossipsub_mesh_n : option nat;
  cfg_gossipsub_mesh_n_low : option nat;
  cfg_gossipsub_mesh_n_high : option nat;
  cfg_gossip_event_buffer_size : option nat;
  cfg_gossipsub_heartbeat_initial_delay : option Z;
  cfg_gossipsub_publish_queue_duration : option Z;
  cfg_gossipsub_forward_queue_duration : option Z;
  cfg_commands_event_buffer_size : option nat;
  cfg_command_buffer_size : option nat;
  cfg_handle_default_timeout : option Z;
  cfg_req_resp_event_buffer_size : option nat;
  cfg_req_resp_command_buffer_size : option nat;
  cfg_request_max_bytes : option Z;
  cfg_response_max_bytes : option Z;
  cfg_gossip_command_buffer_size : option nat;
  cfg_envelope_max_age : option Z;
  cfg_max_clock_skew : option Z;
  cfg_kad_protocol_name : option KadProtocol;
  cfg_kad_record_ttl : option Z;
  cfg_kad_timer_putrecorderror : option Z;
  cfg_conn_limits : ConnectionLimits;
  cfg_max_allowed_ram_used : option Z;
  cfg_max_allowed_ram_used_percent : option f64
}.

(** [self.config.connect_to.push(addr)] *)
Definition push_connect_to (addr : Multiaddr) (c : P2PConfig) : P2PConfig :=
  let '(Build_P2PConfig a1 a2 a3 a4 a5 a6 a7 a8 connect_to b1 b2 b3 b4 b5 b6 b7 b8 b9 c1 c2 c3
          c4 c5 c6 c7 c8 c9 d1 d2 d3 d4 d5 d6 d7 d8 d9 e1 e2 e3) := c in
  Build_P2PConfig a1 a2 a3 a4 a5 a6 a7 a8 (connect_to ++ [addr]) b1 b2 b3 b4 b5 b6 b7 b8 b9
    c1 c2 c3 c4 c5 c6 c7 c8 c9 d1 d2 d3 d4 d5 d6 d7 d8 d9 e1 e2 e3.

(** The values the handlers read, defaults filled in. *)
Definition envelope_max_age (c : P2PConfig) : Z :=
  default DEFAULT_ENVELOPE_MAX_AGE (cfg_envelope_max_age c).
Definition max_clock_skew (c : P2PConfig) : Z :=
  default (from_secs 0) (cfg_max_clock_skew c).
Definition protocol_name (c : P2PConfig) : string :=
  default PROTOCOL_NAME (cfg_protocol_name c).
Definition channel_timeout (c : P2PConfig) : Z :=
  default DEFAULT_CHANNEL_TIMEOUT (cfg_channel_timeout c).
Definition kad_record_ttl (c : P2PConfig) : Z :=
  default DEFAULT_KAD_RECORD_TTL (cfg_kad_record_ttl c).
Definition kad_timer_putrecorderror (c : P2PConfig) : Z :=
  default DEFAULT_KAD_TIMER_PUT_RECORD_ERROR (cfg_kad_timer_putrecorderror c).
Definition gossipsub_topic (c : P2PConfig) : string :=
  default "strata"%string (cfg_gossipsub_topic c).

Definition durations_ok (c : P2PConfig) : Prop :=
  0 ≤ envelope_max_age c ∧ 0 ≤ max_clock_skew c.
End Config.
