(* ===== verification/Dial.v ===== *)
(** * Dial sequences of BYOS builds ([swarm/dial_manager.rs])

    The addresses of a peer are tried one after the other: the manager keeps
    the remaining addresses per application key and the key per connection
    attempt.  The queue itself is [cynosure]'s, a parameter with its laws. *)

From S2P Require Import Prelude Platform.
Open Scope Z_scope.

(** ** [cynosure::site_c::queue::Queue] *)

Class Queue (A : Type) := {
  queue : Type;
  from_iter : list A → queue;
  pop_front : queue → option A * queue;
  (* what is left in it, first element first; for specifications *)
  contents : queue → list A
}.

(** First in, first out. *)
Class QueueLaws {A} (Q : Queue A) : Prop := {
  contents_from_iter l : contents (from_iter l) = l;
  pop_front_fst q : (pop_front q).1 = head (contents q);
  pop_front_snd q : contents (pop_front q).2 = tail (contents q)
}.

(** Lists are such a queue (for examples and witnesses). *)
Definition list_queue (A : Type) : Queue A := {|
  queue := list A; from_iter l := l; pop_front q := (head q, tail q); contents q := q |}.

Lemma list_queue_laws A : QueueLaws (list_queue A).
Proof. by split. Qed.

(** ** [sort_by_key] with a [bool] key: a stable sort, [false] first *)

Definition key_le (a b : bool) : bool := implb a b.

Fixpoint insert_by_key {A} (key : A → bool) (x : A) (l : list A) : list A :=
  match l with
  | [] => [x]
  | y :: l' => if key_le (key x) (key y) then x :: l else y :: insert_by_key key x l'
  end.

Fixpoint sort_by_key {A} (key : A → bool) (l : list A) : list A :=
  match l with
  | [] => []
  | x :: l' => insert_by_key key x (sort_by_key key l')
  end.

(** Sorting by a boolean is splitting, order kept on both sides. *)
Lemma sort_by_key_partition {A} (key : A → bool) l :
  sort_by_key key l = filter (λ x, key x = false) l ++ filter (λ x, key x = true) l.
Proof.
  induction l as [|x l IH]; [done|]. cbn [sort_by_key]. rewrite IH, !filter_cons.
  assert (∀ b, Forall (λ y, key y = b) (filter (λ y, key y = b) l)) as HF
    by (intros b; apply Forall_forall; intros y; rewrite list_elem_of_filter; tauto).
  generalize (HF false) (HF true). clear HF.
  generalize (filter (λ x, key x = false) l) (filter (λ x, key x = true) l).
  intros l1 l2 H1 H2. destruct (key x) eqn:Hx; simpl.
  - induction H1 as [|y l1 Hy H1 IH1]; simpl.
    + destruct H2 as [|y l2 Hy H2]; simpl; [done|]. by rewrite Hx, Hy.
    + rewrite Hx, Hy. simpl. by rewrite IH1.
  - destruct (l1 ++ l2) as [|y l']; simpl; [done|]. by rewrite Hx.
Qed.

Lemma sort_by_key_permutation {A} (key : A → bool) l : sort_by_key key l ≡ₚ l.
Proof.
  induction l as [|x l IH]; [done|]. cbn [sort_by_key]. rewrite <-IH at 2.
  generalize (sort_by_key key l). clear. intros l. induction l as [|y l IH]; [done|]. simpl.
  destruct (key_le (key x) (key y)); [done|]. rewrite IH. apply Permutation_swap.
Qed.

Section Dial.
Context {P : Platform} {Q : Queue Multiaddr}.

Definition is_quic (addr : Multiaddr) : bool :=
  existsb (λ proto, str_contains proto "quic") (protocol_stack addr).

(** [addresses.sort_by_key(|addr| !addr.protocol_stack().any(..))] *)
Definition sort_addresses (addresses : list Multiaddr) : list Multiaddr :=
  sort_by_key (λ addr, negb (is_quic addr)) addresses.

Record DialManager : Type := {
  dial_queues : gmap PublicKey queue;
  conn_to_dial : gmap ConnectionId PublicKey
}.

Definition DialManager_new : DialManager := {| dial_queues := ∅; conn_to_dial := ∅ |}.

Definition insert_queue (app_public_key : PublicKey) (q : queue) (self : DialManager)
    : DialManager :=
  {| dial_queues := <[app_public_key := q]> (dial_queues self);
     conn_to_dial := conn_to_dial self |}.

Definition pop_next_addr (app_public_key : PublicKey) (self : DialManager)
    : DialManager * option Multiaddr :=
  match dial_queues self !! app_public_key with
  | Some entry =>
      let '(addr, rest) := pop_front entry in
      ({| dial_queues := <[app_public_key := rest]> (dial_queues self);
          conn_to_dial := conn_to_dial self |}, addr)
  | None => (self, None)
  end.

Definition map_connid (conn_id : ConnectionId) (app_public_key : PublicKey)
    (self : DialManager) : DialManager :=
  {| dial_queues := dial_queues self;
     conn_to_dial := <[conn_id := app_public_key]> (conn_to_dial self) |}.

Definition remove_connid (conn_id : ConnectionId) (self : DialManager)
    : DialManager * option PublicKey :=
  ({| dial_queues := dial_queues self; conn_to_dial := delete conn_id (conn_to_dial self) |},
   conn_to_dial self !! conn_id).

Definition remove_queue (app_public_key : PublicKey) (self : DialManager) : DialManager :=
  {| dial_queues := delete app_public_key (dial_queues self);
     conn_to_dial := conn_to_dial self |}.

Definition get_app_public_key_by_connection_id (self : DialManager) (conn_id : ConnectionId)
    : option PublicKey := conn_to_dial self !! conn_id.

Definition has_app_public_key (self : DialManager) (app_public_key : PublicKey) : bool :=
  bool_decide (is_Some (dial_queues self !! app_public_key)).

(** The addresses still to try for a key; [None] when it is not being dialed. *)
Definition remaining (self : DialManager) (k : PublicKey) : option (list Multiaddr) :=
  contents <$> dial_queues self !! k.

(** The order of attempts: QUIC addresses, then the others, each as given. *)
Definition quic_first (l : list Multiaddr) : list Multiaddr :=
  filter (λ a, is_quic a = true) l ++ filter (λ a, is_quic a = false) l.

Lemma sort_addresses_quic_first l : sort_addresses l = quic_first l.
Proof.
  unfold sort_addresses, quic_first. rewrite sort_by_key_partition.
  f_equal; apply list_filter_iff; intros a; by destruct (is_quic a).
Qed.

Section Laws.
Context `{!QueueLaws Q}.

Lemma pop_next_addr_spec k self rest :
  remaining self k = Some rest →
  (pop_next_addr k self).2 = head rest ∧
  (∀ k', remaining (pop_next_addr k self).1 k'
         = if decide (k' = k) then Some (tail rest) else remaining self k') ∧
  conn_to_dial (pop_next_addr k self).1 = conn_to_dial self.
Proof.
  unfold remaining, pop_next_addr. destruct (dial_queues self !! k) as [q|] eqn:Hq; [|done].
  simpl. intros [= <-]. pose proof (pop_front_fst q) as H1. pose proof (pop_front_snd q) as H2.
  destruct (pop_front q) as [a r]. simpl in *. split_and!; [done| |done].
  intros k'. case_decide as Hk; [subst k'; rewrite lookup_insert_eq; simpl; by rewrite H2|].
  by rewrite lookup_insert_ne.
Qed.
End Laws.
End Dial.
