(* ===== verification/Node.v ===== *)
(** * The node: state, effects and environment ([swarm/mod.rs], struct [P2P])

    The handlers of the node are state-passing functions over [P2P].  What
    they do to the outside (libp2p's swarm and behaviours, the channels to the
    handles) is recorded, in order, in [trace]; what the outside answers comes
    from the class [Env], as functions of the effects so far, so that a theorem
    about every [Env] is a theorem about every behaviour of the outside.  The
    clock is an arbitrary sequence of readings, numbered by [ticks].

    One [P2P] serves both builds: [byos] says which one is running; the fields
    that exist in only one of them are marked. *)

From S2P Require Import Prelude Time Float64 Platform Message Scores Validator Errors Setup Config Dial.
Open Scope Z_scope.

(** ** Effects *)

Section Effects.
Context {P : Platform}.

(** gossipsub's [MessageAcceptance] *)
Inductive MessageAcceptance : Type := Accept | Reject | Ignore.

(** libp2p's [DialOpts], as the node builds them. *)
Inductive DialOpts : Type :=
  | DialAddress (connection_id : ConnectionId) (addr : Multiaddr)
  | DialPeer (peer_id : PeerId) (addrs : list Multiaddr).

(** events.rs; the reply channel of a request is left out. *)
Inductive ReqRespEvent : Type :=
  | ReceivedRequest (data : bytes)
  | ReceivedResponse (data : bytes).

(** commands.rs: who a command is about, a key with [byos] and a transport id
    without; each build has one of the two. *)
Inductive PeerTarget : Type :=
  | TargetAppPublicKey (app_public_key : PublicKey)
  | TargetTransportId (transport_id : PeerId).

(** What goes back through a command's [response_sender]. *)
Inductive Reply : Type :=
  | ReplyBool (b : bool)
  | ReplyKeys (l : list PublicKey)
  | ReplyPeers (l : list PeerId)
  | ReplyAddrs (l : list Multiaddr)
  | ReplyScore (s : PeerScore).

(** The channels a node is created with. *)
Inductive ChannelName : Type :=
  | ChanCommandEvents
  | ChanCommands
  | ChanReqRespEvents
  | ChanReqRespCommands
  | ChanGossipEvents
  | ChanGossipCommands
  | ChanRepublish.

Inductive Effect : Type :=
  | ESetHandleTimeout (ms : Z)
  | EListenOn (addr : Multiaddr)
  | EChannel (name : ChannelName) (capacity : nat)
  | EDial (opts : DialOpts)
  | EDisconnect (peer_id : PeerId)
  | ESubscribe (topic : string)
  | EReport (message_id : MessageId) (source : PeerId) (acceptance : MessageAcceptance)
  | EPublish (topic : string) (data : bytes)
  | EGossipEvent (data : bytes)
  | ESendRequest (peer_id : PeerId) (data : bytes)
  | EReqRespEvent (e : ReqRespEvent)
  | ESendResponse (channel : ResponseChannel) (data : bytes)
  | EGetRecord (key : bytes)
  | EPutRecord (key value : bytes)
  | EStorePut (key value : bytes)
  | ECommandEvent (addrs : option (list Multiaddr))
  | EReply (r : Reply)
  | ERepublish
  | ERepublishAfter (d : Z)
  | ESleep (d : Z).

(** How an awaited channel operation under [timeout] ends. *)
Inductive timed (A : Type) : Type :=
  | InTime (r : result A string)
  | TimedOut.
#[global] Arguments InTime {_} _.
#[global] Arguments TimedOut {_}.

(** ** Environment *)

Class Env := {
  (* the build: the [byos] feature, and overflow checks of the profile *)
  byos : bool;
  overflow_checks : bool;
  (* SystemTime::now(), by number of the reading *)
  clock : nat → Z;
  (* Swarm *)
  local_peer_id : PeerId;
  swarm_is_connected : list Effect → PeerId → bool;
  connected_peers : list Effect → list PeerId;
  listeners : list Effect → list Multiaddr;
  external_addresses : list Effect → list Multiaddr;
  next_connection_id : list Effect → ConnectionId;
  swarm_dial : list Effect → DialOpts → result unit string;
  swarm_listen_on : list Effect → Multiaddr → result unit string;
  (* gossipsub *)
  peer_score : list Effect → PeerId → option f64;
  gossip_subscribe : list Effect → string → timed unit;
  gossip_publish : list Effect → bytes → bytes → result MessageId string;
  (* kad *)
  get_record : list Effect → bytes → QueryId;
  put_record : list Effect → bytes → bytes → result QueryId string;
  store_get : list Effect → bytes → option bytes;
  store_put : list Effect → bytes → bytes → result unit string;
  (* channels; tokio panics when asked for a capacity it cannot provide, 0 say *)
  channel_capacity_ok : ChannelName → nat → bool;
  gossip_events_send : list Effect → bytes → result unit string;
  req_resp_events_send : list Effect → ReqRespEvent → timed unit;
  response_recv : list Effect → bytes → timed bytes
}.
End Effects.

(** ** State *)

Section Node.
Context {P : Platform} {Q : Queue Multiaddr}.

Record P2P : Type := {
  config : P2PConfig;
  topic : string;
  signer : ApplicationSigner;
  (* with byos *)
  app_allowlist : gset PublicKey;
  dial_manager : DialManager;
  setup : SetupBehaviour;
  (* without byos *)
  score_manager : ScoreManager;
  peer_penalty_storage : PenaltyPeerStorage;
  validator : Validator;
  (* kad *)
  kademlia_map_received_records : gmap QueryId (list SignedRecord);
  kademlia_is_routing_updated_first_time : bool;
  (* the outside *)
  trace : list Effect;
  ticks : nat
}.

(** Handlers. *)
Abbreviation M := (stM P2P SwarmError).

(** Field updates. *)
Definition upd_config (f : P2PConfig → P2PConfig) (s : P2P) : P2P :=
  Build_P2P (f (config s)) (topic s) (signer s) (app_allowlist s) (dial_manager s) (setup s)
    (score_manager s) (peer_penalty_storage s) (validator s) (kademlia_map_received_records s)
    (kademlia_is_routing_updated_first_time s) (trace s) (ticks s).
Definition upd_dial (f : DialManager → DialManager) (s : P2P) : P2P :=
  Build_P2P (config s) (topic s) (signer s) (app_allowlist s) (f (dial_manager s)) (setup s)
    (score_manager s) (peer_penalty_storage s) (validator s) (kademlia_map_received_records s)
    (kademlia_is_routing_updated_first_time s) (trace s) (ticks s).
Definition upd_setup (f : SetupBehaviour → SetupBehaviour) (s : P2P) : P2P :=
  Build_P2P (config s) (topic s) (signer s) (app_allowlist s) (dial_manager s) (f (setup s))
    (score_manager s) (peer_penalty_storage s) (validator s) (kademlia_map_received_records s)
    (kademlia_is_routing_updated_first_time s) (trace s) (ticks s).
Definition upd_scores (f : ScoreManager → ScoreManager) (s : P2P) : P2P :=
  Build_P2P (config s) (topic s) (signer s) (app_allowlist s) (dial_manager s) (setup s)
    (f (score_manager s)) (peer_penalty_storage s) (validator s)
    (kademlia_map_received_records s) (kademlia_is_routing_updated_first_time s)
    (trace s) (ticks s).
Definition upd_penalties (f : PenaltyPeerStorage → PenaltyPeerStorage) (s : P2P) : P2P :=
  Build_P2P (config s) (topic s) (signer s) (app_allowlist s) (dial_manager s) (setup s)
    (score_manager s) (f (peer_penalty_storage s)) (validator s)
    (kademlia_map_received_records s) (kademlia_is_routing_updated_first_time s)
    (trace s) (ticks s).
Definition upd_records (f : gmap QueryId (list SignedRecord) → gmap QueryId (list SignedRecord))
    (s : P2P) : P2P :=
  Build_P2P (config s) (topic s) (signer s) (app_allowlist s) (dial_manager s) (setup s)
    (score_manager s) (peer_penalty_storage s) (validator s)
    (f (kademlia_map_received_records s)) (kademlia_is_routing_updated_first_time s)
    (trace s) (ticks s).
Definition upd_first_time (b : bool) (s : P2P) : P2P :=
  Build_P2P (config s) (topic s) (signer s) (app_allowlist s) (dial_manager s) (setup s)
    (score_manager s) (peer_penalty_storage s) (validator s)
    (kademlia_map_received_records s) b (trace s) (ticks s).
Definition add_effect (e : Effect) (s : P2P) : P2P :=
  Build_P2P (config s) (topic s) (signer s) (app_allowlist s) (dial_manager s) (setup s)
    (score_manager s) (peer_penalty_storage s) (validator s) (kademlia_map_received_records s)
    (kademlia_is_routing_updated_first_time s) (trace s ++ [e]) (ticks s).
Definition tick (s : P2P) : P2P :=
  Build_P2P (config s) (topic s) (signer s) (app_allowlist s) (dial_manager s) (setup s)
    (score_manager s) (peer_penalty_storage s) (validator s) (kademlia_map_received_records s)
    (kademlia_is_routing_updated_first_time s) (trace s) (S (ticks s)).

Context {E : Env}.

(** ** Primitive actions *)

Definition emit (e : Effect) : M unit := modS (add_effect e).

(** [SystemTime::now()] *)
Definition now : M Z := t ← getsS (λ s, clock (ticks s)); _ ← modS tick; mret t.

(** An answer of the environment to the effects so far. *)
Definition ask {A} (f : list Effect → A) : M A := getsS (λ s, f (trace s)).

(** A computation of the standard library that may panic. *)
Definition or_panic {A} (o : option A) : M A :=
  match o with Some a => mret a | None => panic end.

(** [a + b] on [u64]. *)
Definition add_u64 (a b : Z) : M Z := or_panic (u64_add overflow_checks a b).

(** [now().duration_since(UNIX_EPOCH).unwrap_or_default().as_secs()] *)
Definition now_secs : M Z := t ← now; mret (now_secs_or_default t).

(** [let _ = self.swarm.disconnect_peer_id(peer_id)] *)
Definition disconnect_peer_id (peer_id : PeerId) : M unit := emit (EDisconnect peer_id).

(** The key the node signs as: [config.app_public_key] with [byos], the
    transport key without. *)
Definition own_key (s : P2P) : PublicKey :=
  if byos then cfg_app_public_key (config s)
  else keypair_public (cfg_transport_keypair (config s)).
Definition own_public_key : M PublicKey := getsS own_key.

Lemma bind_emit {A} e (k : unit → M A) s : (emit e ≫= k) s = k tt (add_effect e s).
Proof. reflexivity. Qed.
Lemma bind_now {A} (k : Z → M A) s : (now ≫= k) s = k (clock (ticks s)) (tick s).
Proof. reflexivity. Qed.
Lemma bind_now_secs {A} (k : Z → M A) s :
  (now_secs ≫= k) s = k (now_secs_or_default (clock (ticks s))) (tick s).
Proof. reflexivity. Qed.
Lemma bind_ask {A B} (f : list Effect → A) (k : A → M B) s : (ask f ≫= k) s = k (f (trace s)) s.
Proof. reflexivity. Qed.
Lemma bind_own_public_key {A} (k : PublicKey → M A) s :
  (own_public_key ≫= k) s = k (own_key s) s.
Proof. reflexivity. Qed.
Lemma bind_add_u64 {A} a b (k : Z → M A) s :
  a + b ≤ u64_max → (add_u64 a b ≫= k) s = k (a + b) s.
Proof. intros H. unfold add_u64. by rewrite u64_add_fits. Qed.

(** Nothing but the clock has moved. *)
Definition untouched (s s' : P2P) : Prop := ∃ n, s' = Nat.iter n tick s.

Lemma untouched_refl s : untouched s s.
Proof. by exists 0%nat. Qed.
Lemma untouched_tick s : untouched s (tick s).
Proof. by exists 1%nat. Qed.
Lemma untouched_same s s' :
  untouched s s' →
  trace s' = trace s ∧ config s' = config s ∧ signer s' = signer s ∧
  kademlia_map_received_records s' = kademlia_map_received_records s.
Proof. intros [n ->]. by induction n. Qed.

Lemma untouched_trans s1 s2 s3 : untouched s1 s2 → untouched s2 s3 → untouched s1 s3.
Proof. intros [n ->] [m ->]. exists (m + n)%nat. by rewrite Nat.iter_add. Qed.

(** ** Creation ([P2P::from_config])

    The swarm is given.  A refused address is an error, a refused channel
    capacity a panic. *)
Fixpoint listen_all (addrs : list Multiaddr) (tr : list Effect)
    : list Effect * result unit SwarmError :=
  match addrs with
  | [] => (tr, Ok tt)
  | addr :: addrs =>
      match swarm_listen_on tr addr with
      | Ok _ => listen_all addrs (tr ++ [EListenOn addr])
      | Err e => (tr ++ [EListenOn addr], Err (Protocol (Listen e)))
      end
  end.

(** The channels and their capacities, in the order of their creation. *)
Definition config_channels (cfg : P2PConfig) (channel_size : option nat)
    : list (ChannelName * nat) :=
  [(ChanCommandEvents, default DEFAULT_COMMAND_EVENT_BUFFER_SIZE (cfg_commands_event_buffer_size cfg));
   (ChanCommands, default DEFAULT_COMMAND_BUFFER_SIZE (cfg_command_buffer_size cfg));
   (ChanReqRespEvents, default DEFAULT_REQ_RESP_EVENT_BUFFER_SIZE (cfg_req_resp_event_buffer_size cfg));
   (ChanReqRespCommands,
      default DEFAULT_REQ_RESP_COMMAND_BUFFER_SIZE (cfg_req_resp_command_buffer_size cfg));
   (ChanGossipEvents,
      default (default DEFAULT_GOSSIP_EVENT_BUFFER_SIZE (cfg_gossip_event_buffer_size cfg)) channel_size);
   (ChanGossipCommands,
      default DEFAULT_GOSSIP_COMMAND_BUFFER_SIZE (cfg_gossip_command_buffer_size cfg));
   (ChanRepublish, 10%nat)].

Definition capacity_ok (c : ChannelName * nat) : bool := channel_capacity_ok c.1 c.2.

(** The process-wide handle timeout, when the configuration sets one. *)
Definition apply_handle_timeout (cfg : P2PConfig) : list Effect :=
  match cfg_handle_default_timeout cfg with
  | Some dur => [ESetHandleTimeout (set_handle_default_timeout dur)]
  | None => []
  end.

Definition from_config (cfg : P2PConfig) (swarm_setup : SetupBehaviour)
    (allowlist : list PublicKey) (channel_size : option nat) (given_signer : ApplicationSigner)
    (given_validator : option Validator) : outcome SwarmError P2P :=
  match listen_all (cfg_listening_addrs cfg) (apply_handle_timeout cfg) with
  | (_, Err e) => Throw e
  | (tr, Ok _) =>
      let channels := config_channels cfg channel_size in
      if negb (forallb capacity_ok channels) then Panic
      else
      Done {| config := cfg;
              topic := gossipsub_topic cfg;
              signer := if byos then given_signer
                        else TransportKeypairSigner_new (cfg_transport_keypair cfg);
              app_allowlist := list_to_set allowlist;
              dial_manager := DialManager_new;
              setup := swarm_setup;
              score_manager := ScoreManager_new;
              peer_penalty_storage := PenaltyPeerStorage_new;
              validator := default DefaultP2PValidator given_validator;
              kademlia_map_received_records := ∅;
              kademlia_is_routing_updated_first_time := true;
              trace := tr ++ map (λ c, EChannel c.1 c.2) channels; ticks := 0 |}
  end.
End Node.

Abbreviation M := (stM P2P SwarmError).

(** ** A new node *)

Section NewNode.
Context {P : Platform} {L : PlatformLaws P} {Q : Queue Multiaddr} {E : Env}.

(** The swarm listens on every one of these addresses, asked in order. *)
Definition accepts_listening (tr : list Effect) (addrs : list Multiaddr) : Prop :=
  ∀ before addr after, addrs = before ++ addr :: after →
    swarm_listen_on (tr ++ map EListenOn before) addr = Ok tt.

Lemma accepts_listening_cons tr a addrs :
  swarm_listen_on tr a = Ok tt → accepts_listening (tr ++ [EListenOn a]) addrs →
  accepts_listening tr (a :: addrs).
Proof.
  intros Ha Hrest [|b before] addr after Heq; simplify_eq/=; [by rewrite app_nil_r|].
  specialize (Hrest before addr after eq_refl). by rewrite <-app_assoc in Hrest.
Qed.

Lemma listen_all_spec addrs tr :
  match listen_all addrs tr with
  | (tr', Ok _) => tr' = tr ++ map EListenOn addrs ∧ accepts_listening tr addrs
  | (_, Err e) =>
      ∃ before addr after msg, addrs = before ++ addr :: after ∧
        e = Protocol (Listen msg) ∧ accepts_listening tr before ∧
        swarm_listen_on (tr ++ map EListenOn before) addr = Err msg
  end.
Proof.
  revert tr. induction addrs as [|a addrs IH]; intros tr; cbn [listen_all].
  { rewrite app_nil_r. split; [done|]. by intros []. }
  destruct (swarm_listen_on tr a) as [[]|msg] eqn:Ha.
  - specialize (IH (tr ++ [EListenOn a])).
    destruct (listen_all addrs _) as [tr' [[]|e]].
    + destruct IH as [-> IH]. split; [by rewrite <-app_assoc|]. by apply accepts_listening_cons.
    + destruct IH as (before & addr & after & msg & -> & -> & Hb & Herr).
      exists (a :: before), addr, after, msg.
      split_and!; [done|done|by apply accepts_listening_cons|]. by rewrite <-app_assoc in Herr.
  - exists [], a, addrs, msg. rewrite app_nil_r. split_and!; [done|done|by intros []|done].
Qed.

(** C33. Creation: a node is created exactly when every configured address can
    be listened on and every channel capacity is possible, having set the
    process-wide handle timeout (if one is configured), asked for each address
    once and in order, and made the channels; the error is the first refused
    address's.  A new node has no scores, penalties, dial sequences or lookups,
    has exactly the given allowlist, and without [byos] signs with the key it
    signs as. *)
Theorem new_node cfg sb allowlist size sg v :
  let tr := apply_handle_timeout cfg in
  let addrs := cfg_listening_addrs cfg in
  let channels := config_channels cfg size in
  match from_config cfg sb allowlist size sg v with
  | Done s =>
      accepts_listening tr addrs ∧ (∀ c, c ∈ channels → capacity_ok c = true) ∧
      trace s = tr ++ map EListenOn addrs ++ map (λ c, EChannel c.1 c.2) channels ∧
      config s = cfg ∧ setup s = sb ∧
      (∀ k, k ∈ app_allowlist s ↔ k ∈ allowlist) ∧
      (∀ p k, penalty_until (peer_penalty_storage s) p k = None) ∧
      (∀ p, get_gossipsub_app_score (score_manager s) p = None ∧
            get_req_resp_score (score_manager s) p = None) ∧
      (∀ k, has_app_public_key (dial_manager s) k = false) ∧
      kademlia_map_received_records s = ∅ ∧
      (byos = false → signs_for (signer s) (own_key s))
  | Throw e =>
      ∃ before addr after msg, addrs = before ++ addr :: after ∧
        e = Protocol (Listen msg) ∧ accepts_listening tr before ∧
        swarm_listen_on (tr ++ map EListenOn before) addr = Err msg
  | Panic =>
      accepts_listening tr addrs ∧ ∃ c, c ∈ channels ∧ capacity_ok c = false
  end.
Proof.
  intros tr addrs channels. unfold from_config. fold tr addrs channels.
  pose proof (listen_all_spec addrs tr) as Hl.
  destruct (listen_all addrs tr) as [tr' [[]|e]]; [destruct Hl as [-> Hl]|exact Hl].
  destruct (forallb capacity_ok channels) eqn:Hc; simpl negb; cbv iota.
  - rewrite forallb_forall in Hc. simpl. split_and!; try done.
    + intros c Hin. by apply Hc, list_elem_of_In.
    + by rewrite app_assoc.
    + intros k. apply elem_of_list_to_set.
    + intros Hb. unfold own_key. simpl. rewrite Hb. intros b s. apply transport_signer_signs.
  - split; [done|]. by apply forallb_false.
Qed.
End NewNode.

#[export] Hint Rewrite @bind_emit @bind_now @bind_now_secs @bind_ask @bind_own_public_key : run.
#[export] Hint Rewrite @bind_add_u64 using (assumption || lia) : run.

(** ** A concrete environment, for examples and witnesses

    On the toy platform; the clock shows second 1000 + n at reading n, every
    peer is connected, every operation of the outside succeeds and the record
    store remembers nothing. *)
Module ToyNode.
#[local] Existing Instances Toy.platform Toy.platform_laws.

Definition env_at (local : nat) (with_byos : bool) : Env := {|
  byos := with_byos; overflow_checks := true;
  clock n := from_secs (1000 + Z.of_nat n);
  local_peer_id := local : PeerId;
  swarm_is_connected _ _ := true;
  connected_peers _ := [107%nat : PeerId];
  listeners _ := []; external_addresses _ := [];
  next_connection_id tr := length tr : ConnectionId;
  swarm_dial _ _ := Ok tt; swarm_listen_on _ _ := Ok tt;
  peer_score _ _ := None;
  gossip_subscribe _ _ := InTime (Ok tt);
  gossip_publish tr _ _ := Ok (length tr : MessageId);
  get_record tr _ := length tr : QueryId;
  put_record tr _ _ := Ok (length tr : QueryId);
  store_get _ _ := None; store_put _ _ _ := Ok tt;
  channel_capacity_ok _ n := (0 <? n)%nat;
  gossip_events_send _ _ := Ok tt;
  req_resp_events_send _ _ := InTime (Ok tt);
  response_recv _ data := InTime (Ok data) |}.
Definition env : bool → Env := env_at 105.

Definition queue_inst : Queue Multiaddr := list_queue Multiaddr.
Definition queue_laws : QueueLaws queue_inst := list_queue_laws Multiaddr.

Definition cfg_of (own : nat) (skew : option Z) : P2PConfig := {|
  cfg_app_public_key := own : PublicKey; cfg_transport_keypair := own : Keypair;
  cfg_idle_connection_timeout := from_secs 30; cfg_max_retries := None;
  cfg_dial_timeout := None; cfg_general_timeout := None;
  cfg_connection_check_interval := None; cfg_listening_addrs := [0%nat : Multiaddr];
  cfg_connect_to := []; cfg_transport_allowlist := None; cfg_protocol_name := None;
  cfg_channel_timeout := None; cfg_gossipsub_topic := None;
  cfg_gossipsub_max_transmit_size := None; cfg_gossipsub_score_params := None;
  cfg_gossipsub_score_thresholds := None; cfg_gossipsub_mesh_n := None;
  cfg_gossipsub_mesh_n_low := None; cfg_gossipsub_mesh_n_high := None;
  cfg_gossip_event_buffer_size := None; cfg_gossipsub_heartbeat_initial_delay := None;
  cfg_gossipsub_publish_queue_duration := None; cfg_gossipsub_forward_queue_duration := None;
  cfg_commands_event_buffer_size := None; cfg_command_buffer_size := None;
  cfg_handle_default_timeout := None; cfg_req_resp_event_buffer_size := None;
  cfg_req_resp_command_buffer_size := None; cfg_request_max_bytes := None;
  cfg_response_max_bytes := None; cfg_gossip_command_buffer_size := None;
  cfg_envelope_max_age := None; cfg_max_clock_skew := skew;
  cfg_kad_protocol_name := None; cfg_kad_record_ttl := None;
  cfg_kad_timer_putrecorderror := None; cfg_conn_limits := tt;
  cfg_max_allowed_ram_used := None; cfg_max_allowed_ram_used_percent := None |}.
Definition cfg_with_skew : option Z → P2PConfig := cfg_of 5.
Definition cfg : P2PConfig := cfg_with_skew (Some (from_secs 10)).

Definition own_signer : ApplicationSigner := TransportKeypairSigner_new (5%nat : Keypair).

(** The node with key [own], with [peer] on the allowlist. *)
Definition node_of_key (own peer : nat) : @P2P _ queue_inst := {|
  config := cfg_of own (Some (from_secs 10)); topic := "strata";
  signer := TransportKeypairSigner_new (own : Keypair);
  app_allowlist := {[ peer : PublicKey ]};
  dial_manager := DialManager_new;
  setup := SetupBehaviour_new (own : PublicKey) ((100 + own)%nat : PeerId)
             (TransportKeypairSigner_new (own : Keypair)) (from_secs 300) (from_secs 10);
  score_manager := ScoreManager_new; peer_penalty_storage := PenaltyPeerStorage_new;
  validator := DefaultP2PValidator; kademlia_map_received_records := ∅;
  kademlia_is_routing_updated_first_time := true; trace := []; ticks := 0 |}.
(** Node 5, with peer 3 on the allowlist. *)
Definition node : @P2P _ queue_inst := node_of_key 5 3.

(** A message signed by key 3, and its bytes. *)
Section Signed.
Context {A : Type} `{Serde A} {K : @HasPublicKey Toy.platform A}.

Definition toy_signature (m : A) : bytes64 :=
  Bytes64 (Toy.sign 3 (default [] (to_vec m))) (bool_decide_pack _ (Toy.sign_length _ _)).
Definition signed (m : A) : SignedMessage A := {| message := m; signature := toy_signature m |}.
Definition signed_bytes (m : A) : bytes := default [] (to_vec (signed m)).

Lemma signed_verifies m : public_key m = (3%nat : PublicKey) → verify (signed m) = Ok true.
Proof.
  intros Hk. unfold verify. simpl. rewrite Hk. f_equal. by apply bool_decide_eq_true_2.
Qed.

Lemma signed_decodes m :
  deserialize (serialize m) = Some m → from_slice (signed_bytes m) = Some (signed m).
Proof. intros Hm. by apply (signed_roundtrip (signed m) Hm). Qed.
End Signed.
End ToyNode.

Section NewNodeExample.
#[local] Existing Instances Toy.platform Toy.platform_laws ToyNode.queue_inst.
#[local] Instance new_node_env : Env := ToyNode.env false.

Lemma new_node_witness :
  match from_config ToyNode.cfg (setup ToyNode.node) [3%nat : PublicKey] (Some 0%nat)
          ToyNode.own_signer None with
  | Panic => ∃ c, c ∈ config_channels ToyNode.cfg (Some 0%nat) ∧ capacity_ok c = false
  | _ => False
  end.
Proof.
  exact (proj2 (new_node ToyNode.cfg (setup ToyNode.node) [3%nat : PublicKey] (Some 0%nat)
                  ToyNode.own_signer None)).
Defined.
End NewNodeExample.
