(* ===== verification/Scoring.v ===== *)
(** * Penalties and scores of the running node ([swarm/mod.rs])

    [apply_penalty], [remove_penalty], [get_all_scores],
    [get_elapsed_decay_time] and [decay_request_response_score]; only compiled
    without [byos].  The frame relation [keeps] says that a penalty in force
    stays in force; the handlers of the other files are shown to respect it. *)

From S2P Require Import Prelude Time Float64 Platform Message Scores Validator Errors Setup Config Dial Node.
Open Scope Z_scope.

Section Scoring.
Context {P : Platform} {Q : Queue Multiaddr} {E : Env}.

(** One of [mute_peer_gossip], [mute_peer_req_resp], [ban_peer] on the node's
    store; the operation reads the clock itself. *)
Definition impose
    (op : Z → PeerId → Z → PenaltyPeerStorage → PenaltyPeerStorage * result unit string)
    (peer_id : PeerId) (until : Z) : M (result unit string) :=
  t ← now;
  st ← getsS peer_penalty_storage;
  _ ← modS (upd_penalties (λ _, (op t peer_id until st).1));
  mret (op t peer_id until st).2.

(** [SystemTime::now() + time_amount] *)
Definition now_plus (time_amount : Z) : M Z := t ← now; or_panic (systemtime_add t time_amount).

Definition apply_penalty (peer_id : PeerId) (penalty : PenaltyType) : M unit :=
  match penalty with
  | MuteGossip time_amount =>
      until ← now_plus time_amount;
      _ ← impose mute_peer_gossip peer_id until; mret tt
  | MuteReqresp time_amount =>
      until ← now_plus time_amount;
      _ ← impose mute_peer_req_resp peer_id until; mret tt
  | MuteBoth time_amount =>
      until ← now_plus time_amount;
      _ ← impose mute_peer_gossip peer_id until;
      _ ← impose mute_peer_req_resp peer_id until; mret tt
  | Ban opt_time_amount =>
      until ← now_plus (default DEFAULT_BAN_PERIOD opt_time_amount);
      r ← impose ban_peer peer_id until;
      match r with
      | Ok _ => disconnect_peer_id peer_id
      | Err _ => mret tt
      end
  end.

Definition remove_penalty (target_transport_id : PeerId) (unpenalty : UnpenaltyType) : M unit :=
  match unpenalty with
  | Unban => modS (upd_penalties (unban_peer target_transport_id))
  | UnmuteBoth =>
      _ ← modS (upd_penalties (unmute_peer_gossip target_transport_id));
      modS (upd_penalties (unmute_peer_req_resp target_transport_id))
  | UnmuteGossipsub => modS (upd_penalties (unmute_peer_gossip target_transport_id))
  | UnmuteRequestResponse => modS (upd_penalties (unmute_peer_req_resp target_transport_id))
  end.

Definition get_all_scores (peer_id : PeerId) : M PeerScore :=
  internal ← ask peer_score;
  sm ← getsS score_manager;
  mret {| app_score := {|
            aps_gossipsub_app_score :=
              default DEFAULT_GOSSIP_APP_SCORE (get_gossipsub_app_score sm peer_id);
            aps_req_resp_app_score :=
              default DEFAULT_REQ_RESP_APP_SCORE (get_req_resp_score sm peer_id) |};
          gossipsub_internal_score := default f64_zero (internal peer_id) |}.

(** [last_time.and_then(|last| now.duration_since(last).ok()).unwrap_or_default()] *)
Definition elapsed_since (t : Z) (last_time : option Z) : Z :=
  default 0 (last ← last_time; result_ok (duration_since t last)).

Definition get_elapsed_decay_time (peer_id : PeerId) : M Z :=
  t ← now;
  sm ← getsS score_manager;
  let '(sm', last_time) := update_last_scoring_decay_time peer_id t sm in
  _ ← modS (upd_scores (λ _, sm'));
  mret (elapsed_since t last_time).

Definition decay_request_response_score (peer_id : PeerId) : M unit :=
  elapsed ← get_elapsed_decay_time peer_id;
  if elapsed =? 0 then mret tt
  else
    scores ← get_all_scores peer_id;
    v ← getsS validator;
    let updated_score := apply_decay v (aps_req_resp_app_score (app_score scores)) elapsed in
    modS (upd_scores (update_req_resp_app_score peer_id updated_score)).

(** The same inlined in [handle_gossip_msg] (lines 1449 to 1460). *)
Definition decay_gossip_score (propagation_source : PeerId) : M unit :=
  elapsed ← get_elapsed_decay_time propagation_source;
  if elapsed =? 0 then mret tt
  else
    scores ← get_all_scores propagation_source;
    v ← getsS validator;
    let new_score := apply_decay v (aps_gossipsub_app_score (app_score scores)) elapsed in
    modS (upd_scores (update_gossipsub_app_score propagation_source new_score)).
End Scoring.

(** ** What the operations do, in one step *)

Section ScoringRun.
Context {P : Platform} {Q : Queue Multiaddr} {E : Env}.

(** The scores a peer is judged by. *)
Definition peer_scores (sm : ScoreManager) (internal : option f64) (p : PeerId) : PeerScore :=
  {| app_score := {|
       aps_gossipsub_app_score := default DEFAULT_GOSSIP_APP_SCORE (get_gossipsub_app_score sm p);
       aps_req_resp_app_score := default DEFAULT_REQ_RESP_APP_SCORE (get_req_resp_score sm p) |};
     gossipsub_internal_score := default f64_zero internal |}.

Lemma get_all_scores_run p s :
  get_all_scores p s = (s, Done (peer_scores (score_manager s) (peer_score (trace s) p) p)).
Proof. reflexivity. Qed.

(** The scores after decay at clock reading [t]. *)
Definition decay_gossip_pure (v : Validator) (t : Z) (p : PeerId) (sm : ScoreManager)
    : ScoreManager :=
  let '(sm', last_time) := update_last_scoring_decay_time p t sm in
  if elapsed_since t last_time =? 0 then sm'
  else update_gossipsub_app_score p
         (apply_decay v (default DEFAULT_GOSSIP_APP_SCORE (get_gossipsub_app_score sm' p))
            (elapsed_since t last_time)) sm'.

Definition decay_req_resp_pure (v : Validator) (t : Z) (p : PeerId) (sm : ScoreManager)
    : ScoreManager :=
  let '(sm', last_time) := update_last_scoring_decay_time p t sm in
  if elapsed_since t last_time =? 0 then sm'
  else update_req_resp_app_score p
         (apply_decay v (default DEFAULT_REQ_RESP_APP_SCORE (get_req_resp_score sm' p))
            (elapsed_since t last_time)) sm'.

Lemma decay_gossip_score_run p s :
  decay_gossip_score p s
    = (upd_scores (λ _, decay_gossip_pure (validator s) (clock (ticks s)) p (score_manager s))
         (tick s), Done tt).
Proof.
  unfold decay_gossip_score, decay_gossip_pure, get_elapsed_decay_time, now, mbind, stM_bind,
    getsS, modS, mret, stM_ret. simpl. by destruct (_ =? 0).
Qed.

Lemma decay_request_response_score_run p s :
  decay_request_response_score p s
    = (upd_scores (λ _, decay_req_resp_pure (validator s) (clock (ticks s)) p (score_manager s))
         (tick s), Done tt).
Proof.
  unfold decay_request_response_score, decay_req_resp_pure, get_elapsed_decay_time, now, mbind,
    stM_bind, getsS, modS, mret, stM_ret. simpl. by destruct (_ =? 0).
Qed.

(** A penalty's only effect on the outside is a ban's disconnection; it ends
    normally unless its end time is beyond [SystemTime]. *)
Lemma apply_penalty_effects p pen s :
  let '(s', o) := apply_penalty p pen s in
  score_manager s' = score_manager s ∧
  match o with
  | Done _ => trace s' = trace s ++ match pen with Ban _ => [EDisconnect p] | _ => [] end
  | Panic => trace s' = trace s
  | Throw _ => False
  end.
Proof.
  destruct pen; unfold apply_penalty, now_plus, impose, now, or_panic, mbind, stM_bind, getsS,
    modS, mret, stM_ret; simpl; destruct (systemtime_add _ _); simpl; rewrite ?app_nil_r;
    try done.
  by rewrite ban_peer_ok.
Qed.

(** [now + skew] fits the [u64] it is computed in. *)
Definition no_overflow (s : P2P) (t : Z) : Prop :=
  now_secs_or_default t + as_secs (max_clock_skew (config s)) ≤ u64_max.
End ScoringRun.

(** ** Penalties in force *)

Section Keeps.
Context {P : Platform} {Q : Queue Multiaddr} {E : Env}.

(** At time [t] the penalty of kind [k] of peer [p] is still running. *)
Definition in_force (t : Z) (p : PeerId) (k : PenaltyKind) (s : P2P) : Prop :=
  active_at t (penalty_until (peer_penalty_storage s) p k) = true.

(** From [s] to [s'] the clock has not been read past [t] and the penalty has
    not been cut short. *)
Definition keeps (t : Z) (p : PeerId) (k : PenaltyKind) (s s' : P2P) : Prop :=
  (ticks s ≤ ticks s')%nat ∧
  ((∀ n, (ticks s ≤ n < ticks s')%nat → clock n ≤ t) → in_force t p k s → in_force t p k s').

#[export] Instance keeps_preorder t p k : PreOrder (keeps t p k).
Proof.
  split; [by intros s; split|].
  intros s1 s2 s3 [H1 K1] [H2 K2]. split; [lia|].
  intros Hc Hs. apply K2; [intros n Hn; apply Hc; lia|].
  apply K1; [intros n Hn; apply Hc; lia|done].
Qed.

(** A step that leaves the store and the clock alone. *)
Lemma keeps_same t p k s s' :
  ticks s' = ticks s → peer_penalty_storage s' = peer_penalty_storage s → keeps t p k s s'.
Proof. intros H1 H2. unfold keeps, in_force. rewrite H1, H2. auto. Qed.

Lemma keeps_now t p k : moves (keeps t p k) now.
Proof. intros s. split; simpl; [lia|by intros _]. Qed.
Lemma keeps_emit t p k e : moves (keeps t p k) (emit e).
Proof. intros s. by apply keeps_same. Qed.
Lemma keeps_ask {A} t p k (f : list Effect → A) : moves (keeps t p k) (ask f).
Proof. apply moves_getsS, _. Qed.
Lemma keeps_or_panic {A} t p k (o : option A) : moves (keeps t p k) (or_panic o).
Proof. destruct o; intros s; by apply keeps_same. Qed.
Lemma keeps_upd_scores t p k f : moves (keeps t p k) (modS (upd_scores f) : M unit).
Proof. intros s. by apply keeps_same. Qed.
Lemma keeps_upd_records t p k f : moves (keeps t p k) (modS (upd_records f) : M unit).
Proof. intros s. by apply keeps_same. Qed.
Lemma keeps_upd_config t p k f : moves (keeps t p k) (modS (upd_config f) : M unit).
Proof. intros s. by apply keeps_same. Qed.
Lemma keeps_upd_dial t p k f : moves (keeps t p k) (modS (upd_dial f) : M unit).
Proof. intros s. by apply keeps_same. Qed.
Lemma keeps_upd_setup t p k f : moves (keeps t p k) (modS (upd_setup f) : M unit).
Proof. intros s. by apply keeps_same. Qed.
Lemma keeps_upd_first_time t p k b : moves (keeps t p k) (modS (upd_first_time b) : M unit).
Proof. intros s. by apply keeps_same. Qed.

(** Imposing a penalty does not cut another one short. *)
Lemma keeps_impose t p k k' op p' until :
  (∀ n q u st q' j, penalty_until (op n q u st).1 q' j
                    = spec_impose k' n q u (penalty_until st) q' j) →
  moves (keeps t p k) (impose op p' until).
Proof.
  intros Hop s. unfold impose, now, getsS, modS, mbind, stM_bind, mret, stM_ret. simpl.
  split; simpl; [lia|]. intros Hc. unfold in_force. simpl. rewrite Hop.
  apply spec_impose_active. apply Hc. lia.
Qed.

(** Which kinds of penalty an unpenalty lifts. *)
Definition lifts (u : UnpenaltyType) (k : PenaltyKind) : bool :=
  match u, k with
  | Unban, PeerBan | UnmuteBoth, (GossipMute | ReqRespMute)
  | UnmuteGossipsub, GossipMute | UnmuteRequestResponse, ReqRespMute => true
  | _, _ => false
  end.

Lemma keeps_lift t p k k' f p' :
  (∀ st q j, penalty_until (f st) q j = spec_lift k' p' (penalty_until st) q j) →
  p ≠ p' ∨ k ≠ k' → moves (keeps t p k) (modS (upd_penalties f) : M unit).
Proof.
  intros Hf Hne s. split; [done|]. intros _. unfold in_force. simpl. rewrite Hf.
  unfold spec_lift, set_until. rewrite decide_False; [done|]. intros [-> ->]. naive_solver.
Qed.
End Keeps.

#[export] Hint Resolve keeps_now keeps_emit keeps_ask keeps_or_panic keeps_upd_scores
  keeps_upd_records keeps_upd_config keeps_upd_dial keeps_upd_setup keeps_upd_first_time : moves.
#[export] Hint Extern 1 (moves (keeps _ _ _) (impose _ _ _)) =>
  first [ eapply keeps_impose; exact mute_peer_gossip_refines
        | eapply keeps_impose; exact mute_peer_req_resp_refines
        | eapply keeps_impose; exact ban_peer_refines ] : moves.

Section ScoringKeeps.
Context {P : Platform} {Q : Queue Multiaddr} {E : Env}.

Lemma keeps_disconnect t p k q : moves (keeps t p k) (disconnect_peer_id q).
Proof. apply keeps_emit. Qed.
Lemma keeps_now_plus t p k d : moves (keeps t p k) (now_plus d).
Proof. unfold now_plus. solve_moves. Qed.
Lemma keeps_add_u64 t p k a b : moves (keeps t p k) (add_u64 a b).
Proof. apply keeps_or_panic. Qed.
Lemma keeps_now_secs t p k : moves (keeps t p k) now_secs.
Proof. unfold now_secs. solve_moves. Qed.
Lemma keeps_own_public_key t p k : moves (keeps t p k) own_public_key.
Proof. apply moves_getsS, _. Qed.
#[local] Hint Resolve keeps_disconnect keeps_now_plus : moves.

Lemma keeps_apply_penalty t p k q pen : moves (keeps t p k) (apply_penalty q pen).
Proof. destruct pen; simpl; solve_moves. Qed.

Lemma keeps_remove_penalty t p k q u :
  p ≠ q ∨ lifts u k = false → moves (keeps t p k) (remove_penalty q u).
Proof.
  intros H. destruct u; simpl; solve_moves;
    first [ eapply keeps_lift; [intros; apply unban_peer_refines|]
          | eapply keeps_lift; [intros; apply unmute_peer_gossip_refines|]
          | eapply keeps_lift; [intros; apply unmute_peer_req_resp_refines|] ];
    (destruct H; [by left|right; by destruct k]).
Qed.

Lemma keeps_get_all_scores t p k q : moves (keeps t p k) (get_all_scores q).
Proof. unfold get_all_scores. solve_moves. Qed.
Lemma keeps_get_elapsed t p k q : moves (keeps t p k) (get_elapsed_decay_time q).
Proof. unfold get_elapsed_decay_time. solve_moves. Qed.
#[local] Hint Resolve keeps_get_all_scores keeps_get_elapsed : moves.
Lemma keeps_decay_request_response t p k q : moves (keeps t p k) (decay_request_response_score q).
Proof. unfold decay_request_response_score. solve_moves. Qed.
Lemma keeps_decay_gossip t p k q : moves (keeps t p k) (decay_gossip_score q).
Proof. unfold decay_gossip_score. solve_moves. Qed.
End ScoringKeeps.

#[export] Hint Resolve keeps_disconnect keeps_now_plus keeps_add_u64 keeps_now_secs
  keeps_own_public_key keeps_apply_penalty keeps_get_all_scores keeps_get_elapsed
  keeps_decay_request_response keeps_decay_gossip : moves.

(** ** Decay *)

Section Decay.
Context {P : Platform} {Q : Queue Multiaddr} {E : Env}.

(** The time of the last decay is shared by the two protocols: when a
    gossip message of a peer is followed by a request of the same peer, the
    request/response score is decayed only by the time since the gossip
    message, and the time before it, from the last decay on, is lost to the
    request/response score. *)
Theorem decay_clock_is_shared s p t0 :
  let t1 := clock (ticks s) in
  let t2 := clock (S (ticks s)) in
  last_scoring_decay_time (score_manager s) !! p = Some t0 →
  t0 < t1 < t2 →
  let '(s', o) := (_ ← decay_gossip_score p; decay_request_response_score p : M unit) s in
  o = Done tt ∧
  get_req_resp_score (score_manager s') p
    = Some (apply_decay (validator s)
              (default DEFAULT_REQ_RESP_APP_SCORE (get_req_resp_score (score_manager s) p))
              (t2 - t1)) ∧
  t2 - t1 < t2 - t0.
Proof.
  intros t1 t2 Hlast Ht. rewrite (bind_done _ _ _ _ _ (decay_gossip_score_run p s)).
  rewrite decay_request_response_score_run. cbn [score_manager validator upd_scores tick ticks].
  fold t1 t2. split; [done|]. split; [|lia].
  unfold decay_gossip_pure, decay_req_resp_pure, update_last_scoring_decay_time. rewrite Hlast.
  assert (∀ a b, b < a → elapsed_since a (Some b) = a - b) as Hel.
  { intros a b Hab. unfold elapsed_since, duration_since. simpl.
    by rewrite (proj2 (Z.leb_le b a)) by lia. }
  rewrite (Hel t1 t0), (proj2 (Z.eqb_neq (t1 - t0) 0)) by lia. simpl.
  rewrite lookup_insert_eq, (Hel t2 t1), (proj2 (Z.eqb_neq (t2 - t1) 0)) by lia. simpl.
  unfold get_req_resp_score. simpl. apply lookup_insert_eq.
Qed.
End Decay.

(** ** Example: decay times 900, 1000 and 1001 *)

Section DecayExample.
#[local] Existing Instances Toy.platform ToyNode.queue_inst.
#[local] Instance decay_env : Env := ToyNode.env false.

Definition decayed_node : P2P :=
  upd_scores (λ sm, (update_last_scoring_decay_time (107%nat : PeerId) (from_secs 900) sm).1)
    ToyNode.node.

Lemma decay_clock_is_shared_witness :
  ∃ s', (_ ← decay_gossip_score (107%nat : PeerId);
         decay_request_response_score (107%nat : PeerId) : M unit) decayed_node = (s', Done tt) ∧
    get_req_resp_score (score_manager s') (107%nat : PeerId)
      = Some (apply_decay DefaultP2PValidator f64_zero (from_secs 1)).
Proof.
  assert (from_secs 900 < clock (ticks decayed_node) < clock (S (ticks decayed_node))) as Ht
    by (split; vm_compute; reflexivity).
  pose proof (decay_clock_is_shared decayed_node (107%nat : PeerId) (from_secs 900) eq_refl Ht) as Hd.
  destruct_run Hd s' o. destruct Hd as (-> & Hd & _).
  exists s'. split; [reflexivity|exact Hd].
Defined.
End DecayExample.
