(* ===== verification/Gossip.v ===== *)
(** * Gossip ([swarm/mod.rs]: [handle_gossip_event], [handle_gossip_msg],
    [handle_gossip_command]) *)

From Stdlib Require Import Init.Byte.
From S2P Require Import Prelude Time Float64 Platform Message Scores Validator Errors Setup Config Dial Node Scoring.
Open Scope Z_scope.

Section Gossip.
Context {P : Platform} {Q : Queue Multiaddr} {E : Env}.

(** libp2p's [gossipsub::Event], as far as the node tells cases apart. *)
Inductive GossipsubEvent : Type :=
  | GossipMessageEvent (propagation_source : PeerId) (message_id : MessageId) (data : bytes)
  | GossipsubNotSupported (peer_id : PeerId)
  | OtherGossipsubEvent.

(** [report_message_validation_result] *)
Definition report (message_id : MessageId) (propagation_source : PeerId)
    (acceptance : MessageAcceptance) : M unit :=
  emit (EReport message_id propagation_source acceptance).

(** The last part of [handle_gossip_msg] without [byos]: score the message;
    [true] when a penalty was applied. *)
Definition score_gossip (propagation_source : PeerId) (data : bytes) : M bool :=
  sm ← getsS score_manager;
  v ← getsS validator;
  let old_app_score := default DEFAULT_GOSSIP_APP_SCORE
                         (get_gossipsub_app_score sm propagation_source) in
  let updated_score := validate_msg v (MGossipsub data) old_app_score in
  _ ← modS (upd_scores (update_gossipsub_app_score propagation_source updated_score));
  peer_score ← get_all_scores propagation_source;
  match get_penalty v (MGossipsub data) peer_score with
  | Some penalty => _ ← apply_penalty propagation_source penalty; mret true
  | None => mret false
  end.

(** Acceptance: report it and hand the payload to the application. *)
Definition accept_gossip (propagation_source : PeerId) (message_id : MessageId)
    (data : bytes) : M unit :=
  _ ← report message_id propagation_source Accept;
  r ← ask (λ tr, gossip_events_send tr data);
  _ ← emit (EGossipEvent data);
  match r with
  | Ok _ => mret tt
  | Err e => throw (Protocol (GossipEventsChannelClosed e))
  end.

(** From the verified envelope on. *)
Definition finish_gossip (propagation_source : PeerId) (message_id : MessageId)
    (data : bytes) : M unit :=
  penalised ← (if byos then mret false else score_gossip propagation_source data);
  if penalised : bool then mret tt else accept_gossip propagation_source message_id data.

(** From the deserialized envelope on. *)
Definition handle_signed_gossip (propagation_source : PeerId) (message_id : MessageId)
    (signed_gossipsub_message : SignedGossipsubMessage) : M unit :=
  let reject := report message_id propagation_source Reject in
  let msg := message signed_gossipsub_message in
  if negb (verify_or_false signed_gossipsub_message) then reject
  else
    allowlist ← getsS app_allowlist;
    if byos && negb (bool_decide (g_public_key msg ∈ allowlist)) then reject
    else
      max_age ← getsS (λ s, envelope_max_age (config s));
      skew ← getsS (λ s, max_clock_skew (config s));
      now_secs ← now_secs;
      limit ← add_u64 now_secs (as_secs skew);
      if limit <? g_date msg then reject
      else
        let age := from_secs (saturating_sub now_secs (g_date msg)) in
        if max_age <? age then reject
        else if negb (bool_decide (g_protocol msg = Gossip)) then reject
        else if negb (bool_decide (g_version msg = GossipV2)) then reject
        else finish_gossip propagation_source message_id (g_message msg).

Definition handle_gossip_msg (propagation_source : PeerId) (message_id : MessageId)
    (data : bytes) : M unit :=
  t ← (if byos then mret 0 else now);
  st ← getsS peer_penalty_storage;
  if negb byos && is_gossip_muted t st propagation_source then mret tt
  else
    _ ← (if byos then mret tt else decay_gossip_score propagation_source);
    match from_slice data with
    | None => report message_id propagation_source Reject
    | Some signed_msg => handle_signed_gossip propagation_source message_id signed_msg
    end.

Definition handle_gossip_event (event : GossipsubEvent) : M unit :=
  match event with
  | GossipMessageEvent propagation_source message_id data =>
      handle_gossip_msg propagation_source message_id data
  | GossipsubNotSupported peer_id => disconnect_peer_id peer_id
  | OtherGossipsubEvent => mret tt
  end.

(** [GossipMessage::new] panics before the epoch; an error of [publish] is
    only logged. *)
Definition handle_gossip_command (data : bytes) : M unit :=
  public_key ← own_public_key;
  t ← now;
  m ← or_panic (GossipMessage_new t public_key data);
  sg ← getsS signer;
  match SignedMessage_new m sg with
  | Err _ => mret tt
  | Ok signed_gossip_message =>
      match to_vec signed_gossip_message with
      | None => mret tt
      | Some signed_message_data =>
          name ← getsS topic;
          emit (EPublish name signed_message_data)
      end
  end.

(** *** Frame *)

Lemma keeps_handle_signed_gossip t p k src mid sm :
  moves (keeps t p k) (handle_signed_gossip src mid sm).
Proof.
  unfold handle_signed_gossip, finish_gossip, score_gossip, accept_gossip, report. solve_moves.
Qed.
#[local] Hint Resolve keeps_handle_signed_gossip : moves.

Lemma keeps_handle_gossip_event t p k e : moves (keeps t p k) (handle_gossip_event e).
Proof. destruct e; simpl; unfold handle_gossip_msg, report; solve_moves. Qed.
Lemma keeps_handle_gossip_command t p k data : moves (keeps t p k) (handle_gossip_command data).
Proof. unfold handle_gossip_command. solve_moves. Qed.
End Gossip.

#[export] Hint Resolve keeps_handle_gossip_event keeps_handle_gossip_command : moves.

(** ** The verdict on a gossip message *)

Section Verdict.
Context {P : Platform} {Q : Queue Multiaddr} {E : Env}.

(** What the handler requires of an envelope, at clock reading [t]. *)
Definition acceptable_gossip (s : P2P) (t : Z) (sm : SignedGossipsubMessage) : Prop :=
  verify sm = Ok true ∧
  (byos = true → g_public_key (message sm) ∈ app_allowlist s) ∧
  Fresh (now_secs_or_default t) (envelope_max_age (config s)) (max_clock_skew (config s))
    (g_date (message sm)) ∧
  g_protocol (message sm) = Gossip ∧ g_version (message sm) = GossipV2.

#[export] Instance acceptable_gossip_dec s t sm : Decision (acceptable_gossip s t sm) := _.

(** The handler's decisions on an envelope, with the state threading gone. *)
Lemma signed_gossip_eq src mid sm s :
  no_overflow s (clock (ticks s)) →
  handle_signed_gossip src mid sm s =
    let t := now_secs_or_default (clock (ticks s)) in
    let reject s := (add_effect (EReport mid src Reject) s, Done tt) in
    if negb (bool_decide (verify sm = Ok true)) then reject s
    else if byos && negb (bool_decide (g_public_key (message sm) ∈ app_allowlist s)) then reject s
    else if t + as_secs (max_clock_skew (config s)) <? g_date (message sm) then reject (tick s)
    else if envelope_max_age (config s) <? from_secs (saturating_sub t (g_date (message sm)))
         then reject (tick s)
    else if negb (bool_decide (g_protocol (message sm) = Gossip)) then reject (tick s)
    else if negb (bool_decide (g_version (message sm) = GossipV2)) then reject (tick s)
    else finish_gossip src mid (g_message (message sm)) (tick s).
Proof.
  intros Hno. unfold handle_signed_gossip. rewrite verify_or_false_spec.
  destruct (negb (bool_decide (verify sm = Ok true))); [done|].
  run_simpl. destruct (byos && _); [done|]. run_simpl. by repeat case_match.
Qed.

Lemma handle_signed_gossip_run src mid sm s :
  durations_ok (config s) → no_overflow s (clock (ticks s)) →
  if decide (acceptable_gossip s (clock (ticks s)) sm)
  then handle_signed_gossip src mid sm s = finish_gossip src mid (g_message (message sm)) (tick s)
  else ∃ n, handle_signed_gossip src mid sm s
            = (add_effect (EReport mid src Reject) (Nat.iter n tick s), Done tt).
Proof.
  intros [Ha Hs] Hno. rewrite signed_gossip_eq by done.
  pose proof (window_tests (now_secs_or_default (clock (ticks s)))
    (envelope_max_age (config s)) (max_clock_skew (config s)) (g_date (message sm)) Ha) as Hw.
  unfold acceptable_gossip in *. destruct (decide _) as [(Hv&Hk&Hf&Hp&Hver)|Hno'].
  - rewrite (bool_decide_eq_true_2 _ Hv), (bool_decide_eq_true_2 _ Hp),
      (bool_decide_eq_true_2 _ Hver). apply Hw in Hf as [-> ->].
    destruct byos; [|done]. by rewrite (bool_decide_eq_true_2 _ (Hk eq_refl)).
  - repeat case_match; try (by exists 0%nat); try (by exists 1%nat).
    destruct Hno'. repeat match goal with H : negb _ = false |- _ => apply negb_false_iff in H end.
    rewrite !bool_decide_eq_true in *. split_and!; [done| |by apply Hw|done..].
    intros Hb. rewrite Hb in *. simpl in *.
    match goal with H : negb _ = false |- _ => apply negb_false_iff in H end.
    by rewrite bool_decide_eq_true in *.
Qed.

(** The penalty an acceptable message earns without [byos], if any. *)
Definition gossip_penalty (s : P2P) (src : PeerId) (data : bytes) : option PenaltyType :=
  let v := validator s in
  let scores := decay_gossip_pure v (clock (S (ticks s))) src (score_manager s) in
  let new_score := validate_msg v (MGossipsub data)
                     (default DEFAULT_GOSSIP_APP_SCORE (get_gossipsub_app_score scores src)) in
  get_penalty v (MGossipsub data)
    (peer_scores (update_gossipsub_app_score src new_score scores) (peer_score (trace s) src) src).

(** The number of the clock reading that dates a message. *)
Definition date_reading (s : P2P) : nat := if byos then ticks s else S (S (ticks s)).

Definition gossip_muted (s : P2P) (src : PeerId) : Prop :=
  byos = false ∧ is_gossip_muted (clock (ticks s)) (peer_penalty_storage s) src = true.

Lemma accept_gossip_run src mid data s :
  accept_gossip src mid data s
    = (add_effect (EGossipEvent data) (add_effect (EReport mid src Accept) s),
       match gossip_events_send (trace s ++ [EReport mid src Accept]) data with
       | Ok _ => Done tt
       | Err e => Throw (Protocol (GossipEventsChannelClosed e))
       end).
Proof.
  unfold accept_gossip, report, emit, ask, mbind, stM_bind, getsS, modS, mret, stM_ret.
  simpl. by destruct (gossip_events_send _ _).
Qed.

(** The state in which the envelope is looked at. *)
Definition after_decay (s : P2P) (src : PeerId) : P2P :=
  if byos then s
  else upd_scores (λ _, decay_gossip_pure (validator s) (clock (S (ticks s))) src (score_manager s))
         (tick (tick s)).

Lemma handle_gossip_msg_run src mid data s :
  handle_gossip_msg src mid data s =
    if decide (gossip_muted s src) then (tick s, Done tt)
    else match from_slice data with
         | None => report mid src Reject (after_decay s src)
         | Some sm => handle_signed_gossip src mid sm (after_decay s src)
         end.
Proof.
  unfold handle_gossip_msg, after_decay, now, mbind, stM_bind, getsS, modS, mret, stM_ret.
  destruct (decide (gossip_muted s src)) as [[Hb Hm]|Hm].
  - rewrite Hb. simpl. by rewrite Hm.
  - unfold gossip_muted in Hm. destruct byos; simpl; [by destruct (from_slice data)|].
    destruct (is_gossip_muted _ _ _); [naive_solver|]. simpl. rewrite decay_gossip_score_run.
    by destruct (from_slice data).
Qed.

Lemma after_decay_same s src :
  config (after_decay s src) = config s ∧ trace (after_decay s src) = trace s ∧
  app_allowlist (after_decay s src) = app_allowlist s ∧
  ticks (after_decay s src) = date_reading s.
Proof. unfold after_decay, date_reading. by destruct byos. Qed.

Lemma report_iter_trace mid src a n s :
  trace (add_effect (EReport mid src a) (Nat.iter n tick s)) = trace s ++ [EReport mid src a].
Proof. simpl. f_equal. by induction n. Qed.

(** Scoring and acceptance. *)
Lemma finish_gossip_effects src mid data s :
  let '(s', o) := finish_gossip src mid data (tick (after_decay s src)) in
  match (if byos then None else gossip_penalty s src data) with
  | Some pen =>
      (trace s' = trace s ++ match pen with Ban _ => [EDisconnect src] | _ => [] end ∧
       o = Done tt) ∨ (trace s' = trace s ∧ o = Panic)
  | None =>
      trace s' = trace s ++ [EReport mid src Accept; EGossipEvent data] ∧
      o = match gossip_events_send (trace s ++ [EReport mid src Accept]) data with
          | Ok _ => Done tt
          | Err e => Throw (Protocol (GossipEventsChannelClosed e))
          end
  end.
Proof.
  unfold finish_gossip, gossip_penalty, after_decay. destruct byos.
  - unfold mbind, stM_bind, mret, stM_ret. rewrite accept_gossip_run. simpl.
    by rewrite <-app_assoc.
  - unfold score_gossip, mbind, stM_bind, getsS, modS, mret, stM_ret. simpl.
    destruct (get_penalty _ _ _) as [pen|]; simpl.
    + match goal with |- context [apply_penalty src pen ?s1] =>
        pose proof (apply_penalty_effects src pen s1) as Hpen;
        destruct (apply_penalty src pen s1) as [s' [[]|e|]] end; simpl in *;
        destruct Hpen as [_ Hpen]; [by left|done|by right].
    + rewrite accept_gossip_run. simpl. by rewrite <-app_assoc.
Qed.

(** C3. Every gossip message gets exactly the verdict its content deserves, in
    both builds and on every branch.  From a muted peer it is dropped with no
    effect; otherwise, if it does not decode, or its signature, allowlisting
    ([byos]), date window, protocol or version is wrong, the only effect is a
    Reject report; otherwise, if the validator asks for a penalty (without
    [byos]), nothing is reported, nothing is delivered and only a ban has an
    effect (the disconnection); otherwise it is reported accepted and then its
    payload is delivered once, and the node stops with an error exactly when
    nobody listens for gossip events. *)
Theorem gossip_message_verdict s src mid data :
  durations_ok (config s) → no_overflow s (clock (date_reading s)) →
  let '(s', o) := handle_gossip_msg src mid data s in
  (gossip_muted s src → trace s' = trace s ∧ o = Done tt) ∧
  (¬ gossip_muted s src →
   (∀ sm, from_slice data = Some sm → ¬ acceptable_gossip s (clock (date_reading s)) sm) →
   trace s' = trace s ++ [EReport mid src Reject] ∧ o = Done tt) ∧
  (∀ sm, ¬ gossip_muted s src → from_slice data = Some sm →
     acceptable_gossip s (clock (date_reading s)) sm →
     match (if byos then None else gossip_penalty s src (g_message (message sm))) with
     | Some pen =>
         (trace s' = trace s ++ match pen with Ban _ => [EDisconnect src] | _ => [] end ∧
          o = Done tt) ∨ (trace s' = trace s ∧ o = Panic)
     | None =>
         trace s' = trace s ++ [EReport mid src Accept; EGossipEvent (g_message (message sm))] ∧
         o = match gossip_events_send (trace s ++ [EReport mid src Accept])
                     (g_message (message sm)) with
             | Ok _ => Done tt
             | Err e => Throw (Protocol (GossipEventsChannelClosed e))
             end
     end).
Proof.
  intros Hd Hno. rewrite handle_gossip_msg_run.
  destruct (after_decay_same s src) as (Hc & Ht & Hal & Htk).
  destruct (decide (gossip_muted s src)) as [Hm|Hm]; [by split_and!|].
  assert (∀ sm, acceptable_gossip (after_decay s src) (clock (date_reading s)) sm
                ↔ acceptable_gossip s (clock (date_reading s)) sm) as Hacc
    by (intros sm; unfold acceptable_gossip; by rewrite Hc, Hal).
  destruct (from_slice data) as [sm|].
  2: { simpl. rewrite Ht. by split_and!. }
  pose proof (handle_signed_gossip_run src mid sm (after_decay s src)) as Hrun.
  unfold no_overflow in Hrun. rewrite Hc, Htk in Hrun. specialize (Hrun Hd Hno).
  pose proof (finish_gossip_effects src mid (g_message (message sm)) s) as Hfin.
  destruct (decide _) as [Hok|Hok] in Hrun.
  - rewrite Hrun. destruct (finish_gossip _ _ _ _) as [s' o]. rewrite Hacc in Hok.
    split_and!; [done| |].
    + intros _ Hall. destruct (Hall sm eq_refl Hok).
    + intros sm' _ [= <-] _. exact Hfin.
  - destruct Hrun as [n ->]. rewrite report_iter_trace, Ht. rewrite Hacc in Hok.
    split_and!; [done|done|]. by intros sm' _ [= <-].
Qed.
End Verdict.

(** ** From one node to another *)

Section EndToEnd.
Context {P : Platform} {L : PlatformLaws P} {Q : Queue Multiaddr}.

Lemma handle_gossip_command_publishes {E : Env} data s :
  signs_for (signer s) (own_key s) → 0 ≤ clock (ticks s) → is_u64 (as_secs (clock (ticks s))) →
  trace (handle_gossip_command data s).1 = trace s ∨
  ∃ b sm, trace (handle_gossip_command data s).1 = trace s ++ [EPublish (topic s) b] ∧
    from_slice b = Some sm ∧ verify sm = Ok true ∧
    message sm = {| g_version := GossipV2; g_protocol := Gossip; g_message := data;
                    g_public_key := own_key s; g_date := as_secs (clock (ticks s)) |}.
Proof.
  intros Hs Hc Hu. unfold handle_gossip_command, GossipMessage_new, get_timestamp. run_simpl.
  rewrite duration_since_epoch by done. cbn [mbind option_bind or_panic]. run_simpl.
  cbn [signer tick].
  set (m := {| g_version := _ |}).
  destruct (SignedMessage_new m (signer s)) as [sm|] eqn:Hsm; [|by left]. simpl.
  destruct (to_vec sm) as [b|] eqn:Hb; [|by left]. right. simpl.
  apply signed_message_verifies in Hsm as [Hm Hv]; [|done].
  exists b, sm. split_and!; [done| |done|done].
  apply (signed_roundtrip sm); [|done]. rewrite Hm. by apply gossip_message_roundtrip.
Qed.

(** Gossip from node [a] to node [b]: whatever [a] publishes is decoded by
    [b] to an envelope with exactly the payload [a]'s application gave, and
    [b] finds it acceptable if (with [byos]) [a]'s key is on [b]'s allowlist
    and [a]'s clock is in [b]'s window; [a] publishes at most one message per
    command and has no other effect. *)
Theorem gossip_published_acceptable (Ea Eb : Env) (a b : P2P) data t :
  signs_for (signer a) (@own_key _ _ Ea a) →
  0 ≤ @clock _ Ea (ticks a) → is_u64 (as_secs (@clock _ Ea (ticks a))) →
  (@byos _ Eb = true → @own_key _ _ Ea a ∈ app_allowlist b) →
  Fresh (now_secs_or_default t) (envelope_max_age (config b)) (max_clock_skew (config b))
    (as_secs (@clock _ Ea (ticks a))) →
  let a' := (@handle_gossip_command _ _ Ea data a).1 in
  trace a' = trace a ∨
  ∃ raw sm, trace a' = trace a ++ [EPublish (topic a) raw] ∧
    from_slice raw = Some sm ∧ g_message (message sm) = data ∧
    @acceptable_gossip _ _ Eb b t sm.
Proof.
  intros Hs Hc Hu Hal Hf a'.
  destruct (handle_gossip_command_publishes data a Hs Hc Hu)
    as [?|(raw & sm & Htr & Hraw & Hv & Hm)]; [by left|right].
  exists raw, sm. split; [done|]. split; [done|]. unfold acceptable_gossip. rewrite Hm.
  by split_and!.
Qed.
End EndToEnd.

(** ** Example: a message from an allowlisted key, in a BYOS build *)

Section GossipExample.
#[local] Existing Instances Toy.platform Toy.platform_laws ToyNode.queue_inst.
#[local] Instance gossip_env : Env := ToyNode.env true.

Definition toy_gossip_message : GossipMessage :=
  {| g_version := GossipV2; g_protocol := Gossip; g_message := [Byte.x07];
     g_public_key := 3%nat : PublicKey; g_date := 900 |}.

Lemma toy_gossip_decodes :
  from_slice (ToyNode.signed_bytes toy_gossip_message) = Some (ToyNode.signed toy_gossip_message).
Proof. apply ToyNode.signed_decodes, gossip_message_roundtrip. split; vm_compute; discriminate. Qed.

Lemma toy_gossip_acceptable :
  acceptable_gossip ToyNode.node (clock (date_reading ToyNode.node))
    (ToyNode.signed toy_gossip_message).
Proof.
  split_and!; [by apply ToyNode.signed_verifies|intros _; by apply elem_of_singleton
              |split; vm_compute; discriminate|reflexivity|reflexivity].
Qed.

Lemma gossip_message_verdict_witness :
  trace (handle_gossip_msg (107%nat : PeerId) (1%nat : MessageId)
           (ToyNode.signed_bytes toy_gossip_message) ToyNode.node).1
    = [EReport (1%nat : MessageId) (107%nat : PeerId) Accept; EGossipEvent [Byte.x07]].
Proof.
  pose proof (gossip_message_verdict ToyNode.node (107%nat : PeerId) (1%nat : MessageId)
    (ToyNode.signed_bytes toy_gossip_message)
    ltac:(split; vm_compute; discriminate) ltac:(vm_compute; discriminate)) as Hv.
  destruct (handle_gossip_msg _ _ _ _) as [s' o].
  destruct Hv as (_ & _ & Hv).
  assert (¬ gossip_muted ToyNode.node (107%nat : PeerId)) as Hnm
    by (intros [Hb _]; discriminate Hb).
  specialize (Hv _ Hnm toy_gossip_decodes toy_gossip_acceptable).
  exact (proj1 Hv).
Defined.

Lemma gossip_published_acceptable_witness :
  ∃ raw sm,
    trace (@handle_gossip_command _ _ (ToyNode.env false) [Byte.x07] ToyNode.node).1
      = [EPublish "strata"%string raw] ∧
    from_slice raw = Some sm ∧ g_message (message sm) = [Byte.x07].
Proof.
  destruct (gossip_published_acceptable (ToyNode.env false) (ToyNode.env false) ToyNode.node
    ToyNode.node [Byte.x07] (from_secs 1005)) as [Hno|(raw & sm & Htr & Hraw & Hm & _)].
  - exact (transport_signer_signs (5%nat : Keypair)).
  - vm_compute. discriminate.
  - split; vm_compute; discriminate.
  - discriminate.
  - split; vm_compute; discriminate.
  - exfalso. revert Hno. unfold handle_gossip_command. cbv [mbind stM_bind].
    discriminate.
  - exists raw, sm. split; [exact Htr|split; [exact Hraw|exact Hm]].
Defined.
End GossipExample.
