(* ===== verification/ReqResp.v ===== *)
(** * Request/response ([swarm/mod.rs]: [handle_request_response_event],
    [handle_message_event], [handle_request_response_command]) *)

From Stdlib Require Import Init.Byte.
From S2P Require Import Prelude Time Float64 Platform Message Scores Validator Errors Setup Config Dial Node Scoring.
Open Scope Z_scope.

Section ReqResp.
Context {P : Platform} {Q : Queue Multiaddr} {E : Env}.

(** commands.rs *)
Record RequestResponseCommand : Type := { rrc_target : PeerTarget; rrc_data : bytes }.

(** libp2p's [request_response::Message] and [Event]; request ids and error
    texts are only logged. *)
Inductive RequestResponseMessage : Type :=
  | Request (request : bytes) (channel : ResponseChannel)
  | Response (response : bytes).
Inductive RequestResponseEvent : Type :=
  | RRMessage (peer : PeerId) (message : RequestResponseMessage)
  | OutboundFailure (peer : PeerId) (unsupported_protocols : bool)
  | InboundFailure (peer : PeerId)
  | ResponseSent (peer : PeerId).

(** ** Sending requests *)

Definition target_peer_id (target : PeerTarget) (sb : SetupBehaviour) : option PeerId :=
  match target with
  | TargetAppPublicKey k => get_transport_id_by_application_key sb k
  | TargetTransportId p => Some p
  end.

Definition handle_request_response_command (cmd : RequestResponseCommand) : M unit :=
  sb ← getsS setup;
  match target_peer_id (rrc_target cmd) sb with
  | None => mret tt
  | Some peer_id =>
      app_public_key ← own_public_key;
      t ← now;
      request_message ← or_panic (RequestMessage_new t app_public_key (rrc_data cmd) peer_id);
      sg ← getsS signer;
      match SignedMessage_new request_message sg with
      | Err _ => mret tt
      | Ok signed_request_message =>
          match to_vec signed_request_message with
          | None => mret tt
          | Some signed_request_message_data =>
              connected ← ask swarm_is_connected;
              if connected peer_id : bool
              then emit (ESendRequest peer_id signed_request_message_data)
              else mret tt
          end
      end
  end.

(** ** Receiving *)

(** With [byos]: the key is on the allowlist and is the one [peer_id] proved
    at setup. *)
Definition sender_allowed (peer_id : PeerId) (key : PublicKey) : M bool :=
  if byos then
    allowlist ← getsS app_allowlist;
    if negb (bool_decide (key ∈ allowlist)) then mret false
    else
      sb ← getsS setup;
      match get_app_public_key_by_transport_id sb peer_id with
      | Some expected_key => mret (bool_decide (expected_key = key))
      | None => mret false
      end
  else mret true.

(** Without [byos]: decay, score the message, and apply the penalty the
    validator asks for; [true] when there was one. *)
Definition score_req_resp (peer_id : PeerId) (msg : MessageType) : M bool :=
  _ ← decay_request_response_score peer_id;
  sm ← getsS score_manager;
  v ← getsS validator;
  let old_app_score := default DEFAULT_REQ_RESP_APP_SCORE (get_req_resp_score sm peer_id) in
  let updated_score := validate_msg v msg old_app_score in
  _ ← modS (upd_scores (update_req_resp_app_score peer_id updated_score));
  peer_score ← get_all_scores peer_id;
  match get_penalty v msg peer_score with
  | Some penalty => _ ← apply_penalty peer_id penalty; mret true
  | None => mret false
  end.

(** [timeout(reqresp_timeout, self.req_resp_events.send(event)).await]: a
    closed channel stops the node, a timeout is only logged. *)
Definition send_req_resp_event (event : ReqRespEvent) : M unit :=
  send_result ← ask (λ tr, req_resp_events_send tr event);
  _ ← emit (EReqRespEvent event);
  match send_result with
  | InTime (Err e) => throw (Protocol (ReqRespEventChannelClosed e))
  | InTime (Ok _) | TimedOut => mret tt
  end.

(** The application's answer, signed and sent back. *)
Definition send_signed_response (channel : ResponseChannel) (response : bytes) : M unit :=
  app_public_key ← own_public_key;
  t ← now;
  response_message ← or_panic (ResponseMessage_new t app_public_key response);
  sg ← getsS signer;
  match SignedMessage_new response_message sg with
  | Err _ => mret tt
  | Ok signed_response_message =>
      match to_vec signed_response_message with
      | None => mret tt
      | Some signed_response_message_data =>
          emit (ESendResponse channel signed_response_message_data)
      end
  end.

Definition deliver_request (channel : ResponseChannel) (data : bytes) : M unit :=
  _ ← send_req_resp_event (ReceivedRequest data);
  resp ← ask (λ tr, response_recv tr data);
  match resp with
  | InTime (Ok response) => send_signed_response channel response
  | InTime (Err _) | TimedOut => mret tt
  end.

(** From the verified request on: sender, date, protocol, version, score, age. *)
Definition check_request (peer_id : PeerId) (channel : ResponseChannel)
    (request : RequestMessage) : M unit :=
  if negb (bool_decide (rq_destination_peer_id request = local_peer_id)) then mret tt
  else
    allowed ← sender_allowed peer_id (rq_public_key request);
    if negb allowed then mret tt
    else
      skew ← getsS (λ s, max_clock_skew (config s));
      now_secs1 ← now_secs;
      limit ← add_u64 now_secs1 (as_secs skew);
      if limit <? rq_date request then mret tt
      else if negb (bool_decide (rq_protocol request = RequestResponse)) then mret tt
      else if negb (bool_decide (rq_version request = ReqRespV2)) then mret tt
      else
        penalised ← (if byos then mret false
                     else score_req_resp peer_id (MRequest (rq_message request)));
        if penalised : bool then mret tt
        else
          max_age ← getsS (λ s, envelope_max_age (config s));
          now_secs2 ← now_secs;
          let age := from_secs (saturating_sub now_secs2 (rq_date request)) in
          if max_age <? age then mret tt
          else deliver_request channel (rq_message request).

Definition check_response (peer_id : PeerId) (response : ResponseMessage) : M unit :=
  allowed ← sender_allowed peer_id (rs_app_public_key response);
  if negb allowed then mret tt
  else
    skew ← getsS (λ s, max_clock_skew (config s));
    now_secs1 ← now_secs;
    limit ← add_u64 now_secs1 (as_secs skew);
    if limit <? rs_date response then mret tt
    else if negb (bool_decide (rs_protocol response = RequestResponse)) then mret tt
    else if negb (bool_decide (rs_version response = ReqRespV2)) then mret tt
    else
      penalised ← (if byos then mret false
                   else score_req_resp peer_id (MResponse (rs_message response)));
      if penalised : bool then mret tt
      else
        max_age ← getsS (λ s, envelope_max_age (config s));
        now_secs2 ← now_secs;
        let age := from_secs (saturating_sub now_secs2 (rs_date response)) in
        if max_age <? age then mret tt
        else send_req_resp_event (ReceivedResponse (rs_message response)).

(** [is_req_resp_muted], without [byos] only. *)
Definition req_resp_muted (peer_id : PeerId) : M bool :=
  if byos then mret false
  else t ← now; st ← getsS peer_penalty_storage; mret (is_req_resp_muted t st peer_id).

Definition handle_request (peer_id : PeerId) (request : bytes) (channel : ResponseChannel)
    : M unit :=
  muted ← req_resp_muted peer_id;
  if muted : bool then mret tt
  else
    match from_slice request with
    | None => mret tt
    | Some signed_message =>
        match verify signed_message with
        | Err _ => mret tt
        | Ok is_valid =>
            if negb is_valid then mret tt
            else check_request peer_id channel (message signed_message)
        end
    end.

Definition handle_response (peer_id : PeerId) (response : bytes) : M unit :=
  muted ← req_resp_muted peer_id;
  if muted : bool then mret tt
  else if bool_decide (response = []) then mret tt
  else
    match from_slice response with
    | None => mret tt
    | Some signed_response_message =>
        match verify signed_response_message with
        | Err _ => mret tt
        | Ok is_valid =>
            if negb is_valid then mret tt
            else check_response peer_id (message signed_response_message)
        end
    end.

Definition handle_message_event (peer_id : PeerId) (msg : RequestResponseMessage) : M unit :=
  match msg with
  | Request request channel => handle_request peer_id request channel
  | Response response => handle_response peer_id response
  end.

Definition handle_request_response_event (event : RequestResponseEvent) : M unit :=
  match event with
  | RRMessage peer message => handle_message_event peer message
  | OutboundFailure peer unsupported_protocols =>
      if unsupported_protocols then disconnect_peer_id peer else mret tt
  | InboundFailure _ => mret tt
  | ResponseSent _ => mret tt
  end.

(** *** Frame *)

Lemma keeps_req_resp_muted t p k q : moves (keeps t p k) (req_resp_muted q).
Proof. unfold req_resp_muted. solve_moves. Qed.
Lemma keeps_sender_allowed t p k q key : moves (keeps t p k) (sender_allowed q key).
Proof. unfold sender_allowed. solve_moves. Qed.
Lemma keeps_send_event t p k e : moves (keeps t p k) (send_req_resp_event e).
Proof. unfold send_req_resp_event. solve_moves. Qed.
Lemma keeps_score_req_resp t p k q msg : moves (keeps t p k) (score_req_resp q msg).
Proof. unfold score_req_resp. solve_moves. Qed.
#[local] Hint Resolve keeps_req_resp_muted keeps_sender_allowed keeps_send_event
  keeps_score_req_resp : moves.
Lemma keeps_deliver_request t p k ch d : moves (keeps t p k) (deliver_request ch d).
Proof. unfold deliver_request, send_signed_response. solve_moves. Qed.
#[local] Hint Resolve keeps_deliver_request : moves.
Lemma keeps_check_request t p k q ch r : moves (keeps t p k) (check_request q ch r).
Proof. unfold check_request. solve_moves. Qed.
Lemma keeps_check_response t p k q r : moves (keeps t p k) (check_response q r).
Proof. unfold check_response. solve_moves. Qed.
#[local] Hint Resolve keeps_check_request keeps_check_response : moves.
Lemma keeps_handle_request_response_event t p k e :
  moves (keeps t p k) (handle_request_response_event e).
Proof.
  destruct e as [q []| | |]; simpl; unfold handle_request, handle_response; solve_moves.
Qed.
Lemma keeps_handle_request_response_command t p k c :
  moves (keeps t p k) (handle_request_response_command c).
Proof. unfold handle_request_response_command. solve_moves. Qed.
End ReqResp.

#[export] Hint Resolve keeps_handle_request_response_event
  keeps_handle_request_response_command : moves.

(** ** What becomes of a received envelope *)

Section Verdict.
Context {P : Platform} {Q : Queue Multiaddr} {E : Env}.

Definition sender_ok (s : P2P) (p : PeerId) (key : PublicKey) : Prop :=
  byos = true →
  key ∈ app_allowlist s ∧ get_app_public_key_by_transport_id (setup s) p = Some key.

#[export] Instance sender_ok_dec s p key : Decision (sender_ok s p key).
Proof. unfold sender_ok. destruct byos; apply _. Defined.

Lemma sender_allowed_run p key s :
  sender_allowed p key s = (s, Done (bool_decide (sender_ok s p key))).
Proof.
  unfold sender_allowed. destruct byos eqn:Hb.
  2: { rewrite bool_decide_eq_true_2; [done|]. unfold sender_ok. congruence. }
  unfold mbind, stM_bind, getsS, mret, stM_ret. case_bool_decide as Hk; simpl.
  - destruct (get_app_public_key_by_transport_id _ _) as [k'|] eqn:Hg.
    + do 2 f_equal. apply bool_decide_ext. unfold sender_ok. rewrite Hg. naive_solver.
    + rewrite bool_decide_eq_false_2; [done|]. intros Hs. destruct (Hs Hb). congruence.
  - rewrite bool_decide_eq_false_2; [done|]. intros Hs. by destruct (Hs Hb).
Qed.

(** The common end of [check_request] and [check_response]. *)
Definition envelope_tail (p : PeerId) (date : Z) (protocol_ok version_ok : bool)
    (msg : MessageType) (deliver : M unit) : M unit :=
  skew ← getsS (λ s, max_clock_skew (config s));
  now_secs1 ← now_secs;
  limit ← add_u64 now_secs1 (as_secs skew);
  if limit <? date then mret tt
  else if negb protocol_ok then mret tt
  else if negb version_ok then mret tt
  else
    penalised ← (if byos then mret false else score_req_resp p msg);
    if penalised : bool then mret tt
    else
      max_age ← getsS (λ s, envelope_max_age (config s));
      now_secs2 ← now_secs;
      let age := from_secs (saturating_sub now_secs2 date) in
      if max_age <? age then mret tt else deliver.

(** The scores after decay at the next clock reading and the message's cost. *)
Definition rescored (s : P2P) (p : PeerId) (msg : MessageType) : ScoreManager :=
  let v := validator s in
  let sc := decay_req_resp_pure v (clock (ticks s)) p (score_manager s) in
  update_req_resp_app_score p
    (validate_msg v msg (default DEFAULT_REQ_RESP_APP_SCORE (get_req_resp_score sc p))) sc.

Definition scored (s : P2P) (p : PeerId) (msg : MessageType) : P2P :=
  if byos then s else upd_scores (λ _, rescored s p msg) (tick s).

Definition req_resp_penalty (s : P2P) (p : PeerId) (msg : MessageType) : option PenaltyType :=
  if byos then None
  else get_penalty (validator s) msg (peer_scores (rescored s p msg) (peer_score (trace s) p) p).

Lemma score_req_resp_run p msg s :
  score_req_resp p msg s =
    let s1 := upd_scores (λ _, rescored s p msg) (tick s) in
    match get_penalty (validator s) msg
            (peer_scores (rescored s p msg) (peer_score (trace s) p) p) with
    | Some pen => (_ ← apply_penalty p pen; mret true) s1
    | None => (s1, Done false)
    end.
Proof.
  unfold score_req_resp, rescored. rewrite (bind_done _ _ _ _ tt (decay_request_response_score_run p s)).
  unfold mbind, stM_bind, getsS, modS, mret, stM_ret. simpl. by destruct (get_penalty _ _ _).
Qed.

Definition not_future (s : P2P) (t date : Z) : Prop :=
  date ≤ now_secs_or_default t + as_secs (max_clock_skew (config s)).
Definition not_stale (s : P2P) (t date : Z) : Prop :=
  now_secs_or_default t - as_secs (envelope_max_age (config s)) ≤ date.
#[export] Instance not_future_dec s t d : Decision (not_future s t d).
Proof. unfold not_future. apply _. Defined.
#[export] Instance not_stale_dec s t d : Decision (not_stale s t d).
Proof. unfold not_stale. apply _. Defined.

Lemma age_check date deliver s :
  0 ≤ envelope_max_age (config s) →
  (max_age ← getsS (λ s, envelope_max_age (config s));
   now_secs2 ← now_secs;
   let age := from_secs (saturating_sub now_secs2 date) in
   if max_age <? age then mret tt else deliver : M unit) s
  = if decide (not_stale s (clock (ticks s)) date) then deliver (tick s) else (tick s, Done tt).
Proof.
  intros Ha. run_simpl.
  rewrite stale_test by done. unfold not_stale.
  destruct (Z.ltb_spec date (now_secs_or_default (clock (ticks s)) - as_secs (envelope_max_age (config s)))) as [Hd|Hd];
    [by rewrite decide_False by lia|by rewrite decide_True by lia].
Qed.

Lemma envelope_tail_run p date pok vok msg deliver s :
  durations_ok (config s) → no_overflow s (clock (ticks s)) →
  envelope_tail p date pok vok msg deliver s =
    if decide (not_future s (clock (ticks s)) date ∧ pok = true ∧ vok = true) then
      let s1 := scored (tick s) p msg in
      match req_resp_penalty (tick s) p msg with
      | Some pen => (_ ← apply_penalty p pen; mret tt) s1
      | None => if decide (not_stale s (clock (ticks s1)) date) then deliver (tick s1)
                else (tick s1, Done tt)
      end
    else (tick s, Done tt).
Proof.
  intros [Ha Hs] Hno. unfold envelope_tail. run_simpl.
  destruct (Z.ltb_spec (now_secs_or_default (clock (ticks s)) + as_secs (max_clock_skew (config s)))
              date) as [Hd|Hd]; [by rewrite decide_False by (unfold not_future; intros []; lia)|].
  destruct pok; [|by rewrite decide_False by naive_solver].
  destruct vok; [|by rewrite decide_False by naive_solver].
  rewrite decide_True by done. cbn [negb]. unfold scored, req_resp_penalty. cbv zeta.
  destruct byos eqn:Hb.
  - rewrite bind_ret_l. by rewrite age_check.
  - rewrite (bind_run _ _ _ _ _ (surjective_pairing _)), score_req_resp_run. cbv zeta.
    destruct (get_penalty _ _ _) as [pen|].
    + unfold mbind, stM_bind. by destruct (apply_penalty p pen _) as [s' []].
    + cbn [fst snd]. rewrite age_check by done. done.
Qed.

Lemma check_request_tail p ch rq :
  check_request p ch rq =
    if negb (bool_decide (rq_destination_peer_id rq = local_peer_id)) then mret tt
    else allowed ← sender_allowed p (rq_public_key rq);
         if negb allowed then mret tt
         else envelope_tail p (rq_date rq) (bool_decide (rq_protocol rq = RequestResponse))
                (bool_decide (rq_version rq = ReqRespV2)) (MRequest (rq_message rq))
                (deliver_request ch (rq_message rq)).
Proof. reflexivity. Qed.

Lemma check_response_tail p rs :
  check_response p rs =
    allowed ← sender_allowed p (rs_app_public_key rs);
    if negb allowed then mret tt
    else envelope_tail p (rs_date rs) (bool_decide (rs_protocol rs = RequestResponse))
           (bool_decide (rs_version rs = ReqRespV2)) (MResponse (rs_message rs))
           (send_req_resp_event (ReceivedResponse (rs_message rs))).
Proof. reflexivity. Qed.

(** Without [byos] the muting check comes first and reads the clock. *)
Definition muted (s : P2P) (p : PeerId) : Prop :=
  byos = false ∧ is_req_resp_muted (clock (ticks s)) (peer_penalty_storage s) p = true.
#[export] Instance muted_dec s p : Decision (muted s p) := _.

Definition unmuted_state (s : P2P) : P2P := if byos then s else tick s.

Lemma muted_bool s p :
  bool_decide (muted s p)
    = if byos then false else is_req_resp_muted (clock (ticks s)) (peer_penalty_storage s) p.
Proof.
  case_bool_decide as Hm; unfold muted in Hm.
  - destruct Hm as [-> Hm]. done.
  - destruct byos; [done|]. by destruct (is_req_resp_muted _ _ _); [destruct Hm|].
Qed.

Lemma bind_req_resp_muted {A} p (k : bool → M A) s :
  (req_resp_muted p ≫= k) s
    = k (bool_decide (muted s p)) (unmuted_state s).
Proof. rewrite muted_bool. unfold req_resp_muted, unmuted_state. by destruct byos. Qed.

Lemma bind_sender_allowed {A} p key (k : bool → M A) s :
  (sender_allowed p key ≫= k) s = k (bool_decide (sender_ok s p key)) s.
Proof. by rewrite (bind_done _ _ _ _ _ (sender_allowed_run p key s)). Qed.

(** What an envelope must be to count, at clock reading [t]. *)
Definition admissible_request (s : P2P) (t : Z) (p : PeerId) (rq : RequestMessage) : Prop :=
  rq_destination_peer_id rq = local_peer_id ∧ sender_ok s p (rq_public_key rq) ∧
  not_future s t (rq_date rq) ∧ rq_protocol rq = RequestResponse ∧ rq_version rq = ReqRespV2.

Definition admissible_response (s : P2P) (t : Z) (p : PeerId) (rs : ResponseMessage) : Prop :=
  sender_ok s p (rs_app_public_key rs) ∧
  not_future s t (rs_date rs) ∧ rs_protocol rs = RequestResponse ∧ rs_version rs = ReqRespV2.

(** What an admissible envelope leads to: a penalty, oblivion when it is too
    old at the second clock reading, or delivery. *)
Definition consequence (s : P2P) (p : PeerId) (msg : MessageType) (date : Z)
    (deliver : M unit) : P2P * outcome SwarmError unit :=
  let s1 := scored s p msg in
  match req_resp_penalty s p msg with
  | Some pen => (_ ← apply_penalty p pen; mret tt) s1
  | None => if decide (not_stale s1 (clock (ticks s1)) date) then deliver (tick s1)
            else (tick s1, Done tt)
  end.

Lemma envelope_tail_ignored p date pok vok msg deliver s :
  durations_ok (config s) → no_overflow s (clock (ticks s)) →
  ¬ (not_future s (clock (ticks s)) date ∧ pok = true ∧ vok = true) →
  envelope_tail p date pok vok msg deliver s = (tick s, Done tt).
Proof. intros Hd Hno Hbad. rewrite envelope_tail_run by done. by rewrite decide_False. Qed.

Lemma envelope_tail_counts p date pok vok msg deliver s :
  durations_ok (config s) → no_overflow s (clock (ticks s)) →
  not_future s (clock (ticks s)) date → pok = true → vok = true →
  envelope_tail p date pok vok msg deliver s = consequence (tick s) p msg date deliver.
Proof.
  intros Hd Hno Hnf Hp Hv. rewrite envelope_tail_run by done. rewrite decide_True by done.
  unfold consequence. cbv zeta. destruct (req_resp_penalty _ _ _); [done|].
  assert (config (scored (tick s) p msg) = config s) as Hc
    by (unfold scored; by destruct byos).
  destruct (decide (not_stale s _ date)) as [Ho|Ho];
    [rewrite decide_True; [done|]|rewrite decide_False; [done|]];
    unfold not_stale; by rewrite Hc.
Qed.

Lemma check_request_run p ch rq s :
  durations_ok (config s) → no_overflow s (clock (ticks s)) →
  (admissible_request s (clock (ticks s)) p rq →
   check_request p ch rq s
     = consequence (tick s) p (MRequest (rq_message rq)) (rq_date rq)
         (deliver_request ch (rq_message rq))) ∧
  (¬ admissible_request s (clock (ticks s)) p rq →
   untouched s (check_request p ch rq s).1 ∧ (check_request p ch rq s).2 = Done tt).
Proof.
  intros Hd Hno. rewrite check_request_tail. unfold admissible_request. split.
  - intros (Hdst & Hs & Hf & Hp & Hv). rewrite (bool_decide_eq_true_2 _ Hdst). cbn [negb].
    rewrite bind_sender_allowed, (bool_decide_eq_true_2 _ Hs). cbn [negb].
    apply envelope_tail_counts; auto using bool_decide_eq_true_2.
  - intros Hbad. case_bool_decide as Hdst; [|by split; [exists 0%nat|]]. cbn [negb].
    rewrite bind_sender_allowed. case_bool_decide as Hs; [|by split; [exists 0%nat|]]. cbn [negb].
    rewrite envelope_tail_ignored; [by split; [exists 1%nat|]|done|done|].
    rewrite !bool_decide_eq_true. tauto.
Qed.

Lemma check_response_run p rs s :
  durations_ok (config s) → no_overflow s (clock (ticks s)) →
  (admissible_response s (clock (ticks s)) p rs →
   check_response p rs s
     = consequence (tick s) p (MResponse (rs_message rs)) (rs_date rs)
         (send_req_resp_event (ReceivedResponse (rs_message rs)))) ∧
  (¬ admissible_response s (clock (ticks s)) p rs →
   untouched s (check_response p rs s).1 ∧ (check_response p rs s).2 = Done tt).
Proof.
  intros Hd Hno. rewrite check_response_tail. unfold admissible_response.
  rewrite bind_sender_allowed. split.
  - intros (Hs & Hf & Hp & Hv). rewrite (bool_decide_eq_true_2 _ Hs). cbn [negb].
    apply envelope_tail_counts; auto using bool_decide_eq_true_2.
  - intros Hbad. case_bool_decide as Hs; [|by split; [exists 0%nat|]]. cbn [negb].
    rewrite envelope_tail_ignored; [by split; [exists 1%nat|]|done|done|].
    rewrite !bool_decide_eq_true. tauto.
Qed.

Lemma unmuted_state_same s :
  config (unmuted_state s) = config s ∧ untouched s (unmuted_state s).
Proof.
  unfold unmuted_state. destruct byos; split; try done; [by exists 0%nat|by exists 1%nat].
Qed.

Lemma unmuted_conditions s :
  durations_ok (config s) → no_overflow s (clock (ticks (unmuted_state s))) →
  durations_ok (config (unmuted_state s)) ∧
  no_overflow (unmuted_state s) (clock (ticks (unmuted_state s))).
Proof. unfold no_overflow. by destruct (unmuted_state_same s) as [-> _]. Qed.

(** An envelope that passes every check. *)
Lemma handle_request_counts s p request ch sm :
  durations_ok (config s) → no_overflow s (clock (ticks (unmuted_state s))) →
  ¬ muted s p → from_slice request = Some sm → verify sm = Ok true →
  admissible_request (unmuted_state s) (clock (ticks (unmuted_state s))) p (message sm) →
  handle_request p request ch s
    = consequence (tick (unmuted_state s)) p (MRequest (rq_message (message sm)))
        (rq_date (message sm)) (deliver_request ch (rq_message (message sm))).
Proof.
  intros Hd Hno Hm Hdec Hv Ha. destruct (unmuted_conditions s Hd Hno).
  unfold handle_request. rewrite bind_req_resp_muted, (bool_decide_eq_false_2 _ Hm), Hdec, Hv.
  by apply check_request_run.
Qed.
Lemma handle_response_counts s p response sm :
  durations_ok (config s) → no_overflow s (clock (ticks (unmuted_state s))) →
  ¬ muted s p → response ≠ [] → from_slice response = Some sm → verify sm = Ok true →
  admissible_response (unmuted_state s) (clock (ticks (unmuted_state s))) p (message sm) →
  handle_response p response s
    = consequence (tick (unmuted_state s)) p (MResponse (rs_message (message sm)))
        (rs_date (message sm)) (send_req_resp_event (ReceivedResponse (rs_message (message sm)))).
Proof.
  intros Hd Hno Hm Hne Hdec Hv Ha. destruct (unmuted_conditions s Hd Hno).
  unfold handle_response.
  rewrite bind_req_resp_muted, (bool_decide_eq_false_2 _ Hm), (bool_decide_eq_false_2 _ Hne), Hdec, Hv.
  by apply check_response_run.
Qed.

(** C4. Requests, both builds, every branch: a request counts if and only if its
    sender is not muted, it decodes, its signature verifies, it names this node
    as destination, its key is allowlisted and is the one the connection proved
    ([byos]), it is not from the future, and protocol and version are right.  A
    request that does not count changes nothing at all, and no answer is sent;
    one that counts is scored and penalised if the validator says so (without
    [byos]), else dropped when older than the limit at the second clock
    reading, else delivered. *)
Theorem request_verdict s p request ch :
  durations_ok (config s) → no_overflow s (clock (ticks (unmuted_state s))) →
  let counts sm := ¬ muted s p ∧ from_slice request = Some sm ∧ verify sm = Ok true ∧
    admissible_request (unmuted_state s) (clock (ticks (unmuted_state s))) p (message sm) in
  (∀ sm, counts sm →
     handle_request p request ch s
       = consequence (tick (unmuted_state s)) p (MRequest (rq_message (message sm)))
           (rq_date (message sm)) (deliver_request ch (rq_message (message sm)))) ∧
  ((∀ sm, ¬ counts sm) →
     untouched s (handle_request p request ch s).1 ∧ (handle_request p request ch s).2 = Done tt).
Proof.
  intros Hd Hno counts.
  destruct (unmuted_state_same s) as [_ Hu]. destruct (unmuted_conditions s Hd Hno) as [Hd' Hno'].
  split.
  - intros sm (Hm & Hdec & Hv & Ha). by apply handle_request_counts.
  - intros Hbad. unfold handle_request. rewrite bind_req_resp_muted. case_bool_decide as Hm; [done|].
    destruct (from_slice request) as [sm|] eqn:Hdec; [|done].
    destruct (verify sm) as [[]|] eqn:Hv; [|done..]. cbn [negb].
    destruct (check_request_run p ch (message sm) (unmuted_state s) Hd' Hno') as [_ Hr].
    destruct Hr as [Hr1 Hr2]; [intros Ha; by apply (Hbad sm)|].
    split; [by eapply untouched_trans|done].
Qed.

(** C18. Responses: the same, with no destination to check and the empty
    response (what a peer gets when no answer was sent) dropped first. *)
Theorem response_verdict s p response :
  durations_ok (config s) → no_overflow s (clock (ticks (unmuted_state s))) →
  let counts sm := ¬ muted s p ∧ response ≠ [] ∧ from_slice response = Some sm ∧
    verify sm = Ok true ∧
    admissible_response (unmuted_state s) (clock (ticks (unmuted_state s))) p (message sm) in
  (∀ sm, counts sm →
     handle_response p response s
       = consequence (tick (unmuted_state s)) p (MResponse (rs_message (message sm)))
           (rs_date (message sm))
           (send_req_resp_event (ReceivedResponse (rs_message (message sm))))) ∧
  ((∀ sm, ¬ counts sm) →
     untouched s (handle_response p response s).1 ∧ (handle_response p response s).2 = Done tt).
Proof.
  intros Hd Hno counts.
  destruct (unmuted_state_same s) as [_ Hu]. destruct (unmuted_conditions s Hd Hno) as [Hd' Hno'].
  split.
  - intros sm (Hm & Hne & Hdec & Hv & Ha). by apply handle_response_counts.
  - intros Hbad. unfold handle_response. rewrite bind_req_resp_muted. case_bool_decide as Hm; [done|].
    destruct (bool_decide_reflect (response = [])) as [|Hne]; [done|].
    destruct (from_slice response) as [sm|] eqn:Hdec; [|done].
    destruct (verify sm) as [[]|] eqn:Hv; [|done..]. cbn [negb].
    destruct (check_response_run p (message sm) (unmuted_state s) Hd' Hno') as [_ Hr].
    destruct Hr as [Hr1 Hr2]; [intros Ha; by apply (Hbad sm)|].
    split; [by eapply untouched_trans|done].
Qed.
End Verdict.

(** ** Answering, and sending *)

Section Answer.
Context {P : Platform} {L : PlatformLaws P} {Q : Queue Multiaddr}.

(** Sign, serialize: what any handler then sends decodes to what was meant. *)
Lemma signed_and_encoded {A} `{Serde A} `{!HasPublicKey A} (m : A) sg sm raw :
  signs_for sg (public_key m) → deserialize (serialize m) = Some m →
  SignedMessage_new m sg = Ok sm → to_vec sm = Some raw →
  from_slice raw = Some sm ∧ verify sm = Ok true ∧ message sm = m.
Proof.
  intros Hs Hrt Hnew Hraw. apply signed_message_verifies in Hnew as [Hm Hv]; [|done].
  split_and!; [|done|done]. apply (signed_roundtrip sm); [by rewrite Hm|done].
Qed.

Lemma send_signed_response_effects {E : Env} ch response s :
  signs_for (signer s) (own_key s) → 0 ≤ clock (ticks s) → is_u64 (as_secs (clock (ticks s))) →
  let '(s', o) := send_signed_response ch response s in
  o = Done tt ∧
  (trace s' = trace s ∨
   ∃ raw sm, trace s' = trace s ++ [ESendResponse ch raw] ∧
     from_slice raw = Some sm ∧ verify sm = Ok true ∧
     message sm = {| rs_version := ReqRespV2; rs_protocol := RequestResponse;
                     rs_message := response; rs_app_public_key := own_key s;
                     rs_date := as_secs (clock (ticks s)) |}).
Proof.
  intros Hs Hc Hu. unfold send_signed_response, ResponseMessage_new, get_timestamp. run_simpl.
  rewrite duration_since_epoch by done. cbn [mbind option_bind or_panic]. run_simpl.
  cbn [signer tick]. destruct (SignedMessage_new _ _) as [sm|] eqn:Hsm; [|by split; [|left]].
  destruct (to_vec sm) as [raw|] eqn:Hraw; [|by split; [|left]]. simpl. split; [done|right].
  exists raw, sm. split; [done|].
  refine (signed_and_encoded _ _ _ _ _ _ Hsm Hraw);
    [exact Hs|by apply response_message_roundtrip].
Qed.

(** Delivery of a request: the application is handed exactly the payload,
    once; a closed channel stops the node; and the peer is sent at most one
    answer, only when the application gave one in time, which decodes to the
    application's bytes under this node's verifying signature, as a current V2
    request/response message. *)
Theorem request_answered {E : Env} ch data s :
  signs_for (signer s) (own_key s) → 0 ≤ clock (ticks s) → is_u64 (as_secs (clock (ticks s))) →
  let handed := trace s ++ [EReqRespEvent (ReceivedRequest data)] in
  let '(s', o) := deliver_request ch data s in
  match req_resp_events_send (trace s) (ReceivedRequest data) with
  | InTime (Err e) => trace s' = handed ∧ o = Throw (Protocol (ReqRespEventChannelClosed e))
  | _ =>
      o = Done tt ∧
      (trace s' = handed ∨
       ∃ response raw sm, response_recv handed data = InTime (Ok response) ∧
         trace s' = handed ++ [ESendResponse ch raw] ∧
         from_slice raw = Some sm ∧ verify sm = Ok true ∧
         message sm = {| rs_version := ReqRespV2; rs_protocol := RequestResponse;
                         rs_message := response; rs_app_public_key := own_key s;
                         rs_date := as_secs (clock (ticks s)) |})
  end.
Proof.
  intros Hs Hc Hu handed. unfold deliver_request, send_req_resp_event. rewrite bind_assoc.
  run_simpl. rewrite bind_assoc. run_simpl.
  assert (∀ s1, s1 = add_effect (EReqRespEvent (ReceivedRequest data)) s →
    let '(s', o) := (resp ← ask (λ tr, response_recv tr data);
                     match resp with
                     | InTime (Ok response) => send_signed_response ch response
                     | InTime (Err _) | TimedOut => mret tt
                     end : M unit) s1 in
    o = Done tt ∧
    (trace s' = handed ∨
     ∃ response raw sm, response_recv handed data = InTime (Ok response) ∧
       trace s' = handed ++ [ESendResponse ch raw] ∧
       from_slice raw = Some sm ∧ verify sm = Ok true ∧
       message sm = {| rs_version := ReqRespV2; rs_protocol := RequestResponse;
                       rs_message := response; rs_app_public_key := own_key s;
                       rs_date := as_secs (clock (ticks s)) |})) as Hanswer.
  { intros s1 ->. rewrite bind_ask. cbn [trace add_effect]. fold handed.
    destruct (response_recv handed data) as [[response|]|] eqn:Hr; [|by split; [|left]..].
    pose proof (send_signed_response_effects ch response
      (add_effect (EReqRespEvent (ReceivedRequest data)) s) Hs Hc Hu) as Hsend.
    destruct (send_signed_response _ _ _) as [s' o]. destruct Hsend as [-> Hsend].
    split; [done|]. destruct Hsend as [?|(raw & sm & ?)]; [by left|right].
    by exists response, raw, sm. }
  destruct (req_resp_events_send _ _) as [[[]|e]|]; [|by split|]; rewrite bind_ret_l;
    by apply Hanswer.
Qed.

(** A request from node [a] to node [b]: a target that [a] has no transport
    id for is dropped; otherwise, to a connected peer, one request goes out,
    which [b] decodes to exactly [a]'s payload with a verifying signature, and
    which is admissible at [b] if [b] is that peer, knows [a]'s key by [a]'s
    transport id and allows it ([byos]), and [a]'s clock is not ahead of [b]'s
    window. *)
Theorem request_sent_admissible (Ea Eb : Env) (a b : P2P) cmd pa t :
  signs_for (signer a) (@own_key _ _ Ea a) →
  0 ≤ @clock _ Ea (ticks a) → is_u64 (as_secs (@clock _ Ea (ticks a))) →
  let '(a', o) := @handle_request_response_command _ _ Ea cmd a in
  o = Done tt ∧
  match target_peer_id (rrc_target cmd) (setup a) with
  | None => a' = a
  | Some p =>
      trace a' = trace a ∨
      (@swarm_is_connected _ Ea (trace a) p = true ∧
       ∃ raw sm, trace a' = trace a ++ [ESendRequest p raw] ∧ from_slice raw = Some sm ∧
         verify sm = Ok true ∧ rq_message (message sm) = rrc_data cmd ∧
         (@local_peer_id _ Eb = p →
          @sender_ok _ _ Eb b pa (@own_key _ _ Ea a) →
          not_future b t (as_secs (@clock _ Ea (ticks a))) →
          @admissible_request _ _ Eb b t pa (message sm)))
  end.
Proof.
  intros Hs Hc Hu. unfold handle_request_response_command. run_simpl.
  destruct (target_peer_id (rrc_target cmd) (setup a)) as [p|]; [|done]. run_simpl.
  unfold RequestMessage_new, get_timestamp.
  rewrite duration_since_epoch by done. cbn [mbind option_bind or_panic]. run_simpl.
  cbn [signer tick]. destruct (SignedMessage_new _ _) as [sm|] eqn:Hsm; [|by split; [|left]].
  destruct (to_vec sm) as [raw|] eqn:Hraw; [|by split; [|left]]. run_simpl. cbn [trace tick].
  destruct (swarm_is_connected (trace a) p) eqn:Hconn; [|by split; [|left]]. simpl. split; [done|right].
  refine (_ (signed_and_encoded _ _ _ _ _ _ Hsm Hraw));
    [intros (Hdec & Hv & Hm)|exact Hs|by apply request_message_roundtrip].
  split; [done|]. exists raw, sm. rewrite Hm. split_and!; done.
Qed.
End Answer.

(** ** Examples on the toy node *)

Section ReqRespExamples.
#[local] Existing Instances Toy.platform Toy.platform_laws ToyNode.queue_inst.
#[local] Instance reqresp_env : Env := ToyNode.env true.

(** Peer 107 has proved key 3. *)
Definition met_node : P2P :=
  upd_setup (on_connection_handler_event (107%nat : PeerId) 0%nat
               (HAppKeyReceived (3%nat : PublicKey))) ToyNode.node.

Definition toy_request : RequestMessage :=
  {| rq_version := ReqRespV2; rq_protocol := RequestResponse; rq_message := [Byte.x07];
     rq_destination_peer_id := 105%nat : PeerId; rq_public_key := 3%nat : PublicKey;
     rq_date := 900 |}.
Definition toy_response : ResponseMessage :=
  {| rs_version := ReqRespV2; rs_protocol := RequestResponse; rs_message := [Byte.x08];
     rs_app_public_key := 3%nat : PublicKey; rs_date := 900 |}.

Lemma toy_request_decodes :
  from_slice (ToyNode.signed_bytes toy_request) = Some (ToyNode.signed toy_request).
Proof. apply ToyNode.signed_decodes, request_message_roundtrip. split; vm_compute; discriminate. Qed.
Lemma toy_response_decodes :
  from_slice (ToyNode.signed_bytes toy_response) = Some (ToyNode.signed toy_response).
Proof. apply ToyNode.signed_decodes, response_message_roundtrip. split; vm_compute; discriminate. Qed.

Lemma met_sender_ok : sender_ok met_node (107%nat : PeerId) (3%nat : PublicKey).
Proof. intros _. split; [by apply elem_of_singleton|apply lookup_insert_eq]. Qed.

Lemma toy_unmuted : ¬ muted met_node (107%nat : PeerId).
Proof. intros [Hb _]. discriminate Hb. Qed.

Lemma request_verdict_witness :
  handle_request (107%nat : PeerId) (ToyNode.signed_bytes toy_request) (0%nat : ResponseChannel)
      met_node
    = consequence (tick met_node) (107%nat : PeerId) (MRequest [Byte.x07]) 900
        (deliver_request (0%nat : ResponseChannel) [Byte.x07]).
Proof.
  refine (proj1 (request_verdict met_node (107%nat : PeerId) (ToyNode.signed_bytes toy_request)
            (0%nat : ResponseChannel) _ _) (ToyNode.signed toy_request) _).
  - split; vm_compute; discriminate.
  - vm_compute. discriminate.
  - split; [exact toy_unmuted|]. split; [exact toy_request_decodes|].
    split; [by apply ToyNode.signed_verifies|].
    split; [reflexivity|]. split; [exact met_sender_ok|].
    split; [vm_compute; discriminate|split; reflexivity].
Defined.

Lemma response_verdict_witness :
  handle_response (107%nat : PeerId) (ToyNode.signed_bytes toy_response) met_node
    = consequence (tick met_node) (107%nat : PeerId) (MResponse [Byte.x08]) 900
        (send_req_resp_event (ReceivedResponse [Byte.x08])).
Proof.
  refine (proj1 (response_verdict met_node (107%nat : PeerId) (ToyNode.signed_bytes toy_response)
            _ _) (ToyNode.signed toy_response) _).
  - split; vm_compute; discriminate.
  - vm_compute. discriminate.
  - split; [exact toy_unmuted|]. split.
    { intros Hnil. pose proof toy_response_decodes as Hd. rewrite Hnil in Hd. discriminate Hd. }
    split; [exact toy_response_decodes|]. split; [by apply ToyNode.signed_verifies|].
    split; [exact met_sender_ok|]. split; [vm_compute; discriminate|split; reflexivity].
Defined.

Lemma request_answered_witness :
  ∃ s' o, deliver_request (0%nat : ResponseChannel) [Byte.x07] met_node = (s', o) ∧ o = Done tt.
Proof.
  assert (@own_key _ _ (ToyNode.env true) met_node = (5%nat : PublicKey)) as Hk by reflexivity.
  pose proof (request_answered (0%nat : ResponseChannel) [Byte.x07] met_node
    (transport_signer_signs (5%nat : Keypair)) ltac:(vm_compute; discriminate)
    ltac:(split; vm_compute; discriminate)) as Ha.
  destruct (deliver_request _ _ _) as [s' o]. exists s', o. split; [reflexivity|].
  exact (proj1 Ha).
Defined.

Lemma request_sent_admissible_witness :
  (handle_request_response_command
     {| rrc_target := TargetAppPublicKey (9%nat : PublicKey); rrc_data := [Byte.x07] |} met_node).1
  = met_node.
Proof.
  pose proof (request_sent_admissible (ToyNode.env true) (ToyNode.env true) met_node met_node
    {| rrc_target := TargetAppPublicKey (9%nat : PublicKey); rrc_data := [Byte.x07] |}
    (107%nat : PeerId) 0
    (transport_signer_signs (5%nat : Keypair)) ltac:(vm_compute; discriminate)
    ltac:(split; vm_compute; discriminate)) as Ha.
  destruct (handle_request_response_command _ _) as [s' o]. exact (proj2 Ha).
Defined.
End ReqRespExamples.
