(* ===== verification/Kad.v ===== *)
(** * The DHT ([swarm/mod.rs]: [ask_kademlia_get_record],
    [ask_kademlia_put_record], [finish_looking_for_dht_record],
    [validate_record_date], [handle_kademlia_event])

    Records that peers want stored, records the node looked up, and the node's
    own record. *)

From Stdlib Require Import Init.Byte.
From S2P Require Import Prelude Time Float64 Platform Message Scores Validator Errors Setup Config Dial Node Scoring.
Open Scope Z_scope.

Section Kad.
Context {P : Platform} {Q : Queue Multiaddr} {E : Env}.

(** libp2p's [kad::Record]; publisher and expiry are not looked at. *)
Record KadRecord : Type := { kr_key : bytes; kr_value : bytes }.

(** libp2p's [kad::QueryResult] and [kad::Event], as far as the node tells
    cases apart. *)
Inductive QueryResult : Type :=
  | GetRecordFound (record : KadRecord)
  | GetRecordFinished
  | GetRecordTimeout
  | GetRecordNotFound
  | GetRecordQuorumFailed
  | PutRecordOk
  | PutRecordTimeout
  | PutRecordQuorumFailed
  | OtherQueryResult.
Inductive KademliaEvent : Type :=
  | InboundPutRecord (opt_record : option KadRecord)
  | OutboundQueryProgressed (id : QueryId) (r : QueryResult)
  | RoutingUpdated
  | OtherKademliaEvent.

(** The key a record about [target] is stored under. *)
Definition dht_key (target : PeerTarget) : bytes :=
  match target with
  | TargetAppPublicKey k => encode_protobuf k
  | TargetTransportId p => peer_id_to_bytes p
  end.

Definition ask_kademlia_get_record (target : PeerTarget) : M unit :=
  queryid ← ask (λ tr, get_record tr (dht_key target));
  _ ← emit (EGetRecord (dht_key target));
  modS (upd_records (insert queryid [])).

(** [flexbuffers::to_vec(..).unwrap()] panics when it fails; the result of
    [put_record], the query or an error, is dropped. *)
Definition ask_kademlia_put_record : M unit :=
  key ← own_public_key;
  addrs ← ask external_addresses;
  t ← now;
  record_data ← or_panic (RecordData_new t key addrs);
  sg ← getsS signer;
  match SignedMessage_new record_data sg with
  | Err _ => mret tt
  | Ok signed_record_data =>
      value ← or_panic (to_vec signed_record_data);
      let record_key := if byos then encode_protobuf key else peer_id_to_bytes (to_peer_id key) in
      _ ← ask (λ tr, put_record tr record_key value);
      emit (EPutRecord record_key value)
  end.

(** [Iterator::max_by] on the dates: of several newest ones, the last. *)
Definition newer (best r : SignedRecord) : SignedRecord :=
  if rd_date (message r) <? rd_date (message best) then best else r.
Definition max_by_date (records : list SignedRecord) : option SignedRecord :=
  match records with [] => None | r :: rs => Some (foldl newer r rs) end.

Definition finish_looking_for_dht_record (id : QueryId) : M unit :=
  m ← getsS kademlia_map_received_records;
  match m !! id with
  | None => mret tt
  | Some records =>
      _ ← match max_by_date records with
          | None => emit (ECommandEvent None)
          | Some result => emit (ECommandEvent (Some (rd_multiaddresses (message result))))
          end;
      modS (upd_records (delete id))
  end.

(** The error texts of the code, without their numbers. *)
Inductive RecordDateError : Type :=
  | DateIsMax | TimeWentBackwards | DateInTheFuture | RecordTooOld.

Definition validate_record_date (date : Z) : M (result unit RecordDateError) :=
  if date =? u64_max then mret (Err DateIsMax)
  else
    t ← now;
    match duration_since t 0 with
    | Err _ => mret (Err TimeWentBackwards)
    | Ok d =>
        let now := as_secs d in
        skew ← getsS (λ s, max_clock_skew (config s));
        limit ← add_u64 now (as_secs skew);
        if limit <? date then mret (Err DateInTheFuture)
        else
          max_age ← getsS (λ s, envelope_max_age (config s));
          if as_secs max_age <? saturating_sub now date then mret (Err RecordTooOld)
          else mret (Ok tt)
    end.

(** The record is filed under its author: the key field decodes to the signing
    key ([byos]) or to its transport id. *)
Definition key_matches (key : bytes) (public_key : PublicKey) : bool :=
  if byos then
    match try_decode_protobuf key with
    | Some k => bool_decide (public_key = k) | None => false
    end
  else
    match peer_id_from_bytes key with
    | Some p => bool_decide (to_peer_id public_key = p) | None => false
    end.

(** [InboundRequest::PutRecord] *)
Definition handle_put_record (opt_record : option KadRecord) : M unit :=
  match opt_record with
  | None => mret tt
  | Some record_data =>
      match from_slice (kr_value record_data) with
      | None => mret tt
      | Some signed_record =>
          match verify (signed_record : SignedRecord) with
          | Err _ => mret tt
          | Ok is_valid =>
              if negb is_valid then mret tt
              else
                dated ← validate_record_date (rd_date (message signed_record));
                match dated with
                | Err _ => mret tt
                | Ok _ =>
                    if negb (key_matches (kr_key record_data) (rd_public_key (message signed_record)))
                    then mret tt
                    else
                      existing ← ask (λ tr, store_get tr (kr_key record_data));
                      match existing ≫= from_slice with
                      | Some existing_signed_record =>
                          if rd_date (message signed_record)
                               <=? rd_date (message (existing_signed_record : SignedRecord))
                          then mret tt
                          else emit (EStorePut (kr_key record_data) (kr_value record_data))
                      | None => emit (EStorePut (kr_key record_data) (kr_value record_data))
                      end
                end
          end
      end
  end.

(** [GetRecord(Ok(FoundRecord(..)))] *)
Definition handle_found_record (id : QueryId) (record : KadRecord) : M unit :=
  m ← getsS kademlia_map_received_records;
  if negb (bool_decide (is_Some (m !! id))) then mret tt
  else
    match from_slice (kr_value record) with
    | None => mret tt
    | Some signed_record =>
        if negb (key_matches (kr_key record) (rd_public_key (message signed_record))) then mret tt
        else
          match verify (signed_record : SignedRecord) with
          | Err _ => mret tt
          | Ok is_valid =>
              if negb is_valid then mret tt
              else
                dated ← validate_record_date (rd_date (message signed_record));
                match dated with
                | Err _ => mret tt
                | Ok _ => modS (upd_records (alter (λ l, l ++ [signed_record]) id))
                end
          end
    end.

Definition handle_query_result (id : QueryId) (r : QueryResult) : M unit :=
  match r with
  | GetRecordFound record => handle_found_record id record
  | GetRecordFinished | GetRecordTimeout | GetRecordNotFound =>
      finish_looking_for_dht_record id
  | PutRecordOk =>
      dur ← getsS (λ s, kad_record_ttl (config s)); emit (ERepublishAfter dur)
  | PutRecordTimeout | PutRecordQuorumFailed =>
      dur_fail ← getsS (λ s, kad_timer_putrecorderror (config s)); emit (ERepublishAfter dur_fail)
  | GetRecordQuorumFailed | OtherQueryResult => mret tt
  end.

Definition handle_kademlia_event (event : KademliaEvent) : M unit :=
  match event with
  | InboundPutRecord opt_record => handle_put_record opt_record
  | OutboundQueryProgressed id r => handle_query_result id r
  | RoutingUpdated =>
      first_time ← getsS kademlia_is_routing_updated_first_time;
      if first_time : bool then
        _ ← modS (upd_first_time false);
        emit ERepublish
      else mret tt
  | OtherKademliaEvent => mret tt
  end.

(** *** Frame *)

Lemma keeps_validate_record_date t p k d : moves (keeps t p k) (validate_record_date d).
Proof. unfold validate_record_date. solve_moves. Qed.
#[local] Hint Resolve keeps_validate_record_date : moves.
Lemma keeps_ask_get t p k x : moves (keeps t p k) (ask_kademlia_get_record x).
Proof. unfold ask_kademlia_get_record. solve_moves. Qed.
Lemma keeps_ask_put t p k : moves (keeps t p k) ask_kademlia_put_record.
Proof. unfold ask_kademlia_put_record. solve_moves. Qed.
Lemma keeps_put_record t p k r : moves (keeps t p k) (handle_put_record r).
Proof. unfold handle_put_record. solve_moves. Qed.
Lemma keeps_query_result t p k id r : moves (keeps t p k) (handle_query_result id r).
Proof.
  destruct r; simpl; unfold handle_found_record, finish_looking_for_dht_record; solve_moves.
Qed.
#[local] Hint Resolve keeps_put_record keeps_query_result : moves.
Lemma keeps_kademlia_event t p k e : moves (keeps t p k) (handle_kademlia_event e).
Proof. destruct e; simpl; solve_moves. Qed.
End Kad.

#[export] Hint Resolve keeps_ask_get keeps_ask_put keeps_kademlia_event : moves.

(** ** Which records are kept *)

Section KadProperties.
Context {P : Platform} {Q : Queue Multiaddr} {E : Env}.

Definition date_ok (s : P2P) (t date : Z) : Prop :=
  date ≠ u64_max ∧ 0 ≤ t ∧
  Fresh (as_secs t) (envelope_max_age (config s)) (max_clock_skew (config s)) date.

(** What makes a record under [key] valid, at clock reading [t]. *)
Definition valid_record (s : P2P) (t : Z) (key : bytes) (sm : SignedRecord) : Prop :=
  verify sm = Ok true ∧ key_matches key (rd_public_key (message sm)) = true ∧
  date_ok s t (rd_date (message sm)).

#[export] Instance date_ok_dec s t d : Decision (date_ok s t d) := _.
#[export] Instance valid_record_dec s t k sm : Decision (valid_record s t k sm) := _.

Lemma validate_record_date_run date s :
  durations_ok (config s) → no_overflow s (clock (ticks s)) →
  ∃ s1 r, validate_record_date date s = (s1, Done r) ∧ untouched s s1 ∧
    match r with Ok _ => date_ok s (clock (ticks s)) date
               | Err _ => ¬ date_ok s (clock (ticks s)) date end.
Proof.
  intros [Ha Hs] Hno. unfold validate_record_date, date_ok, Fresh.
  destruct (Z.eqb_spec date u64_max) as [->|Hmax].
  { exists s, (Err DateIsMax). split_and!; [done|apply untouched_refl|naive_solver]. }
  run_simpl. unfold no_overflow, now_secs_or_default in Hno.
  destruct (duration_since (clock (ticks s)) 0) as [d|] eqn:Hd; unfold duration_since in Hd.
  2: { exists (tick s), (Err TimeWentBackwards). split_and!; [done|apply untouched_tick|].
       destruct (Z.leb_spec 0 (clock (ticks s))); [done|]. intros (_ & Hpos & _). lia. }
  destruct (Z.leb_spec 0 (clock (ticks s))) as [Hpos|]; [|done].
  injection Hd as <-. rewrite Z.sub_0_r in *. run_simpl. cbn [config tick].
  destruct (Z.ltb_spec (as_secs (clock (ticks s)) + as_secs (max_clock_skew (config s))) date).
  { exists (tick s), (Err DateInTheFuture). split_and!; [done|apply untouched_tick|]. lia. }
  run_simpl. cbn [config tick]. unfold saturating_sub.
  pose proof (as_secs_nonneg _ Ha).
  destruct (Z.ltb_spec (as_secs (envelope_max_age (config s)))
              (Z.max 0 (as_secs (clock (ticks s)) - date))).
  - exists (tick s), (Err RecordTooOld). split_and!; [done|apply untouched_tick|]. lia.
  - exists (tick s), (Ok tt). split_and!; [done|apply untouched_tick|done|done|lia|lia].
Qed.

(** No valid record of the same author that is at least as new is stored. *)
Definition newer_than_stored (s : P2P) (key : bytes) (date : Z) : Prop :=
  ∀ old : SignedRecord, store_get (trace s) key ≫= from_slice = Some old →
    rd_date (message old) < date.

(** C11. Storing records for others: a record that a peer asks this node to
    store is stored if and only if it decodes, its signature verifies, it is
    filed under its signer's key (or transport id), its date is in the window
    (and not the maximal [u64], which would shadow every update), and it is
    strictly newer than a decodable record stored under that key; so a replayed
    or back-dated record never replaces a newer one.  A refused record leaves
    no trace. *)
Theorem inbound_record_verdict s r :
  durations_ok (config s) → no_overflow s (clock (ticks s)) →
  let storable sm := from_slice (kr_value r) = Some sm ∧
    valid_record s (clock (ticks s)) (kr_key r) sm ∧
    newer_than_stored s (kr_key r) (rd_date (message sm)) in
  let '(s', o) := handle_put_record (Some r) s in
  o = Done tt ∧
  (∀ sm, storable sm → trace s' = trace s ++ [EStorePut (kr_key r) (kr_value r)]) ∧
  ((∀ sm, ¬ storable sm) → untouched s s').
Proof.
  intros Hd Hno storable. unfold storable, valid_record, newer_than_stored, handle_put_record.
  destruct (from_slice (kr_value r)) as [sm|] eqn:Hdec;
    [|split_and!; [done|by intros ? []|intros _; apply untouched_refl]].
  destruct (verify sm) as [[]|] eqn:Hv; cbn [negb];
    [|split_and!; [done|intros sm' ([= <-]&(?&?&?)&?); congruence|intros _; apply untouched_refl]..].
  destruct (validate_record_date_run (rd_date (message sm)) s Hd Hno) as (s1 & rr & Hrun & Hu & Hr).
  rewrite (bind_done _ _ _ _ _ Hrun). destruct (untouched_same _ _ Hu) as (Ht & _).
  destruct rr as [[]|];
    [|split_and!; [done|intros sm' ([= <-]&(?&?&?)&?); tauto|done]].
  destruct (key_matches _ _) eqn:Hk; cbn [negb];
    [|split_and!; [done|intros sm' ([= <-]&(?&?&?)&?); congruence|done]].
  run_simpl. rewrite Ht. destruct (store_get (trace s) (kr_key r) ≫= from_slice) as [old|] eqn:Hold.
  - destruct (Z.leb_spec (rd_date (message sm)) (rd_date (message (old : SignedRecord)))) as [Hle|Hlt].
    + split_and!; [done| |done]. intros sm' ([= <-]&_&Hnew). specialize (Hnew old eq_refl). lia.
    + split_and!; [done|intros; simpl; by rewrite Ht|]. intros Hbad. destruct (Hbad sm).
      split_and!; try done. by intros ? [= <-].
  - split_and!; [done|intros; simpl; by rewrite Ht|]. intros Hbad. by destruct (Hbad sm).
Qed.

(** *** Lookups *)

(** [max_by]: a newest record, the last of them. *)
Lemma foldl_newer_spec rs r :
  (foldl newer r rs = r ∨ foldl newer r rs ∈ rs) ∧
  rd_date (message r) ≤ rd_date (message (foldl newer r rs)) ∧
  (∀ x, x ∈ rs → rd_date (message x) ≤ rd_date (message (foldl newer r rs))).
Proof.
  revert r. induction rs as [|y rs IH]; intros r; cbn [foldl].
  { split_and!; [by left|lia|]. intros x Hx. by apply not_elem_of_nil in Hx. }
  destruct (IH (newer r y)) as (Hin & Hge & Hall).
  assert (rd_date (message r) ≤ rd_date (message (newer r y)) ∧
          rd_date (message y) ≤ rd_date (message (newer r y)) ∧ (newer r y = r ∨ newer r y = y)) as (H1 & H2 & H3).
  { unfold newer. destruct (Z.ltb_spec (rd_date (message y)) (rd_date (message r)));
      split_and!; try lia; by auto. }
  split_and!.
  - destruct Hin as [->|?]; [|right; by constructor].
    destruct H3 as [->|Hy]; [by left|right]. rewrite Hy. constructor.
  - lia.
  - intros x [->|Hx]%elem_of_cons; [lia|by apply Hall].
Qed.

Lemma max_by_date_spec l r :
  max_by_date l = Some r →
  r ∈ l ∧ ∀ x, x ∈ l → rd_date (message x) ≤ rd_date (message r).
Proof.
  destruct l as [|x l]; [done|]. simpl. intros [= <-].
  destruct (foldl_newer_spec l x) as ([Hx|Hx] & Hge & Hall); split.
  - rewrite Hx. constructor.
  - intros y [->|Hy]%elem_of_cons; [done|by apply Hall].
  - by constructor.
  - intros y [->|Hy]%elem_of_cons; [done|by apply Hall].
Qed.

(** The records of [recs] that are valid when they are found, in that order. *)
Fixpoint valid_found (id : QueryId) (recs : list KadRecord) (s : P2P) : list SignedRecord :=
  match recs with
  | [] => []
  | r :: recs =>
      match from_slice (kr_value r) with
      | Some sm => if decide (valid_record s (clock (ticks s)) (kr_key r) sm) then [sm] else []
      | None => []
      end ++ valid_found id recs (handle_found_record id r s).1
  end.

Lemma handle_found_record_run id r s l :
  durations_ok (config s) → no_overflow s (clock (ticks s)) →
  kademlia_map_received_records s !! id = Some l →
  let '(s', o) := handle_found_record id r s in
  o = Done tt ∧ config s' = config s ∧ trace s' = trace s ∧
  kademlia_map_received_records s'
    = <[id := l ++ valid_found id [r] s]> (kademlia_map_received_records s).
Proof.
  intros Hd Hno Hl. unfold handle_found_record, valid_found. rewrite app_nil_r.
  run_simpl. rewrite bool_decide_eq_true_2 by eauto. cbn [negb].
  assert (kademlia_map_received_records s
          = <[id := l ++ []]> (kademlia_map_received_records s)) as Hsame
    by (rewrite app_nil_r; symmetry; by apply insert_id).
  destruct (from_slice (kr_value r)) as [sm|]; [|done].
  destruct (validate_record_date_run (rd_date (message sm)) s Hd Hno)
    as (s1 & rr & Hrun & Hu & Hr). destruct (untouched_same _ _ Hu) as (Ht & Hc & _ & Hm).
  destruct (decide (valid_record _ _ _ _)) as [(Hv & Hk & Hok)|Hbad].
  - rewrite Hk, Hv. cbn [negb]. rewrite (bind_done _ _ _ _ _ Hrun).
    destruct rr as [[]|]; [|done]. simpl. split_and!; [done..|]. rewrite Hm.
    apply map_eq. intros j. destruct (decide (j = id)) as [->|].
    + by rewrite lookup_alter_eq, lookup_insert_eq, Hl.
    + by rewrite lookup_alter_ne, lookup_insert_ne.
  - unfold valid_record in Hbad. destruct (key_matches _ _); cbn [negb]; [|done].
    destruct (verify sm) as [[]|]; try done. cbn [negb]. rewrite (bind_done _ _ _ _ _ Hrun).
    destruct rr as [[]|]; [naive_solver|]. simpl. rewrite Hm. by split_and!.
Qed.

Lemma found_records_run id recs s l :
  durations_ok (config s) → (∀ n, no_overflow s (clock n)) →
  kademlia_map_received_records s !! id = Some l →
  let '(s', o) := iterM (handle_found_record id) recs s in
  o = Done tt ∧ trace s' = trace s ∧
  kademlia_map_received_records s'
    = <[id := l ++ valid_found id recs s]> (kademlia_map_received_records s).
Proof.
  revert s l. induction recs as [|r recs IH]; intros s l Hd Hno Hl.
  { simpl. split_and!; [done..|]. rewrite app_nil_r. symmetry. by apply insert_id. }
  cbn [iterM]. pose proof (handle_found_record_run id r s l Hd (Hno _) Hl) as Hr.
  change (valid_found id (r :: recs) s)
    with (match from_slice (kr_value r) with
          | Some sm => if decide (valid_record s (clock (ticks s)) (kr_key r) sm) then [sm] else []
          | None => []
          end ++ valid_found id recs (handle_found_record id r s).1).
  cbn [valid_found] in Hr. rewrite app_nil_r in Hr.
  unfold mbind, stM_bind. destruct (handle_found_record id r s) as [s1 o1].
  destruct Hr as (-> & Hc & Ht & Hm). cbn [fst].
  set (new := match from_slice (kr_value r) with Some _ => _ | None => _ end) in *.
  specialize (IH s1 (l ++ new)). rewrite Hc, Hm in IH.
  assert (∀ n, no_overflow s1 (clock n)) as Hno1 by (intros n; unfold no_overflow; rewrite Hc; apply Hno).
  specialize (IH Hd Hno1 (lookup_insert_eq _ _ _)).
  destruct (iterM _ _ _) as [s' o]. destruct IH as (-> & -> & Hm').
  split_and!; [done|done|]. by rewrite Hm', insert_insert_eq, app_assoc.
Qed.

(** A lookup, from the command to the answer: whatever records the DHT
    finds for a query, in whatever order, the node answers its user exactly once
    when the query finishes (also by timeout or not-found), with the addresses
    of a newest record among the valid ones, or with nothing if none is valid,
    and forgets the query; finishing again answers nothing. *)
Theorem lookup_answers_newest target recs s :
  durations_ok (config s) → (∀ n, no_overflow s (clock n)) →
  let id := get_record (trace s) (dht_key target) in
  let asked := (ask_kademlia_get_record target s).1 in
  let found := valid_found id recs asked in
  let '(s', o) := (_ ← ask_kademlia_get_record target;
                   _ ← iterM (handle_found_record id) recs;
                   _ ← finish_looking_for_dht_record id;
                   finish_looking_for_dht_record id : M unit) s in
  o = Done tt ∧
  kademlia_map_received_records s' = delete id (kademlia_map_received_records s) ∧
  match max_by_date found with
  | None => found = [] ∧ trace s' = trace s ++ [EGetRecord (dht_key target); ECommandEvent None]
  | Some best =>
      best ∈ found ∧ (∀ r, r ∈ found → rd_date (message r) ≤ rd_date (message best)) ∧
      trace s' = trace s ++ [EGetRecord (dht_key target);
                             ECommandEvent (Some (rd_multiaddresses (message best)))]
  end.
Proof.
  intros Hd Hno id asked found.
  assert (ask_kademlia_get_record target s = (asked, Done tt)) as Hask by reflexivity.
  rewrite (bind_done _ _ _ _ _ Hask).
  pose proof (found_records_run id recs asked [] Hd Hno (lookup_insert_eq _ _ _)) as Hrun.
  unfold mbind at 1, stM_bind at 1. destruct (iterM _ _ _) as [s1 o1].
  destruct Hrun as (-> & Ht & Hm). fold found in Hm. simpl in Hm.
  rewrite insert_insert_eq in Hm.
  unfold finish_looking_for_dht_record. rewrite bind_assoc. run_simpl.
  rewrite Hm, lookup_insert_eq.
  pose proof (max_by_date_spec found) as Hmax.
  destruct (max_by_date found) as [best|] eqn:Hb;
    rewrite bind_assoc; run_simpl; cbn [kademlia_map_received_records upd_records add_effect];
    rewrite Hm, delete_insert_eq, lookup_delete_eq; simpl; rewrite Ht; simpl;
    rewrite <-app_assoc.
  - destruct (Hmax best eq_refl). split_and!; try done. rewrite Hm. apply delete_insert_eq.
  - split_and!; try done; [rewrite Hm; apply delete_insert_eq|by destruct found].
Qed.
End KadProperties.

(** ** The node's own record *)

Section OwnRecord.
Context {P : Platform} {L : PlatformLaws P} {Q : Queue Multiaddr}.

(** Publishing: node [a] puts at most one record per request, filed under
    its own key (or transport id) and listing exactly its external addresses,
    and every node of the same build whose window [a]'s clock is in holds that
    record for valid; so it can be stored and found.  (If its bytes cannot be
    produced the node panics.) *)
Theorem own_record_valid_elsewhere (Ea Eb : Env) (a b : P2P) t :
  @byos _ Ea = @byos _ Eb →
  signs_for (signer a) (@own_key _ _ Ea a) →
  0 ≤ @clock _ Ea (ticks a) → is_u64 (as_secs (@clock _ Ea (ticks a))) →
  date_ok b t (as_secs (@clock _ Ea (ticks a))) →
  let '(a', o) := @ask_kademlia_put_record _ _ Ea a in
  (trace a' = trace a ∧ (o = Done tt ∨ o = Panic)) ∨
  ∃ key raw sm, o = Done tt ∧ trace a' = trace a ++ [EPutRecord key raw] ∧
    from_slice raw = Some sm ∧
    rd_public_key (message sm) = @own_key _ _ Ea a ∧
    rd_multiaddresses (message sm) = @external_addresses _ Ea (trace a) ∧
    @valid_record _ _ Eb b t key sm.
Proof.
  intros Hbyos Hs Hc Hu Hd. unfold ask_kademlia_put_record, RecordData_new, get_timestamp.
  run_simpl. rewrite duration_since_epoch by done. cbn [mbind option_bind or_panic]. run_simpl.
  cbn [signer tick]. set (m := {| rd_version := _ |}).
  destruct (SignedMessage_new m (signer a)) as [sm|] eqn:Hsm; [|by left; auto].
  destruct (to_vec sm) as [raw|] eqn:Hraw; [|by left; auto]. right.
  cbn [or_panic]. run_simpl. simpl.
  apply signed_message_verifies in Hsm as [Hm Hv]; [|done].
  eexists _, raw, sm. split_and!; [done|done| |by rewrite Hm..|].
  { apply (signed_roundtrip sm); [|done]. rewrite Hm. by apply record_data_roundtrip. }
  unfold valid_record, key_matches. rewrite Hm, <-Hbyos. split_and!; [done| |done].
  destruct byos; [rewrite decode_encode_protobuf|rewrite peer_id_from_to_bytes];
    by apply bool_decide_eq_true_2.
Qed.
End OwnRecord.

(** ** Examples on the toy node *)

Section KadExamples.
#[local] Existing Instances Toy.platform Toy.platform_laws ToyNode.queue_inst.
#[local] Instance kad_env : Env := ToyNode.env true.

(** Key 3's record. *)
Definition toy_record_data : RecordData :=
  {| rd_version := DHTV1; rd_public_key := 3%nat : PublicKey;
     rd_multiaddresses := [11%nat : Multiaddr]; rd_date := 900 |}.
Definition toy_record : KadRecord :=
  {| kr_key := encode_protobuf (3%nat : PublicKey);
     kr_value := ToyNode.signed_bytes toy_record_data |}.

Lemma toy_record_decodes :
  from_slice (kr_value toy_record) = Some (ToyNode.signed toy_record_data).
Proof. apply ToyNode.signed_decodes, record_data_roundtrip. split; vm_compute; discriminate. Qed.

Lemma toy_record_valid :
  valid_record ToyNode.node (clock (ticks ToyNode.node)) (kr_key toy_record)
    (ToyNode.signed toy_record_data).
Proof.
  split; [by apply ToyNode.signed_verifies|]. split; [reflexivity|].
  split; [discriminate|]. split; [vm_compute; discriminate|split; vm_compute; discriminate].
Qed.

Lemma toy_durations_ok : durations_ok (config ToyNode.node).
Proof. split; vm_compute; discriminate. Qed.

Lemma inbound_record_verdict_witness :
  trace (handle_put_record (Some toy_record) ToyNode.node).1
    = [EStorePut (kr_key toy_record) (kr_value toy_record)].
Proof.
  assert (no_overflow ToyNode.node (clock (ticks ToyNode.node))) as Hno
    by (vm_compute; discriminate).
  pose proof (inbound_record_verdict ToyNode.node toy_record toy_durations_ok Hno) as Hv.
  destruct (handle_put_record _ _) as [s' o]. destruct Hv as (_ & Hv & _).
  refine (Hv (ToyNode.signed toy_record_data) _).
  split; [exact toy_record_decodes|split; [exact toy_record_valid|]]. intros old Hold.
  discriminate Hold.
Defined.

(** A clock that stands still, so that every reading is in range. *)
Definition still_env : Env := {|
  byos := true; overflow_checks := true; clock _ := from_secs 1000;
  local_peer_id := 105%nat : PeerId; swarm_is_connected _ _ := true;
  connected_peers _ := []; listeners _ := []; external_addresses _ := [];
  next_connection_id tr := length tr : ConnectionId;
  swarm_dial _ _ := Ok tt; swarm_listen_on _ _ := Ok tt; peer_score _ _ := None;
  gossip_subscribe _ _ := InTime (Ok tt); gossip_publish tr _ _ := Ok (length tr : MessageId);
  get_record tr _ := length tr : QueryId;
  put_record tr _ _ := Ok (length tr : QueryId); store_get _ _ := None; store_put _ _ _ := Ok tt;
  channel_capacity_ok _ _ := true; gossip_events_send _ _ := Ok tt;
  req_resp_events_send _ _ := InTime (Ok tt);
  response_recv _ data := InTime (Ok data) |}.

Lemma lookup_answers_newest_witness :
  let '(s', o) := (_ ← @ask_kademlia_get_record _ _ still_env (TargetAppPublicKey (3%nat : PublicKey));
                   _ ← iterM (@handle_found_record _ _ still_env (0%nat : QueryId)) [toy_record];
                   _ ← finish_looking_for_dht_record (0%nat : QueryId);
                   finish_looking_for_dht_record (0%nat : QueryId) : M unit) ToyNode.node in
  trace s' = [EGetRecord (kr_key toy_record); ECommandEvent (Some [11%nat : Multiaddr])].
Proof.
  assert (∀ n, @no_overflow _ _ ToyNode.node (@clock _ still_env n)) as Hno
    by (intros n; vm_compute; discriminate).
  pose proof (@lookup_answers_newest _ _ still_env (TargetAppPublicKey (3%nat : PublicKey)) [toy_record]
    ToyNode.node toy_durations_ok Hno) as Hl.
  cbv zeta in Hl.
  change (@get_record _ still_env _ _) with (0%nat : QueryId) in Hl.
  destruct_run Hl s' o. destruct Hl as (_ & _ & Hl).
  destruct (max_by_date _) as [best|] eqn:Hb.
  - destruct Hl as (_ & _ & ->).
    apply (f_equal (fmap (λ r, rd_multiaddresses (message r)))) in Hb.
    assert (Some (rd_multiaddresses (message best)) = Some [11%nat : Multiaddr]) as [= Ha]
      by (etransitivity; [symmetry; exact Hb|vm_compute; reflexivity]).
    rewrite Ha. reflexivity.
  - apply (f_equal (fmap (λ r, rd_multiaddresses (message r)))) in Hb.
    vm_compute in Hb. discriminate Hb.
Defined.

Lemma own_record_valid_elsewhere_witness :
  ∃ key raw, trace (@ask_kademlia_put_record _ _ still_env ToyNode.node).1 = [EPutRecord key raw].
Proof.
  pose proof (own_record_valid_elsewhere still_env still_env ToyNode.node ToyNode.node
    (from_secs 1000) eq_refl (transport_signer_signs (5%nat : Keypair))
    ltac:(vm_compute; discriminate) ltac:(split; vm_compute; discriminate)
    ltac:(split; [vm_compute; discriminate|split; [vm_compute; discriminate|split; vm_compute; discriminate]]))
    as Hr.
  destruct (ask_kademlia_put_record _) as [a' o] eqn:Hrun.
  destruct Hr as [[Ht _]|(key & raw & _ & _ & Ht & _)]; [|exists key, raw; exact Ht].
  exfalso. assert (trace a' = trace (@ask_kademlia_put_record _ _ still_env ToyNode.node).1) as Hn
    by (rewrite Hrun; reflexivity).
  rewrite Ht in Hn. discriminate Hn.
Defined.
End KadExamples.
