(* ===== verification/Conn.v ===== *)
(** * Connections ([swarm/mod.rs]: [dial_and_map], [handle_connection_event],
    the identify arm of [handle_behaviour_event], [handle_setup_event]) *)

From S2P Require Import Prelude Time Float64 Platform Message Scores Validator Errors Setup Config Dial Node Scoring.
Open Scope Z_scope.

Section Conn.
Context {P : Platform} {Q : Queue Multiaddr} {E : Env}.

(** libp2p's [SwarmEvent]s about connections, the fields the node uses. *)
Inductive ConnectionSwarmEvent : Type :=
  | ConnectionEstablished (peer_id : PeerId) (connection_id : ConnectionId)
  | OutgoingConnectionError (connection_id : ConnectionId)
  | IncomingConnectionError
  | SwarmConnectionClosed (peer_id : PeerId) (num_established : nat).

(** The result of [swarm.dial] is only logged. *)
Definition dial_and_map (addr : Multiaddr) (app_public_key : PublicKey) : M unit :=
  conn_id ← ask next_connection_id;
  _ ← modS (upd_dial (map_connid conn_id app_public_key));
  emit (EDial (DialAddress conn_id addr)).

Definition handle_connection_established (peer_id : PeerId) (connection_id : ConnectionId)
    : M unit :=
  if byos then
    dm ← getsS dial_manager;
    match get_app_public_key_by_connection_id dm connection_id with
    | Some app_public_key =>
        _ ← modS (upd_dial (remove_queue app_public_key));
        modS (upd_dial (λ dm, (remove_connid connection_id dm).1))
    | None => mret tt
    end
  else
    t ← now;
    st ← getsS peer_penalty_storage;
    if negb (is_banned t st peer_id) then mret tt else disconnect_peer_id peer_id.

Definition handle_outgoing_connection_error (connection_id : ConnectionId) : M unit :=
  if byos then
    dm ← getsS dial_manager;
    match get_app_public_key_by_connection_id dm connection_id with
    | Some app_public_key =>
        _ ← modS (upd_dial (λ dm, (remove_connid connection_id dm).1));
        dm ← getsS dial_manager;
        let '(dm', next_addr) := pop_next_addr app_public_key dm in
        _ ← modS (upd_dial (λ _, dm'));
        match next_addr with
        | Some next_addr => dial_and_map next_addr app_public_key
        | None => modS (upd_dial (remove_queue app_public_key))
        end
    | None => mret tt
    end
  else mret tt.

Definition handle_connection_closed (peer_id : PeerId) (num_established : nat) : M unit :=
  if (num_established =? 0)%nat then
    if byos then mret tt
    else
      _ ← modS (upd_scores (scores_remove_peer peer_id));
      t1 ← now; t2 ← now; t3 ← now;
      st ← getsS peer_penalty_storage;
      if negb (has_active_penalties t1 t2 t3 st peer_id)
      then modS (upd_penalties (penalties_remove_peer peer_id)) else mret tt
  else mret tt.

Definition handle_connection_event (event : ConnectionSwarmEvent) : M unit :=
  match event with
  | ConnectionEstablished peer_id connection_id =>
      handle_connection_established peer_id connection_id
  | OutgoingConnectionError connection_id => handle_outgoing_connection_error connection_id
  | IncomingConnectionError => mret tt
  | SwarmConnectionClosed peer_id num_established =>
      handle_connection_closed peer_id num_established
  end.

(** [IdentifyEvent::Received]: a peer that lacks one of this node's protocols
    is disconnected. *)
Definition supports_gossip (protocols : list string) : bool :=
  existsb (λ p, bool_decide (p ∈ map gossipsub_stream_protocol get_supported_versions)) protocols.
Definition supports_reqresp (cfg : P2PConfig) (protocols : list string) : bool :=
  existsb (λ p, bool_decide (p = protocol_name cfg)) protocols.
Definition supports_setup (protocols : list string) : bool :=
  existsb (λ p, bool_decide (p = SETUP_PROTOCOL_NAME)) protocols.

Definition handle_identify_received (peer_id : PeerId) (protocols : list string) : M unit :=
  if negb (supports_gossip protocols) then disconnect_peer_id peer_id
  else
    cfg ← getsS config;
    if negb (supports_reqresp cfg protocols) then disconnect_peer_id peer_id
    else if byos && negb (supports_setup protocols) then disconnect_peer_id peer_id
    else mret tt.

Definition handle_setup_event (event : SetupBehaviourEvent) : M unit :=
  match event with
  | AppKeyReceived peer_id app_public_key conn_id =>
      allowlist ← getsS app_allowlist;
      if bool_decide (app_public_key ∈ allowlist) then mret tt else disconnect_peer_id peer_id
  | ErrorDuringSetupHandshake peer_id conn_id error => disconnect_peer_id peer_id
  | NegotiationFailed peer_id conn_id => disconnect_peer_id peer_id
  end.

(** *** Frame *)

Lemma keeps_dial_and_map t p k a q : moves (keeps t p k) (dial_and_map a q).
Proof. unfold dial_and_map. solve_moves. Qed.
#[local] Hint Resolve keeps_dial_and_map : moves.

(** A peer with a running penalty is not forgotten. *)
Lemma keeps_connection_closed t p k q n : moves (keeps t p k) (handle_connection_closed q n).
Proof.
  unfold handle_connection_closed. destruct (n =? 0)%nat; [|solve_moves].
  destruct byos; [solve_moves|]. apply moves_bind; [apply _|solve_moves|]. intros _ s.
  run_simpl. destruct (has_active_penalties _ _ _ _ _) eqn:Hact.
  { split; simpl; [lia|done]. }
  split; simpl; [lia|]. intros Hc. unfold in_force. simpl.
  rewrite penalties_remove_peer_refines. unfold spec_forget.
  destruct (decide (p = q)) as [->|]; [|done]. intros Hin. exfalso.
  assert (∀ n', (ticks s ≤ n' < ticks s + 3)%nat → active_at (clock n') (penalty_until (peer_penalty_storage s) q k) = true) as Hall.
  { intros n' Hn'. apply (active_at_mono _ t); [apply Hc; lia|exact Hin]. }
  pose proof (Hall (ticks s) ltac:(lia)) as H1. pose proof (Hall (S (ticks s)) ltac:(lia)) as H2.
  pose proof (Hall (S (S (ticks s))) ltac:(lia)) as H3.
  unfold has_active_penalties, penalty_until in *. simpl in Hact.
  destruct (penalties (peer_penalty_storage s) !! q) as [i|]; [|done]. simpl in *.
  destruct k; simpl in *; rewrite ?H1, ?H2, ?H3 in Hact; repeat case_match; done.
Qed.

#[local] Hint Resolve keeps_connection_closed : moves.
Lemma keeps_connection_event t p k e : moves (keeps t p k) (handle_connection_event e).
Proof.
  destruct e; simpl; unfold handle_connection_established, handle_outgoing_connection_error;
    solve_moves.
Qed.
Lemma keeps_identify t p k q l : moves (keeps t p k) (handle_identify_received q l).
Proof. unfold handle_identify_received. solve_moves. Qed.
Lemma keeps_setup_event t p k e : moves (keeps t p k) (handle_setup_event e).
Proof. destruct e; simpl; solve_moves. Qed.
End Conn.

#[export] Hint Resolve keeps_dial_and_map keeps_connection_event keeps_identify
  keeps_setup_event : moves.

(** ** Admission *)

Section Admission.
Context {P : Platform} {Q : Queue Multiaddr} {E : Env}.

(** The node's protocols are among those the peer speaks. *)
Definition speaks (s : P2P) (protocols : list string) : Prop :=
  (∃ v, gossipsub_stream_protocol v ∈ protocols) ∧
  protocol_name (config s) ∈ protocols ∧
  (byos = true → SETUP_PROTOCOL_NAME ∈ protocols).

Lemma existsb_eq (a : string) l : existsb (λ p, bool_decide (p = a)) l = true ↔ a ∈ l.
Proof.
  rewrite existsb_exists. setoid_rewrite bool_decide_eq_true. setoid_rewrite <-list_elem_of_In.
  naive_solver.
Qed.

Lemma supports_gossip_spec l :
  supports_gossip l = true ↔ ∃ v, gossipsub_stream_protocol v ∈ l.
Proof.
  unfold supports_gossip. rewrite existsb_exists. setoid_rewrite bool_decide_eq_true.
  setoid_rewrite <-list_elem_of_In. split.
  - intros (p & Hp & Hv). apply list_elem_of_fmap in Hv as (v & -> & _). by exists v.
  - intros [v Hv]. exists (gossipsub_stream_protocol v). split; [done|].
    apply list_elem_of_fmap. exists v. split; [done|]. destruct v; set_solver.
Qed.

Lemma identify_run s p protocols :
  (speaks s protocols → handle_identify_received p protocols s = (s, Done tt)) ∧
  (¬ speaks s protocols →
   handle_identify_received p protocols s = (add_effect (EDisconnect p) s, Done tt)).
Proof.
  assert (handle_identify_received p protocols s
    = if supports_gossip protocols && supports_reqresp (config s) protocols
         && (negb byos || supports_setup protocols)
      then (s, Done tt) else (add_effect (EDisconnect p) s, Done tt)) as ->.
  { unfold handle_identify_received. destruct (supports_gossip protocols); [|done]. simpl.
    run_simpl. destruct (supports_reqresp _ _); [|done]. simpl.
    by destruct byos, (supports_setup protocols). }
  assert (supports_gossip protocols && supports_reqresp (config s) protocols
            && (negb byos || supports_setup protocols) = true ↔ speaks s protocols) as Hiff.
  { unfold speaks, supports_reqresp, supports_setup.
    rewrite !andb_true_iff, orb_true_iff, negb_true_iff, supports_gossip_spec, !existsb_eq.
    destruct byos; naive_solver. }
  destruct (_ && _); split; naive_solver.
Qed.

#[export] Instance speaks_dec s protocols : Decision (speaks s protocols).
Proof.
  refine (cast_if (decide (supports_gossip protocols = true ∧ protocol_name (config s) ∈ protocols ∧
    (byos = true → SETUP_PROTOCOL_NAME ∈ protocols)))); unfold speaks; by rewrite <-supports_gossip_spec.
Defined.

(** C32. Admission of peers: a peer that identifies itself is disconnected if and
    only if it lacks one of the node's protocols (a gossipsub version, the
    request/response protocol and, with [byos], the setup handshake); and the
    outcome of a setup handshake leads to a disconnection unless the peer proved
    a key on the allowlist.  Nothing else about the node changes. *)
Theorem admission s p protocols :
  (∀ s', (speaks s protocols ∧ s' = s) ∨ (¬ speaks s protocols ∧ s' = add_effect (EDisconnect p) s) ↔
         handle_identify_received p protocols s = (s', Done tt)) ∧
  (∀ ev, handle_setup_event ev s =
     match ev with
     | AppKeyReceived q k _ =>
         if decide (k ∈ app_allowlist s) then (s, Done tt) else (add_effect (EDisconnect q) s, Done tt)
     | ErrorDuringSetupHandshake q _ _ | NegotiationFailed q _ =>
         (add_effect (EDisconnect q) s, Done tt)
     end).
Proof.
  split.
  - destruct (identify_run s p protocols) as [Hyes Hno]. intros s'.
    destruct (decide (speaks s protocols)) as [Hs|Hs]; [rewrite Hyes by done|rewrite Hno by done];
      naive_solver.
  - intros [q k c|q c|q c e]; simpl; [|done..]. run_simpl.
    destruct (decide _); [by rewrite bool_decide_eq_true_2|by rewrite bool_decide_eq_false_2].
Qed.
End Admission.
