(* ===== verification/Behaviour.v ===== *)
(** * Building the swarm ([swarm/behavior.rs]; [swarm/mod.rs]: [finish_swarm!],
    [with_inmemory_transport], [with_default_transport])

    What the crate asks of libp2p when it builds a node's swarm from its
    configuration.  libp2p's behaviours are opaque: they are represented by the
    constructor calls that make them, and whether libp2p accepts those calls is
    the class [Libp2p]. *)

From S2P Require Import Prelude Time Float64 Platform Message Codec Scores Validator Errors Setup Config Dial Node Scoring Conn.
Open Scope Z_scope.

(** ** libp2p's side *)

(** The calls on gossipsub's [ConfigBuilder]. *)
Inductive GossipSetting : Type :=
  | GValidationModePermissive
  | GValidateMessages
  | GMaxTransmitSize (n : Z)
  | GIdontwantOnPublish (b : bool)
  | GMeshN (n : nat)
  | GMeshNLow (n : nat)
  | GMeshNHigh (n : nat)
  | GHeartbeatInitialDelay (d : Z)
  | GPublishQueueDuration (d : Z)
  | GForwardQueueDuration (d : Z).

(** The calls on kad's [Config]. *)
Inductive KadSetting : Type :=
  | KRecordFilterBoth
  | KRecordTtl (d : option Z)
  | KBucketInsertsOnConnected.

Class Libp2p `{P : Platform} := {
  (* ConfigBuilder::build *)
  gossip_config_build : list GossipSetting → result unit string;
  (* Behaviour::new_with_subscription_filter: author, settings, topics allowed *)
  gossipsub_new : PeerId → list GossipSetting → list bytes → result unit string;
  (* PeerScoreParams::default() with one topic, default parameters for it *)
  score_params_for : bytes → PeerScoreParams;
  score_thresholds_default : PeerScoreThresholds;
  (* with_peer_score *)
  peer_score_ok : PeerScoreParams → PeerScoreThresholds → bool;
  (* StreamProtocol::new panics on a name that does not start with a slash *)
  stream_protocol_ok : string → bool;
  (* noise::Config::new(keypair), with_tcp, with_dns *)
  noise_new : Keypair → result unit string;
  with_tcp : result unit string;
  with_dns : result unit string
}.

(** [Duration + Duration] panics on overflow, in every profile. *)
Definition duration_add (a b : Z) : option Z :=
  if a + b <=? duration_max then Some (a + b) else None.

Section Building.
Context {P : Platform} {LP : Libp2p}.

(** ** Behaviours, by how they are made *)

Record Gossipsub : Type := {
  gs_author : PeerId;
  gs_settings : list GossipSetting;
  gs_whitelist : list bytes;
  (* [None] when [with_peer_score] refused them *)
  gs_peer_score : option (PeerScoreParams * PeerScoreThresholds)
}.

Record Kademlia : Type := {
  kd_local : PeerId;
  kd_store : PeerId;
  kd_protocol : string;
  kd_settings : list KadSetting;
  kd_server_mode : bool
}.

(** [Behaviour]: [b_setup] with [byos], [b_transport_allowlist] without; a
    disabled allowlist is [None]. *)
Record Behaviour : Type := {
  b_setup : SetupBehaviour;
  b_identify : string * PublicKey;
  b_transport_allowlist : option (gset PeerId);
  b_request_response : string;
  b_gossipsub : Gossipsub;
  b_kademlia : Kademlia;
  b_conn_limits : ConnectionLimits;
  (* by bytes and by percentage, in the builds that have them *)
  b_mem_conn_limits_abs : option Z;
  b_mem_conn_limits_rel : option f64
}.

Definition create_transport_allowlist (transport_allowlist : option (list PeerId))
    : option (gset PeerId) :=
  (λ peers, foldl (λ behaviour peer, {[ peer ]} ∪ behaviour) ∅ peers) <$> transport_allowlist.

(** [if let Some(x) = o { config_builder.setter(x); }] *)
Definition set_if {A} (setter : A → GossipSetting) (o : option A) : list GossipSetting :=
  match o with Some x => [setter x] | None => [] end.

Definition gossip_settings (max_transmit_size : Z) (mesh_n mesh_n_low mesh_n_high : option nat)
    (heartbeat_initial_delay publish_queue_duration forward_queue_duration : option Z)
    : list GossipSetting :=
  [GValidationModePermissive; GValidateMessages; GMaxTransmitSize max_transmit_size;
   GIdontwantOnPublish true]
  ++ set_if GMeshN mesh_n ++ set_if GMeshNLow mesh_n_low ++ set_if GMeshNHigh mesh_n_high
  ++ set_if GHeartbeatInitialDelay heartbeat_initial_delay
  ++ set_if GPublishQueueDuration publish_queue_duration
  ++ set_if GForwardQueueDuration forward_queue_duration.

(** [.expect("gossipsub config at this stage must be valid")] panics. *)
Definition create_gossipsub (keypair : Keypair) (topic : bytes)
    (gossipsub_score_params : option PeerScoreParams)
    (gossipsub_score_thresholds : option PeerScoreThresholds) (settings : list GossipSetting)
    : outcome string Gossipsub :=
  let peer_score_params := default (score_params_for topic) gossipsub_score_params in
  let peer_score_thresholds := default score_thresholds_default gossipsub_score_thresholds in
  let author := to_peer_id (keypair_public keypair) in
  match gossip_config_build settings with
  | Err _ => Panic
  | Ok _ =>
      match gossipsub_new author settings [topic] with
      | Err e => Throw e
      | Ok _ =>
          Done {| gs_author := author; gs_settings := settings; gs_whitelist := [topic];
                  gs_peer_score :=
                    if peer_score_ok peer_score_params peer_score_thresholds
                    then Some (peer_score_params, peer_score_thresholds) else None |}
      end
  end.

Definition create_kademlia_behaviour (transport_keypair : Keypair)
    (kad_protocol_name : option KadProtocol) (kad_record_ttl : Z) : outcome string Kademlia :=
  match duration_add kad_record_ttl (from_secs (5 * 60)) with
  | None => Panic
  | Some ttl =>
      let local := to_peer_id (keypair_public transport_keypair) in
      Done {| kd_local := local; kd_store := local;
              kd_protocol := kad_stream_protocol (default KadV1 kad_protocol_name);
              kd_settings := [KRecordFilterBoth; KRecordTtl (Some ttl); KBucketInsertsOnConnected];
              kd_server_mode := true |}
  end.

Context {E : Env}.

(** With [byos] the peers are admitted by key and there is no allowlist of
    transport ids; without, there is no setup behaviour ([b_setup] is unused). *)
Definition Behaviour_new (protocol_name : string) (transport_keypair : Keypair)
    (transport_allowlist : option (list PeerId)) (app_public_key : PublicKey) (topic : bytes)
    (gossipsub_score_params : option PeerScoreParams)
    (gossipsub_score_thresholds : option PeerScoreThresholds)
    (gossipsub_max_transmit_size : Z) (mesh_n mesh_n_low mesh_n_high : option nat)
    (heartbeat_initial_delay publish_queue_duration forward_queue_duration : option Z)
    (signer : ApplicationSigner) (envelope_max_age max_clock_skew : Z)
    (kad_protocol_name : option KadProtocol) (kad_record_ttl : Z)
    (connection_limits : ConnectionLimits) (max_allowed_bytes : option Z)
    (max_percentage : option f64) : outcome string Behaviour :=
  match create_gossipsub transport_keypair topic gossipsub_score_params
          gossipsub_score_thresholds
          (gossip_settings gossipsub_max_transmit_size mesh_n mesh_n_low mesh_n_high
             heartbeat_initial_delay publish_queue_duration forward_queue_duration) with
  | Panic => Panic
  | Throw e => Throw e
  | Done gossipsub =>
      match create_kademlia_behaviour transport_keypair kad_protocol_name kad_record_ttl with
      | Panic => Panic
      | Throw e => Throw e
      | Done kademlia_behaviour =>
          if negb (stream_protocol_ok protocol_name) then Panic
          else
            Done {| b_setup := SetupBehaviour_new app_public_key
                                 (to_peer_id (keypair_public transport_keypair)) signer
                                 envelope_max_age max_clock_skew;
                    b_identify := (protocol_name, keypair_public transport_keypair);
                    b_transport_allowlist :=
                      if byos then None else create_transport_allowlist transport_allowlist;
                    b_request_response := protocol_name;
                    b_gossipsub := gossipsub; b_kademlia := kademlia_behaviour;
                    b_conn_limits := connection_limits;
                    b_mem_conn_limits_abs := max_allowed_bytes;
                    b_mem_conn_limits_rel := max_percentage |}
      end
  end.

(** ** The swarm *)

Inductive TransportKind : Type := InMemory | TcpQuicDns | TcpDns.

Record Swarm : Type := {
  sw_transport : TransportKind;
  sw_behaviour : Behaviour;
  sw_idle_connection_timeout : Z
}.

(** Building also writes the process-wide size limits of the raw codec. *)
Abbreviation B := (stM Raw.Limits SwarmError).

(** The closure of [finish_swarm!]: the call of [Behaviour::new] with the
    configuration's values. *)
Definition behaviour_of_config (cfg : P2PConfig) (signer : ApplicationSigner) : outcome string Behaviour :=
  let topic := topic_hash (default "strata"%string (cfg_gossipsub_topic cfg)) in
  let protocol_name := match cfg_protocol_name cfg with Some name => name | None => PROTOCOL_NAME end in
  Behaviour_new protocol_name (cfg_transport_keypair cfg) (cfg_transport_allowlist cfg)
    (cfg_app_public_key cfg) topic (cfg_gossipsub_score_params cfg)
    (cfg_gossipsub_score_thresholds cfg)
    (default MAX_TRANSMIT_SIZE (cfg_gossipsub_max_transmit_size cfg))
    (cfg_gossipsub_mesh_n cfg) (cfg_gossipsub_mesh_n_low cfg) (cfg_gossipsub_mesh_n_high cfg)
    (cfg_gossipsub_heartbeat_initial_delay cfg) (cfg_gossipsub_publish_queue_duration cfg)
    (cfg_gossipsub_forward_queue_duration cfg) signer
    (default DEFAULT_ENVELOPE_MAX_AGE (cfg_envelope_max_age cfg))
    (default 0 (cfg_max_clock_skew cfg))
    (cfg_kad_protocol_name cfg) (default DEFAULT_KAD_RECORD_TTL (cfg_kad_record_ttl cfg))
    (cfg_conn_limits cfg) (cfg_max_allowed_ram_used cfg) (cfg_max_allowed_ram_used_percent cfg).

Definition when_some {A} (f : A → Raw.Limits → Raw.Limits) (o : option A) : B unit :=
  match o with Some x => modS (f x) | None => mret tt end.

(** [.map_err(|e| ProtocolError::BehaviourInitialization(e.into()))?] *)
Definition or_behaviour_error (o : outcome string Behaviour) : B Behaviour :=
  match o with
  | Done b => mret b
  | Throw e => throw (Protocol (BehaviourInitialization e))
  | Panic => panic
  end.

(** [finish_swarm!]; [as u64] truncates. *)
Definition finish_swarm (kind : TransportKind) (builder : result unit string) (cfg : P2PConfig)
    (signer : ApplicationSigner) : B Swarm :=
  match builder with
  | Err e => throw (Protocol (TransportInitialization e))
  | Ok _ =>
      _ ← when_some (λ max, Raw.set_request_max_bytes (max mod 2 ^ 64)) (cfg_request_max_bytes cfg);
      _ ← when_some (λ max, Raw.set_response_max_bytes (max mod 2 ^ 64)) (cfg_response_max_bytes cfg);
      behaviour ← or_behaviour_error (behaviour_of_config cfg signer);
      mret {| sw_transport := kind; sw_behaviour := behaviour;
              sw_idle_connection_timeout := cfg_idle_connection_timeout cfg |}
  end.

(** [with_other_transport] cannot fail; [noise::Config::new(..).unwrap()] can panic. *)
Definition with_inmemory_transport (cfg : P2PConfig) (signer : ApplicationSigner) : B Swarm :=
  match noise_new (cfg_transport_keypair cfg) with
  | Err _ => panic
  | Ok _ => finish_swarm InMemory (Ok tt) cfg signer
  end.

(** The closure that [with_default_transport] has instead with the [quic]
    feature, which the crate writes out a second time.  (It passes the size
    limits without [as u64].) *)
Definition quic_behaviour (config : P2PConfig) (signer : ApplicationSigner) : B Behaviour :=
  let topic :=
    topic_hash match cfg_gossipsub_topic config with
               | Some name => name
               | None => "strata"%string
               end in
  let protocol_name :=
    match cfg_protocol_name config with
    | Some name => name
    | None => PROTOCOL_NAME
    end in
  _ ← match cfg_request_max_bytes config with
      | Some max => modS (Raw.set_request_max_bytes max)
      | None => mret tt
      end;
  _ ← match cfg_response_max_bytes config with
      | Some max => modS (Raw.set_response_max_bytes max)
      | None => mret tt
      end;
  match
    Behaviour_new
      protocol_name
      (cfg_transport_keypair config)
      (cfg_transport_allowlist config)
      (cfg_app_public_key config)
      topic
      (cfg_gossipsub_score_params config)
      (cfg_gossipsub_score_thresholds config)
      (default MAX_TRANSMIT_SIZE (cfg_gossipsub_max_transmit_size config))
      (cfg_gossipsub_mesh_n config)
      (cfg_gossipsub_mesh_n_low config)
      (cfg_gossipsub_mesh_n_high config)
      (cfg_gossipsub_heartbeat_initial_delay config)
      (cfg_gossipsub_publish_queue_duration config)
      (cfg_gossipsub_forward_queue_duration config)
      signer
      (default DEFAULT_ENVELOPE_MAX_AGE (cfg_envelope_max_age config))
      (default 0 (cfg_max_clock_skew config))
      (cfg_kad_protocol_name config)
      (default DEFAULT_KAD_RECORD_TTL (cfg_kad_record_ttl config))
      (cfg_conn_limits config)
      (cfg_max_allowed_ram_used config)
      (cfg_max_allowed_ram_used_percent config)
  with
  | Done behaviour => mret behaviour
  | Throw e => throw (Protocol (BehaviourInitialization e))
  | Panic => panic
  end.

(** With the [quic] feature, [with_tcp(..).unwrap()] panics and the behaviour is
    made by the closure above; without it a failure of TCP is an error and
    [finish_swarm!] does the rest. *)
Definition with_default_transport (quic : bool) (cfg : P2PConfig) (signer : ApplicationSigner) : B Swarm :=
  if quic then
    match with_tcp with
    | Err _ => panic
    | Ok _ =>
        match with_dns with
        | Err e => throw (Protocol (TransportInitialization e))
        | Ok _ =>
            behaviour ← quic_behaviour cfg signer;
            mret {| sw_transport := TcpQuicDns; sw_behaviour := behaviour;
                    sw_idle_connection_timeout := cfg_idle_connection_timeout cfg |}
        end
    end
  else
    match with_tcp with
    | Err e => throw (Protocol (TransportInitialization e))
    | Ok _ => finish_swarm TcpDns with_dns cfg signer
    end.

(** ** What comes of it *)

Definition settings_of (cfg : P2PConfig) : list GossipSetting :=
  gossip_settings (default MAX_TRANSMIT_SIZE (cfg_gossipsub_max_transmit_size cfg))
    (cfg_gossipsub_mesh_n cfg) (cfg_gossipsub_mesh_n_low cfg) (cfg_gossipsub_mesh_n_high cfg)
    (cfg_gossipsub_heartbeat_initial_delay cfg) (cfg_gossipsub_publish_queue_duration cfg)
    (cfg_gossipsub_forward_queue_duration cfg).
Definition own_peer_id (cfg : P2PConfig) : PeerId := to_peer_id (keypair_public (cfg_transport_keypair cfg)).
Definition topic_of (cfg : P2PConfig) : bytes := topic_hash (gossipsub_topic cfg).

(** The configured limits, over those in force. *)
Definition limits_of (cfg : P2PConfig) (l : Raw.Limits) : Raw.Limits := {|
  Raw.REQUEST_SIZE_MAXIMUM := default (Raw.REQUEST_SIZE_MAXIMUM l) (cfg_request_max_bytes cfg);
  Raw.RESPONSE_SIZE_MAXIMUM := default (Raw.RESPONSE_SIZE_MAXIMUM l) (cfg_response_max_bytes cfg) |}.
Definition limits_u64 (cfg : P2PConfig) : Prop :=
  (∀ n, cfg_request_max_bytes cfg = Some n → is_u64 n) ∧
  (∀ n, cfg_response_max_bytes cfg = Some n → is_u64 n).

(** The behaviour has what the node of this configuration relies on: gossipsub
    has the settings of the configuration; it may subscribe to its topic and to no other; libp2p leaves to it the verdict on
    every message and record; its records outlive its own republishing; setup
    runs as this node and with the node's time window; it speaks the protocol
    it asks of others; transport ids, the number of connections and the memory
    are restricted as configured. *)
Record behaviour_fits (cfg : P2PConfig) (signer : ApplicationSigner) (b : Behaviour) : Prop := {
  bf_settings : gs_settings (b_gossipsub b) = settings_of cfg;
  bf_topic : gs_whitelist (b_gossipsub b) = [topic_of cfg];
  bf_validate : GValidateMessages ∈ gs_settings (b_gossipsub b);
  bf_author : gs_author (b_gossipsub b) = own_peer_id cfg;
  bf_filter : KRecordFilterBoth ∈ kd_settings (b_kademlia b);
  bf_ttl : ∃ ttl, KRecordTtl (Some ttl) ∈ kd_settings (b_kademlia b) ∧ kad_record_ttl cfg < ttl;
  bf_store : kd_local (b_kademlia b) = own_peer_id cfg ∧ kd_store (b_kademlia b) = own_peer_id cfg;
  bf_setup : b_setup b = SetupBehaviour_new (cfg_app_public_key cfg) (own_peer_id cfg) signer
                           (envelope_max_age cfg) (max_clock_skew cfg);
  bf_protocol : b_request_response b = protocol_name cfg;
  bf_identify : b_identify b = (protocol_name cfg, keypair_public (cfg_transport_keypair cfg));
  bf_allowlist : match b_transport_allowlist b with
                 | None => byos = true ∨ cfg_transport_allowlist cfg = None
                 | Some allowed => byos = false ∧
                     ∃ peers, cfg_transport_allowlist cfg = Some peers ∧ ∀ p, p ∈ allowed ↔ p ∈ peers
                 end;
  bf_limits : b_conn_limits b = cfg_conn_limits cfg ∧
    b_mem_conn_limits_abs b = cfg_max_allowed_ram_used cfg ∧
    b_mem_conn_limits_rel b = cfg_max_allowed_ram_used_percent cfg
}.

Lemma allowlist_elements peers (acc : gset PeerId) p :
  p ∈ foldl (λ behaviour peer, {[ peer ]} ∪ behaviour) acc peers ↔ p ∈ acc ∨ p ∈ peers.
Proof.
  revert acc. induction peers as [|q peers IH]; intros acc; simpl; [set_solver|].
  rewrite IH. set_solver.
Qed.

(** What makes building panic. *)
Definition gossip_settings_refused (cfg : P2PConfig) : Prop :=
  ∃ e, gossip_config_build (settings_of cfg) = Err e.
Definition kad_or_protocol_refused (cfg : P2PConfig) : Prop :=
  duration_max < kad_record_ttl cfg + from_secs 300 ∨ stream_protocol_ok (protocol_name cfg) = false.
(** What libp2p answers to the construction of gossipsub. *)
Definition gossipsub_answers (cfg : P2PConfig) (r : result unit string) : Prop :=
  gossip_config_build (settings_of cfg) = Ok tt ∧
  gossipsub_new (own_peer_id cfg) (settings_of cfg) [topic_of cfg] = r.

Lemma behaviour_of_config_spec cfg signer :
  match behaviour_of_config cfg signer with
  | Done b => behaviour_fits cfg signer b ∧
      gossipsub_answers cfg (Ok tt) ∧ ¬ kad_or_protocol_refused cfg
  | Throw e => gossipsub_answers cfg (Err e)
  | Panic => gossip_settings_refused cfg ∨
      gossipsub_answers cfg (Ok tt) ∧ kad_or_protocol_refused cfg
  end.
Proof.
  unfold behaviour_of_config, Behaviour_new, create_gossipsub, gossipsub_answers,
    gossip_settings_refused, kad_or_protocol_refused.
  fold (settings_of cfg) (own_peer_id cfg).
  change (topic_hash (default "strata"%string (cfg_gossipsub_topic cfg))) with (topic_of cfg).
  replace (match cfg_protocol_name cfg with Some name => name | None => PROTOCOL_NAME end)
    with (protocol_name cfg) by (unfold protocol_name; by destruct (cfg_protocol_name cfg)).
  destruct (gossip_config_build (settings_of cfg)) as [[]|e] eqn:Hb; [|left; eauto].
  destruct (gossipsub_new _ _ _) as [[]|e] eqn:Hn; [|done].
  unfold create_kademlia_behaviour. fold (own_peer_id cfg) (kad_record_ttl cfg). unfold duration_add.
  change (from_secs (5 * 60)) with (from_secs 300).
  destruct (Z.leb_spec (kad_record_ttl cfg + from_secs 300) duration_max);
    [|right; split; [done|left; lia]].
  destruct (stream_protocol_ok (protocol_name cfg)) eqn:Hp; simpl; [|by right; split; [|right]].
  split; [|split; [done|intros [?|?]; [lia|done]]].
  split; simpl; try done; [set_solver|set_solver| |].
  - exists (kad_record_ttl cfg + from_secs 300). split; [set_solver|unfold from_secs, nanos_per_sec; lia].
  - destruct byos; [by left|]. unfold create_transport_allowlist.
    destruct (cfg_transport_allowlist cfg) as [peers|]; simpl; [|by right]. split; [done|].
    exists peers. split; [done|]. intros p. rewrite allowlist_elements. set_solver.
Qed.

Lemma when_some_run {A} (f : A → Raw.Limits → Raw.Limits) o {C} (k : unit → B C) l :
  (when_some f o ≫= k) l = k tt (match o with Some x => f x l | None => l end).
Proof. by destruct o. Qed.

(** What both builders do once the transport is there. *)
Definition assemble (kind : TransportKind) (cfg : P2PConfig) (signer : ApplicationSigner) : B Swarm := λ l,
  (limits_of cfg l,
   match behaviour_of_config cfg signer with
   | Done b => Done {| sw_transport := kind; sw_behaviour := b;
                       sw_idle_connection_timeout := cfg_idle_connection_timeout cfg |}
   | Throw e => Throw (Protocol (BehaviourInitialization e))
   | Panic => Panic
   end).

Lemma finish_swarm_assemble kind cfg signer l :
  limits_u64 cfg → finish_swarm kind (Ok tt) cfg signer l = assemble kind cfg signer l.
Proof.
  intros [Hreq Hresp]. unfold finish_swarm. rewrite !when_some_run. unfold assemble, limits_of.
  assert (∀ n, is_u64 n → n mod 2 ^ 64 = n) as Hmod
    by (intros n Hn; apply Z.mod_small; unfold is_u64, u64_max in Hn; lia).
  destruct (cfg_request_max_bytes cfg) as [n|]; [rewrite (Hmod n) by auto|];
    (destruct (cfg_response_max_bytes cfg) as [m|]; [rewrite (Hmod m) by auto|]);
    destruct l, (behaviour_of_config cfg signer); done.
Qed.

(** Exactly these failures. *)
Lemma assemble_failures kind cfg signer l :
  (∀ e, (assemble kind cfg signer l).2 = Throw e ↔
     ∃ msg, e = Protocol (BehaviourInitialization msg) ∧ gossipsub_answers cfg (Err msg)) ∧
  ((assemble kind cfg signer l).2 = Panic ↔ gossip_settings_refused cfg ∨
     gossipsub_answers cfg (Ok tt) ∧ kad_or_protocol_refused cfg).
Proof.
  pose proof (behaviour_of_config_spec cfg signer) as Hb. unfold assemble.
  unfold gossipsub_answers, gossip_settings_refused in *.
  destruct (behaviour_of_config cfg signer) as [b|msg|]; simpl; split; try intros e; split;
    try done.
  - intros (m & _ & _ & ?). destruct Hb as (_ & [_ ?] & _). congruence.
  - intros [[e ?]|[_ ?]]; destruct Hb as (_ & [? _] & ?); [congruence|done].
  - intros [= <-]. by exists msg.
  - intros (m & -> & _ & ?). destruct Hb as [_ ?]. congruence.
  - intros [[e ?]|[[_ ?] _]]; destruct Hb as [? ?]; congruence.
  - intros (m & _ & ? & ?). destruct Hb as [[? ?]|[[_ ?] _]]; congruence.
Qed.

Definition assemble_behaviour (cfg : P2PConfig) (signer : ApplicationSigner)
    : outcome SwarmError Behaviour :=
  match behaviour_of_config cfg signer with
  | Done b => Done b
  | Throw e => Throw (Protocol (BehaviourInitialization e))
  | Panic => Panic
  end.

(** The copy is a copy. *)
Lemma quic_behaviour_run cfg signer l :
  quic_behaviour cfg signer l = (limits_of cfg l, assemble_behaviour cfg signer).
Proof.
  unfold quic_behaviour, assemble_behaviour, behaviour_of_config, limits_of.
  replace (match cfg_gossipsub_topic cfg with Some name => name | None => "strata"%string end)
    with (default "strata"%string (cfg_gossipsub_topic cfg)) by (by destruct (cfg_gossipsub_topic cfg)).
  destruct (cfg_request_max_bytes cfg), (cfg_response_max_bytes cfg), l; run_simpl;
    by destruct (Behaviour_new _ _ _ _ _ _ _ _ _ _ _ _ _ _ _ _ _ _ _ _ _ _).
Qed.

Lemma quic_assemble cfg signer l :
  with_tcp = Ok tt → with_dns = Ok tt →
  with_default_transport true cfg signer l = assemble TcpQuicDns cfg signer l.
Proof.
  intros Ht Hd. unfold with_default_transport. rewrite Ht, Hd.
  rewrite (bind_run _ _ _ _ _ (quic_behaviour_run cfg signer l)).
  unfold assemble, assemble_behaviour. by destruct (behaviour_of_config cfg signer).
Qed.

(** C22. Building a swarm: with a working transport the three builders (memory,
    TCP, and TCP with QUIC, for which the crate writes the call of
    [Behaviour::new] out a second time) make the same behaviour, set the same
    process-wide size limits (and leave those alone that are not configured)
    and fail alike.  What they make fits the configuration.  A failure of
    libp2p's gossipsub is the only error, and is always one; settings that
    gossipsub's configuration refuses always panic, and so do, when gossipsub
    is made, a protocol name that libp2p refuses and a record lifetime so long
    that five minutes more overflow it, although all these come from the
    configuration; nothing else panics.  And a TCP transport that cannot be
    made is an error without QUIC and a panic with it. *)
Theorem building_a_swarm cfg signer l :
  limits_u64 cfg → noise_new (cfg_transport_keypair cfg) = Ok tt →
  let built := with_inmemory_transport cfg signer l in
  built = assemble InMemory cfg signer l ∧
  (with_tcp = Ok tt → with_dns = Ok tt →
   with_default_transport false cfg signer l = assemble TcpDns cfg signer l ∧
   with_default_transport true cfg signer l = assemble TcpQuicDns cfg signer l) ∧
  (∀ e, with_tcp = Err e →
   with_default_transport false cfg signer l = (l, Throw (Protocol (TransportInitialization e))) ∧
   with_default_transport true cfg signer l = (l, Panic)) ∧
  built.1 = limits_of cfg l ∧
  (∀ swarm, built.2 = Done swarm → behaviour_fits cfg signer (sw_behaviour swarm)) ∧
  (∀ e, built.2 = Throw e ↔ ∃ msg, e = Protocol (BehaviourInitialization msg) ∧
     gossipsub_answers cfg (Err msg)) ∧
  (built.2 = Panic ↔ gossip_settings_refused cfg ∨
     gossipsub_answers cfg (Ok tt) ∧ kad_or_protocol_refused cfg).
Proof.
  intros Hu Hnoise built.
  assert (built = assemble InMemory cfg signer l) as Hbuilt
    by (unfold built, with_inmemory_transport; rewrite Hnoise; by apply finish_swarm_assemble).
  clearbody built. subst built. split_and!; [done|..].
  - intros Ht Hd. split; [|by apply quic_assemble].
    unfold with_default_transport. rewrite Ht, Hd. by apply finish_swarm_assemble.
  - intros e He. unfold with_default_transport. by rewrite He.
  - done.
  - intros swarm Hs. pose proof (behaviour_of_config_spec cfg signer) as Hb.
    unfold assemble in Hs.
    destruct (behaviour_of_config cfg signer); simplify_eq/=. apply Hb.
  - apply assemble_failures.
  - apply assemble_failures.
Qed.
End Building.

(** ** Swarm and node together *)

Section SwarmAndNode.
Context {P : Platform} {LP : Libp2p} {Q : Queue Multiaddr} {E : Env}.

(** What a peer with this behaviour tells others that it speaks (gossipsub's
    protocol ids are libp2p's own, in the version that the crate accepts). *)
Definition advertises (b : Behaviour) (protocols : list string) : Prop :=
  (∃ v, gossipsub_stream_protocol v ∈ protocols) ∧ b_request_response b ∈ protocols ∧
  (byos = true → SETUP_PROTOCOL_NAME ∈ protocols).

(** C19. The swarm and the node made from one configuration fit together: the
    node's topic is the one its swarm may subscribe to; its setup behaviour
    proves its own key with its own time window; it republishes its record
    before the copies expire; and a neighbour, whatever else its configuration
    says, is kept when it identifies itself if it was built with the same
    protocol name, and disconnected if it does not speak that name. *)
Theorem swarm_fits_node kind cfg signer l swarm allowlist size v s :
  (assemble kind cfg signer l).2 = Done swarm →
  from_config cfg (b_setup (sw_behaviour swarm)) allowlist size signer v = Done s →
  gs_whitelist (b_gossipsub (sw_behaviour swarm)) = [topic_hash (topic s)] ∧
  (sb_signer (setup s) = signer ∧ sb_app_public_key (setup s) = cfg_app_public_key (config s) ∧
   sb_envelope_max_age (setup s) = envelope_max_age (config s) ∧
   sb_max_clock_skew (setup s) = max_clock_skew (config s)) ∧
  (∃ ttl, KRecordTtl (Some ttl) ∈ kd_settings (b_kademlia (sw_behaviour swarm)) ∧
     kad_record_ttl (config s) < ttl) ∧
  (∀ kind' cfg' signer' l' swarm' p protocols,
     (assemble kind' cfg' signer' l').2 = Done swarm' → advertises (sw_behaviour swarm') protocols →
     protocol_name cfg' = protocol_name cfg →
     handle_identify_received p protocols s = (s, Done tt)) ∧
  (∀ p protocols, protocol_name cfg ∉ protocols →
     handle_identify_received p protocols s = (add_effect (EDisconnect p) s, Done tt)).
Proof.
  intros Hswarm Hnode.
  assert (∀ kind cfg signer l swarm, (assemble kind cfg signer l).2 = Done swarm →
    behaviour_fits cfg signer (sw_behaviour swarm)) as Hfits.
  { intros kd c sg li sw Hsw. pose proof (behaviour_of_config_spec c sg) as Hb. simpl in Hsw.
    destruct (behaviour_of_config c sg); simplify_eq. apply Hb. }
  destruct (Hfits kind cfg signer l swarm Hswarm) as [_ Htopic _ _ _ Httl _ Hsetup _ _].
  unfold from_config in Hnode. destruct (listen_all _ _) as [tr [[]|e]]; [|done].
  destruct (negb _); [done|]. injection Hnode as <-. simpl. rewrite Hsetup.
  split_and!; try done.
  - intros kd' c' sg' l' sw' p protocols Hsw' (Hg & Hr & Hst) Hname.
    destruct (Hfits kd' c' sg' l' sw' Hsw') as [_ _ _ _ _ _ _ _ Hproto _].
    apply identify_run. split_and!; [done|simpl; by rewrite <-Hname, <-Hproto|done].
  - intros p protocols Hno. apply identify_run. intros (_ & Hp & _). done.
Qed.
End SwarmAndNode.

(** ** Concrete inputs *)

Module ToyLibp2p.
#[local] Existing Instances Toy.platform Toy.platform_laws ToyNode.queue_inst.
#[local] Instance env : Env := ToyNode.env false.

(** A libp2p that accepts everything but a protocol name without its slash. *)
Definition libp2p : Libp2p := {|
  gossip_config_build _ := Ok tt; gossipsub_new _ _ _ := Ok tt;
  score_params_for _ := tt : PeerScoreParams; score_thresholds_default := tt : PeerScoreThresholds;
  peer_score_ok _ _ := true;
  stream_protocol_ok name := String.prefix "/" name;
  noise_new _ := Ok tt; with_tcp := Ok tt; with_dns := Ok tt |}.
#[local] Existing Instance libp2p.

Definition limits : Raw.Limits :=
  {| Raw.REQUEST_SIZE_MAXIMUM := 1000; Raw.RESPONSE_SIZE_MAXIMUM := 2000 |}.

Definition made {A B} (o : outcome A B) : bool := match o with Done _ => true | _ => false end.

Lemma building_a_swarm_witness :
  with_inmemory_transport ToyNode.cfg ToyNode.own_signer limits
  = assemble InMemory ToyNode.cfg ToyNode.own_signer limits ∧
  made (assemble InMemory ToyNode.cfg ToyNode.own_signer limits).2 = true.
Proof.
  split; [|vm_compute; reflexivity].
  refine (proj1 (building_a_swarm ToyNode.cfg ToyNode.own_signer limits _ _)); [|done].
  by split.
Defined.

(** The swarm of a configuration, and the node for it. *)
Definition swarm_of (l : Raw.Limits) : outcome SwarmError Swarm :=
  (assemble TcpDns ToyNode.cfg ToyNode.own_signer l).2.
Definition node_for (swarm : Swarm) : outcome SwarmError P2P :=
  from_config ToyNode.cfg (b_setup (sw_behaviour swarm)) [3%nat : PublicKey] None
    ToyNode.own_signer None.

Lemma swarm_fits_node_witness :
  match swarm_of limits with
  | Done swarm =>
      match node_for swarm with
      | Done s => gs_whitelist (b_gossipsub (sw_behaviour swarm)) = [topic_hash (topic s)] ∧
          handle_identify_received (107%nat : PeerId) [] s
          = (add_effect (EDisconnect (107%nat : PeerId)) s, Done tt)
      | _ => False
      end
  | _ => False
  end.
Proof.
  assert (made (swarm_of limits) = true) as Hmade by (vm_compute; reflexivity).
  destruct (swarm_of limits) as [swarm|e|] eqn:Hsw; [clear Hmade|discriminate Hmade..].
  assert (made (node_for swarm) = true) as Hmade by (vm_compute; reflexivity).
  destruct (node_for swarm) as [s|e|] eqn:Hs; [|discriminate Hmade..].
  destruct (swarm_fits_node TcpDns ToyNode.cfg ToyNode.own_signer limits swarm _ _ _ s Hsw Hs)
    as (Htopic & _ & _ & _ & Hno).
  split; [exact Htopic|]. apply Hno. by intros ?%elem_of_nil.
Defined.
End ToyLibp2p.
