(* ===== verification/Commands.v ===== *)
(** * Commands ([commands.rs]; [swarm/mod.rs]: [handle_command])

    The commands of both builds in one type; a target names the build
    ([PeerTarget]), [SetScore] and [GetPeerScore] exist without [byos] only. *)

From S2P Require Import Prelude Time Float64 Platform Message Scores Validator Errors Setup Config Dial Node Scoring Kad Conn.
Open Scope Z_scope.

Section Commands.
Context {P : Platform} {Q : Queue Multiaddr} {E : Env}.

Inductive QueryP2PStateCommand : Type :=
  | IsConnected (target : PeerTarget)
  | GetConnectedPeers
  | GetMyListeningAddresses.

Inductive Command : Type :=
  | ConnectToPeer (target : PeerTarget) (addresses : list Multiaddr)
  | DisconnectFromPeer (target : PeerTarget)
  | GetPeerScore (peer_id : PeerId)
  | SetScore (target_transport_id : PeerId) (action : option Action)
      (callback : option (AppPeerScore → AppPeerScore))
  | QueryP2PState (query : QueryP2PStateCommand)
  | FindMultiaddr (target : PeerTarget).

(** [ConnectToPeer] with [byos]: the [unwrap] of the first address panics on
    an empty queue. *)
Definition connect_by_key (app_public_key : PublicKey) (addresses : list Multiaddr) : M unit :=
  dm ← getsS dial_manager;
  if has_app_public_key dm app_public_key then mret tt
  else
    let '(first_addr, q) := pop_front (from_iter (sort_addresses addresses)) in
    first_addr ← or_panic first_addr;
    _ ← modS (upd_config (push_connect_to first_addr));
    _ ← modS (upd_dial (insert_queue app_public_key q));
    dial_and_map first_addr app_public_key.

Definition connect_by_id (transport_id : PeerId) (addresses : list Multiaddr) : M unit :=
  connected ← ask swarm_is_connected;
  if connected transport_id : bool then mret tt
  else emit (EDial (DialPeer transport_id (sort_addresses addresses))).

Definition handle_connect_to_peer (target : PeerTarget) (addresses : list Multiaddr) : M unit :=
  if bool_decide (addresses = []) then mret tt
  else
    match target with
    | TargetAppPublicKey app_public_key => connect_by_key app_public_key addresses
    | TargetTransportId transport_id => connect_by_id transport_id addresses
    end.

Definition handle_disconnect_from_peer (target : PeerTarget) : M unit :=
  let peer_id := match target with
                 | TargetAppPublicKey target_app_public_key => to_peer_id target_app_public_key
                 | TargetTransportId target_transport_id => target_transport_id
                 end in
  connected ← ask swarm_is_connected;
  if connected peer_id : bool then disconnect_peer_id peer_id else mret tt.

Definition apply_action (target_transport_id : PeerId) (action : Action) : M unit :=
  match action with
  | ApplyPenalty penalty => apply_penalty target_transport_id penalty
  | RemovePenalty unpenalty => remove_penalty target_transport_id unpenalty
  end.

Definition apply_callback (target_transport_id : PeerId) (cb : AppPeerScore → AppPeerScore)
    : M unit :=
  current ← get_all_scores target_transport_id;
  let new_scores := cb (app_score current) in
  _ ← modS (upd_scores (update_gossipsub_app_score target_transport_id
                          (aps_gossipsub_app_score new_scores)));
  modS (upd_scores (update_req_resp_app_score target_transport_id
                      (aps_req_resp_app_score new_scores))).

Definition handle_set_score (target_transport_id : PeerId) (action : option Action)
    (callback : option (AppPeerScore → AppPeerScore)) : M unit :=
  _ ← match action with
      | Some action_type => apply_action target_transport_id action_type
      | None => mret tt
      end;
  match callback with
  | Some cb => apply_callback target_transport_id cb
  | None => mret tt
  end.

Definition handle_get_peer_score (peer_id : PeerId) : M unit :=
  score ← get_all_scores peer_id;
  elapsed ← get_elapsed_decay_time peer_id;
  if elapsed =? 0 then emit (EReply (ReplyScore score))
  else
    v ← getsS validator;
    let new_score := apply_decay v (aps_gossipsub_app_score (app_score score)) elapsed in
    _ ← modS (upd_scores (update_gossipsub_app_score peer_id new_score));
    let updated_score := apply_decay v (aps_req_resp_app_score (app_score score)) elapsed in
    _ ← modS (upd_scores (update_req_resp_app_score peer_id updated_score));
    emit (EReply (ReplyScore
      {| app_score := {| aps_gossipsub_app_score := new_score;
                         aps_req_resp_app_score := updated_score |};
         gossipsub_internal_score := gossipsub_internal_score score |})).

Definition handle_query (query : QueryP2PStateCommand) : M unit :=
  match query with
  | IsConnected (TargetAppPublicKey app_public_key) =>
      sb ← getsS setup;
      connected ← ask swarm_is_connected;
      emit (EReply (ReplyBool match get_transport_id_by_application_key sb app_public_key with
                              | Some transport_id => connected transport_id
                              | None => false
                              end))
  | IsConnected (TargetTransportId transport_id) =>
      connected ← ask swarm_is_connected;
      emit (EReply (ReplyBool (connected transport_id)))
  | GetConnectedPeers =>
      peer_ids ← ask connected_peers;
      if byos then
        sb ← getsS setup;
        emit (EReply (ReplyKeys (omap (get_app_public_key_by_transport_id sb) peer_ids)))
      else emit (EReply (ReplyPeers peer_ids))
  | GetMyListeningAddresses =>
      multiaddresses ← ask listeners;
      emit (EReply (ReplyAddrs multiaddresses))
  end.

Definition handle_command (cmd : Command) : M unit :=
  match cmd with
  | ConnectToPeer target addresses => handle_connect_to_peer target addresses
  | DisconnectFromPeer target => handle_disconnect_from_peer target
  | SetScore target_transport_id action callback =>
      handle_set_score target_transport_id action callback
  | GetPeerScore peer_id => handle_get_peer_score peer_id
  | QueryP2PState query => handle_query query
  | FindMultiaddr target => ask_kademlia_get_record target
  end.

(** *** Frame *)

(** The commands that lift penalty [k] of peer [p]. *)
Definition lifting (cmd : Command) (p : PeerId) (k : PenaltyKind) : Prop :=
  match cmd with
  | SetScore q (Some (RemovePenalty u)) _ => q = p ∧ lifts u k = true
  | _ => False
  end.

Lemma keeps_set_score t p k q a cb :
  ¬ lifting (SetScore q a cb) p k → moves (keeps t p k) (handle_set_score q a cb).
Proof.
  intros Hl. unfold handle_set_score. apply moves_bind; [apply _| |].
  - destruct a as [[pen|u]|]; simpl; [solve_moves| |solve_moves].
    apply keeps_remove_penalty. simpl in Hl.
    destruct (decide (p = q)) as [->|]; [right|by left]. by destruct (lifts u k); [destruct Hl|].
  - intros _. destruct cb; [|solve_moves]. unfold apply_callback. solve_moves.
Qed.

Lemma keeps_handle_command t p k cmd :
  ¬ lifting cmd p k → moves (keeps t p k) (handle_command cmd).
Proof.
  intros Hl. destruct cmd as [tg addrs|tg|q|q a cb|[[]| |]|tg]; simpl;
    unfold handle_connect_to_peer, connect_by_key, connect_by_id, handle_disconnect_from_peer,
      handle_get_peer_score; try solve [solve_moves].
  by apply keeps_set_score.
Qed.
End Commands.

(** ** Answers to queries, and disconnecting by key *)

Section CommandProperties.
Context {P : Platform} {Q : Queue Multiaddr} {E : Env}.

(** Queries by application key: as long as the setup tables are inverse to
    each other, "is this key connected" is answered yes exactly when some
    connected peer has proved the key, and the list of connected peers is the
    list of the keys that connected peers have proved; each query is answered
    once and changes nothing. *)
Theorem key_queries_answered s k :
  byos = true → inverse_tables (setup s) →
  let proved p k := get_app_public_key_by_transport_id (setup s) p = Some k in
  (∃ b, handle_command (QueryP2PState (IsConnected (TargetAppPublicKey k))) s
          = (add_effect (EReply (ReplyBool b)) s, Done tt) ∧
        (b = true ↔ ∃ p, proved p k ∧ swarm_is_connected (trace s) p = true)) ∧
  (∃ l, handle_command (QueryP2PState GetConnectedPeers) s
          = (add_effect (EReply (ReplyKeys l)) s, Done tt) ∧
        (∀ k', k' ∈ l ↔ ∃ p, p ∈ connected_peers (trace s) ∧ proved p k')).
Proof.
  intros Hb Hinv proved. cbn [handle_command handle_query]. run_simpl. rewrite Hb. run_simpl.
  split.
  - eexists. split; [reflexivity|].
    destruct (get_transport_id_by_application_key (setup s) k) as [p|] eqn:Hp.
    + apply Hinv in Hp. split; [eauto|]. intros (p' & Hp' & Hc).
      apply Hinv in Hp, Hp'. congruence.
    + split; [done|]. intros (p' & Hp' & _). apply Hinv in Hp'. congruence.
  - eexists. split; [reflexivity|]. intros k'. by rewrite list_elem_of_omap.
Qed.

(** C36. [DisconnectFromPeer] by key looks for the transport id that the key
    itself would have, not for the peer that proved the key: when a connected
    peer's transport key is not its application key, the command does nothing,
    although the node knows the peer and reports it connected. *)
Theorem disconnect_by_key_misses s k p :
  byos = true →
  get_transport_id_by_application_key (setup s) k = Some p →
  swarm_is_connected (trace s) p = true →
  swarm_is_connected (trace s) (to_peer_id k) = false →
  handle_command (DisconnectFromPeer (TargetAppPublicKey k)) s = (s, Done tt) ∧
  handle_command (QueryP2PState (IsConnected (TargetAppPublicKey k))) s
    = (add_effect (EReply (ReplyBool true)) s, Done tt).
Proof.
  intros Hb Hk Hc Hnc. cbn [handle_command handle_query]. unfold handle_disconnect_from_peer.
  run_simpl. rewrite Hnc, Hk. cbn. by rewrite Hc.
Qed.
End CommandProperties.

(** ** Decay, across messages and score queries *)

Section DecayAccounting.
Context {P : Platform} {Q : Queue Multiaddr} {E : Env}.

(** What makes a peer's scores decay: a gossip message of its, a request or
    response of its, and [GetPeerScore]. *)
Inductive DecayOp : Type := DGossip | DReqResp | DQuery.
Definition run_decay (p : PeerId) (op : DecayOp) : M unit :=
  match op with
  | DGossip => decay_gossip_score p
  | DReqResp => decay_request_response_score p
  | DQuery => handle_get_peer_score p
  end.
Definition decays_gossip (op : DecayOp) : bool := match op with DReqResp => false | _ => true end.
Definition decays_req_resp (op : DecayOp) : bool := match op with DGossip => false | _ => true end.

(** The time between the readings [ts], from [last_time] on; none before the
    first reading and across a step back of the clock. *)
Fixpoint intervals (last_time : option Z) (ts : list Z) : list Z :=
  match ts with [] => [] | t :: ts => elapsed_since t last_time :: intervals (Some t) ts end.

(** The intervals that end in an operation of the given kinds. *)
Fixpoint charged (kinds : DecayOp → bool) (ops : list DecayOp) (ivs : list Z) : list Z :=
  match ops, ivs with
  | op :: ops, d :: ivs => if kinds op && negb (d =? 0) then d :: charged kinds ops ivs else charged kinds ops ivs
  | _, _ => []
  end.

Definition gossip_score (sm : ScoreManager) (p : PeerId) : f64 :=
  default DEFAULT_GOSSIP_APP_SCORE (get_gossipsub_app_score sm p).
Definition req_resp_score (sm : ScoreManager) (p : PeerId) : f64 :=
  default DEFAULT_REQ_RESP_APP_SCORE (get_req_resp_score sm p).

(** One operation: the interval that it closes decays the scores it is about. *)
Definition decayed (v : Validator) (t : Z) (op : DecayOp) (p : PeerId) (sm sm' : ScoreManager) : Prop :=
  let d := elapsed_since t (last_scoring_decay_time sm !! p) in
  let by_op (kinds : DecayOp → bool) x := if kinds op && negb (d =? 0) then apply_decay v x d else x in
  gossip_score sm' p = by_op decays_gossip (gossip_score sm p) ∧
  req_resp_score sm' p = by_op decays_req_resp (req_resp_score sm p) ∧
  last_scoring_decay_time sm' !! p = Some t ∧
  (∀ q, q ≠ p → gossip_score sm' q = gossip_score sm q ∧ req_resp_score sm' q = req_resp_score sm q ∧
     last_scoring_decay_time sm' !! q = last_scoring_decay_time sm !! q).

Lemma run_decay_run op p s :
  let '(s', o) := run_decay p op s in
  o = Done tt ∧ decayed (validator s) (clock (ticks s)) op p (score_manager s) (score_manager s') ∧
  ticks s' = S (ticks s) ∧ validator s' = validator s ∧
  trace s' = trace s ++ match op with
    | DQuery => [EReply (ReplyScore (peer_scores (score_manager s') (peer_score (trace s) p) p))]
    | _ => [] end.
Proof.
  destruct op; cbn [run_decay].
  - rewrite decay_gossip_score_run. split_and!; try done; [|by rewrite app_nil_r].
    unfold decayed, decay_gossip_pure, update_last_scoring_decay_time, gossip_score,
      req_resp_score, get_gossipsub_app_score, get_req_resp_score. simpl.
    destruct (elapsed_since _ _ =? 0); simpl; rewrite ?lookup_insert_eq;
      (split_and!; [done..|]; intros q Hq; by rewrite ?lookup_insert_ne by done).
  - rewrite decay_request_response_score_run. split_and!; try done; [|by rewrite app_nil_r].
    unfold decayed, decay_req_resp_pure, update_last_scoring_decay_time, gossip_score,
      req_resp_score, get_gossipsub_app_score, get_req_resp_score. simpl.
    destruct (elapsed_since _ _ =? 0); simpl; rewrite ?lookup_insert_eq;
      (split_and!; [done..|]; intros q Hq; by rewrite ?lookup_insert_ne by done).
  - unfold handle_get_peer_score, get_elapsed_decay_time, get_all_scores, now, ask, emit, mbind,
      stM_bind, getsS, modS, mret, stM_ret. simpl.
    unfold decayed, gossip_score, req_resp_score, get_gossipsub_app_score, get_req_resp_score,
      peer_scores, get_gossipsub_app_score, get_req_resp_score.
    destruct (elapsed_since _ _ =? 0); simpl; rewrite ?lookup_insert_eq;
      (split_and!; [done|done|done|done| |done|done|done]; intros q Hq; by rewrite ?lookup_insert_ne by done).
Qed.

(** The clock readings of [n] operations. *)
Definition readings (start n : nat) : list Z := map clock (seq start n).

Lemma intervals_sum t0 start n :
  t0 ≤ clock start → (∀ i, (start ≤ i < start + n)%nat → clock i ≤ clock (S i)) →
  foldr Z.add 0 (intervals (Some t0) (readings start (S n))) = clock (start + n)%nat - t0.
Proof.
  assert (∀ a b, b ≤ a → elapsed_since a (Some b) = a - b) as Hel.
  { intros a b Hab. unfold elapsed_since, duration_since. simpl.
    by rewrite (proj2 (Z.leb_le b a)) by lia. }
  revert t0 start. induction n as [|n IH]; intros t0 start Ht Hc.
  - simpl. rewrite Hel by done. rewrite Nat.add_0_r. lia.
  - change (readings start (S (S n))) with (clock start :: readings (S start) (S n)).
    cbn [intervals foldr]. rewrite Hel by done.
    rewrite IH by (try apply Hc; intros; try apply Hc; lia).
    replace (S start + n)%nat with (start + S n)%nat by lia. lia.
Qed.

Lemma charged_split kinds ops ivs :
  length ops = length ivs →
  foldr Z.add 0 (charged kinds ops ivs) + foldr Z.add 0 (charged (negb ∘ kinds) ops ivs)
  = foldr Z.add 0 ivs.
Proof.
  revert ivs. induction ops as [|op ops IH]; intros [|d ivs]; simpl; try done.
  intros [= Hl]. specialize (IH ivs Hl). destruct (kinds op), (Z.eqb_spec d 0); simpl; lia.
Qed.

Lemma intervals_length last_time ts : length (intervals last_time ts) = length ts.
Proof. revert last_time. induction ts as [|t ts IH]; intros l; simpl; [done|]. by rewrite IH. Qed.

Definition total (ds : list Z) : Z := foldr Z.add 0 ds.

Lemma run_decays ops : ∀ p s,
  let '(s', o) := iterM (run_decay p) ops s in
  let ivs := intervals (last_scoring_decay_time (score_manager s) !! p)
               (readings (ticks s) (length ops)) in
  let fold kinds x := foldl (apply_decay (validator s)) x (charged kinds ops ivs) in
  o = Done tt ∧
  gossip_score (score_manager s') p = fold decays_gossip (gossip_score (score_manager s) p) ∧
  req_resp_score (score_manager s') p = fold decays_req_resp (req_resp_score (score_manager s) p) ∧
  (∀ q, q ≠ p → gossip_score (score_manager s') q = gossip_score (score_manager s) q ∧
     req_resp_score (score_manager s') q = req_resp_score (score_manager s) q) ∧
  (last ops = Some DQuery → ∃ tr, trace s' =
     tr ++ [EReply (ReplyScore (peer_scores (score_manager s') (peer_score tr p) p))]).
Proof.
  induction ops as [|op ops IH]; intros p s; [done|]. cbn [iterM].
  pose proof (run_decay_run op p s) as Hop. destruct (run_decay p op s) as [s1 o1] eqn:Hrun.
  destruct Hop as (-> & (Hg & Hr & Hl & Hq) & Ht & Hv & Htr).
  rewrite (bind_done _ _ _ _ _ Hrun). specialize (IH p s1).
  destruct (iterM (run_decay p) ops s1) as [s' o] eqn:Hrest. cbv zeta in IH.
  destruct IH as (Ho & Hg' & Hr' & Hq' & Hreply). cbv zeta. rewrite Ho.
  change (readings (ticks s) (length (op :: ops)))
    with (clock (ticks s) :: readings (S (ticks s)) (length ops)).
  cbn [intervals charged]. rewrite <-Ht, <-Hv, <-Hl. split_and!; [done|..].
  - rewrite Hg', Hg, Hv. by destruct (decays_gossip op && _).
  - rewrite Hr', Hr, Hv. by destruct (decays_req_resp op && _).
  - intros q Hne. destruct (Hq q Hne) as (<- & <- & _). by apply Hq'.
  - destruct ops as [|op' ops]; [|exact Hreply].
    intros [= ->]. injection Hrest as <- _. by exists (trace s).
Qed.

(** C34. Decay: whatever sequence of gossip messages, requests and score queries
    concerns a peer, each of its two scores is decayed by exactly the times that
    end in an operation about that score, in order; the time before an operation
    about the other score only is lost to it (if the clock does not step back,
    what is decayed and what is lost make up all the time since the last decay);
    a query is about both and answers what is stored afterwards; other
    peers' scores do not move. *)
Theorem decay_accounting s p ops :
  let last_time := last_scoring_decay_time (score_manager s) !! p in
  let ivs := intervals last_time (readings (ticks s) (length ops)) in
  let after kinds x := foldl (apply_decay (validator s)) x (charged kinds ops ivs) in
  let '(s', o) := iterM (run_decay p) ops s in
  o = Done tt ∧
  gossip_score (score_manager s') p = after decays_gossip (gossip_score (score_manager s) p) ∧
  req_resp_score (score_manager s') p = after decays_req_resp (req_resp_score (score_manager s) p) ∧
  (∀ q, q ≠ p → gossip_score (score_manager s') q = gossip_score (score_manager s) q ∧
     req_resp_score (score_manager s') q = req_resp_score (score_manager s) q) ∧
  (last ops = Some DQuery → ∃ tr, trace s' =
     tr ++ [EReply (ReplyScore (peer_scores (score_manager s') (peer_score tr p) p))]) ∧
  (∀ t0 n kinds, last_time = Some t0 → length ops = S n → t0 ≤ clock (ticks s) →
     (∀ i, (ticks s ≤ i < ticks s + n)%nat → clock i ≤ clock (S i)) →
     total (charged kinds ops ivs) + total (charged (negb ∘ kinds) ops ivs)
     = clock (ticks s + n)%nat - t0).
Proof.
  cbv zeta. pose proof (run_decays ops p s) as Hrun.
  destruct (iterM (run_decay p) ops s) as [s' o]. destruct Hrun as (Ho & Hg & Hr & Hq & Hreply).
  split_and!; [done..|]. intros t0 n kinds Hl Hn Ht Hc. unfold total.
  rewrite charged_split by (rewrite intervals_length; unfold readings; by rewrite length_map, length_seq).
  rewrite Hl, Hn. by apply intervals_sum.
Qed.
End DecayAccounting.

(** ** Examples on the toy node *)

(** A gossip message, a request, a query; the clock shows 1000, 1001, 1002 s. *)
Section DecayExample.
#[local] Existing Instances Toy.platform ToyNode.queue_inst.
#[local] Instance decay_accounting_env : Env := ToyNode.env false.

Lemma decay_accounting_witness :
  let s := decayed_node in let p := (107%nat : PeerId) in
  let ops := [DGossip; DReqResp; DQuery] in
  gossip_score (score_manager (iterM (run_decay p) ops s).1) p
  = foldl (apply_decay (validator s)) f64_zero [from_secs 100; from_secs 1] ∧
  req_resp_score (score_manager (iterM (run_decay p) ops s).1) p
  = foldl (apply_decay (validator s)) f64_zero [from_secs 1; from_secs 1].
Proof.
  intros s p ops. pose proof (decay_accounting s p ops) as H. cbv zeta in H.
  destruct (iterM (run_decay p) ops s) as [s' o]. destruct H as (_ & Hg & Hr & _).
  split; [exact Hg|exact Hr].
Defined.
End DecayExample.

Section CommandExamples.
#[local] Existing Instances Toy.platform ToyNode.queue_inst.

(** Only peer 107, the one that proved key 3, is connected. *)
Definition one_peer_env : Env := {|
  byos := true; overflow_checks := true; clock _ := from_secs 1000;
  local_peer_id := 105%nat : PeerId;
  swarm_is_connected _ p := bool_decide (p = (107%nat : PeerId));
  connected_peers _ := [107%nat : PeerId]; listeners _ := []; external_addresses _ := [];
  next_connection_id tr := length tr : ConnectionId;
  swarm_dial _ _ := Ok tt; swarm_listen_on _ _ := Ok tt; peer_score _ _ := None;
  gossip_subscribe _ _ := InTime (Ok tt); gossip_publish tr _ _ := Ok (length tr : MessageId);
  get_record tr _ := length tr : QueryId;
  put_record tr _ _ := Ok (length tr : QueryId); store_get _ _ := None; store_put _ _ _ := Ok tt;
  channel_capacity_ok _ _ := true; gossip_events_send _ _ := Ok tt;
  req_resp_events_send _ _ := InTime (Ok tt);
  response_recv _ data := InTime (Ok data) |}.
#[local] Existing Instance one_peer_env.

Definition key_target : PeerTarget := TargetAppPublicKey (3%nat : PublicKey).
Definition key_proved : SetupInput :=
  FromHandler (107%nat : PeerId) 0%nat (HAppKeyReceived (3%nat : PublicKey)).
Definition one_peer_node : P2P := upd_setup (sb_step key_proved) ToyNode.node.

Lemma one_peer_inverse : inverse_tables (setup one_peer_node).
Proof.
  apply (inverse_step key_proved).
  - intros p k. by unfold get_app_public_key_by_transport_id, get_transport_id_by_application_key.
  - split; intros ? Hl; discriminate Hl.
Qed.

Lemma key_queries_answered_witness :
  ∃ b, handle_command (QueryP2PState (IsConnected key_target))
         one_peer_node = (add_effect (EReply (ReplyBool b)) one_peer_node, Done tt) ∧ b = true.
Proof.
  pose proof (key_queries_answered one_peer_node (3%nat : PublicKey) eq_refl one_peer_inverse) as Hq.
  destruct Hq as [(b & Hb & Hiff) _].
  exists b. split; [exact Hb|]. apply Hiff. exists (107%nat : @PeerId Toy.platform). split; reflexivity.
Defined.

Lemma disconnect_by_key_misses_witness :
  handle_command (DisconnectFromPeer key_target) one_peer_node
    = (one_peer_node, Done tt).
Proof.
  exact (proj1 (disconnect_by_key_misses one_peer_node (3%nat : PublicKey) (107%nat : PeerId)
                  eq_refl eq_refl eq_refl eq_refl)).
Defined.
End CommandExamples.
