(* ===== verification/Dialing.v ===== *)
(** * Dial sequences, from the command to the end

    [ConnectToPeer] with a key, then the connection errors the swarm reports:
    which addresses are tried, in which order, and what is left of it. *)

From S2P Require Import Prelude Time Float64 Platform Message Scores Validator Errors Setup Config Dial Node Scoring Kad Conn Commands.
Open Scope Z_scope.

Section Dialing.
Context {P : Platform} {Q : Queue Multiaddr} `{!QueueLaws Q} {E : Env}.

(** The addresses dialed so far. *)
Definition dialed (tr : list Effect) : list Multiaddr :=
  omap (λ e, match e with EDial (DialAddress _ a) => Some a | _ => None end) tr.

(** Attempt [c], to reach key [k], is the last thing the node did; [rest] is
    still to be tried if it fails. *)
Definition dialing (s : P2P) (k : PublicKey) (c : ConnectionId) (rest : list Multiaddr) : Prop :=
  remaining (dial_manager s) k = Some rest ∧
  conn_to_dial (dial_manager s) !! c = Some k ∧
  ∃ a, last (trace s) = Some (EDial (DialAddress c a)).

(** Nothing is left of the sequence for [k] on attempt [c]. *)
Definition dial_over (s : P2P) (k : PublicKey) (c : ConnectionId) : Prop :=
  has_app_public_key (dial_manager s) k = false ∧
  conn_to_dial (dial_manager s) !! c = None.

Lemma remaining_upd_dial_None dm k :
  remaining dm k = None ↔ has_app_public_key dm k = false.
Proof.
  unfold remaining, has_app_public_key. by destruct (dial_queues dm !! k).
Qed.

Lemma dial_and_map_dialing a k rest s :
  remaining (dial_manager s) k = Some rest →
  let '(s', o) := dial_and_map a k s in
  let c := next_connection_id (trace s) in
  o = Done tt ∧ dialing s' k c rest ∧ trace s' = trace s ++ [EDial (DialAddress c a)].
Proof.
  intros Hr. unfold dial_and_map. run_simpl. simpl. split_and!; [done| |done].
  split_and!; [exact Hr|apply lookup_insert_eq|]. exists a. simpl. by rewrite last_snoc.
Qed.

(** The current attempt fails. *)
Lemma attempt_fails s k c rest :
  byos = true → dialing s k c rest →
  let '(s', o) := handle_connection_event (OutgoingConnectionError c) s in
  o = Done tt ∧
  match rest with
  | [] => dial_over s' k c ∧ trace s' = trace s
  | a :: rest' =>
      let c' := next_connection_id (trace s) in
      dialing s' k c' rest' ∧ trace s' = trace s ++ [EDial (DialAddress c' a)]
  end.
Proof.
  intros Hb (Hr & Hc & _). simpl. unfold handle_outgoing_connection_error. rewrite Hb. run_simpl.
  unfold get_app_public_key_by_connection_id. rewrite Hc. run_simpl.
  set (s1 := upd_dial _ s).
  assert (remaining (dial_manager s1) k = Some rest) as Hr1 by exact Hr.
  destruct (pop_next_addr_spec _ _ _ Hr1) as (Hhd & Htl & Hconn).
  destruct (pop_next_addr k (dial_manager s1)) as [dm' next]. simpl in Hhd, Htl, Hconn. subst next.
  run_simpl. set (s2 := upd_dial _ s1).
  assert (remaining (dial_manager s2) k = Some (tail rest)) as Hr2
    by (specialize (Htl k); by rewrite decide_True in Htl).
  destruct rest as [|a rest]; cbn [head].
  - simpl. split_and!; [done| |done]. split.
    + apply remaining_upd_dial_None. unfold remaining. simpl. by rewrite lookup_delete_eq.
    + simpl. rewrite Hconn. apply lookup_delete_eq.
  - pose proof (dial_and_map_dialing a k _ s2 Hr2) as Hd.
    destruct (dial_and_map a k s2) as [s' o]. cbv zeta in Hd.
    destruct Hd as (-> & Hd1 & Hd2). split; [done|]. split; [exact Hd1|exact Hd2].
Qed.

(** The current attempt succeeds. *)
Lemma attempt_succeeds s k c rest p :
  byos = true → dialing s k c rest →
  let '(s', o) := handle_connection_event (ConnectionEstablished p c) s in
  o = Done tt ∧ dial_over s' k c ∧ trace s' = trace s.
Proof.
  intros Hb (Hr & Hc & _). simpl. unfold handle_connection_established. rewrite Hb. run_simpl.
  unfold get_app_public_key_by_connection_id. rewrite Hc. run_simpl. simpl.
  split_and!; [done| |done]. split.
  - apply remaining_upd_dial_None. unfold remaining. simpl. by rewrite lookup_delete_eq.
  - apply lookup_delete_eq.
Qed.

(** The command itself. *)
Lemma connect_starts s k a rest addrs :
  sort_addresses addrs = a :: rest → has_app_public_key (dial_manager s) k = false →
  let '(s', o) := handle_command (ConnectToPeer (TargetAppPublicKey k) addrs) s in
  let c := next_connection_id (trace s) in
  o = Done tt ∧ dialing s' k c rest ∧ trace s' = trace s ++ [EDial (DialAddress c a)].
Proof.
  intros Hsort Hk. simpl. unfold handle_connect_to_peer, connect_by_key.
  rewrite bool_decide_eq_false_2 by (by intros ->). run_simpl. rewrite Hk.
  pose proof (pop_front_fst (from_iter (sort_addresses addrs))) as Hfst.
  pose proof (pop_front_snd (from_iter (sort_addresses addrs))) as Hsnd.
  rewrite contents_from_iter, Hsort in Hfst, Hsnd.
  rewrite Hsort. destruct (pop_front (from_iter (a :: rest))) as [hd q]. simpl in Hfst, Hsnd.
  subst hd. cbn [or_panic]. run_simpl.
  refine (dial_and_map_dialing a k rest
            (upd_dial (insert_queue k q) (upd_config (push_connect_to a) s)) _).
  unfold remaining. simpl. rewrite lookup_insert_eq. simpl. by rewrite Hsnd.
Qed.

(** [n] failures in a row, each of the attempt that is current then. *)
Definition current_attempt (s : P2P) : option ConnectionId :=
  match last (trace s) with Some (EDial (DialAddress c _)) => Some c | _ => None end.

Fixpoint fail_times (n : nat) : M unit :=
  match n with
  | O => mret tt
  | S n =>
      c ← getsS current_attempt;
      match c with
      | Some c => _ ← handle_connection_event (OutgoingConnectionError c); fail_times n
      | None => mret tt
      end
  end.

Lemma dialing_current s k c rest : dialing s k c rest → current_attempt s = Some c.
Proof. intros (_ & _ & a & Ha). unfold current_attempt. by rewrite Ha. Qed.

Lemma fail_times_dialing n s k c rest :
  byos = true → dialing s k c rest → (n ≤ length rest)%nat →
  let '(s', o) := fail_times n s in
  o = Done tt ∧ (∃ c', dialing s' k c' (drop n rest)) ∧
  dialed (trace s') = dialed (trace s) ++ take n rest.
Proof.
  revert s c rest. induction n as [|n IH]; intros s c rest Hb Hd Hn; cbn [fail_times].
  { simpl. split_and!; [done|by exists c|by rewrite app_nil_r]. }
  run_simpl. rewrite (dialing_current _ _ _ _ Hd).
  destruct rest as [|a rest]; simpl in Hn; [lia|].
  pose proof (attempt_fails s k c (a :: rest) Hb Hd) as Hf. unfold mbind, stM_bind.
  destruct (handle_connection_event _ s) as [s1 o1]. destruct Hf as (-> & Hd1 & Ht1).
  specialize (IH s1 _ rest Hb Hd1 ltac:(lia)).
  destruct (fail_times n s1) as [s' o]. destruct IH as (-> & Hd' & Ht').
  split_and!; [done|exact Hd'|]. rewrite Ht', Ht1. unfold dialed.
  rewrite omap_app. simpl. by rewrite <-app_assoc.
Qed.

(** C16. Dialing a peer by key: while attempt after attempt fails, the node
    tries exactly the given addresses, each once, QUIC ones first and otherwise
    in the given order, one at a time; it refuses a second request for the key
    meanwhile; when the last one has failed, or as soon as one succeeds, nothing
    is left of the sequence and the key can be dialed again. *)
Theorem dial_sequence s k addrs n :
  byos = true → has_app_public_key (dial_manager s) k = false →
  (n < length addrs)%nat →
  let '(s', o) := (_ ← handle_command (ConnectToPeer (TargetAppPublicKey k) addrs);
                   fail_times n : M unit) s in
  o = Done tt ∧
  dialed (trace s') = dialed (trace s) ++ take (S n) (quic_first addrs) ∧
  (∀ addrs', handle_command (ConnectToPeer (TargetAppPublicKey k) addrs') s' = (s', Done tt)) ∧
  ∃ c, dialing s' k c (drop (S n) (quic_first addrs)) ∧
    (S n = length addrs →
       dial_over (handle_connection_event (OutgoingConnectionError c) s').1 k c) ∧
    (∀ p, dial_over (handle_connection_event (ConnectionEstablished p c) s').1 k c).
Proof.
  intros Hb Hk Hn. rewrite <-sort_addresses_quic_first.
  assert (length (sort_addresses addrs) = length addrs) as Hlen
    by (apply Permutation_length, sort_by_key_permutation).
  destruct (sort_addresses addrs) as [|a rest] eqn:Hsort; simpl in Hlen; [lia|].
  pose proof (connect_starts s k a rest addrs Hsort Hk) as Hs. unfold mbind, stM_bind.
  destruct (handle_command _ s) as [s1 o1]. destruct Hs as (-> & Hd1 & Ht1).
  pose proof (fail_times_dialing n s1 k _ rest Hb Hd1 ltac:(lia)) as Hf.
  destruct (fail_times n s1) as [s' o]. destruct Hf as (-> & [c Hd] & Ht).
  split_and!; [done| | |].
  - rewrite Ht, Ht1. unfold dialed. rewrite omap_app. simpl. by rewrite <-app_assoc.
  - intros addrs'. simpl. unfold handle_connect_to_peer, connect_by_key.
    case_bool_decide; [done|]. run_simpl.
    destruct (has_app_public_key (dial_manager s') k) eqn:Hh; [done|].
    apply remaining_upd_dial_None in Hh. destruct Hd as (Hd & _). congruence.
  - exists c. split_and!; [exact Hd| |].
    + intros Hlast. pose proof (attempt_fails s' k c _ Hb Hd) as Hf.
      destruct (handle_connection_event _ s') as [s2 o2]. destruct Hf as [_ Hf].
      simpl in Hf. rewrite drop_ge in Hf by lia. apply Hf.
    + intros p. pose proof (attempt_succeeds s' k c _ p Hb Hd) as Hf.
      destruct (handle_connection_event _ s') as [s2 o2]. apply Hf.
Qed.
End Dialing.

(** ** Example: a TCP and a QUIC address, both failing *)

Section DialingExample.
#[local] Existing Instances Toy.platform ToyNode.queue_inst.
#[local] Instance dialing_env : Env := ToyNode.env true.

Lemma dial_sequence_witness :
  let '(s', o) := (_ ← handle_command (ConnectToPeer (TargetAppPublicKey (3%nat : PublicKey))
                                         [0%nat : Multiaddr; 1%nat : Multiaddr]);
                   fail_times 1 : M unit) ToyNode.node in
  dialed (trace s') = [1%nat : Multiaddr; 0%nat : Multiaddr].
Proof.
  pose proof (@dial_sequence _ ToyNode.queue_inst ToyNode.queue_laws dialing_env ToyNode.node
    (3%nat : PublicKey) [0%nat : Multiaddr; 1%nat : Multiaddr] 1 eq_refl eq_refl (le_n 2)) as Hd.
  destruct_run Hd s' o. exact (proj1 (proj2 Hd)).
Defined.
End DialingExample.
