(* ===== verification/Listen.v ===== *)
(** * The event loop ([swarm/mod.rs]: [listen], [handle_swarm_event],
    [handle_behaviour_event])

    One iteration of the loop is a wake-up: whatever branch of the [select!]
    fired, handled to its end before the next iteration.  [listen_run] chains
    them; cancellation and an error stop the loop, a panic kills it. *)

From S2P Require Import Prelude Time Float64 Platform Message Scores Validator Errors Setup Config Dial Node Scoring Gossip ReqResp Kad Conn Commands.
Open Scope Z_scope.

Section Listen.
Context {P : Platform} {Q : Queue Multiaddr} {E : Env}.

(** [BehaviourEvent] *)
Inductive BehaviourEvent : Type :=
  | BGossipsub (event : GossipsubEvent)
  | BRequestResponse (event : RequestResponseEvent)
  | BSetup (event : SetupBehaviourEvent)
  | BKademlia (event : KademliaEvent)
  | BIdentifyReceived (peer_id : PeerId) (protocols : list string)
  | BOther.

Inductive SwarmEvent : Type :=
  | SwarmBehaviour (event : BehaviourEvent)
  | SwarmConnection (event : ConnectionSwarmEvent)
  | SwarmOther.

Definition handle_behaviour_event (event : BehaviourEvent) : M unit :=
  match event with
  | BGossipsub event => handle_gossip_event event
  | BRequestResponse event => handle_request_response_event event
  | BSetup event => handle_setup_event event
  | BKademlia event => handle_kademlia_event event
  | BIdentifyReceived peer_id protocols => handle_identify_received peer_id protocols
  | BOther => mret tt
  end.

Definition handle_swarm_event (event : SwarmEvent) : M unit :=
  match event with
  | SwarmBehaviour event => handle_behaviour_event event
  | SwarmConnection event => handle_connection_event event
  | SwarmOther => mret tt
  end.

(** The branches of the [select!], and the progress the swarm makes on its own
    while it is polled: the setup behaviour is fed ([WSetupInput]) and the
    events it has pending come out ([WSetupPoll]). *)
Inductive Wakeup : Type :=
  | WCancel
  | WSwarm (event : SwarmEvent)
  | WSetupInput (i : SetupInput)
  | WSetupPoll
  | WCommand (cmd : Command)
  | WGossipCommand (data : bytes)
  | WReqRespCommand (cmd : RequestResponseCommand)
  | WRepublish.

Definition poll_setup : M unit :=
  sb ← getsS setup;
  let '(sb', event) := behaviour_poll sb in
  _ ← modS (upd_setup (λ _, sb'));
  match event with
  | Some event => handle_swarm_event (SwarmBehaviour (BSetup event))
  | None => mret tt
  end.

Definition wake (w : Wakeup) : M unit :=
  match w with
  | WCancel => mret tt
  | WSwarm event => handle_swarm_event event
  | WSetupInput i => modS (upd_setup (sb_step i))
  | WSetupPoll => poll_setup
  | WCommand cmd => handle_command cmd
  | WGossipCommand data => handle_gossip_command data
  | WReqRespCommand cmd => handle_request_response_command cmd
  | WRepublish => ask_kademlia_put_record
  end.

Inductive LoopState : Type :=
  | Running (s : P2P)
  | Stopped (s : P2P)
  | Crashed (s : P2P).

Inductive listen_step : LoopState → Wakeup → LoopState → Prop :=
  | step_cancel s : listen_step (Running s) WCancel (Stopped s)
  | step_done w s s' : w ≠ WCancel → wake w s = (s', Done tt) →
      listen_step (Running s) w (Running s')
  | step_error w s s' e : w ≠ WCancel → wake w s = (s', Throw e) →
      listen_step (Running s) w (Stopped s')
  | step_panic w s s' : w ≠ WCancel → wake w s = (s', Panic) →
      listen_step (Running s) w (Crashed s').

Inductive listen_run : LoopState → list Wakeup → LoopState → Prop :=
  | run_nil l : listen_run l [] l
  | run_cons l1 w l2 ws l3 :
      listen_step l1 w l2 → listen_run l2 ws l3 → listen_run l1 (w :: ws) l3.

Definition loop_state (l : LoopState) : P2P :=
  match l with Running s | Stopped s | Crashed s => s end.

(** A preorder that the handlers move the state along relates the ends of a run. *)
Lemma listen_run_moves (R : P2P → P2P → Prop) `{!PreOrder R} (ok : Wakeup → Prop) l ws l' :
  (∀ w, ok w → moves R (wake w)) →
  listen_run l ws l' → Forall ok ws → R (loop_state l) (loop_state l').
Proof.
  intros HR Hrun. induction Hrun as [|l1 w l2 ws l3 Hs Hrun IH]; intros Hok; [reflexivity|].
  apply Forall_cons in Hok as [Hw Hok]. etrans; [|by apply IH].
  destruct Hs as [s|w s s' _ Hw'|w s s' e _ Hw'|w s s' _ Hw']; simpl; [reflexivity| | |];
    specialize (HR _ Hw s); by rewrite Hw' in HR.
Qed.

(** A state that every wake-up keeps and that no wake-up panics in. *)
Lemma listen_run_invariant (I : P2P → Prop) (ok : Wakeup → Prop) l ws l' :
  (∀ w s, ok w → I s → I (wake w s).1 ∧ (wake w s).2 ≠ Panic) →
  listen_run l ws l' → Forall ok ws →
  (∀ s, l ≠ Crashed s) → I (loop_state l) → I (loop_state l') ∧ (∀ s, l' ≠ Crashed s).
Proof.
  intros HI Hrun. induction Hrun as [|l1 w l2 ws l3 Hs Hrun IH]; intros Hok Hc Hl; [done|].
  apply Forall_cons in Hok as [Hw Hok].
  destruct Hs as [s|w s s' _ Hw'|w s s' e _ Hw'|w s s' _ Hw']; simpl in Hl;
    pose proof (HI _ s Hw Hl) as Hk; try (rewrite Hw' in Hk; simpl in Hk); destruct Hk;
    try done; by apply IH.
Qed.

(** ** Penalties *)

Definition no_lifting (p : PeerId) (k : PenaltyKind) (w : Wakeup) : Prop :=
  match w with WCommand cmd => ¬ lifting cmd p k | _ => True end.

Lemma keeps_wake t p k w : no_lifting p k w → moves (keeps t p k) (wake w).
Proof.
  intros Hw. destruct w as [|[[]| |]| | |cmd| | |]; simpl; unfold poll_setup;
    try solve [solve_moves]. by apply keeps_handle_command.
Qed.

(** C6. Penalties last: whatever wakes the node up, and in whatever order
    (messages of the punished peer, reconnections, other penalties, decay,
    disconnection of the peer, which erases what is known of a peer without
    running penalties), a ban or mute that runs past time [t] still does so as
    long as the clock has not been read later than [t] and the user has not
    lifted that very kind of penalty from that very peer. *)
Theorem penalty_lasts t p k s ws l :
  listen_run (Running s) ws l → Forall (no_lifting p k) ws →
  in_force t p k s →
  (∀ n, (ticks s ≤ n < ticks (loop_state l))%nat → clock n ≤ t) →
  in_force t p k (loop_state l).
Proof.
  intros Hrun Hws Hin Hclock.
  destruct (listen_run_moves (keeps t p k) (no_lifting p k) (Running s) ws l) as [_ Hk];
    [intros w Hw; by apply keeps_wake|done|done|]. by apply Hk.
Qed.

(** Imposing a ban until [until] makes it last at least that long. *)
Lemma extend_until_ge now old until : until ≤ extend_until now old until.
Proof. unfold extend_until. destruct old as [u|]; [destruct (now <? u)|]; lia. Qed.

Lemma ban_in_force p d s :
  as_secs (clock (ticks s) + default DEFAULT_BAN_PERIOD d) ≤ i64_max →
  let '(s', o) := apply_penalty p (Ban d) s in
  o = Done tt ∧ trace s' = trace s ++ [EDisconnect p] ∧
  ∀ t, t < clock (ticks s) + default DEFAULT_BAN_PERIOD d → in_force t p PeerBan s'.
Proof.
  intros Hfit. unfold apply_penalty, now_plus. rewrite bind_assoc. run_simpl.
  unfold systemtime_add. rewrite (proj2 (Z.leb_le _ _) Hfit). cbn [or_panic]. run_simpl.
  set (u := clock (ticks s) + _). unfold impose. do 2 (rewrite bind_assoc; run_simpl).
  rewrite bind_assoc. run_simpl. set (t1 := clock _). set (st := peer_penalty_storage _).
  rewrite ban_peer_ok. simpl. split_and!; [done..|]. intros t Ht. unfold in_force. simpl.
  rewrite ban_peer_refines. unfold spec_impose, set_until. rewrite decide_True by done.
  pose proof (extend_until_ge t1 (penalty_until st p PeerBan) u). simpl.
  apply Z.ltb_lt. lia.
Qed.

(** C5. Bans are enforced: when the user bans a peer for a duration (30 days if
    none is given), the peer is disconnected at once, and from then on, whatever
    happens in between short of the user unbanning it, every connection it
    establishes while the clock has not reached the end of the ban is
    disconnected again. *)
Theorem ban_enforced s p d ws s2 c :
  byos = false →
  as_secs (clock (ticks s) + default DEFAULT_BAN_PERIOD d) ≤ i64_max →
  let '(s1, o) := handle_command (SetScore p (Some (ApplyPenalty (Ban d))) None) s in
  o = Done tt ∧ trace s1 = trace s ++ [EDisconnect p] ∧
  (listen_run (Running s1) ws (Running s2) → Forall (no_lifting p PeerBan) ws →
   (∀ n, (ticks s1 ≤ n ≤ ticks s2)%nat →
      clock n < clock (ticks s) + default DEFAULT_BAN_PERIOD d) →
   let '(s3, o) := handle_connection_event (ConnectionEstablished p c) s2 in
   o = Done tt ∧ trace s3 = trace s2 ++ [EDisconnect p]).
Proof.
  intros Hb Hfit. pose proof (ban_in_force p d s Hfit) as Hban.
  cbn [handle_command]. unfold handle_set_score. unfold mbind, stM_bind. cbn [apply_action].
  destruct (apply_penalty p (Ban d) s) as [s1 o]. destruct Hban as (-> & Ht & Hin). simpl.
  split_and!; [done|done|]. intros Hrun Hws Hclock.
  set (u := clock (ticks s) + _) in *.
  destruct (listen_run_moves (keeps (u - 1) p PeerBan) (no_lifting p PeerBan) (Running s1) ws
    (Running s2)) as [Hle Hk]; [intros w Hw; by apply keeps_wake|done|done|].
  simpl in Hle, Hk. assert (in_force (u - 1) p PeerBan s2) as Hin2.
  { apply Hk; [|apply Hin; lia]. intros n Hn. specialize (Hclock n ltac:(lia)). lia. }
  unfold handle_connection_established. rewrite Hb. run_simpl.
  specialize (Hclock (ticks s2) ltac:(lia)).
  assert (is_banned (clock (ticks s2)) (peer_penalty_storage s2) p = true) as Hbn.
  { unfold is_banned. change (penalties _ !! p ≫= ban_until)
      with (penalty_until (peer_penalty_storage s2) p PeerBan).
    apply (active_at_mono _ (u - 1)); [lia|exact Hin2]. }
  simpl. rewrite Hbn. done.
Qed.
End Listen.

(** ** Examples on the toy node, without [byos] *)

Section ListenExamples.
#[local] Existing Instances Toy.platform ToyNode.queue_inst.
#[local] Instance listen_env : Env := ToyNode.env false.

(** Peer 107 is banned until second 2000. *)
Definition banning_node : P2P :=
  upd_penalties (λ st, (ban_peer (from_secs 1000) (107%nat : PeerId) (from_secs 2000) st).1)
    ToyNode.node.
Definition closing : Wakeup :=
  WSwarm (SwarmConnection (SwarmConnectionClosed (107%nat : PeerId) 0)).

Lemma penalty_lasts_witness :
  in_force (from_secs 1500) (107%nat : PeerId) PeerBan (wake closing banning_node).1.
Proof.
  refine (penalty_lasts (from_secs 1500) (107%nat : PeerId) PeerBan banning_node [closing]
            (Running (wake closing banning_node).1) _ _ _ _).
  - refine (run_cons _ closing (Running (wake closing banning_node).1) [] _ _ (run_nil _)).
    apply step_done; [discriminate|]. apply injective_projections; reflexivity.
  - repeat constructor.
  - vm_compute. reflexivity.
  - change (ticks (loop_state (Running (wake closing banning_node).1))) with 3%nat.
    intros n [_ Hn]. simpl. unfold from_secs, nanos_per_sec. lia.
Defined.

Lemma ban_enforced_witness :
  trace (handle_command (SetScore (107%nat : PeerId) (Some (ApplyPenalty (Ban None))) None)
           ToyNode.node).1 = [EDisconnect (107%nat : PeerId)].
Proof.
  pose proof (ban_enforced ToyNode.node (107%nat : PeerId) None [] ToyNode.node (0%nat : ConnectionId)
    eq_refl ltac:(vm_compute; discriminate)) as Hb.
  destruct (handle_command _ _) as [s1 o]. exact (proj1 (proj2 Hb)).
Defined.
End ListenExamples.
