(* ===== verification/Handle.v ===== *)
(** * The handles of the application ([swarm/handle.rs]), together with the node

    A handle is a sender of commands and a receiver of events.  Its queries are
    futures that run concurrently with the node: a system of a node, its command
    channel and any number of such calls is an event-driven machine here, whose
    events arrive in any order.  The event receivers, passed on as they are,
    and the test-only [get_setup_tracked_peer_count] are left out. *)

From S2P Require Import Prelude Time Float64 Platform Message Scores Validator Errors Setup Config Dial Node Scoring Kad Conn Commands Listen.
Open Scope Z_scope.

(** ** tokio's channels *)

Inductive TrySendError (A : Type) : Type :=
  | Full (item : A)
  | Closed (item : A).
Arguments Full {_} _.
Arguments Closed {_} _.

(** [mpsc] with a bound, and [oneshot].  [send(a).await] on an [mpsc] sender is
    a [try_send] that is polled again as long as the channel is full. *)
Class Tokio := {
  mpsc : Type → Type;
  mpsc_channel {A} : nat → mpsc A;
  try_send {A} : A → mpsc A → mpsc A * result unit (TrySendError A);
  try_recv {A} : mpsc A → mpsc A * option A;
  (* the receiver is dropped, and what is queued with it *)
  drop_receiver {A} : mpsc A → mpsc A;
  (* for specifications *)
  queued {A} : mpsc A → list A;
  capacity {A} : mpsc A → nat;
  closed {A} : mpsc A → bool;

  oneshot : Type → Type;
  oneshot_channel {A} : oneshot A;
  oneshot_send {A} : A → oneshot A → oneshot A;
  drop_sender {A} : oneshot A → oneshot A;
  (* [None] pending, [Some None] sender dropped without sending *)
  oneshot_poll {A} : oneshot A → option (option A)
}.

Class TokioLaws (T : Tokio) : Prop := {
  queued_channel {A} n : queued (mpsc_channel (A:=A) n) = [];
  capacity_channel {A} n : capacity (mpsc_channel (A:=A) n) = n;
  closed_channel {A} n : closed (mpsc_channel (A:=A) n) = false;
  try_send_closed {A} (a : A) c : closed c = true → try_send a c = (c, Err (Closed a));
  try_send_full {A} (a : A) c :
    closed c = false → (capacity c ≤ length (queued c))%nat → try_send a c = (c, Err (Full a));
  try_send_room {A} (a : A) c :
    closed c = false → (length (queued c) < capacity c)%nat →
    ∃ c', try_send a c = (c', Ok tt) ∧ queued c' = queued c ++ [a] ∧
          capacity c' = capacity c ∧ closed c' = false;
  try_recv_nil {A} (c : mpsc A) : queued c = [] → try_recv c = (c, None);
  try_recv_cons {A} (a : A) l c :
    queued c = a :: l →
    ∃ c', try_recv c = (c', Some a) ∧ queued c' = l ∧
          capacity c' = capacity c ∧ closed c' = closed c;
  drop_receiver_spec {A} (c : mpsc A) :
    queued (drop_receiver c) = [] ∧ capacity (drop_receiver c) = capacity c ∧
    closed (drop_receiver c) = true;
  poll_channel {A} : oneshot_poll (A:=A) oneshot_channel = None;
  poll_sent {A} (a : A) o : oneshot_poll o = None → oneshot_poll (oneshot_send a o) = Some (Some a);
  poll_dropped {A} (o : oneshot A) : oneshot_poll o = None → oneshot_poll (drop_sender o) = Some None;
  (* it is settled once *)
  poll_sent_after {A} (a : A) o x :
    oneshot_poll o = Some x → oneshot_poll (oneshot_send a o) = Some x;
  poll_dropped_after {A} (o : oneshot A) x :
    oneshot_poll o = Some x → oneshot_poll (drop_sender o) = Some x
}.

(** A queue with a bound and a flag, and an optional value (for witnesses). *)
Module ListTokio.
Record chan (A : Type) : Type := Chan { items : list A; bound : nat; is_closed : bool }.
Arguments Chan {_} _ _ _.
Arguments items {_} _.
Arguments bound {_} _.
Arguments is_closed {_} _.

Definition send {A} (a : A) (c : chan A) : chan A * result unit (TrySendError A) :=
  if is_closed c then (c, Err (Closed a))
  else if (length (items c) <? bound c)%nat
  then (Chan (items c ++ [a]) (bound c) false, Ok tt)
  else (c, Err (Full a)).
Definition recv {A} (c : chan A) : chan A * option A :=
  match items c with
  | [] => (c, None)
  | a :: l => (Chan l (bound c) (is_closed c), Some a)
  end.

#[export] Instance tokio : Tokio := {|
  mpsc := chan; mpsc_channel _ n := Chan [] n false; try_send _ := send; try_recv _ := recv;
  drop_receiver _ c := Chan [] (bound c) true;
  queued _ := items; capacity _ := bound; closed _ := is_closed;
  oneshot A := option (option A); oneshot_channel _ := None;
  oneshot_send _ a o := match o with None => Some (Some a) | _ => o end;
  drop_sender _ o := match o with None => Some None | _ => o end;
  oneshot_poll _ o := o |}.

#[export] Instance tokio_laws : TokioLaws tokio.
Proof.
  split; simpl; try done.
  - intros A a c Hc. unfold send. by rewrite Hc.
  - intros A a c Hc Hl. unfold send. rewrite Hc. by destruct (Nat.ltb_spec (length (items c)) (bound c)); [lia|].
  - intros A a c Hc Hl. unfold send. rewrite Hc.
    destruct (Nat.ltb_spec (length (items c)) (bound c)); [|lia]. by eexists.
  - intros A c Hc. unfold recv. by rewrite Hc.
  - intros A a l c Hc. unfold recv. rewrite Hc. by eexists.
  - by intros A a o ->.
  - by intros A o ->.
  - by intros A a o x ->.
  - by intros A o x ->.
Qed.
End ListTokio.

(** ** The [Sink]s of the three handles *)

Section Sinks.
Context {T : Tokio} {A : Type}.

(** [SendError] *)
Inductive SendError : Type := SendErr (item : A).

Definition poll_ready (commands : mpsc A) : option (result unit SendError) := Some (Ok tt).
Definition start_send (item : A) (commands : mpsc A) : mpsc A * result unit SendError :=
  match try_send item commands with
  | (commands, Ok _) => (commands, Ok tt)
  | (commands, Err (Full item)) => (commands, Err (SendErr item))
  | (commands, Err (Closed item)) => (commands, Err (SendErr item))
  end.
Definition poll_flush (commands : mpsc A) : option (result unit SendError) := Some (Ok tt).
Definition poll_close (commands : mpsc A) : option (result unit SendError) := Some (Ok tt).

(** Items sent one after the other, each when the sink says it is ready; what
    comes back is what was refused. *)
Fixpoint send_each (items : list A) (commands : mpsc A) : mpsc A * list A :=
  match items with
  | [] => (commands, [])
  | item :: items =>
      match poll_ready commands with
      | Some (Ok _) =>
          let '(commands, r) := start_send item commands in
          let '(commands, refused) := send_each items commands in
          (commands, match r with Ok _ => refused | Err (SendErr item) => item :: refused end)
      | _ => (commands, item :: items)
      end
  end.
End Sinks.
Arguments SendError : clear implicits.

Section SinkProperties.
Context {T : Tokio} {TL : TokioLaws T} {A : Type}.

Lemma start_send_room (a : A) c :
  closed c = false → (length (queued c) < capacity c)%nat →
  ∃ c', start_send a c = (c', Ok tt) ∧ queued c' = queued c ++ [a] ∧
        capacity c' = capacity c ∧ closed c' = false.
Proof.
  intros Hc Hr. destruct (try_send_room a c Hc Hr) as (c' & Hs & ?).
  exists c'. unfold start_send. by rewrite Hs.
Qed.
Lemma start_send_refused (a : A) c :
  closed c = true ∨ (capacity c ≤ length (queued c))%nat → start_send a c = (c, Err (SendErr a)).
Proof.
  intros H. unfold start_send. destruct (closed c) eqn:Hc; [by rewrite try_send_closed|].
  destruct H; [done|]. by rewrite try_send_full.
Qed.

Lemma send_each_refused (l : list A) c :
  closed c = true ∨ (capacity c ≤ length (queued c))%nat → send_each l c = (c, l).
Proof.
  intros H. induction l as [|a l IH]; [done|]. simpl. by rewrite (start_send_refused a c H), IH.
Qed.

(** C24. The handles as sinks: a sink is always "ready", so a channel without
    room is noticed only by sending: as many items as there is room for are
    queued, in order, behind what was queued before, and every later one is
    handed back as an error, the same that a node which is gone gives; nothing
    is lost in silence, nothing is reordered, and the bound is kept. *)
Theorem sink_refuses (items : list A) (c : mpsc A) :
  (length (queued c) ≤ capacity c)%nat →
  let room := if closed c then 0%nat else (capacity c - length (queued c))%nat in
  let '(c', refused) := send_each items c in
  queued c' = queued c ++ take room items ∧ refused = drop room items ∧
  capacity c' = capacity c ∧ closed c' = closed c ∧
  poll_ready c' = Some (Ok tt).
Proof.
  cbv zeta. destruct (closed c) eqn:Hc.
  - intros _. rewrite send_each_refused by auto. rewrite take_0, drop_0, app_nil_r. by rewrite Hc.
  - revert c Hc. induction items as [|a items IH]; intros c Hc Hle.
    + simpl. rewrite take_nil, drop_nil, app_nil_r. by rewrite Hc.
    + destruct (decide (length (queued c) < capacity c)%nat) as [Hr|Hr].
      * destruct (start_send_room a c Hc Hr) as (c1 & Hs & Hq & Hcap & Hc1).
        simpl. rewrite Hs. specialize (IH c1 Hc1). rewrite Hq, Hcap, length_app in IH.
        destruct (send_each items c1) as [c' refused]. simpl in IH.
        destruct IH as (-> & -> & -> & Hc' & _); [lia|].
        replace (capacity c - length (queued c))%nat
          with (S (capacity c - (length (queued c) + 1)))%nat by lia.
        simpl. by rewrite <-app_assoc.
      * rewrite send_each_refused by (right; lia).
        replace (capacity c - length (queued c))%nat with 0%nat by lia.
        rewrite take_0, drop_0, app_nil_r. by rewrite Hc.
Qed.
End SinkProperties.

(** ** Queries: calls, node and channel as one machine *)

Section System.
Context {P : Platform} {Q : Queue Multiaddr} {E : Env} {T : Tokio}.

(** [is_connected] and [get_connected_peers]. *)
Inductive QueryCall : Type :=
  | CallIsConnected (target : PeerTarget)
  | CallGetConnectedPeers.

Definition query_of (q : QueryCall) : QueryP2PStateCommand :=
  match q with
  | CallIsConnected target => IsConnected target
  | CallGetConnectedPeers => GetConnectedPeers
  end.

(** What a call returns without an answer. *)
Definition fallback (q : QueryCall) : Reply :=
  match q with
  | CallIsConnected _ => ReplyBool false
  | CallGetConnectedPeers => if byos then ReplyKeys [] else ReplyPeers []
  end.

(** [impl From<QueryP2PStateCommand> for Command] *)
Definition command_of_query (v : QueryP2PStateCommand) : Command := QueryP2PState v.

(** A command in the channel, with the call that holds the other end of its
    [response_sender], if it is one of the calls below. *)
Record Envelope : Type := { env_command : Command; env_sender : option nat }.

(** Where the future of a call stands. *)
Inductive Progress : Type :=
  | Sending
  | Awaiting (deadline : Z)
  | Returned (answer : Reply).

Record Call : Type := {
  call_query : QueryCall;
  call_duration : Z;
  call_receiver : oneshot Reply;
  call_progress : Progress
}.
Definition with_progress (p : Progress) (c : Call) : Call :=
  Build_Call (call_query c) (call_duration c) (call_receiver c) p.
Definition upd_receiver (f : oneshot Reply → oneshot Reply) (c : Call) : Call :=
  Build_Call (call_query c) (call_duration c) (f (call_receiver c)) (call_progress c).

(** The two methods up to their first [await]: the default timeout is read when
    the call is made. *)
Definition start_call (ms : Z) (q : QueryCall) (timeout_duration : option Z) : Call := {|
  call_query := q; call_duration := default (default_handle_timeout ms) timeout_duration;
  call_receiver := oneshot_channel; call_progress := Sending |}.

(** [timeout(duration, receiver).await], polled: the answer first, then the time. *)
Definition poll_receiver (now deadline : Z) (c : Call) : Progress :=
  match oneshot_poll (call_receiver c) with
  | Some (Some r) => Returned r
  | Some None => Returned (fallback (call_query c))
  | None => if deadline <=? now then Returned (fallback (call_query c)) else Awaiting deadline
  end.

(** One poll of the future of call [id]; the timeout starts when the command has
    been sent. *)
Definition poll_call (id : nat) (now : Z) (c : Call) (commands : mpsc Envelope)
    : mpsc Envelope * Progress :=
  match call_progress c with
  | Sending =>
      match try_send {| env_command := command_of_query (query_of (call_query c));
                        env_sender := Some id |} commands with
      | (commands, Ok _) => (commands, poll_receiver now (now + call_duration c) c)
      | (commands, Err (Full _)) => (commands, Sending)
      | (commands, Err (Closed _)) => (commands, Returned (fallback (call_query c)))
      end
  | Awaiting deadline => (commands, poll_receiver now deadline c)
  | Returned r => (commands, Returned r)
  end.

(** The node, whether its [listen] still runs, the command channel, the calls
    made so far and not cancelled, tokio's clock, and the process-wide default
    timeout. *)
Record System : Type := {
  node : P2P;
  alive : bool;
  commands : mpsc Envelope;
  calls : gmap nat Call;
  next_call : nat;
  time : Z;
  handle_ms : Z
}.
Definition set_calls (f : gmap nat Call → gmap nat Call) (y : System) : System :=
  Build_System (node y) (alive y) (commands y) (f (calls y)) (next_call y) (time y) (handle_ms y).
Definition set_commands (ch : mpsc Envelope) (y : System) : System :=
  Build_System (node y) (alive y) ch (calls y) (next_call y) (time y) (handle_ms y).
Definition set_node (s : P2P) (y : System) : System :=
  Build_System s (alive y) (commands y) (calls y) (next_call y) (time y) (handle_ms y).

(** [response_sender.send(r)], or the sender dropped; nobody may be listening. *)
Definition respond (sender : option nat) (r : option Reply) (cs : gmap nat Call) : gmap nat Call :=
  match sender with
  | None => cs
  | Some id =>
      alter (upd_receiver (match r with Some r => oneshot_send r | None => drop_sender end)) id cs
  end.

(** [listen] returns or panics: its channels go, with the senders in them. *)
Definition sent_sender_dropped (c : Call) : Call :=
  match call_progress c with Sending => c | _ => upd_receiver drop_sender c end.
Definition stop (y : System) : System :=
  Build_System (node y) false (drop_receiver (commands y)) (sent_sender_dropped <$> calls y)
    (next_call y) (time y) (handle_ms y).

(** What a handler has answered. *)
Definition reply_of (e : Effect) : option Reply := match e with EReply r => Some r | _ => None end.
Definition replies_since (s s' : P2P) : list Reply :=
  omap reply_of (drop (length (trace s)) (trace s')).

Definition node_wake (w : Wakeup) (sender : option nat) (y : System) : System :=
  if alive y then
    match w with
    | WCancel => stop y
    | _ =>
        let '(s', o) := wake w (node y) in
        let y' := set_calls (respond sender (head (replies_since (node y) s'))) (set_node s' y) in
        match o with Done _ => y' | _ => stop y' end
    end
  else y.

(** [send_command], polled: a closed channel is ignored ([let _]), a full one
    leaves it waiting. *)
Definition send_command (cmd : Command) (ch : mpsc Envelope) : mpsc Envelope :=
  (try_send {| env_command := cmd; env_sender := None |} ch).1.

(** What can happen next: a call is made, polled or cancelled (its future is
    dropped); another command is sent ([send_command], once it is through, or
    [start_send]); the node takes a command, or is woken up by anything else;
    time passes; the default timeout is set. *)
Inductive SysEvent : Type :=
  | SCall (q : QueryCall) (timeout_duration : option Z)
  | SPoll (id : nat)
  | SCancel (id : nat)
  | SCommand (cmd : Command)
  | SNodeCommand
  | SWake (w : Wakeup)
  | SPass (d : nat)
  | SSetTimeout (duration : Z).

Definition sys_step (e : SysEvent) (y : System) : System :=
  match e with
  | SCall q t =>
      Build_System (node y) (alive y) (commands y)
        (<[next_call y := start_call (handle_ms y) q t]> (calls y)) (S (next_call y)) (time y)
        (handle_ms y)
  | SPoll id =>
      match calls y !! id with
      | Some c =>
          let '(ch, p) := poll_call id (time y) c (commands y) in
          set_calls <[id := with_progress p c]> (set_commands ch y)
      | None => y
      end
  | SCancel id => set_calls (delete id) y
  | SCommand cmd => set_commands (send_command cmd (commands y)) y
  | SNodeCommand =>
      if alive y then
        match try_recv (commands y) with
        | (ch, Some e) => node_wake (WCommand (env_command e)) (env_sender e) (set_commands ch y)
        | (_, None) => y
        end
      else y
  | SWake w => node_wake w None y
  | SPass d =>
      Build_System (node y) (alive y) (commands y) (calls y) (next_call y) (time y + Z.of_nat d)
        (handle_ms y)
  | SSetTimeout duration =>
      Build_System (node y) (alive y) (commands y) (calls y) (next_call y) (time y)
        (set_handle_default_timeout duration)
  end.

Definition sys_run (es : list SysEvent) (y : System) : System :=
  foldl (λ y e, sys_step e y) y es.

Lemma sys_run_app es1 es2 y : sys_run (es1 ++ es2) y = sys_run es2 (sys_run es1 y).
Proof. apply foldl_app. Qed.
Lemma sys_run_snoc es e y : sys_run (es ++ [e]) y = sys_step e (sys_run es y).
Proof. apply sys_run_app. Qed.

(** A node that has just been created, with a channel of its own. *)
Definition new_system (s : P2P) (buffer : nat) (ms : Z) : System := {|
  node := s; alive := true; commands := mpsc_channel buffer; calls := ∅; next_call := 0;
  time := 0; handle_ms := ms |}.
End System.

(** ** What holds along every run *)

Section SystemInvariant.
Context {P : Platform} {Q : Queue Multiaddr} {E : Env} {T : Tokio} {TL : TokioLaws T}.

(** Every query is answered, at once, and changes nothing else. *)
Lemma handle_query_replies q s :
  ∃ r, handle_query (query_of q) s = (add_effect (EReply r) s, Done tt).
Proof.
  destruct q as [[k|p]|]; simpl; run_simpl; [by eexists|by eexists|].
  destruct byos; run_simpl; by eexists.
Qed.

Definition awaits (c : Call) : Prop := ∃ dl, call_progress c = Awaiting dl.
Definition returned (id : nat) (y : System) : Prop :=
  ∃ c r, calls y !! id = Some c ∧ call_progress c = Returned r.

(** While call [id] was waiting there was a moment at which the node's answer
    to [q] was [r]. *)
Definition answered (y0 : System) (es : list SysEvent) (id : nat) (q : QueryCall) (r : Reply) : Prop :=
  ∃ es1 es2 c, es = es1 ++ es2 ∧ let y := sys_run es1 y0 in
    calls y !! id = Some c ∧ awaits c ∧ call_query c = q ∧ alive y = true ∧
    handle_query (query_of q) (node y) = (add_effect (EReply r) (node y), Done tt).

(** Call [id] was made at [t0]. *)
Definition started (y0 : System) (es : list SysEvent) (id : nat) (q : QueryCall) (d t0 : Z) : Prop :=
  ∃ es1 t es2, es = es1 ++ SCall q t :: es2 ∧ let y := sys_run es1 y0 in
    next_call y = id ∧ time y = t0 ∧ d = default (default_handle_timeout (handle_ms y)) t.

Lemma answered_mono y0 es es' id q r : answered y0 es id q r → answered y0 (es ++ es') id q r.
Proof.
  intros (es1 & es2 & c & -> & H). exists es1, (es2 ++ es'), c. split; [by rewrite app_assoc|done].
Qed.
Lemma started_mono y0 es es' id q d t0 :
  started y0 es id q d t0 → started y0 (es ++ es') id q d t0.
Proof.
  intros (es1 & t & es2 & -> & H). exists es1, t, (es2 ++ es').
  split; [by rewrite <-app_assoc|done].
Qed.

(** The commands that have left their call: in the channel or in the node's hand. *)
Definition underway (held : option Envelope) (y : System) : list Envelope :=
  option_list held ++ queued (commands y).

Definition call_ok (y0 : System) (es : list SysEvent) (held : option Envelope) (y : System)
    (id : nat) (c : Call) : Prop :=
  ∃ t0, started y0 es id (call_query c) (call_duration c) t0 ∧ t0 ≤ time y ∧
  match call_progress c with
  | Sending => oneshot_poll (call_receiver c) = None
  | Awaiting dl =>
      t0 + call_duration c ≤ dl ∧
      match oneshot_poll (call_receiver c) with
      | None => alive y = true ∧ ∃ e, e ∈ underway held y ∧ env_sender e = Some id
      | Some (Some r) => answered y0 es id (call_query c) r
      | Some None => alive y = false
      end
  | Returned r =>
      answered y0 es id (call_query c) r ∨
      r = fallback (call_query c) ∧ (alive y = false ∨ t0 + call_duration c ≤ time y)
  end.

Record coherent (y0 : System) (es : list SysEvent) (held : option Envelope) (y : System) : Prop := {
  co_call : ∀ id c, calls y !! id = Some c → call_ok y0 es held y id c;
  co_sent : ∀ e id, e ∈ underway held y → env_sender e = Some id →
    (id < next_call y)%nat ∧ ∀ c, calls y !! id = Some c →
      env_command e = command_of_query (query_of (call_query c)) ∧ call_progress c ≠ Sending;
  co_ids : ∀ id, (next_call y ≤ id)%nat → calls y !! id = None;
  co_closed : closed (commands y) = negb (alive y);
  co_bound : (length (queued (commands y)) ≤ capacity (commands y))%nat
}.

(** A call stays in order when time passes, events are added and the commands
    underway are kept, as long as the node lives or it has its verdict. *)
Lemma call_ok_mono y0 es es' held held' y y' id c :
  call_ok y0 es held y id c → time y ≤ time y' → alive y = alive y' →
  (∀ e, e ∈ underway held y → e ∈ underway held' y') → call_ok y0 (es ++ es') held' y' id c.
Proof.
  intros (t0 & Hst & Ht & Hc) Htime Hal Hway. exists t0.
  split_and!; [by apply started_mono|lia|]. rewrite <-Hal.
  destruct (call_progress c); [done| |].
  - destruct Hc as [Hdl Hc]. split; [done|].
    destruct (oneshot_poll _) as [[]|]; [by apply answered_mono|done|].
    destruct Hc as (? & e & He & Hs). eauto.
  - destruct Hc as [Hc|(? & Hc)]; [left; by apply answered_mono|right].
    split; [done|]. destruct Hc; [by left|right; lia].
Qed.

Lemma coherent_new y0 s n ms : y0 = new_system s n ms → coherent y0 [] None y0.
Proof.
  intros ->. split; simpl.
  - intros id c Hc. by rewrite lookup_empty in Hc.
  - unfold underway. simpl. rewrite queued_channel. set_solver.
  - intros. apply lookup_empty.
  - apply closed_channel.
  - rewrite queued_channel. simpl. lia.
Qed.

Lemma coherent_call y0 es q t :
  let y := sys_run es y0 in
  coherent y0 es None y → coherent y0 (es ++ [SCall q t]) None (sys_step (SCall q t) y).
Proof.
  intros y Hco. split; simpl; [| | |apply Hco..].
  - intros id c [[<- <-]|[_ Hc]]%lookup_insert_Some.
    + exists (time y). split_and!; [by exists es, t, []|simpl; lia|apply poll_channel].
    + eapply call_ok_mono; [by apply Hco|simpl; lia|done|done].
  - intros e id He Hs. destruct (co_sent _ _ _ _ Hco e id He Hs) as [Hlt Hm].
    split; [lia|]. intros c. rewrite lookup_insert_ne by lia. apply Hm.
  - intros id Hid. rewrite lookup_insert_ne by lia. apply Hco. lia.
Qed.

(** Events that leave the calls alone, and do no harm to the channel. *)
Lemma coherent_frame y0 es e y y' :
  coherent y0 es None y →
  calls y' = calls y → next_call y' = next_call y → time y ≤ time y' → alive y' = alive y →
  (∃ more, queued (commands y') = queued (commands y) ++ more ∧
     Forall (λ env, env_sender env = None) more) →
  closed (commands y') = closed (commands y) →
  (length (queued (commands y')) ≤ capacity (commands y'))%nat →
  coherent y0 (es ++ [e]) None y'.
Proof.
  intros Hco Hcalls Hnext Ht Hal (more & Hq & Hmore) Hcl Hb. split; try done.
  - intros id c Hc. rewrite Hcalls in Hc.
    eapply call_ok_mono; [by apply Hco|done|done|]. unfold underway. simpl. rewrite Hq. set_solver.
  - intros env id Henv Hs. rewrite Hcalls, Hnext. apply (co_sent _ _ _ _ Hco env id); [|done].
    unfold underway in *. simpl in *. rewrite Hq in Henv.
    apply elem_of_app in Henv as [Henv|Henv]; [done|].
    rewrite Forall_forall in Hmore. apply Hmore in Henv. congruence.
  - intros id Hid. rewrite Hcalls. apply Hco. lia.
  - rewrite Hcl, Hal. apply Hco.
Qed.

(** What [try_send] does to the channel, in one statement. *)
Lemma try_send_cases {A} (a : A) c :
  let '(c', r) := try_send a c in
  capacity c' = capacity c ∧ closed c' = closed c ∧
  match r with
  | Ok _ => queued c' = queued c ++ [a] ∧ closed c = false ∧ (length (queued c) < capacity c)%nat
  | Err (Full _) => c' = c ∧ closed c = false ∧ (capacity c ≤ length (queued c))%nat
  | Err (Closed _) => c' = c ∧ closed c = true
  end.
Proof.
  destruct (closed c) eqn:Hc; [by rewrite try_send_closed|].
  destruct (decide (capacity c ≤ length (queued c))%nat) as [Hl|Hl]; [by rewrite try_send_full|].
  destruct (try_send_room a c Hc) as (c' & -> & ? & ? & ?); [lia|]. split_and!; [done..|lia].
Qed.

Lemma coherent_command y0 es cmd :
  let y := sys_run es y0 in
  coherent y0 es None y → coherent y0 (es ++ [SCommand cmd]) None (sys_step (SCommand cmd) y).
Proof.
  intros y Hco. pose proof (co_bound _ _ _ _ Hco) as Hb. simpl. unfold send_command.
  pose proof (try_send_cases (Build_Envelope cmd None) (commands y)) as Hsend.
  destruct (try_send _ _) as [ch r]. destruct Hsend as (Hcap & Hcl & Hr).
  apply (coherent_frame _ _ _ y); simpl; try done.
  - destruct r as [[]|[]]; [exists [Build_Envelope cmd None]|exists []..].
    + by destruct Hr as (-> & _); repeat constructor.
    + destruct Hr as (-> & _). by rewrite app_nil_r.
    + destruct Hr as (-> & _). by rewrite app_nil_r.
  - rewrite Hcap. destruct r as [[]|[]]; [|by destruct Hr as (-> & _)..].
    destruct Hr as (-> & _ & Hlt). rewrite length_app. simpl. lia.
Qed.

Lemma poll_receiver_ok y0 es y id c t0 dl :
  started y0 es id (call_query c) (call_duration c) t0 → t0 ≤ time y →
  t0 + call_duration c ≤ dl →
  match oneshot_poll (call_receiver c) with
  | None => alive y = true ∧ ∃ e, e ∈ underway None y ∧ env_sender e = Some id
  | Some (Some r) => answered y0 es id (call_query c) r
  | Some None => alive y = false
  end →
  call_ok y0 es None y id (with_progress (poll_receiver (time y) dl c) c).
Proof.
  intros Hst Ht Hdl Hr. exists t0. split_and!; [done..|]. unfold poll_receiver.
  cbn [with_progress call_progress call_query call_duration call_receiver].
  destruct (oneshot_poll (call_receiver c)) as [[r|]|] eqn:Ho; [by left|by right; auto|].
  destruct (Z.leb_spec dl (time y)); [right; split; [done|right; lia]|].
  by split.
Qed.

(** One call has moved on, the others have not. *)
Lemma coherent_progress y0 es e y id c p ch :
  coherent y0 es None y → calls y !! id = Some c →
  let y' := set_calls <[id := with_progress p c]> (set_commands ch y) in
  call_ok y0 (es ++ [e]) None y' id (with_progress p c) →
  (ch = commands y ∧ (p = Sending → call_progress c = Sending) ∨
   p ≠ Sending ∧ queued ch = queued (commands y) ++
     [Build_Envelope (command_of_query (query_of (call_query c))) (Some id)]) →
  closed ch = closed (commands y) → (length (queued ch) ≤ capacity ch)%nat →
  coherent y0 (es ++ [e]) None y'.
Proof.
  intros Hco Hc y' Hok Hch Hcl Hb.
  assert (∀ env, env ∈ underway None y → env ∈ underway None y') as Hway.
  { unfold underway. simpl. destruct Hch as [[-> _]|[_ ->]]; set_solver. }
  split; simpl; try done.
  - intros id' c' [[<- <-]|[_ Hc']]%lookup_insert_Some; [done|].
    eapply call_ok_mono; [by apply Hco|done|done|done].
  - intros env id' Henv Hs.
    assert (env ∈ underway None y ∨ env_sender env = Some id ∧ p ≠ Sending ∧
      env_command env = command_of_query (query_of (call_query c))) as [Hold|(Hid & Hp & Hcmd)].
    { unfold underway in *. simpl in *. destruct Hch as [[-> _]|[Hp Hq]]; [by left|].
      rewrite Hq in Henv. apply elem_of_app in Henv as [?|Henv%list_elem_of_singleton]; [by left|].
      right. by subst env. }
    + destruct (co_sent _ _ _ _ Hco env id' Hold Hs) as [Hlt Hm]. split; [done|].
      intros c' [[<- <-]|[_ Hc']]%lookup_insert_Some; [|by apply Hm].
      destruct (Hm c Hc) as [? Hns]. split; [done|]. simpl. intros ->.
      destruct Hch as [[_ Hp]|[Hp _]]; [|done]. by apply Hns, Hp.
    + assert (id' = id) as -> by congruence. split.
      * apply Nat.lt_nge. intros Hge. rewrite (co_ids _ _ _ _ Hco id Hge) in Hc. done.
      * intros c'. rewrite lookup_insert_eq. intros [= <-]. done.
  - intros id' Hid. rewrite lookup_insert_ne; [by apply Hco|]. intros ->.
    rewrite (co_ids _ _ _ _ Hco id' Hid) in Hc. done.
  - rewrite Hcl. apply Hco.
Qed.

Lemma coherent_poll y0 es id :
  let y := sys_run es y0 in
  coherent y0 es None y → coherent y0 (es ++ [SPoll id]) None (sys_step (SPoll id) y).
Proof.
  intros y Hco. pose proof (co_bound _ _ _ _ Hco) as Hb. cbn [sys_step].
  destruct (calls y !! id) as [c|] eqn:Hc; [|by apply (coherent_frame _ _ _ y); try done;
    exists []; rewrite app_nil_r].
  destruct (co_call _ _ _ _ Hco id c Hc) as (t0 & Hst & Ht & Hprog).
  unfold poll_call. destruct (call_progress c) as [|dl|r] eqn:Hp.
  - set (env := Build_Envelope _ _). pose proof (try_send_cases env (commands y)) as Hsend.
    destruct (try_send env (commands y)) as [ch r]. destruct Hsend as (Hcap & Hcl & Hr).
    destruct r as [u|[a|a]].
    + destruct Hr as (Hq & Hopen & Hlt).
      apply (coherent_progress _ _ _ y id c); try done.
      * refine (poll_receiver_ok _ _ (set_calls _ (set_commands ch y)) id c t0 _ _ _ _ _);
          [by apply started_mono|done|simpl; lia|].
        rewrite Hprog. split.
        -- rewrite (co_closed _ _ _ _ Hco) in Hopen. simpl. by destruct (alive y).
        -- exists env. split; [|done]. unfold underway. simpl. rewrite Hq. set_solver.
      * right. split; [|done]. unfold poll_receiver. rewrite Hprog. by case_match.
      * rewrite Hq, Hcap, length_app. simpl. lia.
    + destruct Hr as (-> & Hr). apply (coherent_progress _ _ _ y id c); try done; [|by left].
      exists t0. split_and!; [by apply started_mono|done|done].
    + destruct Hr as (-> & Hr). apply (coherent_progress _ _ _ y id c); try done; [|by left].
      exists t0. split_and!; [by apply started_mono|done|]. right. split; [done|]. left.
      rewrite (co_closed _ _ _ _ Hco) in Hr. simpl. by destruct (alive y).
  - apply (coherent_progress _ _ _ y id c); try done.
    + destruct Hprog as [Hdl Hprog].
      refine (poll_receiver_ok _ _ (set_calls _ (set_commands _ y)) id c t0 _ _ _ _ _);
        [by apply started_mono|done|done|].
      destruct (oneshot_poll _) as [[]|]; [by apply answered_mono|done|done].
    + left. split; [done|]. unfold poll_receiver. by repeat case_match.
  - apply (coherent_progress _ _ _ y id c); try done; [|by left].
    exists t0. split_and!; [by apply started_mono|done|]. simpl.
    destruct Hprog; [left; by apply answered_mono|by right].
Qed.

Lemma coherent_cancel y0 es id :
  let y := sys_run es y0 in
  coherent y0 es None y → coherent y0 (es ++ [SCancel id]) None (sys_step (SCancel id) y).
Proof.
  intros y Hco. split; simpl; try apply Hco.
  - intros id' c [_ Hc]%lookup_delete_Some. eapply call_ok_mono; [by apply Hco|done|done|done].
  - intros env id' Henv Hs. destruct (co_sent _ _ _ _ Hco env id' Henv Hs) as [Hlt Hm].
    split; [done|]. intros c [_ Hc]%lookup_delete_Some. by apply Hm.
  - intros id' Hid. apply lookup_delete_None. right. by apply Hco.
Qed.

Lemma coherent_mono y0 es es' held y : coherent y0 es held y → coherent y0 (es ++ es') held y.
Proof.
  intros Hco. split; try apply Hco. intros id c Hc.
  eapply call_ok_mono; [by apply Hco|done|done|done].
Qed.

Lemma coherent_stop y0 es held y : coherent y0 es held y → coherent y0 es None (stop y).
Proof.
  intros Hco. destruct (drop_receiver_spec (commands y)) as (Hq & _ & Hcl). split; simpl.
  - intros id c. rewrite lookup_fmap. intros (c0 & Hc & ->)%fmap_Some.
    destruct (co_call _ _ _ _ Hco id c0 Hc) as (t0 & Hst & Ht & Hp). exists t0.
    unfold sent_sender_dropped. destruct (call_progress c0) as [|dl|r] eqn:Hprog; simpl.
    + rewrite Hprog. done.
    + rewrite Hprog. split_and!; [done|done|apply Hp|]. destruct Hp as [_ Hp].
      destruct (oneshot_poll (call_receiver c0)) as [x|] eqn:Ho.
      * rewrite (poll_dropped_after _ _ Ho). by destruct x.
      * by rewrite (poll_dropped _ Ho).
    + rewrite Hprog. split_and!; [done|done|]. destruct Hp as [?|[? _]]; [by left|right; auto].
  - unfold underway. simpl. rewrite Hq. set_solver.
  - intros id Hid. rewrite lookup_fmap. by apply fmap_None, Hco.
  - done.
  - rewrite Hq. simpl. lia.
Qed.

Lemma call_ok_other y0 es env s' y f id c :
  env_sender env ≠ Some id → call_ok y0 es (Some env) y id c →
  call_ok y0 es None (set_calls f (set_node s' y)) id c.
Proof.
  intros Hne (t0 & Hst & Ht & Hp). exists t0. split_and!; [done..|].
  destruct (call_progress c); [done| |done]. destruct Hp as [Hdl Hp]. split; [done|].
  destruct (oneshot_poll _); [done|]. destruct Hp as (Hal & e & He & Hs). split; [done|].
  exists e. split; [|done]. unfold underway in *. simpl in *.
  apply elem_of_cons in He as [->|]; done.
Qed.

(** The node lets go of a command after answering it. *)
Lemma coherent_respond y0 es env r s' y :
  coherent y0 es (Some env) y →
  (∀ id c, env_sender env = Some id → calls y !! id = Some c →
     ∃ r', r = Some r' ∧ (awaits c → answered y0 es id (call_query c) r')) →
  coherent y0 es None (set_calls (respond (env_sender env) r) (set_node s' y)).
Proof.
  intros Hco Hans.
  assert (∀ id c, respond (env_sender env) r (calls y) !! id = Some c →
    ∃ c0, calls y !! id = Some c0 ∧ call_query c = call_query c0 ∧
      call_progress c = call_progress c0 ∧ call_duration c = call_duration c0 ∧
      (c = c0 ∧ env_sender env ≠ Some id ∨
       ∃ r', env_sender env = Some id ∧ r = Some r' ∧
         c = upd_receiver (oneshot_send r') c0)) as Hlook.
  { intros id c. unfold respond. destruct (env_sender env) as [id0|] eqn:Hs.
    - intros [(-> & c0 & Hc & ->)|[Hne Hc]]%lookup_alter_Some.
      + exists c0. destruct (Hans id c0 eq_refl Hc) as (r' & -> & _). simpl.
        split_and!; try done. right. by exists r'.
      + exists c. split_and!; try done. left. split; congruence.
    - intros Hc. exists c. split_and!; try done. by left. }
  split; simpl; try apply Hco.
  - intros id c Hc. destruct (Hlook id c Hc) as (c0 & Hc0 & Hq & Hp & Hd & [[-> Hne]|(r' & Hs & Hr & ->)]).
    + apply (call_ok_other _ _ env); [done|by apply Hco].
    + destruct (co_call _ _ _ _ Hco id c0 Hc0) as (t0 & Hst & Ht & Hprog). exists t0. simpl.
      split_and!; [done..|]. destruct (call_progress c0) as [|dl|] eqn:Hpr; [|split; [apply Hprog|]|done].
      * destruct (co_sent _ _ _ _ Hco env id) as [_ Hm]; [left|done|]. by destruct (Hm c0 Hc0).
      * destruct (oneshot_poll (call_receiver c0)) as [x|] eqn:Ho.
        -- rewrite (poll_sent_after _ _ _ Ho). apply Hprog.
        -- rewrite (poll_sent _ _ Ho). destruct (Hans id c0 Hs Hc0) as (r2 & Hr2 & Ha).
           assert (r2 = r') as -> by congruence. apply Ha. by exists dl.
  - intros e id He Hs. destruct (co_sent _ _ _ _ Hco e id) as [Hlt Hm]; [by right|done|].
    split; [done|]. intros c Hc. destruct (Hlook id c Hc) as (c0 & Hc0 & -> & -> & _). by apply Hm.
  - intros id Hid. destruct (respond _ _ _ !! id) as [c|] eqn:Hc; [|done].
    destruct (Hlook id c Hc) as (c0 & Hc0 & _). by rewrite (co_ids _ _ _ _ Hco id Hid) in Hc0.
Qed.

Lemma replies_since_query s r : replies_since s (add_effect (EReply r) s) = [r].
Proof. unfold replies_since. simpl. by rewrite drop_app_length. Qed.

(** [node_wake], when what it responds is in order. *)
Lemma coherent_wake y0 es e held w sender y :
  alive y = true →
  (∀ s', coherent y0 es held y →
     s' = (wake w (node y)).1 →
     coherent y0 es None (set_calls (respond sender (head (replies_since (node y) s')))
                            (set_node s' y))) →
  coherent y0 es held y → coherent y0 (es ++ [e]) None (node_wake w sender y).
Proof.
  intros Hal Hresp Hco. unfold node_wake. rewrite Hal. apply coherent_mono.
  specialize (Hresp _ Hco eq_refl).
  destruct (wake w (node y)) as [s' o]. simpl in Hresp.
  assert (coherent y0 es None (stop y)) as Hstop by (by eapply coherent_stop).
  destruct w; [done|..]; destruct o; try done; by eapply coherent_stop.
Qed.

Lemma coherent_other_wake y0 es w :
  let y := sys_run es y0 in
  coherent y0 es None y → coherent y0 (es ++ [SWake w]) None (sys_step (SWake w) y).
Proof.
  intros y Hco. simpl. destruct (alive y) eqn:Hal.
  - apply (coherent_wake _ _ _ None); [done| |done]. intros s' _ _. split; simpl; try apply Hco.
  - unfold node_wake. rewrite Hal. by apply coherent_mono.
Qed.

Lemma coherent_take y0 es held ch env l y :
  coherent y0 es held y → held = None → queued (commands y) = env :: l →
  queued ch = l → capacity ch = capacity (commands y) → closed ch = closed (commands y) →
  coherent y0 es (Some env) (set_commands ch y).
Proof.
  intros Hco -> Hq Hl Hcap Hcl.
  assert (underway (Some env) (set_commands ch y) = underway None y) as Hway
    by (unfold underway; simpl; by rewrite Hq, Hl).
  split; simpl.
  - intros id c Hc. rewrite <-(app_nil_r es). eapply call_ok_mono; [by apply Hco|done|done|].
    by rewrite Hway.
  - rewrite Hway. apply Hco.
  - apply Hco.
  - rewrite Hcl. apply Hco.
  - pose proof (co_bound _ _ _ _ Hco) as Hb. rewrite Hq in Hb. simpl in Hb. rewrite Hl, Hcap. lia.
Qed.

Lemma coherent_node_command y0 es :
  let y := sys_run es y0 in
  coherent y0 es None y → coherent y0 (es ++ [SNodeCommand]) None (sys_step SNodeCommand y).
Proof.
  intros y Hco. simpl. destruct (alive y) eqn:Hal; [|by apply coherent_mono].
  destruct (queued (commands y)) as [|env l] eqn:Hq.
  { rewrite try_recv_nil by done. by apply coherent_mono. }
  destruct (try_recv_cons env l (commands y) Hq) as (ch & -> & Hl & Hcap & Hcl).
  apply (coherent_wake _ _ _ (Some env)); [done| |by eapply coherent_take].
  intros s' Hco1 ->. apply coherent_respond; [done|]. intros id c Hs Hc.
  destruct (co_sent _ _ _ _ Hco1 env id) as [_ Hm]; [left|done|].
  destruct (Hm c Hc) as [Hcmd _]. rewrite Hcmd.
  destruct (handle_query_replies (call_query c) (node y)) as [r Hr].
  exists r. cbn [wake handle_command command_of_query set_commands node]. rewrite Hr.
  cbn [fst]. rewrite replies_since_query. split; [done|]. intros Haw.
  exists es, [], c. split; [by rewrite app_nil_r|]. by split_and!.
Qed.

Lemma coherent_run s n ms es :
  let y0 := new_system s n ms in coherent y0 es None (sys_run es y0).
Proof.
  intros y0. induction es as [|e es IH] using rev_ind; [by eapply coherent_new|].
  rewrite sys_run_snoc. destruct e as [q t|id|id|cmd| |w|d|d].
  - by apply coherent_call.
  - by apply coherent_poll.
  - by apply coherent_cancel.
  - by apply coherent_command.
  - by apply coherent_node_command.
  - by apply coherent_other_wake.
  - apply (coherent_frame _ _ _ (sys_run es y0)); simpl; try done; [lia| |apply IH].
    exists []. by rewrite app_nil_r.
  - apply (coherent_frame _ _ _ (sys_run es y0)); simpl; try done; [|apply IH].
    exists []. by rewrite app_nil_r.
Qed.

(** C14. Queries answer the truth: whatever the order in which calls of the
    handle are made, polled and cancelled, other commands are sent, the node
    takes commands and is woken up, and time passes, a call that has returned
    either returns what the node, at some moment while the call was waiting,
    would have answered (so a query is atomic, in the node's state of that
    moment), or the fallback ("not connected", "nobody"), which it returns only
    if the node has stopped or the call's timeout has passed since the call.
    The command channel never holds more than its capacity. *)
Theorem query_answers_true s n ms es id c r :
  let y0 := new_system s n ms in let y := sys_run es y0 in
  (length (queued (commands y)) ≤ capacity (commands y))%nat ∧
  (calls y !! id = Some c → call_progress c = Returned r →
   answered y0 es id (call_query c) r ∨
   r = fallback (call_query c) ∧
   (alive y = false ∨
    ∃ t0, started y0 es id (call_query c) (call_duration c) t0 ∧ t0 + call_duration c ≤ time y)).
Proof.
  intros y0 y. pose proof (coherent_run s n ms es) as Hco. split; [apply Hco|]. intros Hc Hr.
  destruct (co_call _ _ _ _ Hco id c Hc) as (t0 & Hst & _ & Hok). rewrite Hr in Hok.
  destruct Hok as [|[? [?|?]]]; [by left|right; auto|right; split; [done|right; eauto]].
Qed.
End SystemInvariant.

(** ** That calls return *)

Section SystemLiveness.
Context {P : Platform} {Q : Queue Multiaddr} {E : Env} {T : Tokio} {TL : TokioLaws T}.

(** Call [id] has sent its command, and waits until [dl] if it still waits. *)
Definition waits (dl : Z) (id : nat) (y : System) : Prop :=
  (id < next_call y)%nat ∧ ∃ c, calls y !! id = Some c ∧
    (call_progress c = Awaiting dl ∨ ∃ r, call_progress c = Returned r).

(** The node settles answers, it never moves a call. *)
Lemma node_wake_frame w sender y :
  next_call (node_wake w sender y) = next_call y ∧
  (alive (node_wake w sender y) = false ∨ commands (node_wake w sender y) = commands y) ∧
  ∀ id c, calls y !! id = Some c → ∃ c',
    calls (node_wake w sender y) !! id = Some c' ∧ call_progress c' = call_progress c.
Proof.
  assert (∀ r id c, calls y !! id = Some c → ∃ c',
    respond sender r (calls y) !! id = Some c' ∧ call_progress c' = call_progress c) as Hresp.
  { intros r id c Hc. destruct sender as [id0|]; simpl; [|eauto].
    destruct (decide (id = id0)) as [<-|Hne].
    - rewrite lookup_alter_eq, Hc. by eexists.
    - rewrite lookup_alter_ne by done. eauto. }
  assert (∀ y' id c, calls y' !! id = Some c → ∃ c',
    calls (stop y') !! id = Some c' ∧ call_progress c' = call_progress c) as Hstop.
  { intros y' id c Hc. simpl. rewrite lookup_fmap, Hc. eexists. split; [reflexivity|].
    unfold sent_sender_dropped. destruct (call_progress c) eqn:Hp; simpl; by rewrite ?Hp. }
  unfold node_wake. destruct (alive y) eqn:Hal; [|split_and!; eauto].
  destruct (wake w (node y)) as [s' o]. specialize (Hresp (head (replies_since (node y) s'))).
  destruct w; [|destruct o..]; (split; [reflexivity|split; [auto|]]); try exact Hresp;
    intros id c Hc; [by apply Hstop|..]; destruct (Hresp id c Hc) as (c1 & Hc1 & <-); by apply Hstop.
Qed.

Lemma poll_call_waits id now dl c ch :
  call_progress c = Awaiting dl ∨ (∃ r, call_progress c = Returned r) →
  let '(ch', p) := poll_call id now c ch in
  ch' = ch ∧ (p = Awaiting dl ∧ oneshot_poll (call_receiver c) = None ∧ now < dl ∨ ∃ r, p = Returned r).
Proof.
  unfold poll_call, poll_receiver. intros [->|[r ->]]; [|eauto].
  destruct (oneshot_poll _) as [[r|]|]; [by eauto..|].
  destruct (Z.leb_spec dl now); [by eauto|]. split; [done|by left].
Qed.

Lemma step_waits dl id e y : e ≠ SCancel id → waits dl id y → waits dl id (sys_step e y).
Proof.
  intros He (Hlt & c & Hc & Hp). assert (∀ w sender y1, calls y1 = calls y →
    next_call y1 = next_call y → waits dl id (node_wake w sender y1)) as Hwake.
  { intros w sender y1 Hcs Hnc. destruct (node_wake_frame w sender y1) as (Hn & _ & Hcalls).
    split; [lia|]. rewrite Hcs in Hcalls. destruct (Hcalls id c Hc) as (c' & Hc' & Hpc).
    exists c'. by rewrite Hpc. }
  destruct e as [q t|id'|id'|cmd| |w|d|d]; simpl; try by (split; [|exists c]).
  - split; simpl; [lia|]. exists c. by rewrite lookup_insert_ne by lia.
  - destruct (calls y !! id') as [c'|] eqn:Hc'; [|by split; [|exists c]].
    destruct (decide (id' = id)) as [->|Hne].
    + assert (c' = c) as -> by congruence. pose proof (poll_call_waits id (time y) dl c (commands y) Hp).
      destruct (poll_call _ _ _ _) as [ch p]. split; [done|]. simpl.
      rewrite lookup_insert_eq. eexists. split; [done|]. simpl. destruct H as [_ [[-> _]|[r ->]]]; eauto.
    + destruct (poll_call _ _ _ _) as [ch p]. split; [done|]. simpl.
      exists c. by rewrite lookup_insert_ne by done.
  - split; [done|]. exists c. simpl. rewrite lookup_delete_ne by congruence. done.
  - destruct (alive y); [|by split; [|exists c]].
    destruct (try_recv _) as [ch [env|]]; [|by split; [|exists c]]. by apply Hwake.
  - by apply Hwake.
Qed.

Lemma run_waits dl id es y : SCancel id ∉ es → waits dl id y → waits dl id (sys_run es y).
Proof.
  revert y. induction es as [|e es IH]; intros y Hno Hw; [done|]. simpl.
  apply not_elem_of_cons in Hno as [Hne Hno]. apply IH; [done|]. by apply step_waits.
Qed.

(** A poll of a waiting call whose answer is there or whose time is up. *)
Lemma poll_returns dl id y :
  waits dl id y →
  (∀ c, calls y !! id = Some c → call_progress c = Awaiting dl →
     oneshot_poll (call_receiver c) = None → dl ≤ time y) →
  returned id (sys_step (SPoll id) y).
Proof.
  intros (_ & c & Hc & Hp) Hready. simpl. rewrite Hc.
  pose proof (poll_call_waits id (time y) dl c (commands y) Hp) as Hpoll.
  assert (∃ r, (poll_call id (time y) c (commands y)).2 = Returned r) as [r Hr].
  { destruct Hp as [Hp|[r Hp]]; [|by exists r; unfold poll_call; rewrite Hp].
    destruct (poll_call _ _ _ _) as [ch p]. destruct Hpoll as [_ [(-> & Ho & Hd)|]]; [|done].
    specialize (Hready c Hc Hp Ho). lia. }
  destruct (poll_call _ _ _ _) as [ch p]. exists (with_progress p c), r. simpl in *.
  by rewrite lookup_insert_eq.
Qed.

Lemma drained k y :
  (length (queued (commands y)) ≤ k)%nat →
  let y' := sys_run (repeat SNodeCommand k) y in
  alive y' = false ∨ queued (commands y') = [].
Proof.
  revert y. induction k as [|k IH]; intros y Hk.
  - right. simpl. by apply length_zero_iff_nil; lia.
  - simpl. destruct (alive y) eqn:Hal.
    2: { left. clear IH Hk. induction k as [|k IH]; simpl; [done|]. by rewrite Hal. }
    destruct (queued (commands y)) as [|env l] eqn:Hq.
    + rewrite try_recv_nil by done. apply IH. rewrite Hq. simpl. lia.
    + destruct (try_recv_cons env l (commands y) Hq) as (ch & -> & Hl & _).
      destruct (node_wake_frame (WCommand (env_command env)) (env_sender env) (set_commands ch y))
        as (_ & [Hdead|Hcmd] & _).
      * left. clear IH Hk. induction k as [|k IH]; simpl; [done|]. by rewrite Hdead.
      * apply IH. rewrite Hcmd. simpl. rewrite Hl. simpl in Hk. lia.
Qed.

(** A waiting call has its answer once the node is gone or has taken everything. *)
Lemma settled_returns y0 es dl id y :
  coherent y0 es None y → waits dl id y → (alive y = false ∨ queued (commands y) = []) →
  returned id (sys_step (SPoll id) y).
Proof.
  intros Hco Hw Hset. apply (poll_returns dl); [done|]. intros c Hc Hp Ho.
  destruct (co_call _ _ _ _ Hco id c Hc) as (t0 & _ & _ & Hok). rewrite Hp, Ho in Hok.
  destruct Hok as (_ & Hal & e & He & _). destruct Hset as [Hd|Hq]; [by rewrite Hd in Hal|].
  unfold underway in He. simpl in He. rewrite Hq in He. by apply elem_of_nil in He.
Qed.

(** Everything but the node's own progress. *)
Definition without_node (e : SysEvent) : Prop :=
  match e with SCall _ _ | SPoll _ | SCommand _ | SPass _ | SSetTimeout _ => True | _ => False end.

Definition stuck (id : nat) (c : Call) (y : System) : Prop :=
  (id < next_call y)%nat ∧ calls y !! id = Some c ∧ closed (commands y) = false ∧
  (capacity (commands y) ≤ length (queued (commands y)))%nat.

Lemma step_stuck id c e y :
  call_progress c = Sending → without_node e → stuck id c y → stuck id c (sys_step e y).
Proof.
  intros Hp He (Hlt & Hc & Hcl & Hfull). unfold stuck.
  destruct e as [q t|id'| |cmd| | |d|d]; simpl; try done.
  - rewrite lookup_insert_ne by lia. split_and!; [lia|done..].
  - destruct (calls y !! id') as [c'|] eqn:Hc'; [|done].
    destruct (poll_call id' (time y) c' (commands y)) as [ch p] eqn:Hpoll.
    unfold poll_call in Hpoll. rewrite (try_send_full _ _ Hcl Hfull) in Hpoll. simpl.
    assert (ch = commands y) as -> by (by destruct (call_progress c'); simplify_eq).
    split_and!; [done| |done..]. destruct (decide (id' = id)) as [->|Hne].
    + assert (c' = c) as -> by congruence. rewrite Hp in Hpoll. injection Hpoll as <-.
      rewrite lookup_insert_eq. destruct c. simpl in Hp. by subst.
    + by rewrite lookup_insert_ne.
  - unfold send_command. by rewrite (try_send_full _ _ Hcl Hfull).
Qed.

(** C20. Calls return: a call whose command is in the channel returns when it is
    polled after its timeout, whatever the node does, and without waiting for
    that as soon as the node has taken as many commands as the channel holds;
    a call to a node that is gone returns at its next poll.  But the timeout
    does not cover the sending: as long as the channel is full and the node
    takes nothing from it, a call goes on waiting, however much time passes. *)
Theorem queries_return s n ms es id c :
  let y := sys_run es (new_system s n ms) in
  calls y !! id = Some c →
  (∀ dl, call_progress c = Awaiting dl →
     (∀ es', SCancel id ∉ es' → dl ≤ time (sys_run es' y) → returned id (sys_run (es' ++ [SPoll id]) y)) ∧
     returned id (sys_run (repeat SNodeCommand (length (queued (commands y))) ++ [SPoll id]) y)) ∧
  (alive y = false → returned id (sys_step (SPoll id) y)) ∧
  (call_progress c = Sending → alive y = true →
   length (queued (commands y)) = capacity (commands y) →
   ∀ es', Forall without_node es' → calls (sys_run es' y) !! id = Some c).
Proof.
  intros y Hc. pose proof (coherent_run s n ms es) as Hco. simpl in Hco. fold y in Hco.
  assert (id < next_call y)%nat as Hlt.
  { apply Nat.lt_nge. intros Hge. by rewrite (co_ids _ _ _ _ Hco id Hge) in Hc. }
  split_and!.
  - intros dl Hp. assert (waits dl id y) as Hw by (split; eauto). split.
    + intros es' Hno Ht. rewrite sys_run_snoc. eapply poll_returns; [by apply run_waits|done].
    + rewrite sys_run_snoc. pose proof (coherent_run s n ms (es ++ repeat SNodeCommand
        (length (queued (commands y))))) as Hco'. simpl in Hco'.
      rewrite sys_run_app in Hco'. fold y in Hco'.
      eapply settled_returns; [exact Hco'| |by apply drained].
      apply run_waits; [|done]. by intros Hin%list_elem_of_In%repeat_spec.
  - intros Hdead. destruct (call_progress c) as [|dl|r] eqn:Hp.
    + simpl. rewrite Hc. unfold poll_call.
      rewrite Hp, try_send_closed by (rewrite (co_closed _ _ _ _ Hco), Hdead; done).
      eexists _, _. simpl. by rewrite lookup_insert_eq.
    + apply (settled_returns _ _ dl _ _ Hco); [split; eauto|by left].
    + apply (settled_returns _ _ 0 _ _ Hco); [split; eauto|by left].
  - intros Hp Hal Hfull es' Hes'.
    assert (stuck id c y) as Hstuck.
    { split_and!; [done|done| |lia]. by rewrite (co_closed _ _ _ _ Hco), Hal. }
    clearbody y. clear Hc Hal Hfull Hco Hlt.
    revert y Hstuck. induction Hes' as [|e es' He _ IH]; intros y Hstuck; [apply Hstuck|].
    simpl. apply IH. by apply step_stuck.
Qed.
End SystemLiveness.

(** ** Concrete inputs *)

Section HandleExamples.
#[local] Existing Instances Toy.platform ToyNode.queue_inst ListTokio.tokio ListTokio.tokio_laws.
#[local] Existing Instance one_peer_env.

Lemma sink_refuses_witness :
  let '(c', refused) := send_each [1%nat; 2%nat; 3%nat] (mpsc_channel 2) in
  queued c' = [1%nat; 2%nat] ∧ refused = [3%nat].
Proof.
  pose proof (sink_refuses [1%nat; 2%nat; 3%nat] (mpsc_channel 2) (Nat.le_0_l 2)) as H.
  cbv zeta in H. destruct (send_each _ _) as [c' refused].
  destruct H as (Hq & Hr & _). by split.
Defined.

(** A query, through a channel of one place; in between, other commands. *)
Definition asked : list SysEvent := [SCall (CallIsConnected key_target) None; SPoll 0].
Definition one_peer_system : System := new_system one_peer_node 1 1000.
Definition the_call (y : System) : Call :=
  default (start_call 0 CallGetConnectedPeers None) (calls y !! 0%nat).

Lemma query_answers_true_witness :
  let es := asked ++ [SCommand (FindMultiaddr key_target); SNodeCommand; SPoll 0] in
  let y := sys_run es one_peer_system in
  call_progress (the_call y) = Returned (ReplyBool true) ∧
  answered one_peer_system es 0 (CallIsConnected key_target) (ReplyBool true).
Proof.
  intros es y.
  assert (call_progress (the_call y) = Returned (ReplyBool true)) as Hp by (vm_compute; reflexivity).
  assert (call_query (the_call y) = CallIsConnected key_target) as Hq by (vm_compute; reflexivity).
  split; [exact Hp|].
  pose proof (query_answers_true one_peer_node 1 1000 es 0 (the_call y) (ReplyBool true)) as [_ H].
  rewrite Hq in H. destruct H as [H|[H _]]; [vm_compute; reflexivity|exact Hp|exact H|].
  discriminate H.
Defined.

(** The second call finds the channel full. *)
Lemma queries_return_witness :
  let y := sys_run (asked ++ [SCall CallGetConnectedPeers None; SPoll 1]) one_peer_system in
  returned 0 (sys_run [SNodeCommand; SPoll 0] y) ∧
  ∀ d, ∃ c, calls (sys_run [SPass d; SPoll 1] y) !! 1%nat = Some c ∧ call_progress c = Sending.
Proof.
  intros y. split.
  - destruct (queries_return one_peer_node 1 1000 (asked ++ [SCall CallGetConnectedPeers None; SPoll 1])
      0 (the_call y)) as [H _]; [vm_compute; reflexivity|].
    exact (proj2 (H (from_secs 1) ltac:(vm_compute; reflexivity))).
  - intros d. exists (start_call 1000 CallGetConnectedPeers None). split; [|reflexivity].
    refine (proj2 (proj2 (queries_return one_peer_node 1 1000
      (asked ++ [SCall CallGetConnectedPeers None; SPoll 1]) 1 _ _)) _ _ _ [SPass d; SPoll 1] _);
      [vm_compute; reflexivity..|repeat constructor].
Defined.
End HandleExamples.
