(* ===== verification/Footprint.v ===== *)
(** * Footprints: what each wake-up may change and emit

    For every branch of the event loop, the fields it may write and the
    effects it may have.  The other fields and effects are out of its reach,
    whatever the network or the application sends; [Dht] and the invariants of
    a run below are consequences. *)

From Stdlib Require Import Init.Byte.
From S2P Require Import Prelude Time Float64 Platform Message Scores Validator Errors Setup Config Dial Node Scoring Gossip ReqResp Kad Conn Commands Listen.
Open Scope Z_scope.

Section Footprint.
Context {P : Platform} {Q : Queue Multiaddr} {E : Env}.

Record Footprint : Type := {
  may_config : bool;  (* only to push to connect_to *)
  may_dial : bool;
  may_setup : bool;
  may_scores : bool;
  may_penalties : bool;
  may_records : bool;
  may_first_time : bool;
  may_emit : Effect → bool
}.

(** The settings never change; [connect_to] may grow. *)
Definition push_all (c : P2PConfig) (addrs : list Multiaddr) : P2PConfig :=
  foldl (λ c a, push_connect_to a c) c addrs.

Record within (F : Footprint) (s s' : P2P) : Prop := {
  wi_topic : topic s' = topic s;
  wi_signer : signer s' = signer s;
  wi_allowlist : app_allowlist s' = app_allowlist s;
  wi_validator : validator s' = validator s;
  wi_config : ∃ addrs, config s' = push_all (config s) addrs ∧ (may_config F = false → addrs = []);
  wi_dial : may_dial F = false → dial_manager s' = dial_manager s;
  wi_setup : may_setup F = false → setup s' = setup s;
  wi_scores : may_scores F = false → score_manager s' = score_manager s;
  wi_penalties : may_penalties F = false → peer_penalty_storage s' = peer_penalty_storage s;
  wi_records : may_records F = false →
    kademlia_map_received_records s' = kademlia_map_received_records s;
  wi_first_time : may_first_time F = false →
    kademlia_is_routing_updated_first_time s' = kademlia_is_routing_updated_first_time s;
  wi_trace : ∃ l, trace s' = trace s ++ l ∧ Forall (λ e, may_emit F e = true) l;
  wi_ticks : (ticks s ≤ ticks s')%nat
}.

Lemma within_refl F s : within F s s.
Proof.
  split; try done; [exists []; done|exists []; by rewrite app_nil_r].
Qed.

#[export] Instance within_preorder F : PreOrder (within F).
Proof.
  split; [intros s; apply within_refl|].
  intros s1 s2 s3 H1 H2. destruct H1 as [? ? ? ? (a1 & Hc1 & Ha1) ? ? ? ? ? ? (l1 & Ht1 & Hl1) ?].
  destruct H2 as [? ? ? ? (a2 & Hc2 & Ha2) ? ? ? ? ? ? (l2 & Ht2 & Hl2) ?].
  split; try (intros; repeat match goal with
                             | H : ?X → _, H' : ?X |- _ => specialize (H H')
                             end; congruence); try lia.
  - exists (a1 ++ a2). split; [by rewrite Hc2, Hc1; unfold push_all; rewrite foldl_app|].
    intros Hm. by rewrite (Ha1 Hm), (Ha2 Hm).
  - exists (l1 ++ l2). split; [by rewrite Ht2, Ht1, app_assoc|by apply Forall_app].
Qed.

(** A larger footprint allows more. *)
Definition fp_le (F G : Footprint) : Prop :=
  (may_config G = false → may_config F = false) ∧ (may_dial G = false → may_dial F = false) ∧
  (may_setup G = false → may_setup F = false) ∧ (may_scores G = false → may_scores F = false) ∧
  (may_penalties G = false → may_penalties F = false) ∧
  (may_records G = false → may_records F = false) ∧
  (may_first_time G = false → may_first_time F = false) ∧
  (∀ e, may_emit F e = true → may_emit G e = true).

Lemma within_mono F G s s' : fp_le F G → within F s s' → within G s s'.
Proof.
  intros (? & ? & ? & ? & ? & ? & ? & He) []. split; auto.
  - destruct wi_config0 as (a & ? & ?). exists a. auto.
  - destruct wi_trace0 as (l & ? & Hl). exists l. split; [done|]. eapply Forall_impl; eauto.
Qed.
Lemma moves_within_mono F G {A} (m : M A) :
  fp_le F G → moves (within F) m → moves (within G) m.
Proof. intros Hle Hm s. by eapply within_mono. Qed.

(** ** The primitives *)

Lemma within_fields F s s' :
  topic s' = topic s → signer s' = signer s → app_allowlist s' = app_allowlist s →
  validator s' = validator s → config s' = config s → trace s' = trace s →
  (ticks s ≤ ticks s')%nat →
  (may_dial F = true ∨ dial_manager s' = dial_manager s) →
  (may_setup F = true ∨ setup s' = setup s) →
  (may_scores F = true ∨ score_manager s' = score_manager s) →
  (may_penalties F = true ∨ peer_penalty_storage s' = peer_penalty_storage s) →
  (may_records F = true ∨ kademlia_map_received_records s' = kademlia_map_received_records s) →
  (may_first_time F = true ∨
   kademlia_is_routing_updated_first_time s' = kademlia_is_routing_updated_first_time s) →
  within F s s'.
Proof.
  intros ? ? ? ? Hc Ht ? [] [] [] [] [] []; split; try done; try congruence;
    try (exists []; simpl; by rewrite ?app_nil_r).
Qed.

Ltac within_one := intros ? s; apply within_fields; simpl; auto with lia.

Lemma fp_now F : moves (within F) now.
Proof. intros s. apply within_fields; simpl; auto with lia. Qed.
Lemma fp_ask {A} F (f : list Effect → A) : moves (within F) (ask f).
Proof. apply moves_getsS, _. Qed.
Lemma fp_or_panic {A} F (o : option A) : moves (within F) (or_panic o).
Proof. destruct o; solve_moves. Qed.
Lemma fp_add_u64 F a b : moves (within F) (add_u64 a b).
Proof. apply fp_or_panic. Qed.
Lemma fp_own_public_key F : moves (within F) own_public_key.
Proof. apply moves_getsS, _. Qed.
Lemma fp_emit F e : may_emit F e = true → moves (within F) (emit e).
Proof.
  intros He s. split; try done; [exists []; done|].
  exists [e]. split; [done|]. by repeat constructor.
Qed.
Lemma fp_upd_dial F f : may_dial F = true → moves (within F) (modS (upd_dial f) : M unit).
Proof. within_one. Qed.
Lemma fp_upd_setup F f : may_setup F = true → moves (within F) (modS (upd_setup f) : M unit).
Proof. within_one. Qed.
Lemma fp_upd_scores F f : may_scores F = true → moves (within F) (modS (upd_scores f) : M unit).
Proof. within_one. Qed.
Lemma fp_upd_penalties F f :
  may_penalties F = true → moves (within F) (modS (upd_penalties f) : M unit).
Proof. within_one. Qed.
Lemma fp_upd_records F f : may_records F = true → moves (within F) (modS (upd_records f) : M unit).
Proof. within_one. Qed.
Lemma fp_upd_first_time F b :
  may_first_time F = true → moves (within F) (modS (upd_first_time b) : M unit).
Proof. within_one. Qed.
Lemma fp_push_connect_to F a :
  may_config F = true → moves (within F) (modS (upd_config (push_connect_to a)) : M unit).
Proof.
  intros Hm s. split; try done; [|exists []; simpl; by rewrite app_nil_r].
  exists [a]. split; [done|]. congruence.
Qed.
End Footprint.

#[export] Hint Resolve fp_now fp_ask fp_or_panic fp_add_u64 fp_own_public_key : moves.

(** Side conditions: a flag of a concrete footprint, in a known build. *)
Ltac fp_flag :=
  cbn; repeat match goal with H : byos = _ |- context [byos] => rewrite H end;
  first [assumption | reflexivity].
#[export] Hint Extern 1 (moves (within _) (emit _)) => apply fp_emit; fp_flag : moves.
#[export] Hint Extern 1 (moves (within _) (disconnect_peer_id _)) => apply fp_emit; fp_flag : moves.
#[export] Hint Extern 1 (moves (within _) (report _ _ _)) => apply fp_emit; fp_flag : moves.
#[export] Hint Extern 1 (moves (within _) (modS (upd_dial _))) => apply fp_upd_dial; fp_flag : moves.
#[export] Hint Extern 1 (moves (within _) (modS (upd_setup _))) => apply fp_upd_setup; fp_flag : moves.
#[export] Hint Extern 1 (moves (within _) (modS (upd_scores _))) => apply fp_upd_scores; fp_flag : moves.
#[export] Hint Extern 1 (moves (within _) (modS (upd_penalties _))) =>
  apply fp_upd_penalties; fp_flag : moves.
#[export] Hint Extern 1 (moves (within _) (modS (upd_records _))) => apply fp_upd_records; fp_flag : moves.
#[export] Hint Extern 1 (moves (within _) (modS (upd_first_time _))) =>
  apply fp_upd_first_time; fp_flag : moves.
#[export] Hint Extern 1 (moves (within _) (modS (upd_config (push_connect_to _)))) =>
  apply fp_push_connect_to; fp_flag : moves.

(** ** Handlers shared by several branches *)

Section Shared.
Context {P : Platform} {Q : Queue Multiaddr} {E : Env}.

Lemma fp_now_secs F : moves (within F) now_secs.
Proof. unfold now_secs. solve_moves. Qed.
Lemma fp_apply_penalty F p pen :
  may_penalties F = true → (∀ q, may_emit F (EDisconnect q) = true) →
  moves (within F) (apply_penalty p pen).
Proof. intros ? Hd. destruct pen; simpl; unfold now_plus, impose; solve_moves. by apply fp_emit. Qed.
Lemma fp_remove_penalty F p u : may_penalties F = true → moves (within F) (remove_penalty p u).
Proof. intros ?. destruct u; simpl; solve_moves. Qed.
Lemma fp_get_all_scores F p : moves (within F) (get_all_scores p).
Proof. unfold get_all_scores. solve_moves. Qed.
Lemma fp_get_elapsed F p : may_scores F = true → moves (within F) (get_elapsed_decay_time p).
Proof. intros ?. unfold get_elapsed_decay_time. solve_moves. Qed.
End Shared.

#[export] Hint Resolve fp_now_secs fp_get_all_scores : moves.
#[export] Hint Extern 1 (moves (within _) (apply_penalty _ _)) =>
  apply fp_apply_penalty; [fp_flag|intros; fp_flag] : moves.
#[export] Hint Extern 1 (moves (within _) (remove_penalty _ _)) => apply fp_remove_penalty; fp_flag : moves.
#[export] Hint Extern 1 (moves (within _) (get_elapsed_decay_time _)) => apply fp_get_elapsed; fp_flag : moves.

(** ** The table *)

Section Table.
Context {P : Platform} {Q : Queue Multiaddr} {E : Env}.

Definition nothing : Footprint := {|
  may_config := false; may_dial := false; may_setup := false; may_scores := false;
  may_penalties := false; may_records := false; may_first_time := false; may_emit _ := false |}.

(** Emits only; and what a received message does to its sender's standing. *)
Definition only (X : Effect → bool) : Footprint := {|
  may_config := false; may_dial := false; may_setup := false; may_scores := false;
  may_penalties := false; may_records := false; may_first_time := false; may_emit := X |}.
Definition judges (X : Effect → bool) : Footprint := {|
  may_config := false; may_dial := false; may_setup := false; may_scores := negb byos;
  may_penalties := negb byos; may_records := false; may_first_time := false; may_emit := X |}.

Definition disconnects (e : Effect) : bool := match e with EDisconnect _ => true | _ => false end.

Definition fp_gossip : Footprint :=
  judges (λ e, match e with EReport _ _ _ | EGossipEvent _ | EDisconnect _ => true | _ => false end).
Definition fp_req_resp : Footprint :=
  judges (λ e, match e with
               | EReqRespEvent _ | ESendResponse _ _ | EDisconnect _ => true | _ => false end).
Definition fp_kad : Footprint := {|
  may_config := false; may_dial := false; may_setup := false; may_scores := false;
  may_penalties := false; may_records := true; may_first_time := true;
  may_emit e := match e with
                | EStorePut _ _ | ECommandEvent _ | ERepublish | ERepublishAfter _ => true
                | _ => false end |}.
(** With [byos], a failed dial is followed by the next address; without, a
    banned peer that connects is disconnected, and one that has left is
    forgotten. *)
Definition fp_connection (event : ConnectionSwarmEvent) : Footprint := {|
  may_config := false;
  may_dial := match event with ConnectionEstablished _ _ | OutgoingConnectionError _ => byos
              | _ => false end;
  may_setup := false;
  may_scores := match event with SwarmConnectionClosed _ _ => negb byos | _ => false end;
  may_penalties := match event with SwarmConnectionClosed _ _ => negb byos | _ => false end;
  may_records := false; may_first_time := false;
  may_emit e := match event, e with
                | OutgoingConnectionError _, EDial _ => byos
                | ConnectionEstablished _ _, EDisconnect _ => negb byos
                | _, _ => false
                end |}.
Definition fp_setup (X : Effect → bool) : Footprint := {|
  may_config := false; may_dial := false; may_setup := true; may_scores := false;
  may_penalties := false; may_records := false; may_first_time := false; may_emit := X |}.

Definition fp_swarm_event (event : SwarmEvent) : Footprint :=
  match event with
  | SwarmBehaviour (BGossipsub _) => fp_gossip
  | SwarmBehaviour (BRequestResponse _) => fp_req_resp
  | SwarmBehaviour (BKademlia _) => fp_kad
  | SwarmBehaviour (BSetup _ | BIdentifyReceived _ _) => only disconnects
  | SwarmConnection event => fp_connection event
  | SwarmBehaviour BOther | SwarmOther => nothing
  end.

Definition is_key (target : PeerTarget) : bool :=
  match target with TargetAppPublicKey _ => true | TargetTransportId _ => false end.

Definition fp_command (cmd : Command) : Footprint :=
  match cmd with
  | ConnectToPeer target _ => {|
      may_config := is_key target; may_dial := is_key target; may_setup := false;
      may_scores := false; may_penalties := false; may_records := false; may_first_time := false;
      may_emit e := match e with EDial _ => true | _ => false end |}
  | DisconnectFromPeer _ => only disconnects
  | GetPeerScore _ => {|
      may_config := false; may_dial := false; may_setup := false; may_scores := true;
      may_penalties := false; may_records := false; may_first_time := false;
      may_emit e := match e with EReply _ => true | _ => false end |}
  | SetScore _ _ _ => {|
      may_config := false; may_dial := false; may_setup := false; may_scores := true;
      may_penalties := true; may_records := false; may_first_time := false;
      may_emit := disconnects |}
  | QueryP2PState _ => only (λ e, match e with EReply _ => true | _ => false end)
  | FindMultiaddr _ => {|
      may_config := false; may_dial := false; may_setup := false; may_scores := false;
      may_penalties := false; may_records := true; may_first_time := false;
      may_emit e := match e with EGetRecord _ => true | _ => false end |}
  end.

Definition footprint (w : Wakeup) : Footprint :=
  match w with
  | WCancel => nothing
  | WSwarm event => fp_swarm_event event
  | WSetupInput _ => fp_setup (λ _, false)
  | WSetupPoll => fp_setup disconnects
  | WCommand cmd => fp_command cmd
  | WGossipCommand _ => only (λ e, match e with EPublish _ _ => true | _ => false end)
  | WReqRespCommand _ => only (λ e, match e with ESendRequest _ _ => true | _ => false end)
  | WRepublish => only (λ e, match e with EPutRecord _ _ => true | _ => false end)
  end.

(** ** Every handler keeps to its footprint *)

Lemma fp_gossip_event e : moves (within fp_gossip) (handle_gossip_event e).
Proof.
  destruct e; simpl; unfold handle_gossip_msg, handle_signed_gossip, finish_gossip, score_gossip,
    accept_gossip, decay_gossip_score; solve_moves.
Qed.

Lemma fp_score_req_resp p m : byos = false → moves (within fp_req_resp) (score_req_resp p m).
Proof. intros Hb. unfold score_req_resp, decay_request_response_score. solve_moves. Qed.
#[local] Hint Extern 1 (moves (within fp_req_resp) (score_req_resp _ _)) =>
  by apply fp_score_req_resp : moves.
Lemma fp_deliver ch d : moves (within fp_req_resp) (deliver_request ch d).
Proof. unfold deliver_request, send_req_resp_event, send_signed_response. solve_moves. Qed.
#[local] Hint Resolve fp_deliver : moves.
Lemma fp_req_resp_event e : moves (within fp_req_resp) (handle_request_response_event e).
Proof.
  destruct e as [p []| | |]; simpl; unfold handle_request, handle_response, req_resp_muted,
    check_request, check_response, sender_allowed, send_req_resp_event; solve_moves.
Qed.

Lemma fp_validate_date F d : moves (within F) (validate_record_date d).
Proof. unfold validate_record_date. solve_moves. Qed.
#[local] Hint Resolve fp_validate_date : moves.
Lemma fp_put_record r :
  moves (within (only (λ e, match e with EStorePut _ _ => true | _ => false end)))
    (handle_put_record r).
Proof. unfold handle_put_record. solve_moves. Qed.
(** What the events of a lookup may do. *)
Definition fp_lookup : Footprint := {|
  may_config := false; may_dial := false; may_setup := false; may_scores := false;
  may_penalties := false; may_records := true; may_first_time := false;
  may_emit e := match e with ECommandEvent _ => true | _ => false end |}.
Lemma fp_found_record id r : moves (within fp_lookup) (handle_found_record id r).
Proof. unfold handle_found_record. solve_moves. Qed.
Lemma fp_finish_looking id : moves (within fp_lookup) (finish_looking_for_dht_record id).
Proof. unfold finish_looking_for_dht_record. solve_moves. Qed.
Lemma fp_kad_event e : moves (within fp_kad) (handle_kademlia_event e).
Proof.
  destruct e as [r|id []| |]; simpl; unfold handle_put_record, handle_found_record,
    finish_looking_for_dht_record; solve_moves.
Qed.

Lemma fp_connection_event e : moves (within (fp_connection e)) (handle_connection_event e).
Proof.
  destruct e; simpl; unfold handle_connection_established, handle_outgoing_connection_error,
    handle_connection_closed, dial_and_map; solve_moves.
Qed.
Lemma fp_identify p l : moves (within (only disconnects)) (handle_identify_received p l).
Proof. unfold handle_identify_received. solve_moves. Qed.
Lemma fp_setup_event F e :
  (∀ q, may_emit F (EDisconnect q) = true) → moves (within F) (handle_setup_event e).
Proof. intros Hd. destruct e; simpl; solve_moves; by apply fp_emit. Qed.
#[local] Hint Resolve fp_gossip_event fp_req_resp_event fp_kad_event fp_connection_event fp_identify : moves.
#[local] Hint Extern 1 (moves (within _) (handle_setup_event _)) => by apply fp_setup_event : moves.

Lemma fp_handle_swarm_event e : moves (within (fp_swarm_event e)) (handle_swarm_event e).
Proof. destruct e as [[]| |]; simpl; solve_moves. Qed.

Lemma fp_handle_command cmd : moves (within (fp_command cmd)) (handle_command cmd).
Proof.
  destruct cmd as [[]|[]|p|p [[]|] cb|[[]| |]|[]]; simpl;
    unfold handle_connect_to_peer, connect_by_key, connect_by_id, dial_and_map,
      handle_disconnect_from_peer, handle_get_peer_score, handle_set_score, apply_action,
      apply_callback, ask_kademlia_get_record; solve_moves.
Qed.
#[local] Hint Resolve fp_handle_swarm_event fp_handle_command : moves.

Lemma wake_within w : moves (within (footprint w)) (wake w).
Proof.
  destruct w; cbn [wake footprint]; unfold poll_setup, handle_gossip_command,
    handle_request_response_command, ask_kademlia_put_record; try solve [solve_moves].
  apply moves_bind; [apply _|solve_moves|]. intros sb. destruct (behaviour_poll sb) as [sb' event].
  solve_moves. simpl. solve_moves.
Qed.

(** ** Along a run *)

(** What can occur in a build: only [byos] has keys and the setup behaviour,
    only the other has scores and penalties to set. *)
Definition command_of_build (cmd : Command) : bool :=
  match cmd with
  | ConnectToPeer target _ | DisconnectFromPeer target
  | QueryP2PState (IsConnected target) | FindMultiaddr target => Bool.eqb (is_key target) byos
  | GetPeerScore _ | SetScore _ _ _ => negb byos
  | QueryP2PState _ => true
  end.
Definition wakeup_of_build (w : Wakeup) : bool :=
  match w with
  | WSetupInput _ | WSetupPoll | WSwarm (SwarmBehaviour (BSetup _)) => byos
  | WCommand cmd => command_of_build cmd
  | WReqRespCommand cmd => Bool.eqb (is_key (rrc_target cmd)) byos
  | _ => true
  end.

(** Everything that the wake-ups [ws] of one build may do. *)
Definition fp_build (ws : list Wakeup) : Footprint := {|
  may_config := byos; may_dial := byos; may_setup := byos; may_scores := negb byos;
  may_penalties := negb byos; may_records := true; may_first_time := true;
  may_emit e := existsb (λ w, may_emit (footprint w) e) ws |}.

Lemma footprint_of_build w ws :
  wakeup_of_build w = true → w ∈ ws → fp_le (footprint w) (fp_build ws).
Proof.
  intros Hw Hin.
  assert (∀ e, may_emit (footprint w) e = true → may_emit (fp_build ws) e = true) as He.
  { intros e He. apply existsb_exists. exists w. by rewrite <-list_elem_of_In. }
  unfold fp_le. split_and!; [..|exact He]; clear He; cbn;
    destruct w as [|[[]|[]|]|i| |[[]|[]|p|p a cb|[[]| |]|[]]|d|c|]; cbn in *;
    destruct byos; cbn in *; congruence.
Qed.

Lemma push_all_setting {A} (f : P2PConfig → A) c addrs :
  (∀ a c, f (push_connect_to a c) = f c) → f (push_all c addrs) = f c.
Proof. intros Hf. revert c. induction addrs as [|a addrs IH]; intros c; [done|]. simpl. by rewrite IH, Hf. Qed.

Lemma within_own_key F s s' : within F s s' → own_key s' = own_key s.
Proof.
  intros H. destruct (wi_config _ _ _ H) as (addrs & Hc & _). unfold own_key. rewrite Hc.
  destruct byos; [|f_equal]; apply push_all_setting; by intros a [].
Qed.

(** C17. Typing of the node's state: along any run of the event loop, whatever
    the network and the application do, the node's identity, signer, allowlist,
    topic, validator and settings stay as they were ([connect_to] may grow, and
    only with [byos]); the fields of one build are never touched in the other;
    the record of what was done only grows; and everything done is due to a
    wake-up whose kind may do it: the node publishes, sends requests and looks
    up records on command only; dials on command, and (with [byos]) the next
    address when a dial has failed; stores records and judges
    messages only when the network brings them. *)
Theorem builds_do_not_mix s ws l :
  listen_run (Running s) ws l → Forall (λ w, wakeup_of_build w = true) ws →
  let s' := loop_state l in
  (topic s' = topic s ∧ signer s' = signer s ∧ app_allowlist s' = app_allowlist s ∧
   validator s' = validator s ∧ own_key s' = own_key s) ∧
  (∃ addrs, config s' = push_all (config s) addrs ∧ (byos = false → addrs = [])) ∧
  (if byos then score_manager s' = score_manager s ∧ peer_penalty_storage s' = peer_penalty_storage s
   else dial_manager s' = dial_manager s ∧ setup s' = setup s) ∧
  (∃ done, trace s' = trace s ++ done ∧
     ∀ e, e ∈ done → ∃ w, w ∈ ws ∧ may_emit (footprint w) e = true).
Proof.
  intros Hrun Hws s'.
  assert (within (fp_build ws) s s') as Hin.
  { apply (listen_run_moves _ (λ w, wakeup_of_build w = true ∧ w ∈ ws) _ ws _) with (2 := Hrun).
    - intros w [Hw Hin]. eapply moves_within_mono; [by apply footprint_of_build|apply wake_within].
    - rewrite Forall_forall in *. auto. }
  split_and!; try apply Hin.
  - by apply (within_own_key (fp_build ws)).
  - destruct byos eqn:Hb; split; apply Hin; simpl; by rewrite Hb.
  - destruct (wi_trace _ _ _ Hin) as (new & Ht & Hnew). exists new. split; [done|]. intros e He.
    rewrite Forall_forall in Hnew. apply Hnew, existsb_exists in He as (w & Hw & He).
    exists w. by rewrite list_elem_of_In.
Qed.
End Table.

(** ** Example: a publication on the toy node *)

Section FootprintExample.
#[local] Existing Instances Toy.platform ToyNode.queue_inst.
#[local] Instance footprint_env : Env := ToyNode.env true.

Definition fp_publish : Wakeup := WGossipCommand [Byte.x68; Byte.x69].
Definition fp_published : P2P := (wake fp_publish ToyNode.node).1.

Lemma builds_do_not_mix_witness :
  ∃ done, trace fp_published = trace ToyNode.node ++ done ∧
    ∀ e, e ∈ done → ∃ w, w ∈ [fp_publish] ∧ may_emit (footprint w) e = true.
Proof.
  refine (proj2 (proj2 (proj2 (builds_do_not_mix ToyNode.node [fp_publish] (Running fp_published) _ _)))).
  - eapply run_cons; [apply step_done; [discriminate|]|apply run_nil].
    apply injective_projections; reflexivity.
  - repeat constructor.
Defined.
End FootprintExample.
