(* ===== verification/Events.v ===== *)
(** * Events and the handles that read them ([events.rs]; [swarm/handle.rs]:
    [next_event], [events_is_empty], [get_new_receiver], [Clone];
    [new_gossip_handle], [new_command_handle])

    The node sends its events into two broadcast channels (gossip, answers to
    commands) and a bounded channel (requests and responses).  Handles can be
    made and cloned at any time, read at their own pace, and be dropped; the
    machine [Bus] has any number of them, and its steps come in any order. *)

From Stdlib Require Import Init.Byte.
From S2P Require Import Prelude Time Float64 Platform Message Scores Validator Errors Setup Config Dial Node Scoring Gossip ReqResp Kad Conn Commands Listen Handle Footprint.
Open Scope Z_scope.

(** ** tokio's broadcast channel *)

(** [broadcast::error::RecvError] *)
Inductive RecvError : Type :=
  | RecvClosed
  | Lagged (skipped : nat).

(** The receivers share the channel; each has a place of its own in it. *)
Class Broadcast := {
  bchannel : Type → Type;
  breceiver : Type → Type;
  (* with no receiver: the first one is dropped where the channel is made *)
  broadcast_channel {A} : nat → bchannel A;
  bsend {A} : A → bchannel A → bchannel A * result nat A;
  subscribe {A} : bchannel A → bchannel A * breceiver A;
  resubscribe {A} : breceiver A → bchannel A → bchannel A * breceiver A;
  (* [None]: pending *)
  brecv {A} : breceiver A → bchannel A → bchannel A * breceiver A * option (result A RecvError);
  bis_empty {A} : breceiver A → bchannel A → bool;
  drop_breceiver {A} : breceiver A → bchannel A → bchannel A;
  drop_bsender {A} : bchannel A → bchannel A;
  (* for specifications *)
  sent {A} : bchannel A → list A;
  retained {A} : bchannel A → nat;
  receivers {A} : bchannel A → nat;
  sender_gone {A} : bchannel A → bool;
  place {A} : breceiver A → nat
}.

(** Nothing of the channel moves but the number of its receivers. *)
Definition same_bus `{Broadcast} {A} (n : nat → nat) (c c' : bchannel A) : Prop :=
  sent c' = sent c ∧ retained c' = retained c ∧ receivers c' = n (receivers c) ∧
  sender_gone c' = sender_gone c.

(** tokio's documentation: a value goes to those who are subscribed when it is
    sent; the channel keeps the last ones, at least as many as asked for; a
    receiver that is further behind is told how many it has lost, and goes on
    with the oldest kept. *)
Class BroadcastLaws (B : Broadcast) : Prop := {
  bchannel_new {A} n : (0 < n)%nat →
    let c := broadcast_channel (A:=A) n in
    sent c = [] ∧ (n ≤ retained c)%nat ∧ receivers c = 0%nat ∧ sender_gone c = false;
  bsend_nobody {A} (a : A) c : receivers c = 0%nat → bsend a c = (c, Err a);
  bsend_some {A} (a : A) c : (0 < receivers c)%nat →
    ∃ c', bsend a c = (c', Ok (receivers c)) ∧ sent c' = sent c ++ [a] ∧
          retained c' = retained c ∧ receivers c' = receivers c ∧ sender_gone c' = sender_gone c;
  subscribe_spec {A} (c : bchannel A) :
    let '(c', r) := subscribe c in same_bus S c c' ∧ place r = length (sent c);
  resubscribe_spec {A} (r : breceiver A) c :
    let '(c', r') := resubscribe r c in same_bus S c c' ∧ place r' = length (sent c);
  brecv_spec {A} (r : breceiver A) c :
    let '(c', r', o) := brecv r c in
    same_bus id c c' ∧
    if decide (place r + retained c < length (sent c))%nat then
      place r' = (length (sent c) - retained c)%nat ∧ o = Some (Err (Lagged (place r' - place r)))
    else match sent c !! place r with
         | Some a => place r' = S (place r) ∧ o = Some (Ok a)
         | None => r' = r ∧ o = if sender_gone c then Some (Err RecvClosed) else None
         end;
  bis_empty_spec {A} (r : breceiver A) c :
    (place r ≤ length (sent c))%nat → bis_empty r c = true ↔ place r = length (sent c);
  drop_breceiver_spec {A} (r : breceiver A) c : same_bus Nat.pred c (drop_breceiver r c);
  drop_bsender_spec {A} (c : bchannel A) :
    sent (drop_bsender c) = sent c ∧ retained (drop_bsender c) = retained c ∧
    receivers (drop_bsender c) = receivers c ∧ sender_gone (drop_bsender c) = true
}.

(** The whole history, a count and a flag (for witnesses). *)
Module ListBroadcast.
Record chan (A : Type) : Type := Chan { items : list A; keep : nat; count : nat; gone : bool }.
Arguments Chan {_} _ _ _ _.
Arguments items {_} _.
Arguments keep {_} _.
Arguments count {_} _.
Arguments gone {_} _.

Definition send {A} (a : A) (c : chan A) : chan A * result nat A :=
  match count c with
  | O => (c, Err a)
  | n => (Chan (items c ++ [a]) (keep c) n (gone c), Ok n)
  end.
Definition counted {A} (n : nat) (c : chan A) : chan A := Chan (items c) (keep c) n (gone c).
Definition recv {A} (r : nat) (c : chan A) : chan A * nat * option (result A RecvError) :=
  if decide (r + keep c < length (items c))%nat then
    (c, (length (items c) - keep c)%nat, Some (Err (Lagged (length (items c) - keep c - r))))
  else match items c !! r with
       | Some a => (c, S r, Some (Ok a))
       | None => (c, r, if gone c then Some (Err RecvClosed) else None)
       end.

#[export] Instance broadcast : Broadcast := {|
  bchannel := chan; breceiver _ := nat; broadcast_channel _ n := Chan [] n 0 false;
  bsend _ := send; subscribe _ c := (counted (S (count c)) c, length (items c));
  resubscribe _ _ c := (counted (S (count c)) c, length (items c)); brecv _ := recv;
  bis_empty _ r c := bool_decide (r = length (items c));
  drop_breceiver _ _ c := counted (Nat.pred (count c)) c;
  drop_bsender _ c := Chan (items c) (keep c) (count c) true;
  sent _ := items; retained _ := keep; receivers _ := count; sender_gone _ := gone; place _ r := r |}.

#[export] Instance broadcast_laws : BroadcastLaws broadcast.
Proof.
  split; simpl; try done.
  - intros A a c Hc. unfold send. by rewrite Hc.
  - intros A a c Hc. unfold send. destruct (count c) eqn:Hn; [lia|]. by eexists.
  - intros A r c. unfold recv. destruct (decide _); [done|]. by destruct (items c !! r).
  - intros A r c _. apply bool_decide_eq_true.
Qed.
End ListBroadcast.

(** ** The handles *)

Module GossipHandle.
Section GossipHandle.
Context {B : Broadcast}.

(** The sender half of the commands is the channel of [Handle]'s sinks. *)
Record GossipHandle : Type := { events : breceiver bytes }.

Definition next_event (self : GossipHandle) (c : bchannel bytes)
    : bchannel bytes * GossipHandle * option (result bytes RecvError) :=
  let '(c, r, o) := brecv (events self) c in (c, {| events := r |}, o).
Definition events_is_empty (self : GossipHandle) (c : bchannel bytes) : bool :=
  bis_empty (events self) c.
Definition get_new_receiver (self : GossipHandle) (c : bchannel bytes)
    : bchannel bytes * breceiver bytes := resubscribe (events self) c.
Definition clone (self : GossipHandle) (c : bchannel bytes) : bchannel bytes * GossipHandle :=
  let '(c, r) := resubscribe (events self) c in (c, {| events := r |}).
(** [P2P::new_gossip_handle] *)
Definition new_gossip_handle (c : bchannel bytes) : bchannel bytes * GossipHandle :=
  let '(c, r) := subscribe c in (c, {| events := r |}).
End GossipHandle.
End GossipHandle.

Module CommandHandle.
Section CommandHandle.
Context {B : Broadcast} {P : Platform}.

(** [CommandEvent::ResultFindMultiaddress] *)
Definition CommandEvent : Type := option (list Multiaddr).

Record CommandHandle : Type := { events : breceiver CommandEvent }.

Definition next_event (self : CommandHandle) (c : bchannel CommandEvent)
    : bchannel CommandEvent * CommandHandle * option (result CommandEvent RecvError) :=
  let '(c, r, o) := brecv (events self) c in (c, {| events := r |}, o).
Definition events_is_empty (self : CommandHandle) (c : bchannel CommandEvent) : bool :=
  bis_empty (events self) c.
Definition get_new_receiver (self : CommandHandle) (c : bchannel CommandEvent)
    : bchannel CommandEvent * breceiver CommandEvent := resubscribe (events self) c.
Definition clone (self : CommandHandle) (c : bchannel CommandEvent)
    : bchannel CommandEvent * CommandHandle :=
  let '(c, r) := resubscribe (events self) c in (c, {| events := r |}).
(** [P2P::new_command_handle] *)
Definition new_command_handle (c : bchannel CommandEvent) : bchannel CommandEvent * CommandHandle :=
  let '(c, r) := subscribe c in (c, {| events := r |}).
End CommandHandle.
End CommandHandle.

Module ReqRespHandle.
Section ReqRespHandle.
Context {T : Tokio} {P : Platform}.

(** The one receiver of the bounded channel; [None] is [Poll::Pending], and the
    end of the stream ([Some None]) comes when the node is gone. *)
Definition next_event (alive : bool) (events : mpsc ReqRespEvent)
    : mpsc ReqRespEvent * option (option ReqRespEvent) :=
  match try_recv events with
  | (events, Some e) => (events, Some (Some e))
  | (events, None) => (events, if alive then None else Some None)
  end.
Definition poll_next (alive : bool) (events : mpsc ReqRespEvent)
    : mpsc ReqRespEvent * option (option ReqRespEvent) := next_event alive events.
Definition events_is_empty (events : mpsc ReqRespEvent) : bool := bool_decide (queued events = []).
End ReqRespHandle.
End ReqRespHandle.

(** ** One channel and its handles *)

(** What the handles of both channels are to the machine. *)
Class EventHandle `{B : Broadcast} (H A : Type) := {
  h_events : H → breceiver A;
  h_new : bchannel A → bchannel A * H;
  h_next : H → bchannel A → bchannel A * H * option (result A RecvError);
  h_clone : H → bchannel A → bchannel A * H;
  h_is_empty : H → bchannel A → bool;
  h_new_spec c : let '(c', h) := h_new c in subscribe c = (c', h_events h);
  h_next_spec h c : let '(c', h', o) := h_next h c in brecv (h_events h) c = (c', h_events h', o);
  h_clone_spec h c : let '(c', h') := h_clone h c in resubscribe (h_events h) c = (c', h_events h');
  h_is_empty_spec h c : h_is_empty h c = bis_empty (h_events h) c
}.

#[export] Program Instance gossip_handle `{B : Broadcast} :
  EventHandle GossipHandle.GossipHandle bytes := {|
  h_events := GossipHandle.events; h_new := GossipHandle.new_gossip_handle;
  h_next := GossipHandle.next_event; h_clone := GossipHandle.clone;
  h_is_empty := GossipHandle.events_is_empty |}.
Next Obligation. intros B c. unfold GossipHandle.new_gossip_handle. by destruct (subscribe c). Qed.
Next Obligation. intros B h c. unfold GossipHandle.next_event. by destruct (brecv _ c) as [[] ?]. Qed.
Next Obligation. intros B h c. unfold GossipHandle.clone. by destruct (resubscribe _ c). Qed.
Next Obligation. done. Qed.

#[export] Program Instance command_handle `{B : Broadcast} {P : Platform} :
  EventHandle CommandHandle.CommandHandle CommandHandle.CommandEvent := {|
  h_events := CommandHandle.events; h_new := CommandHandle.new_command_handle;
  h_next := CommandHandle.next_event; h_clone := CommandHandle.clone;
  h_is_empty := CommandHandle.events_is_empty |}.
Next Obligation. intros B P c. unfold CommandHandle.new_command_handle. by destruct (subscribe c). Qed.
Next Obligation. intros B P h c. unfold CommandHandle.next_event. by destruct (brecv _ c) as [[] ?]. Qed.
Next Obligation. intros B P h c. unfold CommandHandle.clone. by destruct (resubscribe _ c). Qed.
Next Obligation. done. Qed.

Section Stream.
Context {B : Broadcast} {H A : Type} {HA : EventHandle H A}.

(** A handle in use; how much the node had done when it was made, and what its
    [next_event]s have given, are kept for the specification. *)
Record Reader : Type := { rd_handle : H; rd_since : nat; rd_log : list (result A RecvError) }.

Record Stream : Type := { st_channel : bchannel A; st_readers : gmap nat Reader }.

(** What an application does with its handles, named by numbers. *)
Inductive HandleOp : Type :=
  | HNew
  | HNext
  | HClone (to : nat)
  | HDrop.

Definition fresh_reader (h : H) (since : nat) : Reader :=
  {| rd_handle := h; rd_since := since; rd_log := [] |}.

(** The operation of handle [id] when the node has done [t] things; making a
    handle under a number in use, or using one that is not, does nothing. *)
Definition stream_do (t : nat) (id : nat) (op : HandleOp) (st : Stream) : Stream :=
  let '{| st_channel := c; st_readers := rs |} := st in
  match op, rs !! id with
  | HNew, None =>
      let '(c, h) := h_new c in {| st_channel := c; st_readers := <[id := fresh_reader h t]> rs |}
  | HNext, Some r =>
      let '(c, h, o) := h_next (rd_handle r) c in
      let log := rd_log r ++ match o with Some x => [x] | None => [] end in
      {| st_channel := c;
         st_readers := <[id := {| rd_handle := h; rd_since := rd_since r; rd_log := log |}]> rs |}
  | HClone to, Some r =>
      match rs !! to with
      | None => let '(c, h) := h_clone (rd_handle r) c in
                {| st_channel := c; st_readers := <[to := fresh_reader h t]> rs |}
      | Some _ => st
      end
  | HDrop, Some r =>
      {| st_channel := drop_breceiver (h_events (rd_handle r)) c; st_readers := delete id rs |}
  | _, _ => st
  end.

(** The node sends; that nobody listens is told by the result. *)
Definition stream_send (l : list A) (st : Stream) : Stream :=
  {| st_channel := foldl (λ c a, (bsend a c).1) (st_channel st) l; st_readers := st_readers st |}.
Definition stream_close (st : Stream) : Stream :=
  {| st_channel := drop_bsender (st_channel st); st_readers := st_readers st |}.

(** ** What a log says *)

(** [reads keep log l rest]: the answers [log] give the events [l] in order and
    once each, except those that it says were lost, and [rest] is yet to come;
    a loss is told only when more than [keep] events were unread, and the end
    only when there is nothing more. *)
Inductive reads (keep : nat) : list (result A RecvError) → list A → list A → Prop :=
  | reads_start l : reads keep [] l l
  | reads_event log l a rest :
      reads keep log l (a :: rest) → reads keep (log ++ [Ok a]) l rest
  | reads_lagged log l skipped rest :
      reads keep log l (skipped ++ rest) → skipped ≠ [] → (keep ≤ length rest)%nat →
      reads keep (log ++ [Err (Lagged (length skipped))]) l rest
  | reads_closed log l :
      reads keep log l [] → reads keep (log ++ [Err RecvClosed]) l [].

Definition events_read (log : list (result A RecvError)) : list A := omap result_ok log.
Definition events_lost (log : list (result A RecvError)) : nat :=
  foldr (λ x n, match x with Err (Lagged k) => k + n | _ => n end)%nat 0%nat log.

Lemma events_lost_snoc log x :
  events_lost (log ++ [x])
    = (events_lost log + match x with Err (Lagged k) => k | _ => 0 end)%nat.
Proof.
  unfold events_lost. rewrite foldr_app. simpl.
  induction log as [|[a|[|n]] log IH]; simpl; [by destruct x as [|[]]; lia|lia|lia|lia].
Qed.

(** The reader has missed nothing it was not told of. *)
Lemma reads_count keep log l rest :
  reads keep log l rest →
  length l = (length (events_read log) + events_lost log + length rest)%nat.
Proof.
  unfold events_read. induction 1; rewrite ?events_lost_snoc, ?omap_app, ?length_app in *; simpl in *; lia.
Qed.
Lemma reads_order keep log l rest :
  reads keep log l rest → sublist (events_read log ++ rest) l.
Proof.
  unfold events_read. induction 1 as [l|log l a rest _ IH|log l sk rest _ IH _ _|log l _ IH]; simpl.
  - done.
  - rewrite omap_app. simpl. by rewrite <-app_assoc.
  - rewrite omap_app. simpl. rewrite app_nil_r. etrans; [|exact IH].
    apply sublist_app; [done|]. by apply sublist_inserts_l.
  - rewrite omap_app. simpl. by rewrite app_nil_r.
Qed.
Lemma reads_lossless keep log l rest :
  reads keep log l rest → events_lost log = 0%nat → l = events_read log ++ rest.
Proof.
  intros Hr Hl. pose proof (reads_count _ _ _ _ Hr) as Hc. pose proof (reads_order _ _ _ _ Hr) as Ho.
  symmetry. apply sublist_full; [done|]. rewrite length_app. lia.
Qed.

(** Later events are unread. *)
Lemma reads_grow keep log l rest l' :
  reads keep log l rest → (l' = [] ∨ ∀ x, x ∈ log → x ≠ Err RecvClosed) →
  reads keep log (l ++ l') (rest ++ l').
Proof.
  intros Hr Hl. destruct Hl as [->|Hl]; [by rewrite !app_nil_r|].
  induction Hr as [l|log l a rest _ IH|log l sk rest _ IH Hsk Hk|log l _ IH].
  - constructor.
  - apply reads_event, IH. set_solver.
  - apply reads_lagged; [|done|rewrite length_app; lia]. rewrite app_assoc. apply IH. set_solver.
  - destruct (Hl (Err RecvClosed)); [set_solver|done].
Qed.
End Stream.
Arguments Stream {_} _ _.
Arguments Reader _ _ : clear implicits.

Section StreamProperties.
Context {B : Broadcast} {BL : BroadcastLaws B} {H A : Type} {HA : EventHandle H A}.

(** A receiver made when [since] events had been sent, with what it has given. *)
Record follows (c : bchannel A) (r : breceiver A) (since : nat) (log : list (result A RecvError)) : Prop := {
  fo_since : (since ≤ length (sent c))%nat;
  fo_place : (place r ≤ length (sent c))%nat;
  fo_reads : reads (retained c) log (drop since (sent c)) (drop (place r) (sent c));
  fo_open : sender_gone c = false → ∀ x, x ∈ log → x ≠ Err RecvClosed
}.

Lemma follows_new (c : bchannel A) r : place r = length (sent c) → follows c r (length (sent c)) [].
Proof. intros Hp. split; [lia|lia| |set_solver]. rewrite Hp, drop_all. constructor. Qed.

Lemma follows_same n c c' r since log : same_bus n c c' → follows c r since log → follows c' r since log.
Proof. intros (Hs & Hk & _ & Hg) []. split; by rewrite ?Hs, ?Hk, ?Hg. Qed.

Lemma follows_send c r since log a c' :
  sender_gone c = false → sent c' = sent c ++ [a] → retained c' = retained c →
  sender_gone c' = sender_gone c → follows c r since log → follows c' r since log.
Proof.
  intros Ho Hs Hk Hg [Hsi Hp Hr Hop]. split; rewrite ?Hs, ?Hk, ?Hg, ?length_app; simpl; [lia|lia| |done].
  rewrite !drop_app_le by done. apply reads_grow; [done|right; by apply Hop].
Qed.

Lemma follows_recv c r since log :
  follows c r since log →
  let '(c', r', o) := brecv r c in
  same_bus id c c' ∧
  follows c' r' since (log ++ match o with Some x => [x] | None => [] end).
Proof.
  intros [Hsi Hp Hr Hop]. pose proof (brecv_spec r c) as Hb. destruct (brecv r c) as [[c' r'] o].
  destruct Hb as [Hsame Hb]. split; [done|]. pose proof Hsame as (Hs & Hk & _ & Hg).
  destruct (decide (place r + retained c < length (sent c))%nat) as [Hlag|Hkeep].
  - destruct Hb as [Hp' ->]. split; rewrite ?Hs, ?Hk, ?Hg; [done|lia| |].
    + replace (place r' - place r)%nat
        with (length (take (place r' - place r) (drop (place r) (sent c))))
        by (rewrite length_take, length_drop; lia).
      apply reads_lagged.
      * rewrite <-(take_drop (place r' - place r) (drop (place r) (sent c))), drop_drop in Hr.
        by replace (place r + (place r' - place r))%nat with (place r') in Hr by lia.
      * intros Hn%(f_equal length). rewrite length_take, length_drop in Hn. simpl in Hn. lia.
      * rewrite length_drop. lia.
    + intros Ho x [Hx| ->%list_elem_of_singleton]%elem_of_app; [by apply Hop|done].
  - destruct (sent c !! place r) as [a|] eqn:Ha.
    + destruct Hb as [Hp' ->]. pose proof (lookup_lt_Some _ _ _ Ha).
      split; rewrite ?Hs, ?Hk, ?Hg; [done|lia| |].
      * rewrite Hp'. apply reads_event. by rewrite <-(drop_S _ _ _ Ha).
      * intros Ho x [Hx| ->%list_elem_of_singleton]%elem_of_app; [by apply Hop|done].
    + destruct Hb as [-> ->]. apply lookup_ge_None in Ha.
      destruct (sender_gone c) eqn:Hgone; split; rewrite ?Hs, ?Hk, ?Hg, ?Hgone, ?app_nil_r; try done.
      rewrite (drop_ge (sent c) (place r)) in Hr |- * by lia. by apply reads_closed.
Qed.

(** The readers of a channel into which the node sends what [f] picks of the
    effects [tr]. *)
Definition stream_ok {X} (f : X → option A) (tr : list X) (st : Stream H A) : Prop :=
  receivers (st_channel st) = size (st_readers st) ∧
  ∀ id r, st_readers st !! id = Some r → (rd_since r ≤ length tr)%nat ∧
    ∃ since, follows (st_channel st) (h_events (rd_handle r)) since (rd_log r) ∧
      drop since (sent (st_channel st)) = omap f (drop (rd_since r) tr).

Lemma stream_do_ok {X} (f : X → option A) tr id op st :
  stream_ok f tr st → stream_ok f tr (stream_do (length tr) id op st).
Proof.
  destruct st as [c rs]. intros [Hc Hrs]. simpl in Hc, Hrs.
  (* the readers that are there follow the channel on *)
  assert (∀ n c', same_bus n c c' → ∀ id r, rs !! id = Some r → (rd_since r ≤ length tr)%nat ∧
    ∃ since, follows c' (h_events (rd_handle r)) since (rd_log r) ∧
      drop since (sent c') = omap f (drop (rd_since r) tr)) as Hold.
  { intros n c' Hsame id' r Hr. destruct (Hrs id' r Hr) as (Ht & since & Hf & Hd). split; [done|].
    exists since. split; [by eapply follows_same|]. by rewrite (proj1 Hsame). }
  (* so does a new one *)
  assert (∀ id' h c', rs !! id' = None → same_bus S c c' → place (h_events h) = length (sent c) →
    stream_ok f tr {| st_channel := c'; st_readers := <[id' := fresh_reader h (length tr)]> rs |}) as Hnew.
  { intros id' h c' Hno Hsame Hp. pose proof Hsame as (Hs & _ & Hn & _). split; simpl.
    - rewrite Hn, map_size_insert_None by done. by rewrite Hc.
    - intros i r [[<- <-]|[_ Hr]]%lookup_insert_Some; [|by eapply Hold].
      split; [simpl; lia|]. exists (length (sent c')). simpl. rewrite !drop_all. split; [|done].
      apply follows_new. by rewrite Hs. }
  unfold stream_do. destruct op as [| |to|], (rs !! id) as [r|] eqn:Hid; try by split.
  - pose proof (h_new_spec (H:=H) (A:=A) c) as Hh. destruct (h_new c) as [c' h].
    pose proof (subscribe_spec c) as Hsub. rewrite Hh in Hsub. destruct Hsub. by apply Hnew.
  - pose proof (h_next_spec (rd_handle r) c) as Hh.
    destruct (h_next (rd_handle r) c) as [[c' h] o]. destruct (Hrs id r Hid) as (Ht & since & Hf & Hd).
    pose proof (follows_recv _ _ _ _ Hf) as Hn. rewrite Hh in Hn. destruct Hn as [Hsame Hf'].
    split; simpl.
    + rewrite map_size_insert_Some by eauto. by rewrite (proj1 (proj2 (proj2 Hsame))).
    + intros i r' [[<- <-]|[_ Hr]]%lookup_insert_Some; [|by eapply Hold].
      split; [done|]. exists since. split; [done|]. by rewrite (proj1 Hsame).
  - destruct (rs !! to) eqn:Hto; [by split|].
    pose proof (h_clone_spec (rd_handle r) c) as Hh. destruct (h_clone (rd_handle r) c) as [c' h].
    pose proof (resubscribe_spec (h_events (rd_handle r)) c) as Hsub. rewrite Hh in Hsub.
    destruct Hsub. by apply Hnew.
  - pose proof (drop_breceiver_spec (h_events (rd_handle r)) c) as Hsame. split; simpl.
    + rewrite (proj1 (proj2 (proj2 Hsame))), map_size_delete_Some by eauto. by rewrite Hc.
    + intros i r' [_ Hr]%lookup_delete_Some. by eapply Hold.
Qed.

Lemma stream_send_ok {X} (f : X → option A) tr l st :
  sender_gone (st_channel st) = false → stream_ok f tr st →
  stream_ok f (tr ++ l) (stream_send (omap f l) st) ∧
  sender_gone (st_channel (stream_send (omap f l) st)) = false.
Proof.
  revert tr st. induction l as [|x l IH]; intros tr [c rs] Hg Hok.
  { rewrite app_nil_r. by split. }
  assert (stream_ok f (tr ++ [x]) (stream_send (omap f [x]) {| st_channel := c; st_readers := rs |}) ∧
    sender_gone (st_channel (stream_send (omap f [x]) {| st_channel := c; st_readers := rs |})) = false)
    as [Hok1 Hg1].
  { destruct Hok as [Hc Hrs]. simpl in Hg, Hc, Hrs. unfold stream_send, stream_ok. simpl.
    destruct (decide (rs = ∅)) as [->|Hne].
    - assert (receivers c = 0%nat) as H0 by (rewrite Hc; apply map_size_empty).
      destruct (f x) as [a|]; simpl; rewrite ?bsend_nobody by done; by split_and!.
    - assert ((0 < receivers c)%nat) as Hpos.
      { rewrite Hc. destruct (decide (size rs = 0%nat)) as [H0|]; [|lia].
        apply map_size_empty_inv in H0. done. }
      assert (∀ id r, rs !! id = Some r → omap f (drop (rd_since r) (tr ++ [x]))
        = omap f (drop (rd_since r) tr) ++ omap f [x]) as Hdrop.
      { intros id r Hr. destruct (Hrs id r Hr) as [Hle _]. by rewrite drop_app_le, omap_app. }
      simpl in Hdrop |- *. destruct (f x) as [a|]; simpl.
      + destruct (bsend_some a c Hpos) as (c' & -> & Hs & Hk & Hn & Hg'). simpl.
        split; [|by rewrite Hg']. split; [by rewrite Hn|].
        intros id r Hr. destruct (Hrs id r Hr) as (Hle & since & Hf & Hd).
        split; [rewrite length_app; lia|]. exists since. split; [by eapply follows_send|].
        destruct Hf as [Hsi _ _ _]. by rewrite Hs, drop_app_le, Hd, (Hdrop id r Hr).
      + split; [|done]. split; [done|]. intros id r Hr. destruct (Hrs id r Hr) as (Hle & since & Hf & Hd).
        split; [rewrite length_app; lia|]. exists since. split; [done|].
        by rewrite Hd, (Hdrop id r Hr), app_nil_r. }
  destruct (IH (tr ++ [x]) _ Hg1 Hok1) as [Hok2 Hg2]. rewrite <-app_assoc in Hok2.
  assert (stream_send (omap f l) (stream_send (omap f [x]) {| st_channel := c; st_readers := rs |})
          = stream_send (omap f (x :: l)) {| st_channel := c; st_readers := rs |}) as Heq.
  { unfold stream_send. simpl. by destruct (f x). }
  by rewrite <-Heq.
Qed.

Lemma stream_close_ok {X} (f : X → option A) tr st :
  stream_ok f tr st → stream_ok f tr (stream_close st).
Proof.
  intros [Hc Hrs]. destruct (drop_bsender_spec (st_channel st)) as (Hs & Hk & Hn & Hg).
  split; simpl; [by rewrite Hn|]. intros id r Hr. destruct (Hrs id r Hr) as (Ht & since & [Ha Hp Hre _] & Hd).
  split; [done|]. exists since. rewrite Hs. split; [|done]. split; rewrite ?Hs, ?Hk; try done.
  by rewrite Hg.
Qed.

(** What every handle of a stream knows, when the node has done [tr]: of the
    events since the handle was made, those it has read, those it was told it
    has lost, and a rest, which [events_is_empty] and [next_event] are about. *)
Definition informed {X} (f : X → option A) (tr : list X) (st : Stream H A) : Prop :=
  ∀ id r, st_readers st !! id = Some r →
  let keep := retained (st_channel st) in
  ∃ rest, reads keep (rd_log r) (omap f (drop (rd_since r) tr)) rest ∧
    (h_is_empty (rd_handle r) (st_channel st) = true ↔ rest = []) ∧
    match (h_next (rd_handle r) (st_channel st)).2 with
    | Some (Ok a) => head rest = Some a ∧ (length rest ≤ keep)%nat
    | Some (Err (Lagged n)) => (keep < length rest)%nat ∧ n = (length rest - keep)%nat
    | Some (Err RecvClosed) => rest = [] ∧ sender_gone (st_channel st) = true
    | None => rest = [] ∧ sender_gone (st_channel st) = false
    end.

Lemma stream_informed {X} (f : X → option A) tr st : stream_ok f tr st → informed f tr st.
Proof.
  intros [_ Hrs] id r Hr keep. destruct (Hrs id r Hr) as (_ & since & [Hs Hp Hre Ho] & Hd).
  exists (drop (place (h_events (rd_handle r))) (sent (st_channel st))). rewrite <-Hd. split; [done|]. split.
  - rewrite h_is_empty_spec, bis_empty_spec by done. split.
    + intros ->. apply drop_all.
    + intros Hn%(f_equal length). rewrite length_drop in Hn. simpl in Hn. lia.
  - pose proof (h_next_spec (rd_handle r) (st_channel st)) as Hh.
    destruct (h_next (rd_handle r) (st_channel st)) as [[c' h] o].
    pose proof (brecv_spec (h_events (rd_handle r)) (st_channel st)) as Hb. rewrite Hh in Hb.
    destruct Hb as [_ Hb]. simpl. destruct (decide _) as [Hlag|Hkeep].
    + destruct Hb as [Hp' ->]. rewrite length_drop. unfold keep. split; lia.
    + destruct (sent _ !! place _) as [a|] eqn:Ha.
      * destruct Hb as [_ ->]. rewrite (drop_S _ _ _ Ha). split; [done|].
        simpl. rewrite length_drop. pose proof (lookup_lt_Some _ _ _ Ha). unfold keep. lia.
      * destruct Hb as [_ ->]. apply lookup_ge_None in Ha. rewrite drop_ge by lia.
        by destruct (sender_gone _).
Qed.
End StreamProperties.

(** ** The node and its handles *)

Section Bus.
Context {P : Platform} {Q : Queue Multiaddr} {E : Env} {T : Tokio} {B : Broadcast}.
Import GossipHandle CommandHandle.

(** What goes into which channel. *)
Definition gossip_of (e : Effect) : option bytes :=
  match e with EGossipEvent data => Some data | _ => None end.
Definition command_event_of (e : Effect) : option CommandEvent :=
  match e with ECommandEvent addrs => Some addrs | _ => None end.
(** Of the effects [new] after [tr], the request/response events that found
    room in time ([send(..).await] under a timeout). *)
Fixpoint in_time (tr new : list Effect) : list ReqRespEvent :=
  match new with
  | [] => []
  | e :: new =>
      match e with
      | EReqRespEvent ev =>
          match req_resp_events_send tr ev with InTime (Ok _) => [ev] | _ => [] end
      | _ => []
      end ++ in_time (tr ++ [e]) new
  end.

Record Bus : Type := {
  bus_node : P2P;
  bus_alive : bool;
  gossip_stream : Stream GossipHandle bytes;
  command_stream : Stream CommandHandle CommandEvent;
  req_resp_events : mpsc ReqRespEvent;
  (* history: what the request/response handle has given *)
  req_resp_read : list ReqRespEvent
}.

Inductive BusOp : Type :=
  | OWake (w : Wakeup)
  | OGossip (id : nat) (op : HandleOp)
  | OCommand (id : nat) (op : HandleOp)
  | OReqResp.

Definition new_effects (w : Wakeup) (s : P2P) : list Effect :=
  drop (length (trace s)) (trace (wake w s).1).
Definition goes_on (w : Wakeup) (o : outcome SwarmError unit) : bool :=
  match w, o with WCancel, _ => false | _, Done _ => true | _, _ => false end.
Definition close_unless {H A} (alive : bool) (st : Stream H A) : Stream H A :=
  if alive then st else stream_close st.

(** An iteration of [listen] sends its events; when [listen] ends, the senders
    are dropped. *)
Definition bus_wake (w : Wakeup) (y : Bus) : Bus :=
  if bus_alive y then
    let alive := goes_on w (wake w (bus_node y)).2 in
    let new := new_effects w (bus_node y) in
    {| bus_node := (wake w (bus_node y)).1; bus_alive := alive;
       gossip_stream := close_unless alive (stream_send (omap gossip_of new) (gossip_stream y));
       command_stream := close_unless alive (stream_send (omap command_event_of new) (command_stream y));
       req_resp_events := foldl (λ c e, (try_send e c).1) (req_resp_events y)
                            (in_time (trace (bus_node y)) new);
       req_resp_read := req_resp_read y |}
  else y.

Definition bus_do (op : BusOp) (y : Bus) : Bus :=
  let t := length (trace (bus_node y)) in
  match op with
  | OWake w => bus_wake w y
  | OGossip id op =>
      Build_Bus (bus_node y) (bus_alive y) (stream_do t id op (gossip_stream y)) (command_stream y)
        (req_resp_events y) (req_resp_read y)
  | OCommand id op =>
      Build_Bus (bus_node y) (bus_alive y) (gossip_stream y) (stream_do t id op (command_stream y))
        (req_resp_events y) (req_resp_read y)
  | OReqResp =>
      let '(c, o) := ReqRespHandle.next_event (bus_alive y) (req_resp_events y) in
      Build_Bus (bus_node y) (bus_alive y) (gossip_stream y) (command_stream y) c
        (req_resp_read y ++ match o with Some (Some e) => [e] | _ => [] end)
  end.

(** An event that found room in time did find room. *)
Definition op_possible (op : BusOp) (y : Bus) : Prop :=
  match op with
  | OWake w =>
      let events := in_time (trace (bus_node y)) (new_effects w (bus_node y)) in
      events = [] ∨ (closed (req_resp_events y) = false ∧
        length (queued (req_resp_events y)) + length events ≤ capacity (req_resp_events y))%nat
  | _ => True
  end.

Inductive bus_run (y : Bus) : list BusOp → Bus → Prop :=
  | bus_start : bus_run y [] y
  | bus_next ops y1 op : bus_run y ops y1 → op_possible op y1 → bus_run y (ops ++ [op]) (bus_do op y1).

(** A node that has been made, with its channels, and no handle yet. *)
Definition new_bus (s : P2P) (gossip_size command_size req_resp_size : nat) : Bus := {|
  bus_node := s; bus_alive := true;
  gossip_stream := {| st_channel := broadcast_channel gossip_size; st_readers := ∅ |};
  command_stream := {| st_channel := broadcast_channel command_size; st_readers := ∅ |};
  req_resp_events := mpsc_channel req_resp_size; req_resp_read := [] |}.
End Bus.

Section BusProperties.
Context {P : Platform} {Q : Queue Multiaddr} {E : Env} {T : Tokio} {TL : TokioLaws T}
  {B : Broadcast} {BL : BroadcastLaws B}.

Lemma in_time_app tr l l' : in_time tr (l ++ l') = in_time tr l ++ in_time (tr ++ l) l'.
Proof.
  revert tr. induction l as [|e l IH]; intros tr; simpl; [by rewrite app_nil_r|].
  by rewrite IH, <-!app_assoc.
Qed.

Lemma new_effects_spec w s : trace (wake w s).1 = trace s ++ new_effects w s.
Proof.
  unfold new_effects. destruct (wi_trace _ _ _ (wake_within w s)) as (l & -> & _).
  by rewrite drop_app_length.
Qed.

Lemma try_send_all {A} (l : list A) (c : mpsc A) :
  l = [] ∨ (closed c = false ∧ length (queued c) + length l ≤ capacity c)%nat →
  queued (foldl (λ c e, (try_send e c).1) c l) = queued c ++ l.
Proof.
  intros [->|[Hc Hl]]; [by rewrite app_nil_r|].
  revert c Hc Hl. induction l as [|a l IH]; intros c Hc Hl; simpl in *; [by rewrite app_nil_r|].
  destruct (try_send_room a c Hc ltac:(lia)) as (c' & -> & Hq & Hcap & Hc'). simpl.
  rewrite IH; [by rewrite Hq, <-app_assoc|done|]. rewrite Hq, Hcap, length_app. simpl. lia.
Qed.

(** The invariant, relative to what the node had done at the start. *)
Record bus_ok (tr0 : list Effect) (y : Bus) : Prop := {
  bo_gossip : stream_ok gossip_of (trace (bus_node y)) (gossip_stream y);
  bo_command : stream_ok command_event_of (trace (bus_node y)) (command_stream y);
  bo_alive : sender_gone (st_channel (gossip_stream y)) = negb (bus_alive y) ∧
    sender_gone (st_channel (command_stream y)) = negb (bus_alive y);
  bo_req_resp : ∃ new, trace (bus_node y) = tr0 ++ new ∧
    req_resp_read y ++ queued (req_resp_events y) = in_time tr0 new
}.

Lemma send_close_ok {H A} {HA : EventHandle H A} (f : Effect → option A) tr l alive (st : Stream H A) :
  sender_gone (st_channel st) = false → stream_ok f tr st →
  let st' := close_unless alive (stream_send (omap f l) st) in
  stream_ok f (tr ++ l) st' ∧ sender_gone (st_channel st') = negb alive.
Proof.
  intros Hg Hok. destruct (stream_send_ok f tr l st Hg Hok) as [Hok' Hg'].
  destruct alive; simpl; [done|]. split; [by apply stream_close_ok|]. apply drop_bsender_spec.
Qed.

Lemma stream_do_gone {H A} {HA : EventHandle H A} t id op (st : Stream H A) :
  sender_gone (st_channel (stream_do t id op st)) = sender_gone (st_channel st).
Proof.
  destruct st as [c rs]. unfold stream_do.
  destruct op as [| |to|], (rs !! id) as [r|]; try done; simpl.
  - pose proof (h_new_spec (H:=H) (A:=A) c) as Hh. destruct (h_new c) as [c' h].
    pose proof (subscribe_spec c) as Hs. rewrite Hh in Hs. apply Hs.
  - pose proof (h_next_spec (rd_handle r) c) as Hh. destruct (h_next (rd_handle r) c) as [[c' h] o].
    pose proof (brecv_spec (h_events (rd_handle r)) c) as Hs. rewrite Hh in Hs. apply Hs.
  - destruct (rs !! to); [done|]. pose proof (h_clone_spec (rd_handle r) c) as Hh.
    destruct (h_clone (rd_handle r) c) as [c' h].
    pose proof (resubscribe_spec (h_events (rd_handle r)) c) as Hs. rewrite Hh in Hs. apply Hs.
  - apply (drop_breceiver_spec (h_events (rd_handle r)) c).
Qed.

Lemma bus_do_ok tr0 op y : op_possible op y → bus_ok tr0 y → bus_ok tr0 (bus_do op y).
Proof.
  intros Hposs Hok. pose proof Hok as [Hg Hc [Ag Ac] (new & Ht & Hr)]. destruct op as [w|id op|id op|].
  - simpl. unfold bus_wake. destruct (bus_alive y) eqn:Ha; [|done].
    destruct (send_close_ok gossip_of _ (new_effects w (bus_node y))
                (goes_on w (wake w (bus_node y)).2) _ Ag Hg) as [Hg' Ag'].
    destruct (send_close_ok command_event_of _ (new_effects w (bus_node y))
                (goes_on w (wake w (bus_node y)).2) _ Ac Hc) as [Hc' Ac'].
    split; simpl; rewrite ?new_effects_spec; try done.
    exists (new ++ new_effects w (bus_node y)). rewrite Ht, <-app_assoc. split; [done|].
    rewrite try_send_all by (by rewrite <-Ht). by rewrite in_time_app, app_assoc, Hr.
  - split; simpl; try done; [by apply stream_do_ok|by rewrite stream_do_gone|by exists new].
  - split; simpl; try done; [by apply stream_do_ok|by rewrite stream_do_gone|by exists new].
  - simpl. destruct (ReqRespHandle.next_event _ _) as [c o] eqn:Hn. split; simpl; try done.
    exists new. split; [done|]. rewrite <-Hr. unfold ReqRespHandle.next_event in Hn.
    destruct (queued (req_resp_events y)) as [|e l] eqn:Hq.
    + rewrite try_recv_nil in Hn by done. injection Hn as <- <-. rewrite Hq.
      by destruct (bus_alive y); rewrite !app_nil_r.
    + destruct (try_recv_cons e l _ Hq) as (c' & Hrecv & Hq' & _). rewrite Hrecv in Hn.
      injection Hn as <- <-. by rewrite Hq', <-app_assoc.
Qed.

(** C15. The application learns what the node tells it.  In any run of a new node,
    whose handles are made, cloned, read and dropped in any order, every gossip
    handle and every command handle has been given, in the order in which the
    node sent them and once each, the events sent since the handle was made,
    but for those it was told it has lost (at most as many as were unread beyond
    the channel's size) and those it can still read; it is empty exactly when
    there are none of these, and then [next_event] waits while the node lives
    and reports the end afterwards.  A clone starts from its making: what its
    original has not read yet it never gets.  Requests and responses are given
    to their one handle in order, each that found room in time, and no other. *)
Theorem events_reach_handles s gossip_size command_size req_resp_size ops y :
  (0 < gossip_size)%nat → (0 < command_size)%nat →
  bus_run (new_bus s gossip_size command_size req_resp_size) ops y →
  informed gossip_of (trace (bus_node y)) (gossip_stream y) ∧
  informed command_event_of (trace (bus_node y)) (command_stream y) ∧
  sender_gone (st_channel (gossip_stream y)) = negb (bus_alive y) ∧
  sender_gone (st_channel (command_stream y)) = negb (bus_alive y) ∧
  ∃ new, trace (bus_node y) = trace s ++ new ∧
    req_resp_read y ++ queued (req_resp_events y) = in_time (trace s) new.
Proof.
  intros Hg Hc Hrun. enough (bus_ok (trace s) y) as [? ? [] ?]
    by (split_and!; auto using stream_informed).
  induction Hrun as [|ops y op _ IH Hposs]; [|by apply bus_do_ok].
  destruct (bchannel_new (A:=bytes) gossip_size Hg) as (_ & _ & Rg & Gg).
  destruct (bchannel_new (A:=CommandHandle.CommandEvent) command_size Hc) as (_ & _ & Rc & Gc).
  split; simpl; try done.
  exists []. by rewrite app_nil_r, queued_channel.
Qed.
End BusProperties.

(** ** Example: two messages, a channel that keeps one, and a late clone *)

Section EventsExample.
#[local] Existing Instances Toy.platform Toy.platform_laws ToyNode.queue_inst ListTokio.tokio
  ListTokio.tokio_laws ListBroadcast.broadcast ListBroadcast.broadcast_laws.
#[local] Instance events_env : Env := ToyNode.env true.

Definition bus_payload (b : Byte.byte) : GossipMessage :=
  {| g_version := GossipV2; g_protocol := Gossip; g_message := [b];
     g_public_key := 3%nat : PublicKey; g_date := 900 |}.
Definition bus_message (b : Byte.byte) : BusOp :=
  OWake (WSwarm (SwarmBehaviour (BGossipsub (GossipMessageEvent (107%nat : PeerId) (1%nat : MessageId)
    (ToyNode.signed_bytes (bus_payload b)))))).
Definition bus_ops : list BusOp :=
  [OGossip 0 HNew; bus_message Byte.x01; bus_message Byte.x02; OGossip 0 (HClone 1);
   OGossip 0 HNext; OGossip 0 HNext].
Definition bus_end : Bus := foldl (λ y op, bus_do op y) (new_bus ToyNode.node 1 1 1) bus_ops.

Lemma bus_end_run : bus_run (new_bus ToyNode.node 1 1 1) bus_ops bus_end.
Proof.
  assert (∀ ops y y', bus_run y ops y' → ∀ op, op_possible op y' → bus_run y (ops ++ [op]) (bus_do op y'))
    as Hstep by (intros; by constructor).
  apply (Hstep [_; _; _; _; _]); [apply (Hstep [_; _; _; _])|]; [apply (Hstep [_; _; _])| |];
    [apply (Hstep [_; _])| | |]; [apply (Hstep [_])| | | |]; [apply (Hstep [])| | | | |];
    [apply bus_start|exact I|left; vm_compute; reflexivity|left; vm_compute; reflexivity|exact I..].
Qed.

(** The first handle has lost the first message and read the second, the clone
    has nothing to read. *)
Lemma events_reach_handles_witness :
  (∃ r, st_readers (gossip_stream bus_end) !! 0%nat = Some r ∧
        rd_log r = [Err (Lagged 1); Ok [Byte.x02]] ∧
        reads 1 (rd_log r) [[Byte.x01]; [Byte.x02]] []) ∧
  (∃ r, st_readers (gossip_stream bus_end) !! 1%nat = Some r ∧ reads 1 (rd_log r) [] []).
Proof.
  destruct (events_reach_handles ToyNode.node 1 1 1 bus_ops bus_end (le_n 1) (le_n 1) bus_end_run)
    as [Hi _].
  assert (∀ id log since rest, option_map (λ r, (rd_log r, rd_since r)) (st_readers (gossip_stream bus_end) !! id)
      = Some (log, since) →
    omap gossip_of (drop since (trace (bus_node bus_end))) = rest →
    length rest = (length (events_read log) + events_lost log)%nat →
    ∃ r, st_readers (gossip_stream bus_end) !! id = Some r ∧ rd_log r = log ∧ reads 1 (rd_log r) rest [])
    as Hread.
  { intros id log since rest Hr Hrest Hlen.
    destruct (st_readers (gossip_stream bus_end) !! id) as [r|] eqn:Hid; [|discriminate Hr].
    injection Hr as Hl Hs. exists r. split; [reflexivity|]. split; [exact Hl|].
    destruct (Hi id r Hid) as (unread & Hreads & _). rewrite Hs, Hrest in Hreads.
    pose proof (reads_count _ _ _ _ Hreads) as Hcount. rewrite Hl, Hlen in Hcount.
    destruct unread as [|a unread]; [exact Hreads|simpl in Hcount; lia]. }
  split.
  - apply (Hread 0%nat _ 0%nat); vm_compute; reflexivity.
  - destruct (Hread 1%nat [] 4%nat []) as (r & Hr & _ & Hreads); [vm_compute; reflexivity..|].
    exists r. split; [exact Hr|exact Hreads].
Defined.
End EventsExample.
