(* ===== verification/Provenance.v ===== *)
(** * Provenance: where what a node says comes from

    For every effect by which a node passes something on (to its application,
    to a peer or to the DHT), the input that is its reason: [cause] below.
    [Network] builds on it. *)

From Stdlib Require Import Init.Byte.
From S2P Require Import Prelude Time Float64 Platform Message Scores Validator Errors Setup Config Dial Node Scoring Gossip ReqResp Kad Conn Commands Listen Footprint.
Open Scope Z_scope.

Section Provenance.
Context {P : Platform} {Q : Queue Multiaddr} {E : Env}.

(** The effects that carry somebody's words. *)
Definition speaks (e : Effect) : bool :=
  match e with
  | EGossipEvent _ | EReqRespEvent _ | EPublish _ _ | ESendRequest _ _ | ESendResponse _ _
  | EPutRecord _ _ | EStorePut _ _ | ECommandEvent (Some _) => true
  | _ => false
  end.

(** [raw] decodes to an envelope with a verifying signature. *)
Definition signed_as {A} `{Serde A} `{!HasPublicKey A} (raw : bytes) (m : A) : Prop :=
  ∃ sm : SignedMessage A, from_slice raw = Some sm ∧ verify sm = Ok true ∧ message sm = m.
(** [raw] is the encoding of an envelope around [m]. *)
Definition carries {A} `{Serde A} (raw : bytes) (m : A) : Prop :=
  ∃ sm : SignedMessage A, to_vec sm = Some raw ∧ message sm = m.

(** The reason for effect [e] when input [w] finds the node in state [s]. *)
Definition cause (w : Wakeup) (s : P2P) (e : Effect) : Prop :=
  match e with
  | EGossipEvent data => ∃ src mid raw m,
      w = WSwarm (SwarmBehaviour (BGossipsub (GossipMessageEvent src mid raw))) ∧
      signed_as raw m ∧ g_message m = data ∧ (byos = true → g_public_key m ∈ app_allowlist s)
  | EReqRespEvent (ReceivedRequest data) => ∃ p raw ch m,
      w = WSwarm (SwarmBehaviour (BRequestResponse (RRMessage p (Request raw ch)))) ∧
      signed_as raw m ∧ rq_message m = data ∧ rq_destination_peer_id m = local_peer_id ∧
      sender_ok s p (rq_public_key m)
  | EReqRespEvent (ReceivedResponse data) => ∃ p raw m,
      w = WSwarm (SwarmBehaviour (BRequestResponse (RRMessage p (Response raw)))) ∧
      signed_as raw m ∧ rs_message m = data ∧ sender_ok s p (rs_app_public_key m)
  | EPublish _ raw => ∃ data m,
      w = WGossipCommand data ∧ carries raw m ∧ g_message m = data ∧ g_public_key m = own_key s
  | ESendRequest p raw => ∃ cmd m,
      w = WReqRespCommand cmd ∧ carries raw m ∧ rq_message m = rrc_data cmd ∧
      rq_destination_peer_id m = p ∧ rq_public_key m = own_key s ∧
      target_peer_id (rrc_target cmd) (setup s) = Some p
  | ESendResponse ch raw => ∃ p request m tr req,
      w = WSwarm (SwarmBehaviour (BRequestResponse (RRMessage p (Request request ch)))) ∧
      carries raw m ∧ rs_app_public_key m = own_key s ∧
      EReqRespEvent (ReceivedRequest req) ∈ tr ∧ response_recv tr req = InTime (Ok (rs_message m))
  | EPutRecord _ raw => ∃ m tr,
      w = WRepublish ∧ carries raw m ∧ rd_multiaddresses m = external_addresses tr ∧
      rd_public_key m = own_key s
  | EStorePut key raw => ∃ m,
      w = WSwarm (SwarmBehaviour (BKademlia (InboundPutRecord (Some (Build_KadRecord key raw))))) ∧
      signed_as raw m ∧ key_matches key (rd_public_key m) = true
  | ECommandEvent (Some addrs) => ∃ id r l sm,
      w = WSwarm (SwarmBehaviour (BKademlia (OutboundQueryProgressed id r))) ∧
      kademlia_map_received_records s !! id = Some l ∧ sm ∈ l ∧
      rd_multiaddresses (message sm) = addrs
  | _ => True
  end.

(** The records of lookup [id] after [w]: those before, and what was found. *)
Definition known_record (w : Wakeup) (s : P2P) (id : QueryId) (sm : SignedRecord) : Prop :=
  (∃ l, kademlia_map_received_records s !! id = Some l ∧ sm ∈ l) ∨
  ∃ r, w = WSwarm (SwarmBehaviour (BKademlia (OutboundQueryProgressed id (GetRecordFound r)))) ∧
    from_slice (kr_value r) = Some sm ∧ verify sm = Ok true ∧
    key_matches (kr_key r) (rd_public_key (message sm)) = true.

(** ** The invariant of one handler *)

Section Handler.
Context (w : Wakeup) (s0 : P2P).

Definition caused (e : Effect) : Prop := e ∈ trace s0 ∨ cause w s0 e.

Record grounded (s : P2P) : Prop := {
  gr_allowlist : app_allowlist s = app_allowlist s0;
  gr_own_key : own_key s = own_key s0;
  gr_transport : transport_ids (setup s) = transport_ids (setup s0);
  gr_keys : app_public_keys (setup s) = app_public_keys (setup s0);
  gr_identity : sb_app_public_key (setup s) = sb_app_public_key (setup s0) ∧
    sb_local_transport_id (setup s) = sb_local_transport_id (setup s0);
  gr_trace : Forall caused (trace s);
  gr_records : ∀ id l sm, kademlia_map_received_records s !! id = Some l → sm ∈ l →
    known_record w s0 id sm
}.

Lemma grounded_start : grounded s0.
Proof.
  split; try done; [apply Forall_forall; intros e He; by left|].
  intros id l sm Hl Hsm. left. eauto.
Qed.

Lemma caused_quiet e : speaks e = false → caused e.
Proof. intros He. right. by destruct e as [| | | | | | | | | |[]| | | | |[]| | | |]. Qed.

Lemma gr_emit e : cause w s0 e → yields grounded (emit e) (λ _, True).
Proof.
  intros He. apply yld_modS. intros s []. split; try done. simpl.
  apply Forall_app. split; [done|]. constructor; [by right|done].
Qed.

(** What does not speak and keeps the tables. *)
Lemma gr_within {A} F (m : M A) :
  moves (within F) m → may_setup F = false → may_records F = false →
  (∀ e, may_emit F e = true → speaks e = false) → yields grounded m (λ _, True).
Proof.
  intros Hm Hsetup Hrec He s []. split; [|done]. specialize (Hm s).
  split.
  - by rewrite (wi_allowlist _ _ _ Hm).
  - by rewrite (within_own_key _ _ _ Hm).
  - by rewrite (wi_setup _ _ _ Hm).
  - by rewrite (wi_setup _ _ _ Hm).
  - by rewrite (wi_setup _ _ _ Hm).
  - destruct (wi_trace _ _ _ Hm) as (l & -> & Hl). apply Forall_app. split; [done|].
    eapply Forall_impl; [exact Hl|]. intros e Hem. by apply caused_quiet, He.
  - rewrite (wi_records _ _ _ Hm) by done. done.
Qed.

(** The same as one footprint. *)
Definition quiet : Footprint := {|
  may_config := true; may_dial := true; may_setup := false; may_scores := true;
  may_penalties := true; may_records := false; may_first_time := true;
  may_emit e := negb (speaks e) |}.
Lemma gr_quiet {A} (m : M A) : moves (within quiet) m → yields grounded m (λ _, True).
Proof. intros Hm. eapply gr_within; [exact Hm|done..|]. intros e He. by apply negb_true_iff. Qed.

Lemma gr_or_panic {A} (o : option A) : yields grounded (or_panic o) (λ a, o = Some a).
Proof. destruct o; simpl; [|apply yld_panic]. intros s Hs. split; [done|]. by intros b [= <-]. Qed.
Lemma gr_own_public_key : yields grounded own_public_key (λ k, k = own_key s0).
Proof. intros s Hs. split; [done|]. intros k [= <-]. apply Hs. Qed.
Lemma gr_allowlist_read : yields grounded (getsS app_allowlist : M _) (λ l, l = app_allowlist s0).
Proof. intros s Hs. split; [done|]. intros k [= <-]. apply Hs. Qed.
Lemma gr_ask {A} (f : list Effect → A) : yields grounded (ask f) (λ a, ∃ tr, a = f tr).
Proof. intros s Hs. split; [done|]. intros a [= <-]. by exists (trace s). Qed.
Lemma gr_setup_read {A} (f : SetupBehaviour → A) :
  (∀ sb, transport_ids sb = transport_ids (setup s0) → app_public_keys sb = app_public_keys (setup s0) →
         f sb = f (setup s0)) →
  yields grounded (getsS (λ s, f (setup s)) : M _) (λ a, a = f (setup s0)).
Proof. intros Hf s Hs. split; [done|]. intros a [= <-]. apply Hf; apply Hs. Qed.
Lemma gr_sender_allowed p key :
  yields grounded (sender_allowed p key) (λ b, b = true → sender_ok s0 p key).
Proof.
  intros s Hs. rewrite sender_allowed_run. split; [done|]. intros b [= <-] Hok Hb.
  apply bool_decide_eq_true in Hok. specialize (Hok Hb).
  unfold get_app_public_key_by_transport_id in *. by rewrite <-(gr_allowlist _ Hs), <-(gr_transport _ Hs).
Qed.
#[local] Hint Resolve gr_or_panic gr_own_public_key gr_allowlist_read gr_ask gr_sender_allowed : yields.
#[local] Hint Extern 4 (yields grounded _ (λ _, True)) => solve [apply gr_quiet; solve_moves] : yields.

(** ** Handlers that speak *)

Lemma signed_intro {A} `{Serde A} `{!HasPublicKey A} raw (sm : SignedMessage A) :
  from_slice raw = Some sm → verify sm = Ok true → signed_as raw (message sm).
Proof. intros. by exists sm. Qed.

Lemma carries_new {A} `{Serde A} `{!HasPublicKey A} (m : A) sg sm raw :
  SignedMessage_new m sg = Ok sm → to_vec sm = Some raw → carries raw m.
Proof.
  intros Hnew Hraw. exists sm. split; [done|]. unfold SignedMessage_new in Hnew.
  destruct (to_vec m); [|done]. destruct (signer_sign sg _); [|done]. by injection Hnew as <-.
Qed.

Lemma gr_accept_gossip src mid raw m :
  w = WSwarm (SwarmBehaviour (BGossipsub (GossipMessageEvent src mid raw))) →
  signed_as raw m → (byos = true → g_public_key m ∈ app_allowlist s0) →
  yields grounded (finish_gossip src mid (g_message m)) (λ _, True).
Proof.
  intros Hw Hm Hal. assert (yields grounded (emit (EGossipEvent (g_message m))) (λ _, True)) as He
    by (apply gr_emit; simpl; exists src, mid, raw, m; by split_and!).
  unfold finish_gossip, score_gossip, accept_gossip, report. solve_yields.
Qed.

Lemma gr_gossip src mid raw :
  w = WSwarm (SwarmBehaviour (BGossipsub (GossipMessageEvent src mid raw))) →
  yields grounded (handle_gossip_msg src mid raw) (λ _, True).
Proof.
  intros Hw.
  assert (∀ sm, from_slice raw = Some sm → yields grounded (handle_signed_gossip src mid sm) (λ _, True))
    as Hsigned; [|unfold handle_gossip_msg, decay_gossip_score, report; solve_yields].
  intros sm Hdec. unfold handle_signed_gossip, report. cbv zeta.
  destruct (verify_or_false sm) eqn:Hv; cbn [negb]; [|solve_yields].
  rewrite verify_or_false_spec in Hv. apply bool_decide_eq_true in Hv.
  eapply yld_bind; [apply gr_allowlist_read|]. intros _ ->.
  destruct (byos && _) eqn:Hal; [solve_yields|].
  assert (yields grounded (finish_gossip src mid (g_message (message sm))) (λ _, True)) as Hfin.
  { apply (gr_accept_gossip _ _ raw); [done|by apply signed_intro|]. intros Hb. rewrite Hb in Hal.
    by apply negb_false_iff, bool_decide_eq_true in Hal. }
  solve_yields.
Qed.

(** Signing and encoding, as every sender does it. *)
Lemma gr_signing {A} `{Serde A} `{!HasPublicKey A} (m : A) (k : SignedMessage A → M unit) :
  (∀ sm raw, to_vec sm = Some raw → carries raw m → yields grounded (k sm) (λ _, True)) →
  (∀ sm, to_vec sm = None → yields grounded (k sm) (λ _, True)) →
  yields grounded (sg ← getsS signer;
                   match SignedMessage_new m sg with Err _ => mret tt | Ok sm => k sm end) (λ _, True).
Proof.
  intros Hk Hnone. apply (yld_bind _ (λ _, True)); [solve_yields|]. intros sg _.
  destruct (SignedMessage_new m sg) as [sm|] eqn:Hsm; [|solve_yields].
  destruct (to_vec sm) as [raw|] eqn:Hraw; [|by apply Hnone].
  apply (Hk sm raw); [done|]. by eapply carries_new.
Qed.

(** The envelope of a sender: its key, then what [new] was given. *)
Ltac sender_envelope m :=
  eapply yld_bind; [apply gr_own_public_key|]; intros _ ->;
  eapply (yld_bind _ (λ _, True)); [solve_yields|]; intros ? _;
  eapply yld_bind; [apply gr_or_panic|];
  let Hm := fresh in intros m Hm;
  unfold GossipMessage_new, RequestMessage_new, ResponseMessage_new in Hm;
  destruct (get_timestamp _); [|done]; injection Hm as <-;
  apply gr_signing; [intros ? raw -> Hc|intros ? ->; solve_yields].

Lemma gr_gossip_command data :
  w = WGossipCommand data → yields grounded (handle_gossip_command data) (λ _, True).
Proof.
  intros Hw. unfold handle_gossip_command. sender_envelope m.
  apply (yld_bind _ (λ _, True)); [solve_yields|]. intros name _.
  apply gr_emit. eexists data, _. by split_and!.
Qed.

Lemma gr_request_command cmd :
  w = WReqRespCommand cmd → yields grounded (handle_request_response_command cmd) (λ _, True).
Proof.
  intros Hw. unfold handle_request_response_command.
  apply (yld_bind _ (λ sb, app_public_keys sb = app_public_keys (setup s0))).
  { intros s Hs. split; [done|]. intros sb [= <-]. apply Hs. }
  intros sb Hsb. destruct (target_peer_id (rrc_target cmd) sb) as [p|] eqn:Hp; [|solve_yields].
  sender_envelope m.
  apply (yld_bind _ (λ _, True)); [solve_yields|]. intros connected _.
  destruct (connected p); [|solve_yields].
  apply gr_emit. eexists cmd, _. split_and!; [done|exact Hc|done..|].
  unfold target_peer_id, get_transport_id_by_application_key in *. by rewrite <-Hsb.
Qed.

Lemma gr_send_event e : cause w s0 (EReqRespEvent e) →
  yields grounded (send_req_resp_event e) (λ _, True).
Proof. intros He. apply gr_emit in He. unfold send_req_resp_event. solve_yields. Qed.

Lemma gr_deliver p request ch m :
  w = WSwarm (SwarmBehaviour (BRequestResponse (RRMessage p (Request request ch)))) →
  signed_as request m → rq_destination_peer_id m = local_peer_id → sender_ok s0 p (rq_public_key m) →
  yields grounded (deliver_request ch (rq_message m)) (λ _, True).
Proof.
  intros Hw Hm Hd Hok s Hs. set (e := EReqRespEvent (ReceivedRequest (rq_message m))).
  assert (yields grounded (emit e) (λ _, True)) as [Hs' _]%(λ H, H s Hs)
    by (apply gr_emit; by exists p, request, ch, m).
  assert (∀ response, response_recv (trace s ++ [e]) (rq_message m) = InTime (Ok response) →
          yields grounded (send_signed_response ch response) (λ _, True)) as Hans.
  { intros response Hr. unfold send_signed_response. sender_envelope rm. apply gr_emit.
    eexists p, request, _, (trace s ++ [e]), (rq_message m).
    split_and!; [done|exact Hc|done|set_solver|done]. }
  unfold deliver_request, send_req_resp_event. rewrite bind_assoc. run_simpl. rewrite bind_assoc. run_simpl.
  fold e. destruct (req_resp_events_send _ _) as [[[]|]|]; [|done|];
    rewrite bind_ret_l, bind_ask; cbn [trace add_effect];
    (destruct (response_recv _ _) as [[response|]|] eqn:Hr; [|done..]; by apply (Hans response)).
Qed.

Lemma gr_request p request ch :
  w = WSwarm (SwarmBehaviour (BRequestResponse (RRMessage p (Request request ch)))) →
  yields grounded (handle_request p request ch) (λ _, True).
Proof.
  intros Hw. unfold handle_request. apply (yld_bind _ (λ _, True)); [unfold req_resp_muted; solve_yields|].
  intros [] _; [solve_yields|]. destruct (from_slice request) as [sm|] eqn:Hdec; [|solve_yields].
  destruct (verify sm) as [[]|] eqn:Hv; cbn [negb]; [|solve_yields..]. unfold check_request.
  destruct (bool_decide_reflect (rq_destination_peer_id (message sm) = local_peer_id)); cbn [negb];
    [|solve_yields].
  eapply yld_bind; [apply gr_sender_allowed|]. intros [] Hok; cbn [negb]; [|solve_yields].
  assert (yields grounded (deliver_request ch (rq_message (message sm))) (λ _, True)) as Hdel
    by (apply (gr_deliver p request); [done|by apply signed_intro|done|by apply Hok]).
  unfold score_req_resp, decay_request_response_score. solve_yields.
Qed.

Lemma gr_response p response :
  w = WSwarm (SwarmBehaviour (BRequestResponse (RRMessage p (Response response)))) →
  yields grounded (handle_response p response) (λ _, True).
Proof.
  intros Hw. unfold handle_response. apply (yld_bind _ (λ _, True)); [unfold req_resp_muted; solve_yields|].
  intros [] _; [solve_yields|]. destruct (bool_decide (response = [])); [solve_yields|].
  destruct (from_slice response) as [sm|] eqn:Hdec; [|solve_yields].
  destruct (verify sm) as [[]|] eqn:Hv; cbn [negb]; [|solve_yields..]. unfold check_response.
  eapply yld_bind; [apply gr_sender_allowed|]. intros [] Hok; cbn [negb]; [|solve_yields].
  assert (yields grounded (send_req_resp_event (ReceivedResponse (rs_message (message sm)))) (λ _, True))
    as Hdel.
  { apply gr_send_event. exists p, response, (message sm).
    split_and!; [done|by apply signed_intro|done|by apply Hok]. }
  unfold score_req_resp, decay_request_response_score. solve_yields.
Qed.

Lemma gr_own_record : w = WRepublish → yields grounded ask_kademlia_put_record (λ _, True).
Proof.
  intros Hw. unfold ask_kademlia_put_record.
  eapply yld_bind; [apply gr_own_public_key|]. intros _ ->.
  eapply yld_bind; [apply gr_ask|]. intros _ [tr ->].
  apply (yld_bind _ (λ _, True)); [solve_yields|]. intros t _.
  eapply yld_bind; [apply gr_or_panic|]. intros m Hm. unfold RecordData_new in Hm.
  destruct (get_timestamp t); [|done]. injection Hm as <-.
  apply gr_signing; [intros sm raw -> Hc|intros sm ->; apply (yld_bind _ (λ _, False)); [apply yld_panic|done]].
  eapply yld_bind; [apply gr_or_panic|]. intros _ [= <-]. apply gr_emit.
  eexists _, tr. by split_and!.
Qed.

Lemma gr_store r :
  w = WSwarm (SwarmBehaviour (BKademlia (InboundPutRecord r))) →
  yields grounded (handle_put_record r) (λ _, True).
Proof.
  intros Hw. unfold handle_put_record. destruct r as [[key raw]|]; [|solve_yields]. cbn [kr_key kr_value].
  destruct (from_slice raw) as [sm|] eqn:Hdec; [|solve_yields].
  destruct (verify (sm : SignedRecord)) as [[]|] eqn:Hv; cbn [negb]; [|solve_yields..].
  apply (yld_bind _ (λ _, True)); [unfold validate_record_date; solve_yields|]. intros dated _.
  destruct dated; [|solve_yields]. destruct (key_matches _ _) eqn:Hk; cbn [negb]; [|solve_yields].
  assert (yields grounded (emit (EStorePut key raw)) (λ _, True)) as Hput; [|solve_yields].
  apply gr_emit. exists (message sm). split_and!; [done|by apply signed_intro|done].
Qed.

Lemma gr_found id r :
  w = WSwarm (SwarmBehaviour (BKademlia (OutboundQueryProgressed id (GetRecordFound r)))) →
  yields grounded (handle_found_record id r) (λ _, True).
Proof.
  intros Hw. unfold handle_found_record. apply (yld_bind _ (λ _, True)); [solve_yields|]. intros m _.
  destruct (negb (bool_decide (is_Some (m !! id)))); [solve_yields|].
  destruct (from_slice (kr_value r)) as [sm|] eqn:Hdec; [|solve_yields].
  destruct (key_matches _ _) eqn:Hk; cbn [negb]; [|solve_yields].
  destruct (verify (sm : SignedRecord)) as [[]|] eqn:Hv; cbn [negb]; [|solve_yields..].
  apply (yld_bind _ (λ _, True)); [unfold validate_record_date; solve_yields|]. intros dated _.
  destruct dated; [|solve_yields]. apply yld_modS. intros s []. split; try done. simpl.
  intros id' l' sm' [(<- & l & Hl & ->)|[_ Hl]]%lookup_alter_Some Hsm; [|eauto].
  apply elem_of_app in Hsm as [Hsm| ->%list_elem_of_singleton]; [eauto|].
  right. by exists r.
Qed.

Lemma gr_finish id r :
  w = WSwarm (SwarmBehaviour (BKademlia (OutboundQueryProgressed id r))) →
  (∀ k, r ≠ GetRecordFound k) →
  yields grounded (finish_looking_for_dht_record id) (λ _, True).
Proof.
  intros Hw Hr. unfold finish_looking_for_dht_record.
  apply (yld_bind _ (λ m, ∀ l sm, m !! id = Some l → sm ∈ l → known_record w s0 id sm)).
  { intros s Hs. split; [done|]. intros m [= <-]. apply Hs. }
  intros m Hm. destruct (m !! id) as [l|] eqn:Hl; [|solve_yields].
  apply (yld_bind _ (λ _, True)).
  - destruct (max_by_date l) as [best|] eqn:Hbest; [|solve_yields].
    apply max_by_date_spec in Hbest as [Hin _]. apply gr_emit.
    destruct (Hm l best eq_refl Hin) as [(l0 & Hl0 & Hin0)|(k & Hk & _)]; [|simplify_eq; by destruct (Hr k)].
    by exists id, r, l0, best.
  - intros _ _. apply yld_modS. intros s []. split; try done. simpl.
    intros id' l' sm [_ Hl']%lookup_delete_Some. eauto.
Qed.

Lemma gr_lookup target : yields grounded (ask_kademlia_get_record target) (λ _, True).
Proof.
  unfold ask_kademlia_get_record. do 2 (apply (yld_bind _ (λ _, True)); [solve_yields|]; intros ? _).
  apply yld_modS. intros s []. split; try done. simpl.
  intros id l sm [[_ <-]|[_ Hl]]%lookup_insert_Some Hsm; [by apply not_elem_of_nil in Hsm|eauto].
Qed.

Lemma gr_setup_poll : yields grounded poll_setup (λ _, True).
Proof.
  unfold poll_setup. intros s Hs. run_simpl. destruct (behaviour_poll (setup s)) as [sb ev] eqn:Hp.
  run_simpl. assert (grounded (upd_setup (λ _, sb) s)) as Hs'.
  { unfold behaviour_poll in Hp. destruct Hs.
    destruct (vec_pop _) as [[]|]; injection Hp as <- <-; by split. }
  destruct ev as [ev|]; [|done].
  assert (yields grounded (handle_setup_event ev) (λ _, True)) as Hev
    by (destruct ev; simpl; solve_yields).
  by apply Hev.
Qed.

#[local] Hint Resolve gr_gossip gr_request gr_response gr_store gr_found gr_finish gr_lookup : yields.

Lemma gr_swarm_event e : w = WSwarm e → yields grounded (handle_swarm_event e) (λ _, True).
Proof.
  intros Hw. destruct e as [[e|e|e|e|p l|]|e|]; simpl; try solve [solve_yields].
  - destruct e; simpl; solve_yields.
  - destruct e as [p []| | |]; simpl; solve_yields.
  - destruct e; simpl; solve_yields.
  - destruct e as [r|id r| |]; simpl; [by apply gr_store| |solve_yields..].
    destruct r; simpl; solve [by apply gr_found|by eapply gr_finish|solve_yields].
  - apply gr_quiet. unfold handle_identify_received. solve_moves.
  - apply gr_quiet. destruct e; simpl; unfold handle_connection_established,
      handle_outgoing_connection_error, handle_connection_closed, dial_and_map; solve_moves.
Qed.

Lemma gr_command cmd : yields grounded (handle_command cmd) (λ _, True).
Proof.
  destruct cmd as [[]|[]|p|p [[]|] cb|[[]| |]|tg]; simpl; try apply gr_lookup; apply gr_quiet;
    unfold handle_connect_to_peer, connect_by_key, connect_by_id, dial_and_map,
      handle_disconnect_from_peer, handle_get_peer_score, handle_set_score, apply_action,
      apply_callback; solve_moves.
Qed.
End Handler.

(** Every effect has a cause, along with what else a wake-up keeps.  Only the
    input to the setup behaviour is left out: it emits nothing and changes the
    tables by [sb_step]. *)
Lemma wake_grounded w s : (∀ i, w ≠ WSetupInput i) → grounded w s (wake w s).1.
Proof.
  intros Hw. enough (yields (grounded w s) (wake w) (λ _, True)) as Hy
    by (apply Hy, grounded_start).
  destruct w as [|e|i| |cmd|data|cmd|]; simpl.
  - apply gr_quiet. solve_moves.
  - by apply gr_swarm_event.
  - by destruct (Hw i).
  - apply gr_setup_poll.
  - apply gr_command.
  - by apply gr_gossip_command.
  - by apply gr_request_command.
  - by apply gr_own_record.
Qed.
End Provenance.
