(* ===== verification/Network.v ===== *)
(** * A network of nodes

    The nodes of [I] run this crate, each with its own outside ([envs]).  A
    member is the node of [Listen] together with the setup handlers of its
    connections, which run beside it.  Everything else (the network, peers
    that do not run the crate, the DHT) is an adversary: it decides what arrives,
    when, from whom and how often, may send any bytes and sign with keys of its
    own; what it cannot do is produce a signature that verifies under a
    member's key over bytes that no member with that key has signed ([genuine]).

    [authenticity] says what every delivery then means. *)

From Stdlib Require Import Init.Byte.
From S2P Require Import Prelude Time Float64 Platform Message Scores Validator Errors Setup Config Dial Node Scoring Gossip ReqResp Kad Conn Commands Listen Footprint Provenance.
Open Scope Z_scope.

Section Network.
Context {P : Platform} {L : PlatformLaws P} {Q : Queue Multiaddr}.
Context {I : Type} `{EqDecision I} (envs : I → Env).

(** ** The machine *)

Record Member : Type := {
  loop : LoopState;
  (* the setup handlers of the connections, and whom each is to *)
  handlers : gmap ConnectionId (PeerId * SetupHandler);
  (* history: the setup messages made, the inputs of the loop *)
  offered : list SetupMessage;
  woken : list Wakeup
}.
Definition Net : Type := I → Member.

Definition node_of (m : Member) : P2P := loop_state (loop m).
Definition key (n : Net) (i : I) : PublicKey := own_key (E:=envs i) (node_of (n i)).
Definition transport (i : I) : PeerId := local_peer_id (Env:=envs i).
Definition done (n : Net) (i : I) : list Effect := trace (node_of (n i)).

(** A key of this network's members. *)
Definition held (n : Net) (k : PublicKey) : Prop := ∃ i, key n i = k.

(** What member [i] has signed. *)
Definition said (n : Net) (i : I) (x : Signable) : Prop :=
  match x with
  | EnvGossip m => ∃ t raw, EPublish t raw ∈ done n i ∧ carries raw m
  | EnvRequest m => ∃ p raw, ESendRequest p raw ∈ done n i ∧ carries raw m
  | EnvResponse m => ∃ ch raw, ESendResponse ch raw ∈ done n i ∧ carries raw m
  | EnvSetup m => m ∈ offered (n i)
  | EnvRecord m => ∃ k raw, EPutRecord k raw ∈ done n i ∧ carries raw m
  end.

(** The envelope is no forgery: if it verifies under a member's key, a member
    with that key has signed these very bytes, as whatever kind of message. *)
Definition genuine {A} `{Serde A} `{!HasPublicKey A} (n : Net) (sm : SignedMessage A) : Prop :=
  verify sm = Ok true → held n (public_key (message sm)) →
  ∃ i x, key n i = public_key (message sm) ∧ said n i x ∧ signed_part x = to_vec (message sm).
Definition genuine_bytes (A : Type) `{Serde A} `{!HasPublicKey A} (n : Net) (raw : bytes) : Prop :=
  ∀ sm : SignedMessage A, from_slice raw = Some sm → genuine n sm.

(** The inputs of a loop that carry envelopes. *)
Definition genuine_wakeup (n : Net) (w : Wakeup) : Prop :=
  match w with
  | WSwarm (SwarmBehaviour (BGossipsub (GossipMessageEvent _ _ raw))) =>
      genuine_bytes GossipMessage n raw
  | WSwarm (SwarmBehaviour (BRequestResponse (RRMessage _ (Request raw _)))) =>
      genuine_bytes RequestMessage n raw
  | WSwarm (SwarmBehaviour (BRequestResponse (RRMessage _ (Response raw)))) =>
      genuine_bytes ResponseMessage n raw
  | WSwarm (SwarmBehaviour (BKademlia (InboundPutRecord (Some r)))) =>
      genuine_bytes RecordData n (kr_value r)
  | WSwarm (SwarmBehaviour (BKademlia (OutboundQueryProgressed _ (GetRecordFound r)))) =>
      genuine_bytes RecordData n (kr_value r)
  | _ => True
  end.
Definition genuine_event (n : Net) (e : ConnectionEvent) : Prop :=
  match e with FullyNegotiatedInbound sm => genuine n sm | _ => True end.

(** The events of setup handlers come from the handlers of this machine. *)
Definition external (w : Wakeup) : Prop :=
  match w with WSetupInput (FromHandler _ _ _) => False | _ => True end.

Definition put (i : I) (m : Member) (n : Net) : Net := λ j, if decide (j = i) then m else n j.
Definition upd_loop (w : Wakeup) (l : LoopState) (m : Member) : Member :=
  {| loop := l; handlers := handlers m; offered := offered m; woken := woken m ++ [w] |}.
Definition upd_handlers (f : gmap ConnectionId (PeerId * SetupHandler) →
    gmap ConnectionId (PeerId * SetupHandler)) (m : Member) : Member :=
  {| loop := loop m; handlers := f (handlers m); offered := offered m; woken := woken m |}.
Definition upd_offered (o : option SetupMessage) (m : Member) : Member :=
  {| loop := loop m; handlers := handlers m;
     offered := offered m ++ match o with Some x => [x] | None => [] end; woken := woken m |}.

(** The message of an outbound substream ([upgrade_outbound]). *)
Definition setup_offer (t : Z) (up : OutboundSetupUpgrade) : option SetupMessage :=
  SetupMessage_new t (up_app_public_key up) (up_local_transport_id up) (up_remote_transport_id up).

Inductive net_step (n : Net) : Net → Prop :=
  (* an iteration of a member's loop *)
  | net_wake i w l :
      external w → genuine_wakeup n w → listen_step (E:=envs i) (loop (n i)) w l →
      net_step n (put i (upd_loop w l (n i)) n)
  (* a connection of a member: opened, and its events *)
  | net_open i c p h :
      handlers (n i) !! c = None →
      (h = handle_established_inbound_connection (setup (node_of (n i))) p ∨
       h = handle_established_outbound_connection (setup (node_of (n i))) p) →
      net_step n (put i (upd_handlers (insert c (p, h)) (n i)) n)
  | net_connection i c p h t e :
      handlers (n i) !! c = Some (p, h) → genuine_event n e →
      net_step n (put i (upd_handlers (insert c (p, on_connection_event t e h)) (n i)) n)
  (* a poll of a handler: it starts its side of the handshake ... *)
  | net_offer i c p h h' up t :
      handlers (n i) !! c = Some (p, h) → handler_poll h = (h', Some (OutboundSubstreamRequest up)) →
      net_step n (put i (upd_offered (setup_offer t up) (upd_handlers (insert c (p, h')) (n i))) n)
  (* ... or has an event for the behaviour *)
  | net_notify i c p h h' e l :
      handlers (n i) !! c = Some (p, h) → handler_poll h = (h', Some (NotifyBehaviour e)) →
      listen_step (E:=envs i) (loop (n i)) (WSetupInput (FromHandler p c e)) l →
      net_step n (put i (upd_loop (WSetupInput (FromHandler p c e)) l
                         (upd_handlers (insert c (p, h')) (n i))) n)
  | net_drop i c :
      net_step n (put i (upd_handlers (delete c) (n i)) n).

Inductive net_run (n : Net) : Net → Prop :=
  | net_start : net_run n n
  | net_next n1 n2 : net_run n n1 → net_step n1 n2 → net_run n n2.

(** Members that have been created and have not begun to listen. *)
Definition fresh_net (n : Net) : Prop := ∀ i,
  (∃ s, loop (n i) = Running s) ∧ handlers (n i) = ∅ ∧ offered (n i) = [] ∧
  Forall (λ e, speaks e = false) (done n i) ∧
  kademlia_map_received_records (node_of (n i)) = ∅ ∧
  (∃ sg age skew, setup (node_of (n i)) = SetupBehaviour_new (key n i) (transport i) sg age skew).

(** ** What deliveries mean *)

(** [data] reached member [b] as a gossip message under [k]'s signature. *)
Definition heard_gossip (n : Net) (b : I) (k : PublicKey) (data : bytes) : Prop :=
  ∃ src mid raw m, WSwarm (SwarmBehaviour (BGossipsub (GossipMessageEvent src mid raw))) ∈ woken (n b) ∧
    signed_as raw m ∧ g_message m = data ∧ g_public_key m = k.
Definition heard_request (n : Net) (b : I) (k : PublicKey) (data : bytes) : Prop :=
  ∃ p ch raw m, WSwarm (SwarmBehaviour (BRequestResponse (RRMessage p (Request raw ch)))) ∈ woken (n b) ∧
    signed_as raw m ∧ rq_message m = data ∧ rq_public_key m = k.
Definition heard_response (n : Net) (b : I) (k : PublicKey) (data : bytes) : Prop :=
  ∃ p raw m, WSwarm (SwarmBehaviour (BRequestResponse (RRMessage p (Response raw)))) ∈ woken (n b) ∧
    signed_as raw m ∧ rs_message m = data ∧ rs_app_public_key m = k.
(** A record listing [addrs] and filed under [k]'s name was found. *)
Definition found (n : Net) (b : I) (k : PublicKey) (addrs : list Multiaddr) : Prop :=
  ∃ id r m, WSwarm (SwarmBehaviour (BKademlia (OutboundQueryProgressed id (GetRecordFound r)))) ∈ woken (n b) ∧
    signed_as (kr_value r) m ∧ rd_multiaddresses m = addrs ∧ rd_public_key m = k ∧
    key_matches (E:=envs b) (kr_key r) k = true.

(** [byos] builds: on the allowlist. *)
Definition allowed (n : Net) (b : I) (k : PublicKey) : Prop :=
  byos (Env:=envs b) = true → k ∈ app_allowlist (node_of (n b)).

(** If [k] is a member's key, some member with that key did it. *)
Definition vouched (n : Net) (k : PublicKey) (did : I → Prop) : Prop :=
  held n k → ∃ i, key n i = k ∧ did i.
(** [p] is the transport of [k]'s holder, if that is a member. *)
Definition proved_at (n : Net) (k : PublicKey) (p : PeerId) : Prop :=
  vouched n k (λ i, transport i = p).

(** The target of a command is the transport [p]; given as a member's key, [p]
    is that member's. *)
Definition addressed (n : Net) (target : PeerTarget) (p : PeerId) : Prop :=
  match target with
  | TargetTransportId q => q = p
  | TargetAppPublicKey k => proved_at n k p
  end.

(** The application of [i] answered [data] to a request it was handed. *)
Definition answered (i : I) (data : bytes) : Prop :=
  ∃ tr req, EReqRespEvent (ReceivedRequest req) ∈ tr ∧
    response_recv (Env:=envs i) tr req = InTime (Ok data).

Definition published (n : Net) (i : I) (data : bytes) : Prop :=
  WGossipCommand data ∈ woken (n i).
Definition requested (n : Net) (i : I) (p : PeerId) (data : bytes) : Prop :=
  ∃ cmd, WReqRespCommand cmd ∈ woken (n i) ∧ rrc_data cmd = data ∧ addressed n (rrc_target cmd) p.
Definition reachable_at (n : Net) (i : I) (addrs : list Multiaddr) : Prop :=
  WRepublish ∈ woken (n i) ∧ ∃ tr, addrs = external_addresses (Env:=envs i) tr.


(** The meaning of one effect of member [b]: of what it passes on, and of what
    it sends. *)
Definition effect_ok (n : Net) (b : I) (e : Effect) : Prop :=
  match e with
  | EGossipEvent data => ∃ k, heard_gossip n b k data ∧ allowed n b k ∧
      vouched n k (λ i, published n i data)
  | EReqRespEvent (ReceivedRequest data) => ∃ k, heard_request n b k data ∧ allowed n b k ∧
      vouched n k (λ i, requested n i (transport b) data)
  | EReqRespEvent (ReceivedResponse data) => ∃ k, heard_response n b k data ∧ allowed n b k ∧
      vouched n k (λ i, answered i data)
  | ECommandEvent (Some addrs) => ∃ k, found n b k addrs ∧ vouched n k (λ i, reachable_at n i addrs)
  | EStorePut dht_key raw => ∃ m, signed_as raw m ∧
      key_matches (E:=envs b) dht_key (rd_public_key m) = true ∧
      vouched n (rd_public_key m) (λ i, reachable_at n i (rd_multiaddresses m))
  | EPublish _ raw => ∃ m, carries raw m ∧ published n b (g_message m)
  | ESendRequest p raw => ∃ m, carries raw m ∧ rq_destination_peer_id m = p ∧
      requested n b p (rq_message m)
  | ESendResponse _ raw => ∃ m, carries raw m ∧ answered b (rs_message m)
  | EPutRecord _ raw => ∃ m, carries raw m ∧ reachable_at n b (rd_multiaddresses m)
  | _ => True
  end.

(** ** The invariant *)

Record handler_ok (n : Net) (b : I) (p : PeerId) (h : SetupHandler) : Prop := {
  ho_local : Setup.local_transport_id h = transport b;
  ho_remote : remote_transport_id h = p;
  ho_upgrade : ∀ up, outbound_substream h = Some up →
    up_app_public_key up = key n b ∧ up_local_transport_id up = transport b;
  ho_pending : Forall (λ o, match o with
                            | NotifyBehaviour (HAppKeyReceived k) => proved_at n k p
                            | NotifyBehaviour _ => True
                            | OutboundSubstreamRequest _ => False
                            end) (pending_events h)
}.

Record member_ok (n : Net) (b : I) (m : Member) : Prop := {
  mo_effects : Forall (effect_ok n b) (trace (node_of m));
  mo_records : ∀ id l sm, kademlia_map_received_records (node_of m) !! id = Some l → sm ∈ l →
    found n b (rd_public_key (message sm)) (rd_multiaddresses (message sm)) ∧
    vouched n (rd_public_key (message sm)) (λ i, reachable_at n i (rd_multiaddresses (message sm)));
  mo_identity : sb_app_public_key (setup (node_of m)) = key n b ∧
    sb_local_transport_id (setup (node_of m)) = transport b;
  mo_transport : ∀ p k, transport_ids (setup (node_of m)) !! p = Some k → proved_at n k p;
  mo_keys : ∀ k p, app_public_keys (setup (node_of m)) !! k = Some p → proved_at n k p;
  mo_handlers : ∀ c p h, handlers m !! c = Some (p, h) → handler_ok n b p h;
  mo_offered : ∀ o, o ∈ offered m → st_local_transport_id o = transport b
}.

(** Along a step keys and allowlists stay, and history grows. *)
Definition net_le (n n' : Net) : Prop := ∀ i,
  key n' i = key n i ∧ app_allowlist (node_of (n' i)) = app_allowlist (node_of (n i)) ∧
  (∀ w, w ∈ woken (n i) → w ∈ woken (n' i)).

Section Monotone.
Context (n n' : Net) (Hle : net_le n n').

Lemma held_le k : held n' k ↔ held n k.
Proof. split; intros [i <-]; exists i; by rewrite (proj1 (Hle i)). Qed.
Lemma vouched_le k (did did' : I → Prop) :
  (∀ i, did i → did' i) → vouched n k did → vouched n' k did'.
Proof.
  intros Hd Hv Hk%held_le. destruct (Hv Hk) as (i & <- & Hi). exists i.
  split; [apply (Hle i)|by apply Hd].
Qed.
Lemma woken_le i w : w ∈ woken (n i) → w ∈ woken (n' i).
Proof. apply Hle. Qed.
Lemma published_le i data : published n i data → published n' i data.
Proof. apply woken_le. Qed.
Lemma requested_le i p data : requested n i p data → requested n' i p data.
Proof.
  intros (cmd & Hc & Hd & Ha). exists cmd. split_and!; [by apply woken_le|done|].
  unfold addressed in *. destruct (rrc_target cmd); [|done]. by eapply vouched_le, Ha.
Qed.
Lemma reachable_le i addrs : reachable_at n i addrs → reachable_at n' i addrs.
Proof. intros [? ?]. split; [by apply woken_le|done]. Qed.
Lemma proved_le k p : proved_at n k p → proved_at n' k p.
Proof. by apply vouched_le. Qed.
Lemma allowed_le b k : allowed n b k → allowed n' b k.
Proof. unfold allowed. by rewrite (proj1 (proj2 (Hle b))). Qed.
Lemma found_le b k addrs : found n b k addrs → found n' b k addrs.
Proof. intros (id & r & m & ? & ?). exists id, r, m. split; [by apply woken_le|done]. Qed.

#[local] Hint Resolve published_le requested_le reachable_le allowed_le found_le woken_le : core.
Lemma effect_ok_le b e : effect_ok n b e → effect_ok n' b e.
Proof.
  destruct e as [| | | | | | | | | |[]| | | | |[]| | | |]; simpl; try done.
  - intros (m & ? & ?). eauto.
  - intros (k & (src & mid & raw & m & ? & ?) & ? & Hv). exists k.
    split_and!; [exists src, mid, raw, m; eauto|auto|]. eapply vouched_le, Hv. auto.
  - intros (m & ? & ? & ?). eauto.
  - intros (k & (q & ch & raw & m & ? & ?) & ? & Hv). exists k.
    split_and!; [exists q, ch, raw, m; eauto|auto|]. eapply vouched_le, Hv. auto.
  - intros (k & (q & raw & m & ? & ?) & ? & Hv). exists k.
    split_and!; [exists q, raw, m; eauto|auto|]. by eapply vouched_le, Hv.
  - intros (m & ? & ?). eauto.
  - intros (m & ? & ? & Hv). exists m. split_and!; [done..|]. eapply vouched_le, Hv. auto.
  - intros (k & ? & Hv). exists k. split; [auto|]. eapply vouched_le, Hv. auto.
Qed.

Lemma handler_ok_le b p h : handler_ok n b p h → handler_ok n' b p h.
Proof.
  intros [? ? Hup Hp]. split; [done..| |].
  - intros up Hu. destruct (Hup up Hu). by rewrite (proj1 (Hle b)).
  - eapply Forall_impl; [exact Hp|]. intros [|[]]; simpl; auto using proved_le.
Qed.

Lemma member_ok_le b m : member_ok n b m → member_ok n' b m.
Proof.
  intros [He Hr [Hk Ht] ? ? ? ?]. split; eauto using proved_le, handler_ok_le.
  - eapply Forall_impl; [exact He|]. apply effect_ok_le.
  - intros id l sm Hl Hsm. destruct (Hr id l sm Hl Hsm). split; [auto|].
    eapply vouched_le; [|done]. auto.
  - by rewrite (proj1 (Hle b)).
Qed.
End Monotone.

Lemma put_eq i m n : put i m n i = m.
Proof. unfold put. by rewrite decide_True. Qed.
Lemma put_ne i j m n : j ≠ i → put i m n j = n j.
Proof. intros. unfold put. by rewrite decide_False. Qed.

Definition net_ok (n : Net) : Prop := ∀ b, member_ok n b (n b).

(** A step that moves one member. *)
Lemma net_ok_put n i m :
  net_ok n → net_le n (put i m n) → member_ok (put i m n) i m → net_ok (put i m n).
Proof.
  intros Hn Hle Hm b. destruct (decide (b = i)) as [->|Hb]; [by rewrite put_eq|].
  rewrite (put_ne i b) by done. by eapply member_ok_le.
Qed.
Lemma net_le_put n i m :
  own_key (E:=envs i) (node_of m) = key n i →
  app_allowlist (node_of m) = app_allowlist (node_of (n i)) →
  (∀ w, w ∈ woken (n i) → w ∈ woken m) → net_le n (put i m n).
Proof.
  intros Hk Ha Hw j. destruct (decide (j = i)) as [->|Hj].
  - unfold key at 1. by rewrite !put_eq.
  - unfold key. by rewrite !put_ne.
Qed.

(** ** A genuine envelope was said by its author, and had a reason *)

Lemma carries_same {A} `{Serde A} `{!Inj (=) (=) (serialize (A:=A))} raw (m m' : A) :
  carries raw m → carries raw m' → m = m'.
Proof. intros (sm & Hs & <-) (sm' & Hs' & <-). by apply (same_message sm sm' raw). Qed.

Lemma genuine_vouched {A} `{Serde A} `{!HasPublicKey A} (wrap : A → Signable) n (sm : SignedMessage A) :
  (∀ m, signed_part (wrap m) = to_vec m) → genuine n sm → verify sm = Ok true →
  vouched n (public_key (message sm)) (λ i, said n i (wrap (message sm))).
Proof.
  intros Hwrap Hg Hv Hk. destruct (Hg Hv Hk) as (i & x & Hi & Hx & Hb). exists i. split; [done|].
  unfold verify in Hv. destruct (to_vec (message sm)) as [b|] eqn:Hraw; [|done].
  rewrite <-(Hwrap (message sm)) in Hraw. rewrite signed_part_eq in Hb, Hraw.
  apply fb_from_to_slice in Hb, Hraw. rewrite Hb in Hraw. injection Hraw as Hraw.
  by apply (inj signable_serde) in Hraw as ->.
Qed.

Lemma genuine_bytes_vouched {A} `{Serde A} `{!HasPublicKey A} (wrap : A → Signable) n raw (m : A) :
  (∀ m, signed_part (wrap m) = to_vec m) → genuine_bytes A n raw → signed_as raw m →
  vouched n (public_key m) (λ i, said n i (wrap m)).
Proof.
  intros Hwrap Hg (sm & Hdec & Hv & <-). apply genuine_vouched; [done|by apply Hg|done].
Qed.

Section Said.
Context (n : Net) (Hok : net_ok n).

Lemma effect_was_ok i e : e ∈ done n i → effect_ok n i e.
Proof. pose proof (mo_effects _ _ _ (Hok i)) as He. rewrite Forall_forall in He. apply He. Qed.

Lemma said_gossip i m : said n i (EnvGossip m) → published n i (g_message m).
Proof.
  intros (t & raw & He & Hc). destruct (effect_was_ok i _ He) as (m' & Hc' & ?).
  by rewrite (carries_same _ _ _ Hc Hc').
Qed.
Lemma said_request i m :
  said n i (EnvRequest m) → requested n i (rq_destination_peer_id m) (rq_message m).
Proof.
  intros (t & raw & He & Hc). destruct (effect_was_ok i _ He) as (m' & Hc' & <- & ?).
  by rewrite (carries_same _ _ _ Hc Hc').
Qed.
Lemma said_response i m : said n i (EnvResponse m) → answered i (rs_message m).
Proof.
  intros (t & raw & He & Hc). destruct (effect_was_ok i _ He) as (m' & Hc' & ?).
  by rewrite (carries_same _ _ _ Hc Hc').
Qed.
Lemma said_record i m : said n i (EnvRecord m) → reachable_at n i (rd_multiaddresses m).
Proof.
  intros (t & raw & He & Hc). destruct (effect_was_ok i _ He) as (m' & Hc' & ?).
  by rewrite (carries_same _ _ _ Hc Hc').
Qed.

Lemma vouched_mono k (did did' : I → Prop) :
  (∀ i, did i → did' i) → vouched n k did → vouched n k did'.
Proof. intros Hd Hv Hk. destruct (Hv Hk) as (i & ? & ?). eauto. Qed.

(** The outcome of a wake-up of [b] in state [s], as the larger net sees it. *)
Lemma cause_ok n' b w e :
  net_le n n' → w ∈ woken (n' b) → genuine_wakeup n w →
  cause (E:=envs b) w (node_of (n b)) e → effect_ok n' b e.
Proof.
  intros Hle Hw Hg Hc.
  assert (∀ k did did', vouched n k did → (∀ i, did i → did' i) → vouched n' k did') as Hvle
    by (intros k did did' Hv Hd; by eapply vouched_le).
  assert (∀ k, (byos (Env:=envs b) = true → k ∈ app_allowlist (node_of (n b))) → allowed n' b k) as Hal
    by (intros k Hk; by apply (allowed_le n)).
  destruct e as [| | | | | | | | | |[]| | | | |[]| | | |]; simpl in Hc |- *; try done.
  - destruct Hc as (data' & m & -> & Hca & <- & _). by exists m.
  - destruct Hc as (src & mid & raw & m & -> & Hm & <- & Ha). exists (g_public_key m).
    split_and!; [by exists src, mid, raw, m|by apply Hal|].
    eapply Hvle; [by refine (genuine_bytes_vouched EnvGossip n raw m _ Hg Hm)|].
    intros i Hi%said_gossip. by eapply published_le.
  - destruct Hc as (cmd & m & -> & Hca & Hd & <- & _ & Ht). exists m.
    split_and!; [done..|]. exists cmd. split_and!; [done..|]. unfold addressed, target_peer_id in *.
    destruct (rrc_target cmd) as [k|q]; [|by injection Ht].
    eapply proved_le; [done|]. by eapply mo_keys.
  - destruct Hc as (p & raw & ch & m & -> & Hm & <- & Hd & Hs). exists (rq_public_key m).
    split_and!; [by exists p, ch, raw, m|by apply Hal; intros Hb; apply (Hs Hb)|].
    eapply Hvle; [by refine (genuine_bytes_vouched EnvRequest n raw m _ Hg Hm)|].
    intros i Hi%said_request. rewrite Hd in Hi. by eapply requested_le.
  - destruct Hc as (p & raw & m & -> & Hm & <- & Hs). exists (rs_app_public_key m).
    split_and!; [by exists p, raw, m|by apply Hal; intros Hb; apply (Hs Hb)|].
    eapply Hvle; [by refine (genuine_bytes_vouched EnvResponse n raw m _ Hg Hm)|].
    intros i Hi%said_response. done.
  - destruct Hc as (p & request & m & tr & req & -> & Hca & _ & Hin & Hr).
    exists m. split; [done|]. by exists tr, req.
  - destruct Hc as (m & tr & -> & Hca & Ha & _). exists m. split; [done|]. split; [done|by exists tr].
  - destruct Hc as (m & -> & Hm & Hk). exists m. split_and!; [done..|].
    eapply Hvle; [by refine (genuine_bytes_vouched EnvRecord n value m _ Hg Hm)|].
    intros i Hi%said_record. by eapply reachable_le.
  - destruct Hc as (id & r & recs & sm & -> & Hl & Hin & <-).
    destruct (mo_records _ _ _ (Hok b) id recs sm Hl Hin) as [Hf Hv].
    exists (rd_public_key (message sm)). split; [by eapply found_le|].
    eapply Hvle; [done|]. intros i. by apply reachable_le.
Qed.
End Said.

(** ** Every step keeps the invariant *)

Lemma listen_step_wake {E : Env} l w l' :
  listen_step l w l' → loop_state l' = (wake w (loop_state l)).1.
Proof. by intros [|? ? ? _ Hw|? ? ? ? _ Hw|? ? ? _ Hw]; simpl; try rewrite Hw. Qed.

Lemma setup_input_wake {E : Env} l i l' :
  listen_step l (WSetupInput i) l' → loop_state l' = upd_setup (sb_step i) (loop_state l).
Proof. by intros ->%listen_step_wake. Qed.

(** The tables and identity of a setup behaviour. *)
Lemma sb_step_identity i sb :
  sb_app_public_key (sb_step i sb) = sb_app_public_key sb ∧
  sb_local_transport_id (sb_step i sb) = sb_local_transport_id sb.
Proof.
  destruct i as [p c []|[p []|]]; simpl; try done. by destruct (transport_ids sb !! p).
Qed.
Lemma sb_step_tables (R : PublicKey → PeerId → Prop) i sb :
  (∀ p c k, i = FromHandler p c (HAppKeyReceived k) → R k p) →
  (∀ p k, transport_ids sb !! p = Some k → R k p) →
  (∀ k p, app_public_keys sb !! k = Some p → R k p) →
  (∀ p k, transport_ids (sb_step i sb) !! p = Some k → R k p) ∧
  (∀ k p, app_public_keys (sb_step i sb) !! k = Some p → R k p).
Proof.
  intros Hi Ht Hk. destruct i as [p c [k| |]|[p []|]]; simpl; try done.
  - split; intros ? ? [[<- <-]|[_ ?]]%lookup_insert_Some; eauto.
  - destruct (transport_ids sb !! p); [|done]. simpl.
    split; intros ? ? [_ ?]%lookup_delete_Some; eauto.
Qed.

(** The loop of one member moves: what is to show of the state [s'] it reaches. *)
Lemma loop_ok n i m w l :
  net_ok n → member_ok n i m → node_of m = node_of (n i) → woken m = woken (n i) →
  listen_step (E:=envs i) (loop m) w l →
  (∀ n', net_le n n' → w ∈ woken (n' i) →
     member_ok n' i m → member_ok n' i (upd_loop w l m)) →
  net_ok (put i (upd_loop w l m) n).
Proof.
  intros Hn Hm Hs Hw Hstep%listen_step_wake Hnew. set (m' := upd_loop w l m) in *.
  change (node_of m' = (wake (E:=envs i) w (node_of m)).1) in Hstep. rewrite Hs in Hstep.
  assert (net_le n (put i m' n)) as Hle.
  { apply net_le_put.
    - rewrite Hstep. apply (within_own_key (E:=envs i) _ _ _ (wake_within (E:=envs i) w _)).
    - rewrite Hstep. apply (wi_allowlist _ _ _ (wake_within (E:=envs i) w _)).
    - simpl. rewrite Hw. set_solver. }
  apply net_ok_put; [done..|]. apply Hnew; [done| |by eapply member_ok_le].
  rewrite put_eq. simpl. set_solver.
Qed.

Lemma setup_input_ok n i m inp l :
  net_ok n → member_ok n i m → node_of m = node_of (n i) → woken m = woken (n i) →
  listen_step (E:=envs i) (loop m) (WSetupInput inp) l →
  (∀ p c k, inp = FromHandler p c (HAppKeyReceived k) → proved_at n k p) →
  net_ok (put i (upd_loop (WSetupInput inp) l m) n).
Proof.
  intros Hn Hm Hs Hw Hstep Hinp. apply loop_ok; [done..|].
  intros n' Hle Hin [He Hr [Hk Ht] Htr Hks Hh Ho]. apply setup_input_wake in Hstep.
  destruct (sb_step_identity inp (setup (node_of m))) as [Hk' Ht'].
  destruct (sb_step_tables (proved_at n') inp (setup (node_of m))) as [Htr' Hks'];
    [intros p c k ->; by eapply proved_le, Hinp|done..|].
  split; unfold node_of in *; simpl; rewrite ?Hstep; simpl; try done.
  by rewrite Hk', Ht'.
Qed.

(** A wake-up of the loop from outside. *)
Lemma wake_ok n i w l :
  net_ok n → external w → genuine_wakeup n w → listen_step (E:=envs i) (loop (n i)) w l →
  net_ok (put i (upd_loop w l (n i)) n).
Proof.
  intros Hn Hext Hg Hstep. pose proof Hstep as Hs%listen_step_wake.
  assert ((∃ inp, w = WSetupInput inp) ∨ ∀ inp, w ≠ WSetupInput inp) as [[inp ->]|Hw]
    by (destruct w; by eauto).
  { apply setup_input_ok; try done. by intros p c k ->. }
  pose proof (wake_grounded (E:=envs i) w (node_of (n i)) Hw) as
    [_ _ Gtr Gks [Gk Gt] Ge Gr]. apply loop_ok; [done|apply Hn|done..|].
  intros n' Hle Hin [He Hr [Hk Ht] Htr Hks Hh Ho].
  assert (node_of (upd_loop w l (n i)) = (wake (E:=envs i) w (node_of (n i))).1) as Hs' by done.
  split; rewrite ?Hs'; try done.
  - rewrite Forall_forall in Ge, He |- *. intros e [Hold|Hnew]%Ge; [by apply He|].
    by apply (cause_ok n Hn n' i w).
  - intros id r sm Hr' Hin'. destruct (Gr id r sm Hr' Hin') as [(r0 & H0 & Hin0)|(r0 & -> & Hdec & Hv & Hkm)];
      [by apply (Hr id r0)|]. split.
    + exists id, r0, (message sm). split_and!; try done. by exists sm.
    + eapply vouched_le; [done|intros j; by apply reachable_le|]. eapply vouched_mono.
      * intros j. by apply said_record.
      * by refine (genuine_vouched EnvRecord n sm _ (Hg _ Hdec) Hv).
  - by rewrite Gk, Gt.
  - rewrite Gtr. apply Htr.
  - rewrite Gks. apply Hks.
Qed.

(** *** The handlers of connections *)

Lemma upd_handlers_ok n b m f :
  member_ok n b m → (∀ c p h, f (handlers m) !! c = Some (p, h) → handler_ok n b p h) →
  member_ok n b (upd_handlers f m).
Proof. by intros [] Hf. Qed.
Lemma insert_handler_ok n b m c p h :
  member_ok n b m → handler_ok n b p h → member_ok n b (upd_handlers (insert c (p, h)) m).
Proof.
  intros Hm Hh. apply upd_handlers_ok; [done|].
  intros c' p' h' [[_ [= <- <-]]|[_ Hl]]%lookup_insert_Some; [done|by eapply mo_handlers].
Qed.

(** Nothing but the handlers and the offers of a member moves. *)
Lemma aside_ok n i m :
  net_ok n → node_of m = node_of (n i) → woken m = woken (n i) → member_ok n i m →
  net_ok (put i m n).
Proof.
  intros Hn Hs Hw Hm. assert (net_le n (put i m n)) as Hle.
  { apply net_le_put; by rewrite ?Hs, ?Hw. }
  apply net_ok_put; [done..|]. by eapply member_ok_le.
Qed.

Lemma push_event_ok n b p h e :
  handler_ok n b p h → (∀ k, e = HAppKeyReceived k → proved_at n k p) →
  handler_ok n b p (push_event e h).
Proof.
  intros [] He. split; try done. simpl. apply Forall_app. split; [done|].
  constructor; [|done]. by destruct e; [apply He|..].
Qed.
Lemma not_keep_alive_ok n b p h : handler_ok n b p h → handler_ok n b p (not_keep_alive h).
Proof. by intros []. Qed.

Lemma connection_event_ok n b p h t e :
  net_ok n → genuine_event n e → handler_ok n b p h → handler_ok n b p (on_connection_event t e h).
Proof.
  intros Hn Hg Hh. pose proof (not_keep_alive_ok _ _ _ _ Hh) as Hh'.
  destruct e as [sm|[]|err|]; simpl; try done; try by apply push_event_ok.
  unfold on_fully_negotiated_inbound. cbv zeta.
  destruct (verify_or_false sm) eqn:Hv; simpl; [|by apply push_event_ok].
  rewrite verify_or_false_spec in Hv. apply bool_decide_eq_true in Hv.
  repeat case_match; try by apply push_event_ok. apply push_event_ok; [done|]. intros k [= <-].
  apply orb_false_iff in H as [_ Hfrom%negb_false_iff%bool_decide_eq_true].
  rewrite (ho_remote _ _ _ _ Hh) in Hfrom.
  eapply vouched_mono; [|by refine (genuine_vouched EnvSetup n sm _ Hg Hv)].
  intros i Hi. rewrite <-Hfrom. symmetry. by eapply mo_offered.
Qed.

Lemma Forall_removelast {A} (R : A → Prop) l : Forall R l → Forall R (removelast l).
Proof. induction 1 as [|x l Hx Hl IH]; simpl; [done|]. destruct l; [done|]. by constructor. Qed.

Lemma handler_poll_ok n b p h h' o :
  handler_ok n b p h → handler_poll h = (h', Some o) →
  handler_ok n b p h' ∧
  match o with
  | NotifyBehaviour (HAppKeyReceived k) => proved_at n k p
  | NotifyBehaviour _ => True
  | OutboundSubstreamRequest up => up_app_public_key up = key n b ∧ up_local_transport_id up = transport b
  end.
Proof.
  intros [Hl Hr Hu Hp]. unfold handler_poll, vec_pop.
  destruct (last (pending_events h)) as [x|] eqn:Hlast.
  - intros [= <- ->]. split; [split; try done; by apply Forall_removelast|].
    rewrite Forall_forall in Hp. apply last_Some_elem_of, Hp in Hlast. by destruct o.
  - destruct (outbound_substream h) as [up|] eqn:Hup; [|done].
    intros [= <- <-]. split; [|by apply Hu]. by split.
Qed.

Lemma net_step_ok n n' : net_step n n' → net_ok n → net_ok n'.
Proof.
  intros Hstep Hn. destruct Hstep as [i w l Hext Hg Hl|i c p h _ Hnew|i c p h t e Hh Hg
    |i c p h h' up t Hh Hp|i c p h h' e l Hh Hp Hl|i c].
  - by apply wake_ok.
  - apply aside_ok; [done..|]. apply insert_handler_ok; [apply Hn|].
    destruct (mo_identity _ _ _ (Hn i)) as [Hk Ht].
    destruct Hnew as [-> | ->]; split; try done; by intros up [= <-].
  - apply aside_ok; [done..|]. apply insert_handler_ok; [apply Hn|].
    apply connection_event_ok; [done..|]. by eapply mo_handlers.
  - destruct (handler_poll_ok n i p h h' _ (mo_handlers _ _ _ (Hn i) _ _ _ Hh) Hp) as [Hh' [_ Hup]].
    apply aside_ok; [done..|].
    pose proof (insert_handler_ok n i (n i) c p h' (Hn i) Hh') as [? ? ? ? ? ? Ho]. split; try done.
    intros o [Hin|Hin]%elem_of_app; [by apply Ho|]. unfold setup_offer, SetupMessage_new in Hin.
    destruct (get_timestamp t); simpl in Hin; [|by apply not_elem_of_nil in Hin].
    apply list_elem_of_singleton in Hin as ->. done.
  - destruct (handler_poll_ok n i p h h' _ (mo_handlers _ _ _ (Hn i) _ _ _ Hh) Hp) as [Hh' He].
    apply setup_input_ok; try done; [by apply insert_handler_ok|].
    intros p' c' k [= <- <- ->]. done.
  - apply aside_ok; [done..|]. apply upd_handlers_ok; [apply Hn|].
    intros c' p h [_ Hh]%lookup_delete_Some. by eapply mo_handlers.
Qed.

Lemma fresh_net_ok n : fresh_net n → net_ok n.
Proof.
  intros Hf b. destruct (Hf b) as (_ & Hh & Ho & He & Hr & sg & age & skew & Hs).
  split; rewrite ?Hh, ?Ho, ?Hr, ?Hs; try done.
  - eapply Forall_impl; [exact He|]. intros e Hq. by destruct e as [| | | | | | | | | |[]| | | | |[]| | | |].
  - intros o Hin. by apply not_elem_of_nil in Hin.
Qed.

Lemma net_run_ok n n' : net_run n n' → fresh_net n → net_ok n'.
Proof. induction 1; eauto using fresh_net_ok, net_step_ok. Qed.

(** ** The theorem *)

(** C2. Authenticity, in a network of members running this crate among
    adversaries who may deliver, withhold, repeat, alter and invent anything but
    members' signatures.  Whenever, in any run, a member [b]
    - hands its application a gossip payload, this came under the signature of
      a key (allowlisted, with [byos]) and, if a member holds that key, the
      application of such a member had published this payload;
    - hands its application a request, the same, and the member's application
      had asked for this payload to be sent to the transport of [b] (by its
      transport id, or by a key that, if a member's, is that of a member with
      this transport);
    - hands its application a response, the same, and the member's application
      had answered this to a request it was handed;
    - answers a lookup, the addresses come from a found record filed under its
      signer, which, if a member, had published its external addresses as these;
      the same of every record [b] stores for others;
    - takes a peer for the holder of a key or the other way round, and a member
      holds that key, then the peer is the transport of such a member.
    So a signature is never accepted for another kind of message, another
    payload, another destination or another transport; replays within the date
    window are not excluded.  If every allowlisted key is a member's, all that
    a [byos] application hears by gossip was published by members. *)
Theorem authenticity n0 n b :
  fresh_net n0 → net_run n0 n →
  (∀ data, EGossipEvent data ∈ done n b → ∃ k,
     heard_gossip n b k data ∧ allowed n b k ∧ vouched n k (λ i, published n i data)) ∧
  (∀ data, EReqRespEvent (ReceivedRequest data) ∈ done n b → ∃ k,
     heard_request n b k data ∧ allowed n b k ∧ vouched n k (λ i, requested n i (transport b) data)) ∧
  (∀ data, EReqRespEvent (ReceivedResponse data) ∈ done n b → ∃ k,
     heard_response n b k data ∧ allowed n b k ∧ vouched n k (λ i, answered i data)) ∧
  (∀ addrs, ECommandEvent (Some addrs) ∈ done n b → ∃ k,
     found n b k addrs ∧ vouched n k (λ i, reachable_at n i addrs)) ∧
  (∀ dht_key raw, EStorePut dht_key raw ∈ done n b → ∃ m,
     signed_as raw m ∧ key_matches (E:=envs b) dht_key (rd_public_key m) = true ∧
     vouched n (rd_public_key m) (λ i, reachable_at n i (rd_multiaddresses m))) ∧
  (∀ p k, get_app_public_key_by_transport_id (setup (node_of (n b))) p = Some k ∨
          get_transport_id_by_application_key (setup (node_of (n b))) k = Some p →
     proved_at n k p) ∧
  (byos (Env:=envs b) = true → (∀ k, k ∈ app_allowlist (node_of (n b)) → held n k) →
   ∀ data, EGossipEvent data ∈ done n b →
     ∃ i, key n i ∈ app_allowlist (node_of (n b)) ∧ published n i data).
Proof.
  intros Hf Hr. pose proof (net_run_ok _ _ Hr Hf) as Hok.
  pose proof (λ e, effect_was_ok n Hok b e) as He. split_and!.
  - intros data. apply He.
  - intros data. apply He.
  - intros data. apply He.
  - intros addrs. apply He.
  - intros k raw. apply He.
  - intros p k [Ht|Hk]; [by apply (mo_transport _ _ _ (Hok b))|by apply (mo_keys _ _ _ (Hok b))].
  - intros Hb Hall data (k & _ & Ha & Hv)%He. specialize (Ha Hb).
    destruct (Hv (Hall k Ha)) as (i & <- & Hp). by exists i.
Qed.

End Network.

(** Newly created nodes make a fresh network. *)
Section Created.
Context {P : Platform} {Q : Queue Multiaddr} {E : Env}.

Lemma from_config_quiet cfg sb allowlist size sg v s :
  from_config cfg sb allowlist size sg v = Done s →
  Forall (λ e, speaks e = false) (trace s) ∧ kademlia_map_received_records s = ∅ ∧ setup s = sb.
Proof.
  intros Hc. pose proof (listen_all_spec (cfg_listening_addrs cfg) (apply_handle_timeout cfg)) as Hl.
  unfold from_config in Hc. destruct (listen_all _ _) as [tr [[]|]]; [|done].
  destruct Hl as [-> _]. destruct (negb _); [done|]. injection Hc as <-. simpl.
  split_and!; try done. rewrite !Forall_app. split_and!.
  - unfold apply_handle_timeout. case_match; by repeat constructor.
  - apply Forall_forall. by intros e (a & -> & _)%list_elem_of_fmap.
  - by repeat constructor.
Qed.
End Created.

(** ** Example: two toy members

    Member [false] (key 3) opens a connection to member [true] (key 5), proves
    its key to it, and publishes a gossip message that arrives there. *)

Section NetworkExample.
#[local] Existing Instances Toy.platform Toy.platform_laws ToyNode.queue_inst.

Definition toy_key (i : bool) : nat := if i then 5%nat else 3%nat.
Definition toy_envs (i : bool) : Env := ToyNode.env_at (100 + toy_key i) true.
Definition toy_start (i : bool) : P2P := ToyNode.node_of_key (toy_key i) (toy_key (negb i)).
Definition toy_net0 : Net := λ i,
  {| loop := Running (toy_start i); handlers := ∅; offered := []; woken := [] |}.

(** The handshake of [false] with [true]. *)
Definition toy_offer : SetupMessage :=
  {| st_version := SetupV1; st_app_public_key := 3%nat : PublicKey;
     st_local_transport_id := 103%nat : PeerId; st_remote_transport_id := 105%nat : PeerId;
     st_date := 1000 |}.
Definition toy_h (i : bool) : SetupHandler :=
  handle_established_outbound_connection (setup (toy_start i)) (100 + toy_key (negb i) : PeerId)%nat.
Definition toy_conn (i : bool) (h : SetupHandler) : Member → Member :=
  upd_handlers (insert (0%nat : ConnectionId) ((100 + toy_key (negb i))%nat : PeerId, h)).
Definition toy_net1 : Net := put false (toy_conn false (toy_h false) (toy_net0 false)) toy_net0.
Definition toy_net2 : Net :=
  put false (upd_offered (setup_offer (from_secs 1000) (default toy_upgrade (outbound_substream (toy_h false))))
               (toy_conn false (handler_poll (toy_h false)).1 (toy_net1 false))) toy_net1.
Definition toy_net3 : Net := put true (toy_conn true (toy_h true) (toy_net2 true)) toy_net2.
Definition toy_received : SetupHandler :=
  on_connection_event (from_secs 1001) (FullyNegotiatedInbound (ToyNode.signed toy_offer)) (toy_h true).
Definition toy_net4 : Net := put true (toy_conn true toy_received (toy_net3 true)) toy_net3.
Definition toy_proof : Wakeup :=
  WSetupInput (FromHandler (103%nat : PeerId) (0%nat : ConnectionId) (HAppKeyReceived (3%nat : PublicKey))).
Definition toy_met : P2P := (wake (E:=toy_envs true) toy_proof (toy_start true)).1.
Definition toy_net5 : Net :=
  put true (upd_loop toy_proof (Running toy_met)
              (toy_conn true (handler_poll toy_received).1 (toy_net4 true))) toy_net4.

(** The message. *)
Definition toy_said : GossipMessage :=
  {| g_version := GossipV2; g_protocol := Gossip; g_message := [Byte.x68; Byte.x69];
     g_public_key := 3%nat : PublicKey; g_date := 1000 |}.
Definition toy_publish : Wakeup := WGossipCommand [Byte.x68; Byte.x69].
Definition toy_published : P2P := (wake (E:=toy_envs false) toy_publish (toy_start false)).1.
Definition toy_arrival : Wakeup :=
  WSwarm (SwarmBehaviour (BGossipsub (GossipMessageEvent (103%nat : PeerId) (7%nat : MessageId)
    (ToyNode.signed_bytes toy_said)))).
Definition toy_heard : P2P := (wake (E:=toy_envs true) toy_arrival toy_met).1.
Definition toy_net6 : Net :=
  put false (upd_loop toy_publish (Running toy_published) (toy_net5 false)) toy_net5.
Definition toy_net7 : Net :=
  put true (upd_loop toy_arrival (Running toy_heard) (toy_net6 true)) toy_net6.

Lemma toy_fresh : fresh_net toy_envs toy_net0.
Proof.
  intros i. split_and!; try done; [by exists (toy_start i)|].
  by destruct i; eexists _, _, _.
Qed.

Lemma toy_trace : trace toy_published = [EPublish "strata" (ToyNode.signed_bytes toy_said)].
Proof. vm_compute. reflexivity. Qed.

Lemma toy_genuine_setup : genuine toy_envs toy_net3 (ToyNode.signed toy_offer).
Proof.
  intros _ _. exists false, (EnvSetup toy_offer). split_and!; [reflexivity| |reflexivity].
  simpl. constructor.
Qed.

Lemma toy_genuine_gossip : genuine_wakeup toy_envs toy_net6 toy_arrival.
Proof.
  intros sm Hsm. assert (sm = ToyNode.signed toy_said) as ->.
  { rewrite ToyNode.signed_decodes in Hsm by (apply gossip_message_roundtrip; split; vm_compute; discriminate).
    by injection Hsm. }
  intros _ _. exists false, (EnvGossip toy_said). split_and!; [reflexivity| |reflexivity].
  exists "strata"%string, (ToyNode.signed_bytes toy_said). split.
  - change (done toy_net6 false) with (trace toy_published). rewrite toy_trace. constructor.
  - exists (ToyNode.signed toy_said). split; [|done]. unfold ToyNode.signed_bytes. by destruct (to_vec _) eqn:He.
Qed.

Lemma toy_run : net_run toy_envs toy_net0 toy_net7.
Proof.
  eapply net_next; [eapply net_next; [eapply net_next; [eapply net_next; [eapply net_next;
    [eapply net_next; [eapply net_next; [apply net_start|..]|..]|..]|..]|..]|..]|].
  - apply (net_open toy_envs toy_net0 false); [reflexivity|by right].
  - eapply (net_offer toy_envs toy_net1 false); [apply lookup_insert_eq|reflexivity].
  - apply (net_open toy_envs toy_net2 true); [reflexivity|by left].
  - eapply (net_connection toy_envs toy_net3 true _ _ _ (from_secs 1001)
      (FullyNegotiatedInbound (ToyNode.signed toy_offer))); [apply lookup_insert_eq|exact toy_genuine_setup].
  - apply (net_notify toy_envs toy_net4 true (0%nat : @ConnectionId Toy.platform)
      (103%nat : @PeerId Toy.platform) toy_received (handler_poll toy_received).1
      (HAppKeyReceived (3%nat : @PublicKey Toy.platform))); [apply lookup_insert_eq| |].
    { apply injective_projections; [reflexivity|vm_compute; reflexivity]. }
    apply step_done; [discriminate|]. reflexivity.
  - eapply (net_wake toy_envs toy_net5 false toy_publish); [done|done|]. apply step_done; [discriminate|].
    apply injective_projections; [reflexivity|vm_compute; reflexivity].
  - eapply (net_wake toy_envs toy_net6 true toy_arrival); [done|exact toy_genuine_gossip|].
    apply step_done; [discriminate|]. apply injective_projections; [reflexivity|vm_compute; reflexivity].
Qed.

Lemma authenticity_witness :
  EGossipEvent [Byte.x68; Byte.x69] ∈ done toy_net7 true ∧
  (∃ i, key toy_envs toy_net7 i ∈ app_allowlist (node_of (toy_net7 true)) ∧
        published toy_net7 i [Byte.x68; Byte.x69]) ∧
  proved_at toy_envs toy_net7 (3%nat : PublicKey) (103%nat : PeerId).
Proof.
  destruct (authenticity toy_envs toy_net0 toy_net7 true toy_fresh toy_run)
    as (_ & _ & _ & _ & _ & Htab & Hclosed).
  assert (EGossipEvent [Byte.x68; Byte.x69] ∈ done toy_net7 true) as Hin.
  { assert (done toy_net7 true = [EReport (7%nat : MessageId) (103%nat : PeerId) Accept;
      EGossipEvent [Byte.x68; Byte.x69]]) as -> by (vm_compute; reflexivity).
    right. left. }
  split; [exact Hin|]. split.
  - apply Hclosed; [reflexivity| |exact Hin]. intros k Hk.
    assert (app_allowlist (node_of (toy_net7 true)) = {[ (3%nat : PublicKey) ]}) as Ha
      by (vm_compute; reflexivity).
    rewrite Ha in Hk. apply elem_of_singleton in Hk as ->. by exists false.
  - apply Htab. left. vm_compute. reflexivity.
Defined.
End NetworkExample.
