(* ===== verification/EndToEnd.v ===== *)
(** * End to end: what one node says arrives at the other

    The handlers of two nodes composed: a publication, a request with its
    answer, and a record that is put by one node and looked up by the other.
    [Network] says that nothing else arrives. *)

From Stdlib Require Import Init.Byte.
From S2P Require Import Prelude Time Float64 Platform Message Scores Validator Errors Setup Config Dial Node Scoring Gossip ReqResp Kad Conn Commands Listen.
Open Scope Z_scope.

Section EndToEnd.
Context {P : Platform} {L : PlatformLaws P} {Q : Queue Multiaddr}.

(** flexbuffers encodes what serde hands it, and does not read the empty slice. *)
Record Encodes : Prop := {
  encodes_all : ∀ v, is_Some (fb_to_vec v);
  empty_is_no_value : fb_from_slice [] = None
}.

(** The node's signer answers, and signs for the node's key. *)
Record able {E : Env} (s : P2P) : Prop := {
  able_signs : signs_for (signer s) (own_key s);
  able_answers : ∀ b, ∃ sig, signer_sign (signer s) b = Ok sig
}.
(** The clock reading [n] is a date. *)
Definition datable {E : Env} (n : nat) : Prop := 0 ≤ clock n ∧ is_u64 (as_secs (clock n)).

Context (Henc : Encodes).

Lemma signing_works {E : Env} {A} `{Serde A} `{!HasPublicKey A} (s : P2P) (m : A) :
  able s → public_key m = own_key s → deserialize (serialize m) = Some m →
  ∃ sm raw, SignedMessage_new m (signer s) = Ok sm ∧ to_vec sm = Some raw ∧ raw ≠ [] ∧
    from_slice raw = Some sm ∧ verify sm = Ok true ∧ message sm = m.
Proof.
  intros [Hs Ha] Hk Hrt. destruct (encodes_all Henc (serialize m)) as [b Hb].
  destruct (Ha b) as [sig Hsig].
  assert (SignedMessage_new m (signer s) = Ok (Build_SignedMessage m sig)) as Hnew
    by (unfold SignedMessage_new, to_vec; by rewrite Hb, Hsig).
  set (sm := Build_SignedMessage m sig) in *.
  destruct (encodes_all Henc (serialize sm)) as [raw Hraw]. exists sm, raw.
  refine (_ (signed_and_encoded m (signer s) sm raw _ Hrt Hnew Hraw)); [|by rewrite Hk].
  intros (Hdec & Hv & Hm). split_and!; try done. intros ->. unfold from_slice in Hdec.
  by rewrite (empty_is_no_value Henc) in Hdec.
Qed.

(** ** Gossip *)

Lemma gossip_command_run {E : Env} data s :
  able s → datable (ticks s) →
  ∃ raw sm, handle_gossip_command data s = (add_effect (EPublish (topic s) raw) (tick s), Done tt) ∧
    from_slice raw = Some sm ∧ verify sm = Ok true ∧
    message sm = {| g_version := GossipV2; g_protocol := Gossip; g_message := data;
                    g_public_key := own_key s; g_date := as_secs (clock (ticks s)) |}.
Proof.
  intros Ha [Hc Hu]. unfold handle_gossip_command, GossipMessage_new, get_timestamp. run_simpl.
  rewrite duration_since_epoch by done. cbn [mbind option_bind or_panic]. run_simpl.
  cbn [signer tick]. set (m := {| g_version := _ |}).
  destruct (signing_works s m Ha eq_refl) as (sm & raw & -> & -> & _ & ?);
    [by apply gossip_message_roundtrip|]. by exists raw, sm.
Qed.

(** C10. A publication crosses: whatever node [a]'s application publishes goes
    out as one message, and a node [b] that gets it (from whichever peer [src]
    passes it on), does not hold that peer muted, has [a]'s key on its
    allowlist ([byos]) and [a]'s date in its window, reports it accepted and
    hands its application exactly the bytes published, once; or, without
    [byos], applies the penalty its validator asks for and hands on nothing. *)
Theorem gossip_crosses (Ea Eb : Env) (a b : P2P) data src mid :
  able (E:=Ea) a → datable (E:=Ea) (ticks a) →
  durations_ok (config b) → no_overflow b (clock (Env:=Eb) (date_reading (E:=Eb) b)) →
  ¬ gossip_muted (E:=Eb) b src →
  (byos (Env:=Eb) = true → own_key (E:=Ea) a ∈ app_allowlist b) →
  Fresh (now_secs_or_default (clock (Env:=Eb) (date_reading (E:=Eb) b)))
    (envelope_max_age (config b)) (max_clock_skew (config b)) (as_secs (clock (Env:=Ea) (ticks a))) →
  ∃ raw, wake (E:=Ea) (WGossipCommand data) a
           = (add_effect (EPublish (topic a) raw) (tick a), Done tt) ∧
    let '(b', o) := wake (E:=Eb)
      (WSwarm (SwarmBehaviour (BGossipsub (GossipMessageEvent src mid raw)))) b in
    match (if byos (Env:=Eb) then None else gossip_penalty (E:=Eb) b src data) with
    | None =>
        trace b' = trace b ++ [EReport mid src Accept; EGossipEvent data] ∧
        (gossip_events_send (Env:=Eb) (trace b ++ [EReport mid src Accept]) data = Ok tt → o = Done tt)
    | Some pen => ∀ d, EGossipEvent d ∈ trace b' → EGossipEvent d ∈ trace b
    end.
Proof.
  intros Ha Hda Hd Hno Hm Hal Hf. destruct (gossip_command_run data a Ha Hda) as (raw & sm & Hrun & Hdec & Hv & Hmsg).
  exists raw. split; [exact Hrun|]. cbn [wake handle_swarm_event handle_behaviour_event handle_gossip_event].
  rewrite (handle_gossip_msg_run (E:=Eb)), decide_False, Hdec by done.
  destruct (after_decay_same (E:=Eb) b src) as (Hcf & Ht & Hall & Htk).
  pose proof (handle_signed_gossip_run (E:=Eb) src mid sm (after_decay (E:=Eb) b src)) as Hs.
  unfold no_overflow in Hs. rewrite Hcf, Htk in Hs. specialize (Hs Hd Hno).
  rewrite decide_True in Hs; [|unfold acceptable_gossip; rewrite Hall, Hcf, Hmsg; by split_and!].
  rewrite Hs, Hmsg. cbn [g_message]. pose proof (finish_gossip_effects (E:=Eb) src mid data b) as Hfin.
  destruct_run Hfin b' o. destruct (if byos then None else _) as [pen|].
  - destruct Hfin as [[-> _]|[-> _]]; [|done]. intros d [?|Hin]%elem_of_app; [done|].
    destruct pen; set_solver.
  - destruct Hfin as [-> ->]. split; [done|]. by intros ->.
Qed.

(** ** Requests and responses *)

Lemma request_command_run {E : Env} cmd p s :
  able s → datable (ticks s) → target_peer_id (rrc_target cmd) (setup s) = Some p →
  swarm_is_connected (trace s) p = true →
  ∃ raw sm, handle_request_response_command cmd s
      = (add_effect (ESendRequest p raw) (tick s), Done tt) ∧
    from_slice raw = Some sm ∧ verify sm = Ok true ∧
    message sm = {| rq_version := ReqRespV2; rq_protocol := RequestResponse;
                    rq_message := rrc_data cmd; rq_public_key := own_key s;
                    rq_date := as_secs (clock (ticks s)); rq_destination_peer_id := p |}.
Proof.
  intros Ha [Hc Hu] Hp Hconn. unfold handle_request_response_command, RequestMessage_new, get_timestamp.
  run_simpl. rewrite Hp. run_simpl.
  rewrite duration_since_epoch by done. cbn [mbind option_bind or_panic]. run_simpl.
  cbn [signer tick]. set (m := {| rq_version := _ |}).
  destruct (signing_works s m Ha eq_refl) as (sm & raw & -> & -> & _ & ?);
    [by apply request_message_roundtrip|]. run_simpl. cbn [trace tick]. rewrite Hconn.
  by exists raw, sm.
Qed.

Lemma signed_response_run {E : Env} ch response s :
  able s → datable (ticks s) →
  ∃ raw sm, send_signed_response ch response s
      = (add_effect (ESendResponse ch raw) (tick s), Done tt) ∧ raw ≠ [] ∧
    from_slice raw = Some sm ∧ verify sm = Ok true ∧
    message sm = {| rs_version := ReqRespV2; rs_protocol := RequestResponse;
                    rs_message := response; rs_app_public_key := own_key s;
                    rs_date := as_secs (clock (ticks s)) |}.
Proof.
  intros Ha [Hc Hu]. unfold send_signed_response, ResponseMessage_new, get_timestamp. run_simpl.
  rewrite duration_since_epoch by done. cbn [mbind option_bind or_panic]. run_simpl.
  cbn [signer tick]. set (m := {| rs_version := _ |}).
  destruct (signing_works s m Ha eq_refl) as (sm & raw & -> & -> & ? & ?);
    [by apply response_message_roundtrip|]. by exists raw, sm.
Qed.

(** The state in which a message of [p] that passes is delivered. *)
Definition delivery_state {E : Env} (s : P2P) (p : PeerId) (msg : MessageType) : P2P :=
  tick (scored (tick (unmuted_state s)) p msg).

(** Nothing stands in the way of a message of [p] under [key], dated [date]. *)
Record passes {E : Env} (s : P2P) (p : PeerId) (key : PublicKey) (date : Z) (msg : MessageType) : Prop := {
  pass_durations : durations_ok (config s);
  pass_overflow : no_overflow s (clock (ticks (unmuted_state s)));
  pass_unmuted : ¬ muted s p;
  pass_sender : sender_ok s p key;
  pass_future : not_future s (clock (ticks (unmuted_state s))) date;
  pass_penalty : req_resp_penalty (tick (unmuted_state s)) p msg = None;
  pass_stale : not_stale s (clock (ticks (scored (tick (unmuted_state s)) p msg))) date
}.

Lemma delivery_state_same {E : Env} s p msg :
  let s' := delivery_state s p msg in
  trace s' = trace s ∧ signer s' = signer s ∧ own_key s' = own_key s ∧ config s' = config s.
Proof. unfold delivery_state, scored, unmuted_state, own_key. by destruct byos. Qed.

Lemma unmuted_admission {E : Env} s :
  setup (unmuted_state s) = setup s ∧ app_allowlist (unmuted_state s) = app_allowlist s ∧
  config (unmuted_state s) = config s.
Proof. unfold unmuted_state. by destruct byos. Qed.

Lemma passing_consequence {E : Env} s p key date msg deliver :
  passes s p key date msg →
  consequence (tick (unmuted_state s)) p msg date deliver = deliver (delivery_state s p msg).
Proof.
  intros []. unfold consequence. cbv zeta. rewrite pass_penalty0. rewrite decide_True; [done|].
  destruct (delivery_state_same s p msg) as (_ & _ & _ & Hc).
  change (config (scored (tick (unmuted_state s)) p msg) = config s) in Hc.
  unfold not_stale. by rewrite Hc.
Qed.

Lemma passing_request {E : Env} s p raw ch sm :
  from_slice raw = Some sm → verify sm = Ok true →
  rq_destination_peer_id (message sm) = local_peer_id →
  rq_protocol (message sm) = RequestResponse → rq_version (message sm) = ReqRespV2 →
  passes s p (rq_public_key (message sm)) (rq_date (message sm)) (MRequest (rq_message (message sm))) →
  handle_request p raw ch s
    = deliver_request ch (rq_message (message sm))
        (delivery_state s p (MRequest (rq_message (message sm)))).
Proof.
  intros Hdec Hv Hdst Hp Hver Hpass. pose proof Hpass as [].
  rewrite (handle_request_counts s p raw ch sm) by
    (done || (destruct (unmuted_admission s) as (Hs & Ha & Hc); unfold admissible_request, sender_ok,
       not_future in *; by rewrite Hs, Ha, Hc)).
  by apply (passing_consequence s p (rq_public_key (message sm))).
Qed.

Lemma passing_response {E : Env} s p raw sm :
  raw ≠ [] → from_slice raw = Some sm → verify sm = Ok true →
  rs_protocol (message sm) = RequestResponse → rs_version (message sm) = ReqRespV2 →
  passes s p (rs_app_public_key (message sm)) (rs_date (message sm))
    (MResponse (rs_message (message sm))) →
  handle_response p raw s
    = send_req_resp_event (ReceivedResponse (rs_message (message sm)))
        (delivery_state s p (MResponse (rs_message (message sm)))).
Proof.
  intros Hne Hdec Hv Hp Hver Hpass. pose proof Hpass as [].
  rewrite (handle_response_counts s p raw sm) by
    (done || (destruct (unmuted_admission s) as (Hs & Ha & Hc); unfold admissible_response, sender_ok,
       not_future in *; by rewrite Hs, Ha, Hc)).
  by apply (passing_consequence s p (rs_app_public_key (message sm))).
Qed.

(** C9. A request makes its round: the application of node [a] asks for [data]
    to be sent to a target that [a] knows as [b]'s transport and is connected
    to; one request goes out; if nothing stands in its way at [b] (muting,
    penalties, [byos] admission, clocks), [b]'s application is handed exactly
    [data], and, when it gives an answer in time, one response goes out on the
    request's own channel; and whenever this reaches [a] and nothing stands in
    its way there, [a]'s application is handed exactly the answer. *)
Theorem request_roundtrip (Ea Eb : Env) (a b : P2P) cmd ch answer :
  let data := rrc_data cmd in
  let pa := local_peer_id (Env:=Ea) in
  let pb := local_peer_id (Env:=Eb) in
  let bd := delivery_state (E:=Eb) b pa (MRequest data) in
  able (E:=Ea) a → datable (E:=Ea) (ticks a) →
  target_peer_id (rrc_target cmd) (setup a) = Some pb →
  swarm_is_connected (Env:=Ea) (trace a) pb = true →
  passes (E:=Eb) b pa (own_key (E:=Ea) a) (as_secs (clock (Env:=Ea) (ticks a))) (MRequest data) →
  req_resp_events_send (Env:=Eb) (trace b) (ReceivedRequest data) = InTime (Ok tt) →
  response_recv (Env:=Eb) (trace b ++ [EReqRespEvent (ReceivedRequest data)]) data
    = InTime (Ok answer) →
  able (E:=Eb) b → datable (E:=Eb) (ticks bd) →
  ∃ request, wake (E:=Ea) (WReqRespCommand cmd) a
      = (add_effect (ESendRequest pb request) (tick a), Done tt) ∧
  ∃ response b', wake (E:=Eb) (WSwarm (SwarmBehaviour (BRequestResponse
        (RRMessage pa (Request request ch))))) b = (b', Done tt) ∧
    trace b' = trace b ++ [EReqRespEvent (ReceivedRequest data); ESendResponse ch response] ∧
    ∀ a2, passes (E:=Ea) a2 pb (own_key (E:=Eb) b) (as_secs (clock (Env:=Eb) (ticks bd)))
            (MResponse answer) →
      trace (wake (E:=Ea) (WSwarm (SwarmBehaviour (BRequestResponse
        (RRMessage pb (Response response))))) a2).1
        = trace a2 ++ [EReqRespEvent (ReceivedResponse answer)].
Proof.
  intros data pa pb bd Ha Hda Ht Hconn Hpass Hsend Hrecv Hb Hdb.
  destruct (request_command_run (E:=Ea) cmd pb a Ha Hda Ht Hconn) as (raw & sm & Hrun & Hdec & Hv & Hm).
  exists raw. split; [exact Hrun|].
  pose proof (passing_request (E:=Eb) b pa raw ch sm Hdec Hv) as Hreq. rewrite Hm in Hreq.
  cbn [rq_destination_peer_id rq_protocol rq_version rq_message rq_public_key rq_date] in Hreq.
  specialize (Hreq eq_refl eq_refl eq_refl Hpass). fold data bd in Hreq.
  destruct (delivery_state_same (E:=Eb) b pa (MRequest data)) as (Htr & Hsg & Hk & _).
  fold bd in Htr, Hsg, Hk. set (bh := add_effect (EReqRespEvent (ReceivedRequest data)) bd).
  assert (able (E:=Eb) bh) as Hbh.
  { destruct Hb as [Hs Hw]. split; change (signer bh) with (signer bd); rewrite Hsg; [|done].
    change (own_key (E:=Eb) bh) with (own_key (E:=Eb) bd). by rewrite Hk. }
  destruct (signed_response_run (E:=Eb) ch answer bh Hbh Hdb) as (rsp & sm2 & Hr2 & Hne & Hdec2 & Hv2 & Hm2).
  exists rsp, (add_effect (ESendResponse ch rsp) (tick bh)). split_and!.
  - cbn [wake handle_swarm_event handle_behaviour_event handle_request_response_event handle_message_event].
    rewrite Hreq. unfold deliver_request, send_req_resp_event. rewrite bind_assoc. run_simpl.
    rewrite bind_assoc. run_simpl. rewrite Htr, Hsend, bind_ret_l, bind_ask. fold bh.
    change (trace bh) with (trace bd ++ [EReqRespEvent (ReceivedRequest data)]).
    by rewrite Htr, Hrecv.
  - change (trace (add_effect (ESendResponse ch rsp) (tick bh)))
      with ((trace bd ++ [EReqRespEvent (ReceivedRequest data)]) ++ [ESendResponse ch rsp]).
    by rewrite Htr, <-app_assoc.
  - intros a2 Hpass2.
    pose proof (passing_response (E:=Ea) a2 pb rsp sm2 Hne Hdec2 Hv2) as Hres. rewrite Hm2 in Hres.
    cbn [rs_protocol rs_version rs_message rs_app_public_key rs_date] in Hres.
    change (own_key (E:=Eb) bh) with (own_key (E:=Eb) bd) in Hres. rewrite Hk in Hres.
    specialize (Hres eq_refl eq_refl Hpass2).
    cbn [wake handle_swarm_event handle_behaviour_event handle_request_response_event handle_message_event].
    rewrite Hres. unfold send_req_resp_event. run_simpl.
    destruct (delivery_state_same (E:=Ea) a2 pb (MResponse answer)) as (Htr2 & _).
    rewrite <-Htr2. by destruct (req_resp_events_send (Env:=Ea) _ _) as [[[]|]|].
Qed.

(** ** Records *)

(** What a node is looked up by. *)
Definition own_target {E : Env} (s : P2P) : PeerTarget :=
  if byos then TargetAppPublicKey (own_key s) else TargetTransportId (to_peer_id (own_key s)).

Lemma put_record_run {E : Env} s :
  able s → datable (ticks s) →
  ∃ raw sm, ask_kademlia_put_record s
      = (add_effect (EPutRecord (dht_key (own_target s)) raw) (tick s), Done tt) ∧
    from_slice raw = Some sm ∧ verify sm = Ok true ∧
    message sm = {| rd_version := DHTV1; rd_public_key := own_key s;
                    rd_multiaddresses := external_addresses (trace s);
                    rd_date := as_secs (clock (ticks s)) |}.
Proof.
  intros Ha [Hc Hu]. unfold ask_kademlia_put_record, RecordData_new, get_timestamp. run_simpl.
  rewrite duration_since_epoch by done. cbn [mbind option_bind or_panic]. run_simpl.
  cbn [signer tick]. set (m := {| rd_version := _ |}).
  destruct (signing_works s m Ha eq_refl) as (sm & raw & -> & -> & _ & ?);
    [by apply record_data_roundtrip|]. cbn [or_panic]. run_simpl. exists raw, sm. split; [|done].
  unfold own_target. by destruct byos.
Qed.

Lemma own_target_matches {Ea Eb : Env} (a : P2P) :
  byos (Env:=Ea) = byos (Env:=Eb) →
  key_matches (E:=Eb) (dht_key (own_target (E:=Ea) a)) (own_key (E:=Ea) a) = true.
Proof.
  intros Hb. unfold key_matches, own_target. rewrite <-Hb. destruct byos; simpl;
    [rewrite decode_encode_protobuf|rewrite peer_id_from_to_bytes]; by apply bool_decide_eq_true_2.
Qed.

Definition query_progressed (id : QueryId) (r : QueryResult) : Wakeup :=
  WSwarm (SwarmBehaviour (BKademlia (OutboundQueryProgressed id r))).

(** C12. A node can be found: when node [a] publishes its record, it is put under
    the very key under which another node [b] of the same build looks [a] up
    (by [a]'s key with [byos], by its transport id without); and if that lookup
    finds it while its date is in [b]'s window, then at its end (also by
    timeout, or as not found elsewhere) [b]'s application is answered with
    exactly the external addresses that [a] had when it published. *)
Theorem record_crosses (Ea Eb : Env) (a b : P2P) r :
  byos (Env:=Ea) = byos (Env:=Eb) → able (E:=Ea) a → datable (E:=Ea) (ticks a) →
  durations_ok (config b) → no_overflow b (clock (Env:=Eb) (ticks b)) →
  date_ok b (clock (Env:=Eb) (ticks b)) (as_secs (clock (Env:=Ea) (ticks a))) →
  r = GetRecordFinished ∨ r = GetRecordTimeout ∨ r = GetRecordNotFound →
  let dkey := dht_key (own_target (E:=Ea) a) in
  ∃ raw, wake (E:=Ea) WRepublish a = (add_effect (EPutRecord dkey raw) (tick a), Done tt) ∧
    let id := get_record (Env:=Eb) (trace b) dkey in
    let '(b', o) := (_ ← wake (E:=Eb) (WCommand (FindMultiaddr (own_target (E:=Ea) a)));
                     _ ← wake (E:=Eb) (query_progressed id
                           (GetRecordFound {| kr_key := dkey; kr_value := raw |}));
                     wake (E:=Eb) (query_progressed id r) : M unit) b in
    o = Done tt ∧
    trace b' = trace b ++ [EGetRecord dkey; ECommandEvent (Some (external_addresses (Env:=Ea) (trace a)))].
Proof.
  intros Hbyos Ha Hda Hd Hno Hdate Hr dkey.
  destruct (put_record_run (E:=Ea) a Ha Hda) as (raw & sm & Hrun & Hdec & Hv & Hm).
  exists raw. split; [exact Hrun|]. intros id.
  set (b1 := (ask_kademlia_get_record (E:=Eb) (own_target (E:=Ea) a) b).1).
  assert (wake (E:=Eb) (WCommand (FindMultiaddr (own_target (E:=Ea) a))) b = (b1, Done tt)) as Hw1 by done.
  rewrite (bind_done _ _ _ _ _ Hw1).
  set (rec := {| kr_key := dkey; kr_value := raw |}).
  pose proof (handle_found_record_run (E:=Eb) id rec b1 [] Hd Hno (lookup_insert_eq _ _ _)) as Hf.
  change (wake (E:=Eb) (query_progressed id (GetRecordFound rec))) with (handle_found_record (E:=Eb) id rec).
  unfold mbind, stM_bind. destruct (handle_found_record (E:=Eb) id rec b1) as [b2 o2].
  destruct Hf as (-> & _ & Ht2 & Hm2). cbn [valid_found kr_value rec] in Hm2. rewrite Hdec in Hm2.
  rewrite decide_True in Hm2.
  2: { unfold valid_record. rewrite Hm. split_and!; [done|by apply own_target_matches|done..]. }
  assert (wake (E:=Eb) (query_progressed id r) = finish_looking_for_dht_record id) as ->
    by (by destruct Hr as [-> | [-> | ->]]).
  unfold finish_looking_for_dht_record. run_simpl. rewrite Hm2, lookup_insert_eq.
  cbn [max_by_date app foldl]. run_simpl. split; [done|]. simpl. rewrite Ht2, Hm. simpl.
  by rewrite <-app_assoc.
Qed.
End EndToEnd.

(** ** Examples: toy nodes 3 and 5, which have met *)

Section EndToEndExamples.
#[local] Existing Instances Toy.platform Toy.platform_laws ToyNode.queue_inst.

Definition env_of (k : nat) : Env := ToyNode.env_at (100 + k) true.
(** Node [k], to which peer [100 + peer] has proved key [peer]. *)
Definition met (k peer : nat) : P2P :=
  upd_setup (on_connection_handler_event ((100 + peer)%nat : PeerId) (0%nat : ConnectionId)
               (HAppKeyReceived (peer : PublicKey))) (ToyNode.node_of_key k peer).

Lemma toy_encodes : Encodes.
Proof. split; [by eexists|by vm_compute]. Qed.

Lemma toy_able k peer : able (E:=env_of k) (met k peer).
Proof.
  split; [intros b s; apply (transport_signer_signs (P:=Toy.platform) k)|]. intros b. simpl.
  unfold bytes64_try_from. destruct (decide _) as [|Hl]; [by eexists|].
  destruct Hl. apply Toy.sign_length.
Qed.
Lemma toy_datable k n : (n < 100)%nat → datable (E:=env_of k) n.
Proof.
  intros Hn. unfold datable, is_u64. simpl. rewrite as_secs_from_secs.
  unfold from_secs, nanos_per_sec, u64_max. lia.
Qed.

Definition toy_bytes : bytes := [Byte.x68; Byte.x69].

Lemma gossip_crosses_witness :
  ∃ raw, trace (wake (E:=env_of 3) (WGossipCommand toy_bytes) (met 3 5)).1 = [EPublish "strata" raw] ∧
    trace (wake (E:=env_of 5) (WSwarm (SwarmBehaviour (BGossipsub
      (GossipMessageEvent (107%nat : PeerId) (1%nat : MessageId) raw)))) (met 5 3)).1
    = [EReport (1%nat : MessageId) (107%nat : PeerId) Accept; EGossipEvent toy_bytes].
Proof.
  destruct (gossip_crosses toy_encodes (env_of 3) (env_of 5) (met 3 5) (met 5 3) toy_bytes
    (107%nat : @PeerId Toy.platform) (1%nat : @MessageId Toy.platform)) as (raw & Hrun & Hb).
  - apply toy_able.
  - apply toy_datable. simpl. lia.
  - split; vm_compute; discriminate.
  - vm_compute. discriminate.
  - intros [Hb _]. discriminate Hb.
  - intros _. by apply elem_of_singleton.
  - split; vm_compute; discriminate.
  - exists raw. split; [by rewrite Hrun|]. destruct_run Hb b' o. exact (proj1 Hb).
Defined.

Definition toy_command : RequestResponseCommand :=
  {| rrc_target := TargetAppPublicKey (5%nat : PublicKey); rrc_data := toy_bytes |}.

Lemma toy_passes k peer date msg :
  date = 1000 ∨ date = 1002 → passes (E:=env_of k) (met k peer) ((100 + peer)%nat : PeerId) (peer : PublicKey) date msg.
Proof.
  intros Hdate. split.
  - split; vm_compute; discriminate.
  - vm_compute. discriminate.
  - intros [Hb _]. discriminate Hb.
  - intros _. split; [by apply elem_of_singleton|apply lookup_insert_eq].
  - destruct Hdate as [-> | ->]; vm_compute; discriminate.
  - reflexivity.
  - destruct Hdate as [-> | ->]; vm_compute; discriminate.
Qed.

Lemma request_roundtrip_witness :
  ∃ request response,
    trace (wake (E:=env_of 3) (WReqRespCommand toy_command) (met 3 5)).1
      = [ESendRequest (105%nat : PeerId) request] ∧
    trace (wake (E:=env_of 5) (WSwarm (SwarmBehaviour (BRequestResponse
        (RRMessage (103%nat : PeerId) (Request request (9%nat : ResponseChannel)))))) (met 5 3)).1
      = [EReqRespEvent (ReceivedRequest toy_bytes); ESendResponse (9%nat : ResponseChannel) response] ∧
    trace (wake (E:=env_of 3) (WSwarm (SwarmBehaviour (BRequestResponse
        (RRMessage (105%nat : PeerId) (Response response))))) (met 3 5)).1
      = [EReqRespEvent (ReceivedResponse toy_bytes)].
Proof.
  destruct (request_roundtrip toy_encodes (env_of 3) (env_of 5) (met 3 5) (met 5 3) toy_command
    (9%nat : @ResponseChannel Toy.platform) toy_bytes) as (request & Hrun & response & b' & Hb & Ht & Ha).
  - apply toy_able.
  - apply toy_datable. simpl. lia.
  - apply lookup_insert_eq.
  - reflexivity.
  - apply (toy_passes 5 3). by left.
  - reflexivity.
  - reflexivity.
  - apply toy_able.
  - apply toy_datable. simpl. lia.
  - exists request, response. split; [by rewrite Hrun|].
    split; [exact (eq_trans (f_equal (λ x, trace x.1) Hb) Ht)|].
    refine (Ha (met 3 5) _). apply (toy_passes 3 5). by right.
Defined.

Lemma record_crosses_witness :
  ∃ dkey raw, trace (wake (E:=env_of 3) WRepublish (met 3 5)).1 = [EPutRecord dkey raw] ∧
    trace ((_ ← wake (E:=env_of 5) (WCommand (FindMultiaddr (TargetAppPublicKey (3%nat : PublicKey))));
            _ ← wake (E:=env_of 5) (query_progressed (0%nat : QueryId)
                  (GetRecordFound {| kr_key := dkey; kr_value := raw |}));
            wake (E:=env_of 5) (query_progressed (0%nat : QueryId) GetRecordTimeout) : M unit) (met 5 3)).1
    = [EGetRecord dkey; ECommandEvent (Some [])].
Proof.
  destruct (record_crosses toy_encodes (env_of 3) (env_of 5) (met 3 5) (met 5 3) GetRecordTimeout)
    as (raw & Hrun & Hb).
  - reflexivity.
  - apply toy_able.
  - apply toy_datable. simpl. lia.
  - split; vm_compute; discriminate.
  - vm_compute. discriminate.
  - split; [discriminate|split; [vm_compute; discriminate|split; vm_compute; discriminate]].
  - by right; left.
  - eexists _, raw. split; [by rewrite Hrun|]. cbv zeta in Hb.
    assert (∀ (r : P2P * outcome SwarmError unit) l,
      (let '(b', o) := r in o = Done tt ∧ trace b' = l) → trace r.1 = l) as Hrun2 by (by intros [] l []).
    exact (Hrun2 _ _ Hb).
Defined.
End EndToEndExamples.
