(* ===== verification/Dht.v ===== *)
(** * The DHT over time

    [Kad] describes the handlers one by one; here are their effects along a run
    of the event loop: lookups that are under way at the same time refine a
    table of independent lookups, the node's own record is republished by a
    single chain of puts and timers, and what the default settings make of a
    record's age. *)

From S2P Require Import Prelude Time Float64 Platform Message Scores Validator Errors Setup Config Dial Node Scoring Gossip ReqResp Kad Conn Commands Listen Footprint.
Open Scope Z_scope.

(** ** Lookups, abstractly *)

Section LookupSpec.
Context {P : Platform}.

(** A lookup is asked, finds valid records, and finishes. *)
Inductive LookupEvent : Type :=
  | LAsk (id : QueryId)
  | LFound (id : QueryId) (record : SignedRecord)
  | LFinish (id : QueryId).

Definition lookup_id (e : LookupEvent) : QueryId :=
  match e with LAsk id | LFound id _ | LFinish id => id end.

Definition newest_addresses (records : list SignedRecord) : option (list Multiaddr) :=
  (λ r, rd_multiaddresses (message r)) <$> max_by_date records.

Abbreviation Table := (gmap QueryId (list SignedRecord)).

(** An answer, and the lookup it answers. *)
Definition spec_lookup (e : LookupEvent) (m : Table)
    : Table * list (QueryId * option (list Multiaddr)) :=
  match e with
  | LAsk id => (<[id := []]> m, [])
  | LFound id r => (alter (λ l, l ++ [r]) id m, [])
  | LFinish id =>
      match m !! id with
      | Some records => (delete id m, [(id, newest_addresses records)])
      | None => (m, [])
      end
  end.

Fixpoint spec_lookups (log : list LookupEvent) (m : Table)
    : Table * list (QueryId * option (list Multiaddr)) :=
  match log with
  | [] => (m, [])
  | e :: log =>
      let '(m1, a1) := spec_lookup e m in
      let '(m2, a2) := spec_lookups log m1 in (m2, a1 ++ a2)
  end.

Lemma spec_lookups_app log1 log2 m :
  spec_lookups (log1 ++ log2) m
  = ((spec_lookups log2 (spec_lookups log1 m).1).1,
     (spec_lookups log1 m).2 ++ (spec_lookups log2 (spec_lookups log1 m).1).2).
Proof.
  revert m. induction log1 as [|e log1 IH]; intros m; simpl; [by destruct (spec_lookups log2 m)|].
  destruct (spec_lookup e m) as [m1 a1]. rewrite IH. destruct (spec_lookups log1 m1) as [m2 a2].
  simpl. by rewrite app_assoc.
Qed.

(** The events and answers of one lookup. *)
Definition about (id : QueryId) (log : list LookupEvent) : list LookupEvent :=
  filter (λ e, lookup_id e = id) log.
Definition answers_to (id : QueryId) {A} (l : list (QueryId * A)) : list (QueryId * A) :=
  filter (λ a, a.1 = id) l.

Lemma spec_lookup_other e m id :
  lookup_id e ≠ id →
  (spec_lookup e m).1 !! id = m !! id ∧ answers_to id (spec_lookup e m).2 = [].
Proof.
  destruct e as [i|i r|i]; simpl; intros Hi.
  - by rewrite lookup_insert_ne.
  - by rewrite lookup_alter_ne.
  - destruct (m !! i); simpl; [|done]. rewrite lookup_delete_ne by done.
    split; [done|]. unfold answers_to. by rewrite filter_cons_False, filter_nil.
Qed.

Lemma spec_lookup_same e m m' id :
  lookup_id e = id → m !! id = m' !! id →
  (spec_lookup e m).1 !! id = (spec_lookup e m').1 !! id ∧
  answers_to id (spec_lookup e m).2 = (spec_lookup e m').2.
Proof.
  intros <- Hm. destruct e as [i|i r|i]; simpl in *.
  - by rewrite !lookup_insert_eq.
  - by rewrite !lookup_alter_eq, Hm.
  - rewrite <-Hm. destruct (m !! i) eqn:Hi; simpl; [|by rewrite Hi, <-Hm]. rewrite !lookup_delete_eq.
    split; [done|]. unfold answers_to. by rewrite filter_cons_True, filter_nil.
Qed.

(** What becomes of a lookup depends on its own events only. *)
Lemma spec_lookups_independent id log m m' :
  m !! id = m' !! id →
  (spec_lookups log m).1 !! id = (spec_lookups (about id log) m').1 !! id ∧
  answers_to id (spec_lookups log m).2 = (spec_lookups (about id log) m').2.
Proof.
  revert m m'. induction log as [|e log IH]; intros m m' Hm; simpl; [done|].
  unfold about. destruct (decide (lookup_id e = id)) as [He|He].
  - rewrite filter_cons_True by done. simpl.
    destruct (spec_lookup_same e m m' id He Hm) as [H1 H2].
    destruct (spec_lookup e m) as [m1 a1], (spec_lookup e m') as [m1' a1']. simpl in *.
    destruct (IH m1 m1' H1) as [H3 H4]. unfold about in H3, H4.
    destruct (spec_lookups log m1), (spec_lookups _ m1'). simpl in *.
    unfold answers_to in *. by rewrite filter_app, H2, H4.
  - rewrite filter_cons_False by done. destruct (spec_lookup_other e m id He) as [H1 H2].
    destruct (spec_lookup e m) as [m1 a1]. simpl in *.
    destruct (IH m1 m' ltac:(congruence)) as [H3 H4]. unfold about in H3, H4.
    destruct (spec_lookups log m1). simpl in *.
    unfold answers_to in *. by rewrite filter_app, H2, H4.
Qed.

(** A lookup from beginning to end. *)
Definition whole_lookup (id : QueryId) (records : list SignedRecord) : list LookupEvent :=
  LAsk id :: map (LFound id) records ++ [LFinish id].

Lemma spec_founds id records l m :
  m !! id = Some l →
  spec_lookups (map (LFound id) records) m = (<[id := l ++ records]> m, []).
Proof.
  revert l m. induction records as [|r records IH]; intros l m Hm; simpl.
  { by rewrite app_nil_r, insert_id. }
  rewrite (IH (l ++ [r])) by (by rewrite lookup_alter_eq, Hm). f_equal.
  apply map_eq. intros j. destruct (decide (j = id)) as [->|].
  - by rewrite !lookup_insert_eq, <-app_assoc.
  - by rewrite !lookup_insert_ne, lookup_alter_ne.
Qed.

Lemma spec_whole_lookup id records m :
  spec_lookups (whole_lookup id records) m
  = (delete id m, [(id, newest_addresses records)]).
Proof.
  unfold whole_lookup. cbn [spec_lookups spec_lookup].
  rewrite spec_lookups_app, (spec_founds _ _ []) by apply lookup_insert_eq. simpl.
  rewrite lookup_insert_eq. simpl. by rewrite insert_insert_eq, delete_insert_eq.
Qed.
End LookupSpec.

(** ** The node's lookups *)

Section Lookups.
Context {P : Platform} {Q : Queue Multiaddr} {E : Env}.

(** The answers handed to the application; they do not say to which lookup. *)
Definition answers (tr : list Effect) : list (option (list Multiaddr)) :=
  omap (λ e, match e with ECommandEvent a => Some a | _ => None end) tr.

(** What a wake-up in state [s] means for the lookups. *)
Definition lookup_events (s : P2P) (w : Wakeup) : list LookupEvent :=
  match w with
  | WCommand (FindMultiaddr target) => [LAsk (get_record (trace s) (dht_key target))]
  | WSwarm (SwarmBehaviour (BKademlia (OutboundQueryProgressed id r))) =>
      match r with
      | GetRecordFound record =>
          match from_slice (kr_value record) with
          | Some sm =>
              if decide (valid_record s (clock (ticks s)) (kr_key record) sm)
              then [LFound id sm] else []
          | None => []
          end
      | GetRecordFinished | GetRecordTimeout | GetRecordNotFound => [LFinish id]
      | _ => []
      end
  | _ => []
  end.

Fixpoint lookup_log (s : P2P) (ws : list Wakeup) : list LookupEvent :=
  match ws with
  | [] => []
  | w :: ws => lookup_events s w ++ lookup_log (wake w s).1 ws
  end.

(** The addresses of one of the newest of [records]; none when there is none. *)
Definition newest_of (records : list SignedRecord) (answer : option (list Multiaddr)) : Prop :=
  match answer with
  | None => records = []
  | Some addrs => ∃ best, best ∈ records ∧ addrs = rd_multiaddresses (message best) ∧
      ∀ r, r ∈ records → rd_date (message r) ≤ rd_date (message best)
  end.

Lemma newest_addresses_newest records : newest_of records (newest_addresses records).
Proof.
  unfold newest_of, newest_addresses. pose proof (max_by_date_spec records) as Hmax.
  destruct (max_by_date records) as [best|] eqn:Hb; simpl; [|by destruct records].
  destruct (Hmax best eq_refl). by exists best.
Qed.

(** The effect of a state change on the lookups. *)
Definition looks (log : list LookupEvent) (s s' : P2P) : Prop :=
  let '(m, a) := spec_lookups log (kademlia_map_received_records s) in
  kademlia_map_received_records s' = m ∧ answers (trace s') = answers (trace s) ++ map snd a.

Lemma looks_app log1 log2 s1 s2 s3 :
  looks log1 s1 s2 → looks log2 s2 s3 → looks (log1 ++ log2) s1 s3.
Proof.
  unfold looks. rewrite spec_lookups_app.
  destruct (spec_lookups log1 _) as [m1 a1]. simpl. intros [-> H1].
  destruct (spec_lookups log2 m1) as [m2 a2]. intros [-> H2]. simpl.
  by rewrite H2, H1, map_app, app_assoc.
Qed.

(** A wake-up that neither writes the table nor answers. *)
Lemma within_looks F s s' :
  may_records F = false → (∀ a, may_emit F (ECommandEvent a) = false) →
  within F s s' → looks [] s s'.
Proof.
  intros Hr He H. unfold looks. simpl. rewrite app_nil_r. split; [by apply H|].
  destruct (wi_trace _ _ _ H) as (l & -> & Hl). unfold answers. rewrite omap_app.
  rewrite <-(app_nil_r (omap _ (trace s))) at 2. f_equal.
  induction Hl as [|e l Hx _ IH]; [done|]. simpl. destruct e; try exact IH. by rewrite He in Hx.
Qed.

Lemma looks_quiet s s' :
  kademlia_map_received_records s' = kademlia_map_received_records s →
  answers (trace s') = answers (trace s) → looks [] s s'.
Proof. intros Hm Ha. unfold looks. simpl. by rewrite app_nil_r. Qed.

Lemma answers_app l1 l2 : answers (l1 ++ l2) = answers l1 ++ answers l2.
Proof. apply omap_app. Qed.

Lemma within_settings F s s' :
  within F s s' → max_clock_skew (config s') = max_clock_skew (config s) ∧
    envelope_max_age (config s') = envelope_max_age (config s).
Proof.
  intros H. destruct (wi_config _ _ _ H) as (addrs & -> & _).
  split; [apply (push_all_setting max_clock_skew)|apply (push_all_setting envelope_max_age)]; by intros a [].
Qed.

Lemma looks_found id r s :
  durations_ok (config s) → no_overflow s (clock (ticks s)) →
  looks (lookup_events s (WSwarm (SwarmBehaviour (BKademlia (OutboundQueryProgressed id (GetRecordFound r))))))
    s (handle_found_record id r s).1.
Proof.
  intros Hd Hno. unfold lookup_events, looks.
  destruct (kademlia_map_received_records s !! id) as [l|] eqn:Hl.
  - pose proof (handle_found_record_run id r s l Hd Hno Hl) as Hr.
    destruct (handle_found_record id r s) as [s' o]. destruct Hr as (_ & _ & Ht & Hm). simpl.
    cbn [valid_found] in Hm. rewrite app_nil_r in Hm. rewrite Ht, Hm.
    assert (<[id := l]> (kademlia_map_received_records s) = kademlia_map_received_records s) as Hid
      by by apply insert_id.
    destruct (from_slice (kr_value r)) as [sm|]; [destruct (decide _)|]; simpl;
      rewrite ?app_nil_r, ?Hid; split; try done.
    apply map_eq. intros j. destruct (decide (j = id)) as [->|].
    + by rewrite lookup_insert_eq, lookup_alter_eq, Hl.
    + by rewrite lookup_insert_ne, lookup_alter_ne.
  - unfold handle_found_record. run_simpl. rewrite bool_decide_eq_false_2 by (rewrite Hl; by intros []).
    simpl. destruct (from_slice (kr_value r)) as [sm|]; [destruct (decide _)|]; simpl;
      rewrite ?app_nil_r; split; try done.
    symmetry. apply alter_id. congruence.
Qed.

Lemma looks_finish id s :
  looks [LFinish id] s (finish_looking_for_dht_record id s).1.
Proof.
  unfold looks, finish_looking_for_dht_record. run_simpl. simpl.
  destruct (kademlia_map_received_records s !! id) as [records|]; simpl.
  2: { by rewrite app_nil_r. }
  unfold newest_addresses, answers.
  destruct (max_by_date records); simpl; by rewrite omap_app.
Qed.

Ltac quiet :=
  apply looks_quiet; [done|]; first [done | simpl; rewrite answers_app; apply app_nil_r].

Lemma wake_looks w s :
  durations_ok (config s) → no_overflow s (clock (ticks s)) →
  looks (lookup_events s w) s (wake w s).1.
Proof.
  intros Hd Hno.
  assert (may_records (footprint w) = false → (∀ a, may_emit (footprint w) (ECommandEvent a) = false) →
    looks [] s (wake w s).1) as Hother.
  { intros Hr He. eapply within_looks; [exact Hr|exact He|apply wake_within]. }
  destruct w as [|[[e|e|e|[r|id r| |]|p l|]|[]|]|i| |[| | | | |target]|d|c|];
    try (apply Hother; done).
  - eapply within_looks; [..|apply fp_put_record]; done.
  - destruct r; try (by apply looks_found); try apply looks_finish; quiet.
  - unfold wake. simpl. run_simpl. destruct (kademlia_is_routing_updated_first_time s);
      quiet.
  - quiet.
  - unfold looks. simpl. unfold answers. by rewrite omap_app.
Qed.

(** The settings that the lookups depend on hold all along a run. *)
Lemma wake_settings w s :
  durations_ok (config s) → (∀ n, no_overflow s (clock n)) →
  durations_ok (config (wake w s).1) ∧ (∀ n, no_overflow (wake w s).1 (clock n)).
Proof.
  intros Hd Hno. destruct (within_settings _ _ _ (wake_within w s)) as [Hs Ha].
  unfold durations_ok, no_overflow in *. by rewrite Hs, Ha.
Qed.

Lemma step_state l w l' :
  listen_step l w l' → ∃ s, l = Running s ∧ loop_state l' = (wake w s).1.
Proof. intros H. destruct H as [s|w s s' _ H|w s s' e _ H|w s s' _ H]; exists s; by rewrite ?H. Qed.

Lemma run_looks s ws l :
  durations_ok (config s) → (∀ n, no_overflow s (clock n)) →
  listen_run (Running s) ws l → looks (lookup_log s ws) s (loop_state l).
Proof.
  intros Hd Hno Hrun. remember (Running s) as l0 eqn:Hl0. revert s Hl0 Hd Hno.
  induction Hrun as [l0|l1 w l2 ws l3 Hstep Hrun IH]; intros s -> Hd Hno; [by apply looks_quiet|].
  apply step_state in Hstep as Hst. destruct Hst as (s1 & [= <-] & Hst). cbn [lookup_log].
  destruct (wake_settings w s Hd Hno) as [Hd' Hno'].
  apply (looks_app _ _ _ (wake w s).1); [by apply wake_looks|].
  destruct l2 as [s2|s2|s2]; simpl in Hst; subst s2; [by apply IH|..];
    (inversion Hrun as [|? ? ? ? ? Hbad]; subst; [by apply looks_quiet|inversion Hbad]).
Qed.

(** C13. Lookups under way at the same time: along any run of the event loop,
    whatever else the node does, its lookups behave as a table of independent
    ones ([spec_lookups]); the application gets the table's answers, in order,
    and nothing else; and a lookup that is asked, finds the valid records
    [records] and finishes (by completion, timeout or not-found), in any
    interleaving with the others, is answered exactly once, with the addresses
    of a newest one of its own records, or with nothing if it has none, and is
    then forgotten.  (An answer does not say which lookup it answers; the tag is the
    specification's.) *)
Theorem lookups_are_independent s ws l :
  durations_ok (config s) → (∀ n, no_overflow s (clock n)) →
  listen_run (Running s) ws l →
  let log := lookup_log s ws in
  let '(table, answered) := spec_lookups log (kademlia_map_received_records s) in
  kademlia_map_received_records (loop_state l) = table ∧
  answers (trace (loop_state l)) = answers (trace s) ++ map snd answered ∧
  ∀ id records, about id log = whole_lookup id records →
    table !! id = None ∧
    ∃ answer, answers_to id answered = [(id, answer)] ∧ newest_of records answer.
Proof.
  intros Hd Hno Hrun log. pose proof (run_looks s ws l Hd Hno Hrun) as Hl.
  unfold looks in Hl. fold log in Hl.
  pose proof (λ id, spec_lookups_independent id log (kademlia_map_received_records s) _ eq_refl) as Hind.
  destruct (spec_lookups log _) as [table answered]. destruct Hl as [Hm Ha].
  split_and!; [done|done|]. intros id records Habout. destruct (Hind id) as [Ht Hans].
  rewrite Habout, spec_whole_lookup in Ht, Hans. simpl in *.
  split; [rewrite Ht; apply lookup_delete_eq|].
  eexists. split; [exact Hans|apply newest_addresses_newest].
Qed.
End Lookups.

(** ** Republishing the node's own record *)

Section Republish.
Context {P : Platform} {Q : Queue Multiaddr} {E : Env}.

(** A republication ahead: in the stream, or waiting for its timer. *)
Definition schedules (e : Effect) : bool :=
  match e with ERepublish | ERepublishAfter _ => true | _ => false end.
(** A put handed to libp2p. *)
Definition puts (e : Effect) : bool := match e with EPutRecord _ _ => true | _ => false end.

Definition count (X : Effect → bool) (tr : list Effect) : nat := length (filter (λ e, X e = true) tr).

(** The puts among the effects [new], which come after [tr], that libp2p accepts
    as queries (its store may refuse the record at once). *)
Definition put_begins (tr : list Effect) (e : Effect) : bool :=
  match e with
  | EPutRecord k v => match put_record tr k v with Ok _ => true | Err _ => false end
  | _ => false
  end.
Fixpoint begun_after (tr new : list Effect) : nat :=
  match new with
  | [] => 0
  | e :: new => Nat.b2n (put_begins tr e) + begun_after (tr ++ [e]) new
  end.
Definition begun (tr : list Effect) : nat := begun_after [] tr.

(** The end of a put query, as the node tells it. *)
Definition put_result (w : Wakeup) : bool :=
  match w with
  | WSwarm (SwarmBehaviour (BKademlia (OutboundQueryProgressed _
      (PutRecordOk | PutRecordTimeout | PutRecordQuorumFailed)))) => true
  | _ => false
  end.
Definition republish_due (w : Wakeup) : bool := match w with WRepublish => true | _ => false end.

(** What is ahead ([due]) and under way ([flying]). *)
Record Chain : Type := { due : nat; flying : nat }.

Definition chain_step (s : P2P) (w : Wakeup) (c : Chain) : Chain :=
  let s' := (wake w s).1 in
  {| due := due c + count schedules (trace s') - count schedules (trace s)
            - Nat.b2n (republish_due w);
     flying := flying c + begun (trace s') - begun (trace s) - Nat.b2n (put_result w) |}.

(** libp2p's and tokio's part: a message arrives only if one was scheduled, and
    a put query ends at most once. *)
Definition chain_allows (w : Wakeup) (c : Chain) : Prop :=
  (republish_due w = true → (0 < due c)%nat) ∧ (put_result w = true → (0 < flying c)%nat).

Fixpoint chain_paced (s : P2P) (c : Chain) (ws : list Wakeup) : Prop :=
  match ws with
  | [] => True
  | w :: ws => chain_allows w c ∧ chain_paced (wake w s).1 (chain_step s w c) ws
  end.

Fixpoint chain_run (s : P2P) (c : Chain) (ws : list Wakeup) : P2P * Chain :=
  match ws with
  | [] => (s, c)
  | w :: ws => chain_run (wake w s).1 (chain_step s w c) ws
  end.

(** The first [RoutingUpdated], which starts the chain. *)
Definition starts (s : P2P) (w : Wakeup) : bool :=
  match w with
  | WSwarm (SwarmBehaviour (BKademlia RoutingUpdated)) => kademlia_is_routing_updated_first_time s
  | _ => false
  end.

Lemma begun_app l1 l2 : begun (l1 ++ l2) = (begun l1 + begun_after l1 l2)%nat.
Proof.
  unfold begun. enough (∀ tr, begun_after tr (l1 ++ l2)
    = (begun_after tr l1 + begun_after (tr ++ l1) l2)%nat) as H by apply H.
  induction l1 as [|e l1 IH]; intros tr; simpl; [by rewrite app_nil_r|].
  rewrite IH, <-app_assoc. simpl. lia.
Qed.

(** Only puts are begun. *)
Lemma begun_after_none tr l : Forall (λ e, puts e = false) l → begun_after tr l = 0%nat.
Proof.
  intros Hl. revert tr. induction Hl as [|e l He _ IH]; intros tr; [done|].
  simpl. rewrite IH. by destruct e.
Qed.

Lemma within_begun F s s' :
  (∀ e, may_emit F e = true → puts e = false) → within F s s' → begun (trace s') = begun (trace s).
Proof.
  intros HF H. destruct (wi_trace _ _ _ H) as (l & -> & Hl). rewrite begun_app.
  rewrite begun_after_none; [lia|]. eapply Forall_impl; [exact Hl|]. intros e. apply HF.
Qed.

Lemma count_app X l1 l2 : count X (l1 ++ l2) = (count X l1 + count X l2)%nat.
Proof. unfold count. by rewrite filter_app, length_app. Qed.

Lemma within_count F X s s' :
  (∀ e, may_emit F e = true → X e = false) → within F s s' →
  count X (trace s') = count X (trace s).
Proof.
  intros HX H. destruct (wi_trace _ _ _ H) as (l & -> & Hl). rewrite count_app.
  enough (count X l = 0%nat) by lia. induction Hl as [|e l He _ IH]; [done|].
  unfold count in *. rewrite filter_cons_False by (rewrite HX; done). exact IH.
Qed.

Lemma put_record_trace s :
  trace (ask_kademlia_put_record s).1 = trace s ∨
  ∃ k v, trace (ask_kademlia_put_record s).1 = trace s ++ [EPutRecord k v].
Proof.
  unfold ask_kademlia_put_record. run_simpl.
  destruct (RecordData_new _ _ _) as [m|]; [|by left]. cbn [or_panic]. run_simpl.
  destruct (SignedMessage_new m _) as [sm|]; [|by left].
  destruct (to_vec sm) as [raw|]; [|by left]. right. by repeat eexists.
Qed.

(** A wake-up puts at most [put] records, schedules [sched] republications and
    clears the first-time flag if [start]. *)
Definition chain_moves (put sched start : bool) (s s' : P2P) : Prop :=
  (count puts (trace s) ≤ count puts (trace s') ≤ count puts (trace s) + Nat.b2n put)%nat ∧
  (begun (trace s) ≤ begun (trace s') ≤ begun (trace s) + Nat.b2n put)%nat ∧
  count schedules (trace s') = (count schedules (trace s) + Nat.b2n sched)%nat ∧
  kademlia_is_routing_updated_first_time s'
    = kademlia_is_routing_updated_first_time s && negb start.

Lemma within_chain F s s' :
  (∀ e, may_emit F e = true → puts e = false ∧ schedules e = false) →
  may_first_time F = false → within F s s' → chain_moves false false false s s'.
Proof.
  intros HF Hf H. unfold chain_moves. rewrite andb_true_r.
  rewrite (within_begun F s s'), (within_count F puts s s'), (within_count F schedules s s'), (wi_first_time _ _ _ H Hf);
    try done; [|by apply HF..]. split_and!; simpl; lia || done.
Qed.

Lemma wake_chain w s :
  chain_moves (republish_due w) (put_result w || starts s w) (starts s w) s (wake w s).1.
Proof.
  assert ((∀ e, may_emit (footprint w) e = true → puts e = false ∧ schedules e = false) →
    may_first_time (footprint w) = false → chain_moves false false false s (wake w s).1) as Hother.
  { intros He Hf. apply (within_chain (footprint w)); [done|done|apply wake_within]. }
  destruct w as [|[[e|e|e|[r|id r| |]|p l|]|[]|]|i| |[| | | | |]|d|c|];
    try (apply Hother; [by intros []|done]).
  - eapply within_chain; [..|apply fp_put_record]; [by intros []|done].
  - destruct r; try (eapply within_chain; [..|apply fp_found_record || apply fp_finish_looking];
      [by intros []|done]);
    (unfold chain_moves; simpl; rewrite ?count_app, ?begun_app, andb_true_r; split_and!; unfold count; simpl; lia || done).
  - unfold chain_moves, wake. simpl. run_simpl.
    destruct (kademlia_is_routing_updated_first_time s) eqn:Hf; simpl; rewrite ?count_app, ?begun_app, ?Hf;
      split_and!; unfold count; simpl; lia || done.
  - unfold chain_moves. simpl. rewrite andb_true_r. split_and!; lia || done.
  - pose proof (wake_within WRepublish s) as Hw. unfold chain_moves.
    assert (∀ e, may_emit (footprint WRepublish) e = true → schedules e = false) as He by (by intros []).
    rewrite (within_count _ _ _ _ He Hw), (wi_first_time _ _ _ Hw eq_refl).
    cbn [wake]. destruct (put_record_trace s) as [->|(k & v & ->)]; rewrite ?count_app, ?begun_app, andb_true_r;
      simpl; try destruct (put_record _ k v); split_and!; unfold count; simpl; lia || done.
Qed.

Lemma chain_run_state s ws l c :
  listen_run (Running s) ws l → (chain_run s c ws).1 = loop_state l.
Proof.
  intros Hrun. remember (Running s) as l0 eqn:Hl0. revert s c Hl0.
  induction Hrun as [l0|l1 w l2 ws l3 Hstep Hrun IH]; intros s c ->; [done|].
  apply step_state in Hstep as (s1 & [= <-] & Hst). cbn [chain_run].
  destruct l2 as [s2|s2|s2]; simpl in Hst; subst s2; [by apply IH|..];
    (inversion Hrun as [|? ? ? ? ? Hbad]; subst; [done|inversion Hbad]).
Qed.

(** One chain at most, and none before it is started. *)
Definition one_chain (s : P2P) (c : Chain) : Prop :=
  (due c + flying c ≤ 1)%nat ∧
  (kademlia_is_routing_updated_first_time s = true → (due c + flying c)%nat = 0%nat).

(** Every republication that falls due puts a record, and libp2p accepts it. *)
Fixpoint every_put (s : P2P) (ws : list Wakeup) : Prop :=
  match ws with
  | [] => True
  | w :: ws =>
      (republish_due w = true → begun (trace (wake w s).1) = S (begun (trace s))) ∧
      every_put (wake w s).1 ws
  end.

Lemma chain_step_ok s w c :
  one_chain s c → chain_allows w c →
  let s' := (wake w s).1 in let c' := chain_step s w c in
  one_chain s' c' ∧
  (kademlia_is_routing_updated_first_time s' = true → count puts (trace s') = count puts (trace s)) ∧
  ((republish_due w = true → begun (trace s') = S (begun (trace s))) →
   kademlia_is_routing_updated_first_time s' = false →
   (kademlia_is_routing_updated_first_time s = false → (due c + flying c)%nat = 1%nat) →
   (due c' + flying c')%nat = 1%nat) ∧
  (kademlia_is_routing_updated_first_time s = false → (due c + flying c)%nat = 0%nat →
   (due c' + flying c')%nat = 0%nat ∧ count puts (trace s') = count puts (trace s) ∧
   kademlia_is_routing_updated_first_time s' = false).
Proof.
  intros [Hle Hfirst] [Hdue Hfly] s' c'.
  destruct (wake_chain w s) as (Hput & Hbegun & Hsched & Hft). fold s' in Hput, Hbegun, Hsched, Hft.
  assert (due c' = due c + count schedules (trace s') - count schedules (trace s)
            - Nat.b2n (republish_due w))%nat as Hd' by done.
  assert (flying c' = flying c + begun (trace s') - begun (trace s)
            - Nat.b2n (put_result w))%nat as Hf' by done.
  assert (starts s w = true → kademlia_is_routing_updated_first_time s = true ∧
            republish_due w = false ∧ put_result w = false) as Hstart
    by (destruct w as [|[[e|e|e|[r|id r| |]|p l|]|e|]|i| |cmd|d|cmd|]; simpl; naive_solver).
  assert (republish_due w = true → put_result w = false) as Hexcl
    by (by destruct w as [|[[e|e|e|[r|id r| |]|p l|]|e|]|i| |cmd|d|cmd|]).
  unfold one_chain. rewrite Hft, Hd', Hf'. clear Hd' Hf' c'. clearbody s'.
  destruct (republish_due w), (put_result w), (starts s w),
    (kademlia_is_routing_updated_first_time s); simpl in *; 
    repeat match goal with
           | H : true = true → _ |- _ => specialize (H eq_refl)
           | H : _ ∧ _ |- _ => destruct H
           end; try done; split_and!; intros; try done; try lia.
Qed.

Lemma chain_run_ok s ws c :
  one_chain s c → chain_paced s c ws →
  let '(s', c') := chain_run s c ws in
  one_chain s' c' ∧
  (kademlia_is_routing_updated_first_time s = false →
   kademlia_is_routing_updated_first_time s' = false) ∧
  (kademlia_is_routing_updated_first_time s' = true → count puts (trace s') = count puts (trace s)) ∧
  (every_put s ws → kademlia_is_routing_updated_first_time s' = false →
   (kademlia_is_routing_updated_first_time s = false → (due c + flying c)%nat = 1%nat) →
   (due c' + flying c')%nat = 1%nat) ∧
  (kademlia_is_routing_updated_first_time s = false → (due c + flying c)%nat = 0%nat →
   count puts (trace s') = count puts (trace s)).
Proof.
  revert s c. induction ws as [|w ws IH]; intros s c Hone; [naive_solver|].
  intros [Hallow Hpaced]. cbn [chain_run every_put].
  destruct (chain_step_ok s w c Hone Hallow) as (Hone' & Hnone & Halive & Hdead).
  destruct (wake_chain w s) as (_ & _ & _ & Hft).
  specialize (IH _ _ Hone' Hpaced). destruct (chain_run _ _ ws) as [s' c'].
  destruct IH as (Hone'' & Hmono & Hnone' & Halive' & Hdead').
  assert (kademlia_is_routing_updated_first_time s = false →
    kademlia_is_routing_updated_first_time (wake w s).1 = false) as Hmono1 by (intros H; by rewrite Hft, H).
  split_and!; [done|by auto| | |].
  - intros H. destruct (kademlia_is_routing_updated_first_time (wake w s).1) eqn:H1.
    + rewrite Hnone', Hnone by done. done.
    + rewrite Hmono in H by done. done.
  - intros [Hput Hputs] H Hc. apply Halive'; [done|done|]. auto.
  - intros H0 H1. destruct (Hdead H0 H1) as (H2 & H3 & H4). rewrite Hdead' by done. done.
Qed.

(** C21. Republishing: however the events of a run interleave (as long as the
    stream and the timers deliver only what was scheduled and libp2p ends a put
    at most once), the node has at most one republication ahead or under way,
    so its puts never pile up, and it puts nothing before the first routing
    update; as long as every republication that falls due puts a record and
    libp2p accepts it, there is exactly one from then on, so the chain neither
    ends nor splits; but once a republication fails (the signer fails, say, or
    libp2p's store refuses the record, an error that the node drops), there is
    none, and the record is never put again: nothing restarts the chain. *)
Theorem republish_chain s ws l :
  let c0 := {| due := 0; flying := 0 |} in
  kademlia_is_routing_updated_first_time s = true →
  listen_run (Running s) ws l → chain_paced s c0 ws →
  let s' := loop_state l in let c := (chain_run s c0 ws).2 in
  (due c + flying c ≤ 1)%nat ∧
  (kademlia_is_routing_updated_first_time s' = true → count puts (trace s') = count puts (trace s)) ∧
  (every_put s ws → kademlia_is_routing_updated_first_time s' = false →
   (due c + flying c)%nat = 1%nat) ∧
  (kademlia_is_routing_updated_first_time s' = false → (due c + flying c)%nat = 0%nat →
   ∀ ws' l', listen_run l ws' l' → chain_paced s' c ws' →
     count puts (trace (loop_state l')) = count puts (trace s')).
Proof.
  intros c0 Hf Hrun Hpaced s' c.
  assert (one_chain s c0) as Hone by (by split; simpl; auto).
  pose proof (chain_run_ok s ws c0 Hone Hpaced) as Hok.
  pose proof (chain_run_state s ws l c0 Hrun) as Hs. fold s' in Hs. unfold c. clear c.
  destruct (chain_run s c0 ws) as [s1 c]. simpl in Hs |- *. subst s1.
  destruct Hok as (Hone' & _ & Hnone & Halive & _).
  split_and!; [apply Hone'|done| |].
  - intros Hputs H. apply Halive; [done..|]. rewrite Hf. done.
  - intros H0 H1 ws' l' Hrun' Hpaced'. unfold s' in *.
    destruct l as [s1|s1|s1]; simpl in *; [|inversion Hrun' as [|? ? ? ? ? Hbad]; subst; [done|inversion Hbad]..].
    pose proof (chain_run_ok s1 ws' c Hone' Hpaced') as Hok'.
    pose proof (chain_run_state s1 ws' l' c Hrun') as Hs'.
    destruct (chain_run s1 c ws') as [s2 c2]. simpl in Hs'. rewrite <-Hs'. by apply Hok'.
Qed.
End Republish.

(** ** The age of a record *)

Section Age.
Context {P : Platform} {L : PlatformLaws P} {Q : Queue Multiaddr}.

(** The record a node puts is dated by its clock. *)
Lemma put_record_date {E : Env} s key raw :
  0 ≤ clock (ticks s) → is_u64 (as_secs (clock (ticks s))) → signs_for (signer s) (own_key s) →
  trace (ask_kademlia_put_record s).1 = trace s ++ [EPutRecord key raw] →
  ∃ sm : SignedRecord, from_slice raw = Some sm ∧ rd_date (message sm) = as_secs (clock (ticks s)).
Proof.
  intros Hc Hu Hs. unfold ask_kademlia_put_record, RecordData_new, get_timestamp.
  run_simpl. rewrite duration_since_epoch by done. cbn [mbind option_bind or_panic]. run_simpl.
  cbn [signer tick]. set (m := {| rd_version := _ |}).
  destruct (SignedMessage_new m (signer s)) as [sm|] eqn:Hsm.
  2: { intros H. by apply (f_equal length) in H; rewrite length_app in H; simpl in H; lia. }
  destruct (to_vec sm) as [v|] eqn:Hraw.
  2: { intros H. by apply (f_equal length) in H; rewrite length_app in H; simpl in H; lia. }
  cbn [or_panic]. run_simpl. simpl. intros H. simplify_list_eq. exists sm.
  apply signed_message_verifies in Hsm as [Hm _]; [|done]. rewrite Hm. split; [|subst m; simpl; f_equal; lia].
  apply (signed_roundtrip sm); [|done]. rewrite Hm. by apply record_data_roundtrip.
Qed.

(** A record outside a node's window is neither found nor stored by it. *)
Lemma out_of_date_ignored {E : Env} s key raw sm :
  durations_ok (config s) → no_overflow s (clock (ticks s)) →
  from_slice raw = Some sm → ¬ date_ok s (clock (ticks s)) (rd_date (message (sm : SignedRecord))) →
  let r := {| kr_key := key; kr_value := raw |} in
  (∀ id, kademlia_map_received_records (handle_found_record id r s).1
           = kademlia_map_received_records s) ∧
  trace (handle_put_record (Some r) s).1 = trace s.
Proof.
  intros Hd Hno Hdec Hbad r.
  destruct (validate_record_date_run (rd_date (message sm)) s Hd Hno) as (s1 & rr & Hrun & Hu & Hr).
  destruct (untouched_same _ _ Hu) as (Ht & _ & _ & Hm). destruct rr as [[]|e]; [done|]. split.
  - intros id. pose proof (looks_found id r s Hd Hno) as Hl. unfold lookup_events, looks in Hl.
    simpl in Hl. rewrite Hdec, decide_False in Hl by (intros (_ & _ & ?); done). apply Hl.
  - unfold handle_put_record. simpl. rewrite Hdec.
    destruct (verify sm) as [[]|]; try done. cbn [negb]. by rewrite (bind_done _ _ _ _ _ Hrun).
Qed.

(** C23. Default settings: a record that node [a] puts is dated by [a]'s clock and
    is put again only an hour after libp2p reports success ([kad_record_ttl]);
    but from 300 s after its date on ([envelope_max_age]) every node [b] ignores
    it, both when a lookup finds it and when it is asked to store it.  So for
    all but five minutes of each hour, [a] cannot be found. *)
Theorem default_record_goes_stale (Ea Eb : Env) (a b : P2P) :
  cfg_kad_record_ttl (config a) = None → cfg_envelope_max_age (config b) = None →
  signs_for (signer a) (@own_key _ _ Ea a) →
  let ta := @clock _ Ea (ticks a) in let tb := @clock _ Eb (ticks b) in
  0 ≤ ta → is_u64 (as_secs ta) →
  0 ≤ max_clock_skew (config b) → @no_overflow _ _ b tb → as_secs ta + 300 < as_secs tb →
  let a' := (@ask_kademlia_put_record _ _ Ea a).1 in
  ∀ key raw, trace a' = trace a ++ [EPutRecord key raw] →
  let r := {| kr_key := key; kr_value := raw |} in
  (∀ id, trace (@handle_query_result _ _ Eb id PutRecordOk a').1
           = trace a' ++ [ERepublishAfter (from_secs 3600)]) ∧
  (∀ id, kademlia_map_received_records (@handle_found_record _ _ Eb id r b).1
           = kademlia_map_received_records b) ∧
  trace (@handle_put_record _ _ Eb (Some r) b).1 = trace b.
Proof.
  intros Httl Hage Hs ta tb Hta Hu Hskew Hno Hlate a' key raw Hput r.
  destruct (put_record_date a key raw Hta Hu Hs Hput) as (sm & Hdec & Hdate).
  assert (envelope_max_age (config b) = from_secs 300) as Hmax by (unfold envelope_max_age; by rewrite Hage).
  assert (¬ date_ok b tb (rd_date (message sm))) as Hold.
  { intros (_ & _ & Hfresh & _). rewrite Hmax, as_secs_from_secs, Hdate in Hfresh. fold ta in Hfresh. lia. }
  assert (durations_ok (config b)) as Hdur by (split; [rewrite Hmax; done|done]).
  destruct (@out_of_date_ignored Eb b key raw sm Hdur Hno Hdec Hold) as [Hfound Hstore].
  split_and!; [|exact Hfound|exact Hstore].
  intros id. destruct (wi_config _ _ _ (@wake_within _ _ Ea WRepublish a)) as (addrs & Hc & Hnone).
  rewrite (Hnone eq_refl) in Hc. unfold a'. simpl in Hc |- *. rewrite Hc.
  unfold kad_record_ttl. by rewrite Httl.
Qed.
End Age.

(** ** Examples on the toy node *)

Section DhtExamples.
#[local] Existing Instances Toy.platform Toy.platform_laws ToyNode.queue_inst still_env.

(** Two lookups; the second finishes first, the first finds a record. *)
Definition ask_wakeup : Wakeup := WCommand (FindMultiaddr (TargetAppPublicKey (3%nat : PublicKey))).
Definition query_wakeup (id : QueryId) (r : QueryResult) : Wakeup :=
  WSwarm (SwarmBehaviour (BKademlia (OutboundQueryProgressed id r))).
Definition two_lookups : list Wakeup :=
  [ask_wakeup; ask_wakeup; query_wakeup (1%nat : QueryId) GetRecordNotFound;
   query_wakeup (0%nat : QueryId) (GetRecordFound toy_record);
   query_wakeup (0%nat : QueryId) GetRecordFinished].

(** The state after some wake-ups, all of which succeed. *)
Fixpoint after (s : P2P) (ws : list Wakeup) : P2P :=
  match ws with [] => s | w :: ws => after (wake w s).1 ws end.

Lemma after_run s ws :
  (fix ok s ws := match ws with
                  | [] => True
                  | w :: ws => w ≠ WCancel ∧ (wake w s).2 = Done tt ∧ ok (wake w s).1 ws
                  end) s ws →
  listen_run (Running s) ws (Running (after s ws)).
Proof.
  revert s. induction ws as [|w ws IH]; intros s; [constructor|]. intros (Hw & Ho & Hok).
  eapply run_cons; [|by apply IH]. apply step_done; [done|]. by apply injective_projections.
Qed.

Lemma lookups_are_independent_witness :
  answers (trace (after ToyNode.node two_lookups)) = [None; Some [11%nat : Multiaddr]].
Proof.
  assert (∀ n, @no_overflow _ _ ToyNode.node (@clock _ still_env n)) as Hno
    by (intros n; vm_compute; discriminate).
  pose proof (lookups_are_independent ToyNode.node two_lookups (Running (after ToyNode.node two_lookups))
    toy_durations_ok Hno) as Hl.
  assert (listen_run (Running ToyNode.node) two_lookups (Running (after ToyNode.node two_lookups))) as Hrun
    by (apply after_run; repeat split; discriminate).
  specialize (Hl Hrun). cbv zeta in Hl.
  destruct (spec_lookups _ _) as [table answered] eqn:Hspec. destruct Hl as (_ & Ha & _).
  apply (f_equal (λ x, map snd x.2)) in Hspec.
  refine (eq_trans Ha _). refine (eq_trans (f_equal (app []) (eq_sym Hspec)) _).
  vm_compute. reflexivity.
Defined.

(** Routing is updated, the record is put, and libp2p reports success. *)
Definition republish_once : list Wakeup :=
  [WSwarm (SwarmBehaviour (BKademlia RoutingUpdated)); WRepublish;
   query_wakeup (0%nat : QueryId) PutRecordOk].

Lemma republish_chain_witness :
  (due (chain_run ToyNode.node {| due := 0; flying := 0 |} republish_once).2
   + flying (chain_run ToyNode.node {| due := 0; flying := 0 |} republish_once).2 ≤ 1)%nat.
Proof.
  refine (proj1 (republish_chain ToyNode.node republish_once
                   (Running (after ToyNode.node republish_once)) eq_refl _ _)).
  - apply after_run. repeat split; discriminate.
  - cbn [chain_paced republish_once]. unfold chain_allows.
    repeat split; intros Hw; try discriminate Hw; vm_compute; lia.
Defined.

(** A second node, whose clock is 400 s ahead. *)
Definition late_env : Env := {|
  byos := true; overflow_checks := true; clock _ := from_secs 1400;
  local_peer_id := 105%nat : PeerId; swarm_is_connected _ _ := true;
  connected_peers _ := []; listeners _ := []; external_addresses _ := [];
  next_connection_id tr := length tr : ConnectionId;
  swarm_dial _ _ := Ok tt; swarm_listen_on _ _ := Ok tt; peer_score _ _ := None;
  gossip_subscribe _ _ := InTime (Ok tt); gossip_publish tr _ _ := Ok (length tr : MessageId);
  get_record tr _ := length tr : QueryId;
  put_record tr _ _ := Ok (length tr : QueryId); store_get _ _ := None; store_put _ _ _ := Ok tt;
  channel_capacity_ok _ _ := true; gossip_events_send _ _ := Ok tt;
  req_resp_events_send _ _ := InTime (Ok tt);
  response_recv _ data := InTime (Ok data) |}.

Lemma default_record_goes_stale_witness :
  ∃ key raw, trace (@handle_put_record _ _ late_env (Some {| kr_key := key; kr_value := raw |})
                      ToyNode.node).1 = [].
Proof.
  destruct (put_record_trace ToyNode.node) as [Hn|(key & raw & Ht)]; [vm_compute in Hn; discriminate Hn|].
  exists key, raw.
  refine (proj2 (proj2 (default_record_goes_stale still_env late_env ToyNode.node ToyNode.node
    eq_refl eq_refl (transport_signer_signs (5%nat : Keypair)) _ _ _ _ _ key raw Ht)));
    repeat split; vm_compute; discriminate || reflexivity.
Defined.
End DhtExamples.
