(* ===== verification/Safety.v ===== *)
(** * The node does not crash

    Which inputs can make a handler panic, and which can stop the loop: under
    bounds on the clock, the clock skew and the penalties' lengths, no event and
    no command panics, and the only errors are the closed event channels. *)

From S2P Require Import Prelude Time Float64 Platform Message Scores Validator Errors Setup Config Dial Node Scoring Gossip ReqResp Kad Conn Commands Listen.
Open Scope Z_scope.

(** The durations a penalty adds to the current time. *)
Definition penalty_durations (pen : PenaltyType) : list Z :=
  match pen with
  | MuteGossip d | MuteReqresp d | MuteBoth d => [d]
  | Ban d => [default DEFAULT_BAN_PERIOD d]
  end.

(** The errors the loop stops on. *)
Definition channel_closed (e : SwarmError) : Prop :=
  match e with
  | Protocol (GossipEventsChannelClosed _) | Protocol (ReqRespEventChannelClosed _) => True
  | _ => False
  end.

Section Safety.
Context {P : Platform} {Q : Queue Multiaddr} `{!QueueLaws Q} {E : Env}.

(** [pen] ends before the end of [SystemTime], whenever it is imposed. *)
Definition penalty_fits (pen : PenaltyType) : Prop :=
  ∀ n d, d ∈ penalty_durations pen → as_secs (clock n + d) ≤ i64_max.

Context (skew0 : Z) (v0 : Validator).

(** The configured skew and the validator, which never change. *)
Definition steady (s : P2P) : Prop := max_clock_skew (config s) = skew0 ∧ validator s = v0.

(** What is assumed of the outside. *)
Record sane : Prop := {
  sane_epoch n : 0 ≤ clock n;
  sane_skew n : as_secs (clock n) + as_secs skew0 ≤ u64_max;
  sane_penalties msg scores pen : get_penalty v0 msg scores = Some pen → penalty_fits pen;
  sane_records (sm : SignedRecord) : is_Some (to_vec sm)
}.

Context (Hsane : sane).
Abbreviation safe m := (ensures steady channel_closed m).

Lemma now_secs_eq n : now_secs_or_default (clock n) = as_secs (clock n).
Proof. unfold now_secs_or_default. by rewrite duration_since_epoch by apply Hsane. Qed.

Lemma safe_emit e : safe (emit e) (λ _, True).
Proof. by apply ens_modS. Qed.
Lemma safe_ask {A} (f : list Effect → A) : safe (ask f) (λ _, True).
Proof. apply ens_getsS_any. Qed.
Lemma safe_upd_scores f : safe (modS (upd_scores f)) (λ _, True).
Proof. by apply ens_modS. Qed.
Lemma safe_upd_penalties f : safe (modS (upd_penalties f)) (λ _, True).
Proof. by apply ens_modS. Qed.
Lemma safe_upd_dial f : safe (modS (upd_dial f)) (λ _, True).
Proof. by apply ens_modS. Qed.
Lemma safe_upd_setup f : safe (modS (upd_setup f)) (λ _, True).
Proof. by apply ens_modS. Qed.
Lemma safe_upd_records f : safe (modS (upd_records f)) (λ _, True).
Proof. by apply ens_modS. Qed.
Lemma safe_upd_first_time b : safe (modS (upd_first_time b)) (λ _, True).
Proof. by apply ens_modS. Qed.
Lemma safe_push_connect_to a : safe (modS (upd_config (push_connect_to a))) (λ _, True).
Proof. apply ens_modS; [|done]. intros s. unfold steady. simpl. by destruct (config s). Qed.
Lemma safe_disconnect p : safe (disconnect_peer_id p) (λ _, True).
Proof. apply safe_emit. Qed.

(** The clock, with what is known of its readings. *)
Lemma safe_now : safe now (λ t, ∃ n, t = clock n).
Proof. intros s Hs. split; [done|]. simpl. eauto. Qed.
Lemma safe_now_any : safe now (λ _, True).
Proof. eapply ens_mono; [apply safe_now|done]. Qed.
Lemma safe_now_secs : safe now_secs (λ t, t + as_secs skew0 ≤ u64_max).
Proof. intros s Hs. split; [done|]. simpl. rewrite now_secs_eq. apply Hsane. Qed.
Lemma safe_now_secs_any : safe now_secs (λ _, True).
Proof. eapply ens_mono; [apply safe_now_secs|done]. Qed.
Lemma safe_skew : safe (getsS (λ s, max_clock_skew (config s))) (λ k, k = skew0).
Proof. by apply ens_getsS; intros s []. Qed.
Lemma safe_validator : safe (getsS validator) (λ v, v = v0).
Proof. by apply ens_getsS; intros s []. Qed.
Lemma safe_own_key : safe own_public_key (λ _, True).
Proof. apply ens_getsS_any. Qed.
Lemma safe_or_panic {A} (o : option A) : is_Some o → safe (or_panic o) (λ _, True).
Proof. intros [a ->]. by apply ens_ret. Qed.
Lemma safe_add_u64 a b : a + b ≤ u64_max → safe (add_u64 a b) (λ _, True).
Proof. intros H. apply safe_or_panic. rewrite u64_add_fits by done. eauto. Qed.

Lemma timestamp_some n : is_Some (get_timestamp (clock n)).
Proof.
  unfold get_timestamp. rewrite duration_since_epoch by apply Hsane. eauto.
Qed.
End Safety.

#[export] Hint Resolve safe_emit safe_ask safe_upd_scores safe_upd_penalties safe_upd_dial
  safe_upd_setup safe_upd_records safe_upd_first_time safe_push_connect_to safe_disconnect
  safe_now_any safe_own_key : ensures.
#[export] Hint Extern 1 (ensures _ _ (getsS _) (λ _, True)) => apply ens_getsS_any : ensures.

Section Handlers.
Context {P : Platform} {Q : Queue Multiaddr} `{!QueueLaws Q} {E : Env}.
Context (skew0 : Z) (v0 : Validator) (Hsane : sane skew0 v0).
Abbreviation safe m := (ensures (steady skew0 v0) channel_closed m).
#[local] Hint Extern 2 (ensures _ _ now_secs (λ _, True)) =>
  exact (safe_now_secs_any skew0 v0 Hsane) : ensures.

(** One rule per way the handlers read the window. *)
Lemma safe_window {B} (k : Z → Z → M B) Φ :
  (∀ n limit, safe (k n limit) Φ) →
  safe (skew ← getsS (λ s, max_clock_skew (config s));
        n ← now_secs; limit ← add_u64 n (as_secs skew); k n limit) Φ.
Proof.
  intros Hk. eapply ens_bind; [apply safe_skew|]. intros ? ->.
  eapply ens_bind; [exact (safe_now_secs skew0 v0 Hsane)|]. intros n Hn.
  eapply ens_bind; [by apply safe_add_u64|]. intros limit _. apply Hk.
Qed.

Lemma safe_timestamped {A B} (f : Z → option A) (k : A → M B) Φ :
  (∀ n, is_Some (f (clock n))) → (∀ a, safe (k a) Φ) →
  safe (t ← now; m ← or_panic (f t); k m) Φ.
Proof.
  intros Hf Hk. eapply ens_bind; [apply safe_now|]. intros ? [n ->].
  eapply ens_bind; [by apply safe_or_panic|]. intros a _. apply Hk.
Qed.

Lemma safe_impose op p until : safe (impose op p until) (λ _, True).
Proof. unfold impose. solve_ensures. Qed.
#[local] Hint Resolve safe_impose : ensures.

Lemma safe_now_plus d :
  (∀ n, as_secs (clock n + d) ≤ i64_max) → safe (now_plus d) (λ _, True).
Proof.
  intros Hd. unfold now_plus. eapply ens_bind; [apply safe_now|]. intros ? [n ->].
  apply safe_or_panic. unfold systemtime_add. rewrite (proj2 (Z.leb_le _ _) (Hd n)). eauto.
Qed.

Lemma safe_apply_penalty p pen : penalty_fits pen → safe (apply_penalty p pen) (λ _, True).
Proof.
  intros Hp.
  destruct pen; simpl;
    (eapply ens_bind;
     [apply safe_now_plus; intros n; apply Hp; simpl; set_solver|intros ? _; solve_ensures]).
Qed.
Lemma safe_remove_penalty p u : safe (remove_penalty p u) (λ _, True).
Proof. destruct u; simpl; solve_ensures. Qed.
Lemma safe_get_all_scores p : safe (get_all_scores p) (λ _, True).
Proof. unfold get_all_scores. solve_ensures. Qed.
Lemma safe_get_elapsed p : safe (get_elapsed_decay_time p) (λ _, True).
Proof. unfold get_elapsed_decay_time. solve_ensures. Qed.
#[local] Hint Resolve safe_remove_penalty safe_get_all_scores safe_get_elapsed : ensures.
Lemma safe_decay_gossip p : safe (decay_gossip_score p) (λ _, True).
Proof. unfold decay_gossip_score. solve_ensures. Qed.
Lemma safe_decay_req_resp p : safe (decay_request_response_score p) (λ _, True).
Proof. unfold decay_request_response_score. solve_ensures. Qed.
#[local] Hint Resolve safe_decay_gossip safe_decay_req_resp : ensures.

(** Scoring, for both protocols. *)
Lemma safe_penalise {A} msg scores p (a b : A) :
  safe (match get_penalty v0 msg scores with
        | Some penalty => _ ← apply_penalty p penalty; mret a
        | None => mret b
        end : M A) (λ _, True).
Proof.
  destruct (get_penalty _ _ _) as [pen|] eqn:Hpen; [|by apply ens_ret].
  eapply ens_bind; [by eapply safe_apply_penalty, sane_penalties|]. intros ? _. by apply ens_ret.
Qed.

Lemma safe_score_gossip p data : safe (score_gossip p data) (λ _, True).
Proof.
  unfold score_gossip. ensures_step; [solve_ensures|]. intros sm _.
  eapply ens_bind; [apply safe_validator|]. intros ? ->.
  do 2 (ensures_step; [solve_ensures|]; intros ? _). apply safe_penalise.
Qed.
Lemma safe_score_req_resp p msg : safe (score_req_resp p msg) (λ _, True).
Proof.
  unfold score_req_resp. do 2 (ensures_step; [solve_ensures|]; intros ? _).
  eapply ens_bind; [apply safe_validator|]. intros ? ->.
  do 2 (ensures_step; [solve_ensures|]; intros ? _). apply safe_penalise.
Qed.
#[local] Hint Resolve safe_score_gossip safe_score_req_resp : ensures.

Lemma safe_accept_gossip p mid data : safe (accept_gossip p mid data) (λ _, True).
Proof.
  unfold accept_gossip, report. do 3 (ensures_step; [solve_ensures|]; intros ? _).
  case_match; [by apply ens_ret|by apply ens_throw].
Qed.
Lemma safe_send_event e : safe (send_req_resp_event e) (λ _, True).
Proof.
  unfold send_req_resp_event. do 2 (ensures_step; [solve_ensures|]; intros ? _).
  repeat case_match; try (by apply ens_ret); by apply ens_throw.
Qed.
#[local] Hint Resolve safe_accept_gossip safe_send_event : ensures.

Lemma safe_handle_signed_gossip src mid sm : safe (handle_signed_gossip src mid sm) (λ _, True).
Proof.
  unfold handle_signed_gossip, report. destruct (negb _); [solve_ensures|].
  ensures_step; [solve_ensures|]. intros allowlist _. destruct (byos && _); [solve_ensures|].
  ensures_step; [solve_ensures|]. intros max_age _. apply safe_window. intros n limit.
  unfold finish_gossip. solve_ensures.
Qed.
#[local] Hint Resolve safe_handle_signed_gossip : ensures.

Lemma safe_handle_gossip_event e : safe (handle_gossip_event e) (λ _, True).
Proof. destruct e; simpl; unfold handle_gossip_msg, report; solve_ensures. Qed.

Lemma safe_handle_gossip_command data : safe (handle_gossip_command data) (λ _, True).
Proof.
  unfold handle_gossip_command. ensures_step; [solve_ensures|]. intros k _.
  apply (safe_timestamped (λ t, GossipMessage_new t k data)).
  - intros n. unfold GossipMessage_new.
    destruct (timestamp_some skew0 v0 Hsane n) as [d ->]. simpl. eauto.
  - intros m. solve_ensures.
Qed.

Lemma safe_send_signed_response ch r : safe (send_signed_response ch r) (λ _, True).
Proof.
  unfold send_signed_response. ensures_step; [solve_ensures|]. intros k _.
  apply (safe_timestamped (λ t, ResponseMessage_new t k r)).
  - intros n. unfold ResponseMessage_new.
    destruct (timestamp_some skew0 v0 Hsane n) as [d ->]. simpl. eauto.
  - intros m. solve_ensures.
Qed.
#[local] Hint Resolve safe_send_signed_response : ensures.

Lemma safe_deliver_request ch d : safe (deliver_request ch d) (λ _, True).
Proof. unfold deliver_request. solve_ensures. Qed.
Lemma safe_sender_allowed p key : safe (sender_allowed p key) (λ _, True).
Proof. unfold sender_allowed. solve_ensures. Qed.
Lemma safe_req_resp_muted p : safe (req_resp_muted p) (λ _, True).
Proof. unfold req_resp_muted. solve_ensures. Qed.
#[local] Hint Resolve safe_deliver_request safe_sender_allowed safe_req_resp_muted : ensures.

Lemma safe_check_request p ch r : safe (check_request p ch r) (λ _, True).
Proof.
  unfold check_request. destruct (negb _); [solve_ensures|].
  ensures_step; [solve_ensures|]. intros ok _. destruct (negb ok); [solve_ensures|].
  apply safe_window. intros n limit. solve_ensures.
Qed.
Lemma safe_check_response p r : safe (check_response p r) (λ _, True).
Proof.
  unfold check_response.
  ensures_step; [solve_ensures|]. intros ok _. destruct (negb ok); [solve_ensures|].
  apply safe_window. intros n limit. solve_ensures.
Qed.
#[local] Hint Resolve safe_check_request safe_check_response : ensures.

Lemma safe_handle_request_response_event e :
  safe (handle_request_response_event e) (λ _, True).
Proof.
  destruct e as [q []| | |]; simpl; unfold handle_request, handle_response; solve_ensures.
Qed.

Lemma safe_handle_request_response_command c :
  safe (handle_request_response_command c) (λ _, True).
Proof.
  unfold handle_request_response_command. ensures_step; [solve_ensures|]. intros sb _.
  destruct (target_peer_id _ _) as [p|]; [|solve_ensures].
  ensures_step; [solve_ensures|]. intros k _.
  apply (safe_timestamped (λ t, RequestMessage_new t k (rrc_data c) p)).
  - intros n. unfold RequestMessage_new.
    destruct (timestamp_some skew0 v0 Hsane n) as [d ->]. simpl. eauto.
  - intros m. solve_ensures.
Qed.

Lemma safe_validate_record_date d : safe (validate_record_date d) (λ _, True).
Proof.
  unfold validate_record_date. destruct (d =? u64_max); [solve_ensures|].
  eapply ens_bind; [apply safe_now|]. intros ? [n ->].
  rewrite duration_since_epoch by apply Hsane.
  eapply ens_bind; [apply safe_skew|]. intros ? ->.
  eapply ens_bind; [apply safe_add_u64, Hsane|]. intros limit _. solve_ensures.
Qed.
#[local] Hint Resolve safe_validate_record_date : ensures.

Lemma safe_ask_get x : safe (ask_kademlia_get_record x) (λ _, True).
Proof. unfold ask_kademlia_get_record. solve_ensures. Qed.

Lemma safe_ask_put : safe ask_kademlia_put_record (λ _, True).
Proof.
  unfold ask_kademlia_put_record. do 2 (ensures_step; [solve_ensures|]; intros ? _).
  apply (safe_timestamped (λ t, RecordData_new t a a0)).
  - intros n. unfold RecordData_new.
    destruct (timestamp_some skew0 v0 Hsane n) as [d ->]. simpl. eauto.
  - intros m. ensures_step; [solve_ensures|]. intros sg _.
    destruct (SignedMessage_new m sg); [|solve_ensures].
    eapply ens_bind; [apply safe_or_panic, Hsane|]. intros ? _. solve_ensures.
Qed.

Lemma safe_handle_kademlia_event e : safe (handle_kademlia_event e) (λ _, True).
Proof.
  destruct e as [r|id r| |]; simpl; [unfold handle_put_record; solve_ensures| |solve_ensures..].
  destruct r; simpl; unfold handle_found_record, finish_looking_for_dht_record; solve_ensures.
Qed.

Lemma safe_dial_and_map a k : safe (dial_and_map a k) (λ _, True).
Proof. unfold dial_and_map. solve_ensures. Qed.
#[local] Hint Resolve safe_dial_and_map : ensures.

Lemma safe_handle_connection_event e : safe (handle_connection_event e) (λ _, True).
Proof.
  destruct e; simpl; unfold handle_connection_established, handle_outgoing_connection_error,
    handle_connection_closed; solve_ensures.
Qed.
Lemma safe_handle_identify p l : safe (handle_identify_received p l) (λ _, True).
Proof. unfold handle_identify_received. solve_ensures. Qed.
Lemma safe_handle_setup_event e : safe (handle_setup_event e) (λ _, True).
Proof. destruct e; simpl; solve_ensures. Qed.

(** The penalties a command carries fit [SystemTime]. *)
Definition command_fits (cmd : Command) : Prop :=
  match cmd with
  | SetScore _ (Some (ApplyPenalty pen)) _ => penalty_fits pen
  | _ => True
  end.

Lemma safe_connect_by_key k addrs : addrs ≠ [] → safe (connect_by_key k addrs) (λ _, True).
Proof.
  intros Hne. unfold connect_by_key. ensures_step; [solve_ensures|]. intros dm _.
  destruct (has_app_public_key dm k); [solve_ensures|].
  assert (is_Some (pop_front (from_iter (sort_addresses addrs))).1) as Hsome.
  { rewrite pop_front_fst, contents_from_iter.
    pose proof (sort_by_key_permutation (λ a, negb (is_quic a)) addrs) as Hp.
    unfold sort_addresses. destruct (sort_by_key _ addrs) as [|x l]; simpl; [|eauto].
    by apply Permutation_nil in Hp. }
  destruct (pop_front _) as [a q]. eapply ens_bind; [by apply safe_or_panic|].
  intros ? _. solve_ensures.
Qed.

Lemma safe_handle_command cmd : command_fits cmd → safe (handle_command cmd) (λ _, True).
Proof.
  intros Hf. destruct cmd as [tg addrs|tg|q|q a cb|[[]| |]|tg]; simpl;
    unfold handle_disconnect_from_peer, handle_get_peer_score; try solve [solve_ensures].
  - unfold handle_connect_to_peer, connect_by_id.
    case_bool_decide; [solve_ensures|]. destruct tg; [by apply safe_connect_by_key|solve_ensures].
  - unfold handle_set_score. eapply ens_bind.
    + destruct a as [[pen|u]|]; simpl; [by apply safe_apply_penalty|solve_ensures..].
    + intros ? _. unfold apply_callback. solve_ensures.
  - apply safe_ask_get.
Qed.
End Handlers.

Section NodeSafety.
Context {P : Platform} {Q : Queue Multiaddr} `{!QueueLaws Q} {E : Env}.

Definition wakeup_fits (w : Wakeup) : Prop :=
  match w with WCommand cmd => command_fits cmd | _ => True end.

Lemma safe_wake skew0 v0 w :
  sane skew0 v0 → wakeup_fits w → ensures (steady skew0 v0) channel_closed (wake w) (λ _, True).
Proof.
  intros Hsane Hw.
  destruct w as [|[[]|e|]| | |cmd| | |]; simpl;
    auto using safe_handle_gossip_event, safe_handle_request_response_event,
      safe_handle_setup_event, safe_handle_kademlia_event, safe_handle_identify,
      safe_handle_connection_event, safe_handle_command, safe_handle_gossip_command,
      safe_handle_request_response_command, safe_ask_put;
    try solve [solve_ensures].
  unfold poll_setup. ensures_step; [solve_ensures|]. intros sb _.
  destruct (behaviour_poll sb) as [sb' event]. ensures_step; [solve_ensures|]. intros ? _.
  destruct event; [apply safe_handle_setup_event|solve_ensures].
Qed.

(** C1. The node does not crash: in an environment whose clock is past the
    epoch and, with the configured skew, within [u64] seconds, whose record
    serialization works, and with penalties that end within [SystemTime], no
    sequence of network events, commands and timers makes the node panic; and
    the only errors that stop it are that the application has dropped the
    gossip or request/response event channel. *)
Theorem node_never_crashes s ws l :
  sane (max_clock_skew (config s)) (validator s) →
  listen_run (Running s) ws l → Forall wakeup_fits ws →
  (∀ s', l ≠ Crashed s') ∧
  (∀ s' s'' w e, l = Running s' → wakeup_fits w → wake w s' = (s'', Throw e) → channel_closed e).
Proof.
  intros Hsane Hrun Hws.
  destruct (listen_run_invariant (steady (max_clock_skew (config s)) (validator s)) wakeup_fits
    (Running s) ws l) as [Hl Hc]; [|done|done|done|done|].
  { intros w s1 Hw Hs1. destruct (safe_wake _ _ w Hsane Hw s1 Hs1) as [? Ho].
    split; [done|]. by destruct (wake w s1).2. }
  split; [done|]. intros s' s'' w e -> Hw Hthrow.
  destruct (safe_wake _ _ w Hsane Hw s' Hl) as [_ Ho]. by rewrite Hthrow in Ho.
Qed.
End NodeSafety.

(** ** Outside the bounds *)

Section Overflow.
Context {P : Platform} {Q : Queue Multiaddr} {E : Env}.

(** C40. A clock skew so large that now + skew exceeds [u64] seconds (such as
    "any future date is fine", [Duration::MAX]) breaks the handler: any gossip
    message with a valid signature and an allowed key panics a node built with
    overflow checks, and a node built without them rejects every message that
    is as recent as its own clock. *)
Theorem huge_skew_breaks_gossip s src mid sm :
  let t := now_secs_or_default (clock (ticks s)) in
  let skew := as_secs (max_clock_skew (config s)) in
  verify sm = Ok true →
  (byos = true → g_public_key (message sm) ∈ app_allowlist s) →
  is_u64 t → is_u64 skew → u64_max < t + skew →
  (overflow_checks = true → (handle_signed_gossip src mid sm s).2 = Panic) ∧
  (overflow_checks = false → t ≤ g_date (message sm) →
   handle_signed_gossip src mid sm s
     = (add_effect (EReport mid src Reject) (tick s), Done tt)).
Proof.
  intros t skew Hv Hk Ht Hs Hbig. unfold handle_signed_gossip.
  rewrite verify_or_false_spec, (bool_decide_eq_true_2 _ Hv). cbn [negb]. run_simpl.
  assert (byos && negb (bool_decide (g_public_key (message sm) ∈ app_allowlist s)) = false) as ->.
  { destruct byos; [|done]. by rewrite bool_decide_eq_true_2 by auto. }
  run_simpl. unfold add_u64. fold t skew.
  rewrite (u64_add_overflows _ _ _ Ht Hs Hbig). split; intros ->; [done|]. intros Hd.
  cbn [or_panic]. run_simpl. rewrite (proj2 (Z.ltb_lt _ _)); [done|].
  unfold is_u64, u64_max in *. lia.
Qed.
End Overflow.

(** ** Examples on the toy node *)

Section SafetyExamples.
#[local] Existing Instances Toy.platform ToyNode.queue_inst.
#[local] Existing Instance still_env.

Lemma toy_sane : sane (max_clock_skew (config ToyNode.node)) (validator ToyNode.node).
Proof.
  split.
  - intros n. vm_compute. discriminate.
  - intros n. vm_compute. discriminate.
  - intros msg scores pen Hpen n d Hd.
    assert (d = DEFAULT_MUTE_DURATION) as ->.
    { destruct msg; simpl in Hpen; destruct (f64_ltb _ _); simplify_eq; simpl in Hd;
        by apply list_elem_of_singleton in Hd. }
    vm_compute. discriminate.
  - intros sm. eexists. reflexivity.
Qed.

(** A dial without addresses, then a publication. *)
Definition no_addresses : Wakeup := WCommand (ConnectToPeer (TargetTransportId (107%nat : PeerId)) []).
Definition publish : Wakeup := WGossipCommand [Byte.x68; Byte.x69].
Definition after_publish : P2P := (wake publish ToyNode.node).1.

Lemma node_never_crashes_witness : Running after_publish ≠ Crashed after_publish.
Proof.
  refine (proj1 (@node_never_crashes _ _ ToyNode.queue_laws _ ToyNode.node
            [no_addresses; publish] (Running after_publish) toy_sane _ _) after_publish).
  - eapply run_cons; [apply step_done; [discriminate|reflexivity]|].
    eapply run_cons; [apply step_done; [discriminate|]|apply run_nil].
    apply injective_projections; reflexivity.
  - repeat constructor.
Defined.

(** A node that is told to accept any future date. *)
Definition lenient_node : P2P :=
  upd_config (λ _, ToyNode.cfg_with_skew (Some duration_max)) ToyNode.node.

Lemma huge_skew_breaks_gossip_witness :
  (handle_signed_gossip (107%nat : PeerId) (1%nat : MessageId)
     (ToyNode.signed toy_gossip_message) lenient_node).2 = Panic.
Proof.
  refine (proj1 (huge_skew_breaks_gossip lenient_node (107%nat : PeerId) (1%nat : MessageId)
            (ToyNode.signed toy_gossip_message) _ _ _ _ _) eq_refl).
  - by apply ToyNode.signed_verifies.
  - intros _. by apply elem_of_singleton.
  - split; vm_compute; discriminate.
  - split; vm_compute; discriminate.
  - vm_compute. reflexivity.
Defined.
End SafetyExamples.
