(* ===== verification/Establish.v ===== *)
(** * Startup ([swarm/mod.rs]: [establish_connections])

    Dialing the configured peers with retries, subscribing to the topic, and
    waiting for the connections.  The retry loops recurse on the retries that
    are left ([max_retry_count - num_retries]); the wait is a function of what
    polling the swarm brings before its timeout, which is not only events: the
    setup behaviour, a part of the node's state, works while it is polled. *)

From S2P Require Import Prelude Time Float64 Platform Message Scores Validator Errors Setup Config Dial Node Gossip ReqResp Kad Conn Commands Listen.
Open Scope Z_scope.

Section Establish.
Context {P : Platform} {Q : Queue Multiaddr} {E : Env}.

(** The readings of [Instant::now()]. *)
Context (instant : nat → Z).

(** [self.swarm.dial(addr.clone())] *)
Definition swarm_dial_addr (addr : Multiaddr) : M (result unit string) :=
  conn_id ← ask next_connection_id;
  r ← ask (λ tr, swarm_dial tr (DialAddress conn_id addr));
  _ ← emit (EDial (DialAddress conn_id addr));
  mret r.

Fixpoint dial_loop (dial_timeout : Z) (addr : Multiaddr) (retries : nat) : M unit :=
  r ← swarm_dial_addr addr;
  match r with
  | Ok _ => mret tt
  | Err _ =>
      match retries with
      | O => mret tt
      | S retries => _ ← emit (ESleep dial_timeout); dial_loop dial_timeout addr retries
      end
  end.

Fixpoint subscribe_loop (interval : Z) (name : string) (retries : nat) : M unit :=
  r ← ask (λ tr, gossip_subscribe tr name);
  _ ← emit (ESubscribe name);
  match r with
  | InTime (Ok _) => mret tt
  | InTime (Err _) | TimedOut =>
      match retries with
      | O => mret tt
      | S retries => _ ← emit (ESleep interval); subscribe_loop interval name retries
      end
  end.

(** ** The wait *)

(** libp2p's [SwarmEvent], as far as the wait tells cases apart: an established
    connection with the address that was dialed, if this side dialed. *)
Inductive StartupEvent : Type :=
  | StartupConnected (peer_id : PeerId) (connection_id : ConnectionId)
      (dialed_address : option Multiaddr)
  | StartupOther (event : SwarmEvent).

(** One thing that happens in [self.swarm.next()]: the setup behaviour is fed,
    it is asked for a pending event, or the swarm has an event of its own. *)
Inductive StartupPoll : Type :=
  | PollSetupInput (i : SetupInput)
  | PollSetup
  | PollEvent (event : StartupEvent).

(** The event it yields, if any. *)
Definition swarm_next (poll : StartupPoll) : M (option StartupEvent) :=
  match poll with
  | PollSetupInput i => _ ← modS (upd_setup (sb_step i)); mret None
  | PollSetup =>
      sb ← getsS setup;
      let '(sb', event) := behaviour_poll sb in
      _ ← modS (upd_setup (λ _, sb'));
      mret ((λ event, StartupOther (SwarmBehaviour (BSetup event))) <$> event)
  | PollEvent event => mret (Some event)
  end.

(** The [match] on an event: [None] is [continue]; every other arm goes on to
    the check whether anything is left to wait for. *)
Definition startup_event (event : StartupEvent) (is_not_connected : gset Multiaddr)
    : option (gset Multiaddr) :=
  match event with
  | StartupConnected _ _ None => None
  | StartupConnected _ _ (Some address) => Some (is_not_connected ∖ {[ address ]})
  | StartupOther _ => Some is_not_connected
  end.

(** The periodic status update: the time of the next one, and the number of the
    next reading.  [Instant + Duration] panics as [SystemTime + Duration] does. *)
Definition status_update (connection_check_interval next_check : Z) (n : nat) : option (Z * nat) :=
  if next_check <? instant n then
    next_check ← systemtime_add (instant (S n)) connection_check_interval;
    Some (next_check, S (S n))
  else Some (next_check, S n).

(** [true] when everything is connected; [false] when the polls end (timeout,
    or the swarm's stream is over).  Also returns the polls not made. *)
Fixpoint wait_connected (connection_check_interval : Z) (polls : list StartupPoll)
    (is_not_connected : gset Multiaddr) (next_check : Z) (n : nat) : M (bool * list StartupPoll) :=
  match polls with
  | [] => mret (false, [])
  | poll :: polls =>
      event ← swarm_next poll;
      match event with
      | None => wait_connected connection_check_interval polls is_not_connected next_check n
      | Some event =>
          match startup_event event is_not_connected with
          | None => wait_connected connection_check_interval polls is_not_connected next_check n
          | Some is_not_connected =>
              '(next_check, n) ← or_panic (status_update connection_check_interval next_check n);
              if bool_decide (is_not_connected = ∅) then mret (true, polls)
              else wait_connected connection_check_interval polls is_not_connected next_check n
          end
      end
  end.

(** The result is what the code logs, and the polls left to the event loop. *)
Definition establish_connections (polls : list StartupPoll) : M (bool * list StartupPoll) :=
  cfg ← getsS config;
  let max_retry_count := default DEFAULT_MAX_RETRIES (cfg_max_retries cfg) in
  let dial_timeout := default DEFAULT_DIAL_TIMEOUT (cfg_dial_timeout cfg) in
  let connection_check_interval :=
    default DEFAULT_CONNECTION_CHECK_INTERVAL (cfg_connection_check_interval cfg) in
  _ ← iterM (λ addr, dial_loop dial_timeout addr max_retry_count) (cfg_connect_to cfg);
  name ← getsS topic;
  _ ← subscribe_loop connection_check_interval name max_retry_count;
  (* start_time and next_check are readings 0 and 1 *)
  wait_connected connection_check_interval polls (list_to_set (cfg_connect_to cfg)) (instant 1) 2.

(** ** Retries *)

(** The trace of a retry loop whose attempts are [act] and which pauses after
    each that is not [good]. *)
Section Retried.
Context (act : list Effect → Effect) (good : list Effect → bool) (pause : Effect).

(** The trace when attempt [n] (from 0) is made. *)
Fixpoint before_attempt (n : nat) (tr : list Effect) : list Effect :=
  match n with
  | O => tr
  | S n => before_attempt n (tr ++ [act tr; pause])
  end.

(** At least one attempt, at most [max] more; another one only after a failure
    and a pause, none after a success. *)
Definition retried (max : nat) (tr tr' : list Effect) : Prop :=
  ∃ n, (n ≤ max)%nat ∧
    (∀ m, (m < n)%nat → good (before_attempt m tr) = false) ∧
    (n = max ∨ good (before_attempt n tr) = true) ∧
    tr' = before_attempt n tr ++ [act (before_attempt n tr)].

Lemma retried_stop max tr :
  max = O ∨ good tr = true → retried max tr (tr ++ [act tr]).
Proof. intros H. exists O. split_and!; [lia|lia| |done]. destruct H as [->|]; auto. Qed.

Lemma retried_again max tr tr' :
  good tr = false → retried max (tr ++ [act tr; pause]) tr' → retried (S max) tr tr'.
Proof.
  intros Hg (n & Hn & Hbad & Hend & ->). exists (S n). split_and!; [lia| |simpl|done].
  - intros [|m] Hm; [done|]. apply Hbad. lia.
  - destruct Hend as [->|]; auto.
Qed.
End Retried.

Definition dial_attempt (addr : Multiaddr) (tr : list Effect) : Effect :=
  EDial (DialAddress (next_connection_id tr) addr).
Definition dial_succeeds (addr : Multiaddr) (tr : list Effect) : bool :=
  match swarm_dial tr (DialAddress (next_connection_id tr) addr) with Ok _ => true | Err _ => false end.
Definition subscribe_succeeds (name : string) (tr : list Effect) : bool :=
  match gossip_subscribe tr name with InTime (Ok _) => true | _ => false end.

(** The effects of startup. *)
Definition startup_effect (e : Effect) : Prop :=
  match e with EDial _ | ESleep _ | ESubscribe _ => True | _ => False end.

Definition add_effects (l : list Effect) (s : P2P) : P2P := foldl (λ s e, add_effect e s) s l.

Lemma add_effects_trace l s : trace (add_effects l s) = trace s ++ l.
Proof.
  revert s. induction l as [|e l IH]; intros s; [by rewrite app_nil_r|].
  change (trace (add_effects l (add_effect e s)) = trace s ++ [e] ++ l). by rewrite IH, app_assoc.
Qed.
Lemma add_effects_app l k s : add_effects (l ++ k) s = add_effects k (add_effects l s).
Proof. apply foldl_app. Qed.
Lemma add_effects_frame l s :
  config (add_effects l s) = config s ∧ topic (add_effects l s) = topic s ∧
  setup (add_effects l s) = setup s ∧ app_allowlist (add_effects l s) = app_allowlist s.
Proof. revert s. induction l as [|e l IH]; intros s; [done|]. apply (IH (add_effect e s)). Qed.

(** [m] only records [R]-related effects of startup. *)
Definition records (R : list Effect → list Effect → Prop) (m : M unit) : Prop :=
  ∀ s, ∃ l, m s = (add_effects l s, Done tt) ∧ Forall startup_effect l ∧ R (trace s) (trace s ++ l).

(** Every retry loop of the shape of the two above. *)
Lemma records_loop act good d (loop : nat → M unit) :
  (∀ tr, startup_effect (act tr)) →
  (∀ n s, n = O ∨ good (trace s) = true →
     loop n s = (add_effect (act (trace s)) s, Done tt)) →
  (∀ n s, good (trace s) = false →
     loop (S n) s = loop n (add_effect (ESleep d) (add_effect (act (trace s)) s))) →
  ∀ n, records (retried act good (ESleep d) n) (loop n).
Proof.
  intros Hact Hstop Hagain.
  assert (∀ n s, n = O ∨ good (trace s) = true → ∃ l, loop n s = (add_effects l s, Done tt) ∧
    Forall startup_effect l ∧ retried act good (ESleep d) n (trace s) (trace s ++ l)) as Hend.
  { intros n s H. exists [act (trace s)]. split_and!; [by apply Hstop| |by apply retried_stop].
    by repeat constructor. }
  induction n as [|n IH]; intros s; [apply Hend; by left|].
  destruct (good (trace s)) eqn:Hg; [apply Hend; by right|].
  destruct (IH (add_effects [act (trace s); ESleep d] s)) as (l & Hl & Hf & Hr).
  exists ([act (trace s); ESleep d] ++ l). split_and!.
  - rewrite (Hagain n s Hg), add_effects_app. exact Hl.
  - apply Forall_app. split; [|done]. by repeat constructor.
  - rewrite add_effects_trace in Hr. rewrite app_assoc. by apply retried_again.
Qed.

Lemma dial_loop_records d addr n :
  records (retried (dial_attempt addr) (dial_succeeds addr) (ESleep d) n) (dial_loop d addr n).
Proof.
  revert n. apply records_loop; [done|intros n s H|intros n s H].
  - unfold dial_succeeds in H. destruct n; cbn [dial_loop]; unfold swarm_dial_addr;
      do 3 (rewrite bind_assoc; run_simpl); rewrite ?bind_ret_l;
      destruct (swarm_dial (trace s) _); destruct H as [H|H]; done.
  - unfold dial_succeeds in H. cbn [dial_loop]. unfold swarm_dial_addr.
    do 3 (rewrite bind_assoc; run_simpl). rewrite ?bind_ret_l.
    destruct (swarm_dial (trace s) _); [done|]. by run_simpl.
Qed.

Lemma subscribe_loop_records d name n :
  records (retried (λ _, ESubscribe name) (subscribe_succeeds name) (ESleep d) n)
    (subscribe_loop d name n).
Proof.
  revert n. apply records_loop; [done|intros n s H|intros n s H];
    unfold subscribe_succeeds in H; [destruct n|]; cbn [subscribe_loop]; run_simpl;
    destruct (gossip_subscribe (trace s) name) as [[]|]; try (by destruct H as [H|H]); try done;
    by run_simpl.
Qed.

(** The relations [R x], one after the other. *)
Fixpoint in_turn {A} (R : A → list Effect → list Effect → Prop) (l : list A)
    (tr tr' : list Effect) : Prop :=
  match l with
  | [] => tr' = tr
  | x :: l => ∃ tr1, R x tr tr1 ∧ in_turn R l tr1 tr'
  end.

Lemma records_iterM {A} R (f : A → M unit) l :
  (∀ x, records (R x) (f x)) → records (in_turn R l) (iterM f l).
Proof.
  intros Hf. induction l as [|x l IH]; intros s; simpl.
  - exists []. rewrite app_nil_r. split_and!; [done|constructor|done].
  - destruct (Hf x s) as (l1 & H1 & F1 & R1). rewrite (bind_done _ _ _ _ _ H1).
    destruct (IH (add_effects l1 s)) as (l2 & H2 & F2 & R2).
    rewrite add_effects_trace in R2. exists (l1 ++ l2).
    split_and!; [by rewrite add_effects_app|by apply Forall_app|].
    rewrite app_assoc. by eexists.
Qed.

(** ** What the wait does *)

(** The events before [rest], as addresses connected to. *)
Definition connected_to (polls : list StartupPoll) : list Multiaddr :=
  omap (λ p, match p with PollEvent (StartupConnected _ _ o) => o | _ => None end) polls.

(** After these the code looks whether it is done. *)
Definition looks_whether_done (poll : StartupPoll) : bool :=
  match poll with
  | PollEvent (StartupConnected _ _ None) => false
  | PollEvent _ => true
  | _ => false
  end.

(** What polling does to the setup behaviour. *)
Definition poll_setup_step (sb : SetupBehaviour) (poll : StartupPoll) : SetupBehaviour :=
  match poll with
  | PollSetupInput i => sb_step i sb
  | PollSetup => (behaviour_poll sb).1
  | PollEvent _ => sb
  end.
Definition setup_after (polls : list StartupPoll) (sb : SetupBehaviour) : SetupBehaviour :=
  foldl poll_setup_step sb polls.

(** The inputs among the polls. *)
Definition setup_inputs (polls : list StartupPoll) : list SetupInput :=
  omap (λ p, match p with PollSetupInput i => Some i | _ => None end) polls.

(** The wait ends when everything in [set] is connected to, and not later. *)
Definition waits_for (set : gset Multiaddr) (before rest : list StartupPoll) (connected : bool)
    : Prop :=
  (connected = true → ∀ a, a ∈ set → a ∈ connected_to before) ∧
  (connected = false → rest = []) ∧
  (∀ b poll a, before = b ++ poll :: a → looks_whether_done poll = true →
     (connected = true → a ≠ []) → ∃ addr, addr ∈ set ∧ addr ∉ connected_to (b ++ [poll])).

(** The event that a poll yields. *)
Definition next_event (poll : StartupPoll) (sb : SetupBehaviour) : option StartupEvent :=
  match poll with
  | PollSetupInput _ => None
  | PollSetup => (λ e, StartupOther (SwarmBehaviour (BSetup e))) <$> (behaviour_poll sb).2
  | PollEvent e => Some e
  end.

Lemma swarm_next_run poll s :
  swarm_next poll s
  = (upd_setup (λ sb, poll_setup_step sb poll) s, Done (next_event poll (setup s))).
Proof.
  destruct poll as [i| |e]; [done| |by destruct s]. unfold swarm_next. run_simpl.
  unfold upd_setup. simpl. by destruct (behaviour_poll (setup s)).
Qed.

(** The event makes the set smaller by what was connected to, or is skipped. *)
Lemma next_event_startup poll sb set :
  match next_event poll sb ≫= λ e, startup_event e set with
  | Some set' => ∀ a, a ∈ set' ↔ a ∈ set ∧ a ∉ connected_to [poll]
  | None => looks_whether_done poll = false ∧ connected_to [poll] = []
  end.
Proof.
  destruct poll as [i| |[p c [a|]|e]]; simpl; try done; [|set_solver..].
  destruct (behaviour_poll sb) as [sb' [e|]]; simpl; [set_solver|done].
Qed.

Lemma connected_to_app l k : connected_to (l ++ k) = connected_to l ++ connected_to k.
Proof. apply omap_app. Qed.

(** One more poll at the front. *)
Lemma waits_for_cons (set set' : gset Multiaddr) poll before rest connected :
  waits_for set' before rest connected →
  (∀ a, a ∈ set' ↔ a ∈ set ∧ a ∉ connected_to [poll]) →
  (looks_whether_done poll = true → set' ≠ ∅) →
  waits_for set (poll :: before) rest connected.
Proof.
  intros (Hc & Hd & Hlook) Hset Hpoll. split_and!; [|done|].
  - intros Htrue a Ha. change (poll :: before) with ([poll] ++ before). rewrite connected_to_app.
    apply elem_of_app. destruct (decide (a ∈ connected_to [poll])); [by left|right].
    apply Hc; [done|]. by apply Hset.
  - intros [|q b] p a Heq Hl Hmore; injection Heq as -> ->.
    + destruct (set_choose_L set') as [x Hx%Hset]; [auto|]. by exists x.
    + destruct (Hlook b p a eq_refl Hl Hmore) as (x & [Hx Hn]%Hset & Hno). exists x.
      split; [done|]. change (x ∉ connected_to ([q] ++ b ++ [p])).
      rewrite (connected_to_app [q]). by intros [?|?]%elem_of_app.
Qed.

(** The status updates never overflow. *)
Definition interval_fits (interval : Z) : Prop :=
  ∀ n, as_secs (instant n + interval) ≤ i64_max.

Lemma status_update_fits interval next n :
  interval_fits interval → ∃ r, status_update interval next n = Some r.
Proof.
  intros Hfit. unfold status_update, systemtime_add. destruct (next <? instant n); [|by eexists].
  rewrite (proj2 (Z.leb_le _ _) (Hfit (S n))). by eexists.
Qed.

Lemma wait_connected_run interval polls set next n s :
  interval_fits interval →
  ∃ connected before rest, polls = before ++ rest ∧
    wait_connected interval polls set next n s = (upd_setup (setup_after before) s, Done (connected, rest)) ∧
    waits_for set before rest connected.
Proof.
  intros Hfit. revert set next n s. induction polls as [|poll polls IH]; intros set next n s.
  { exists false, [], []. split_and!; [done|by destruct s|]. split_and!; [done|done|].
    intros [] ? ? ?; done. }
  cbn [wait_connected]. rewrite (bind_done _ _ _ _ _ (swarm_next_run poll s)).
  pose proof (next_event_startup poll (setup s) set) as Hn.
  assert (∀ (set' : gset Multiaddr) next n,
    (∀ a, a ∈ set' ↔ a ∈ set ∧ a ∉ connected_to [poll]) →
    (looks_whether_done poll = true → set' ≠ ∅) →
    ∃ connected before rest, poll :: polls = before ++ rest ∧
      wait_connected interval polls set' next n (upd_setup (λ sb, poll_setup_step sb poll) s)
        = (upd_setup (setup_after before) s, Done (connected, rest)) ∧
      waits_for set before rest connected) as Hgo.
  { intros set' nx k Hset Hne. destruct (IH set' nx k (upd_setup (λ sb, poll_setup_step sb poll) s))
      as (connected & before & rest & -> & Hw & Hf).
    exists connected, (poll :: before), rest. split_and!; [done|exact Hw|].
    by eapply waits_for_cons. }
  assert (looks_whether_done poll = false ∧ connected_to [poll] = [] →
    ∃ connected before rest, poll :: polls = before ++ rest ∧
      wait_connected interval polls set next n (upd_setup (λ sb, poll_setup_step sb poll) s)
        = (upd_setup (setup_after before) s, Done (connected, rest)) ∧
      waits_for set before rest connected) as Hskip.
  { intros [Hl He]. apply Hgo; [|congruence]. intros a. rewrite He.
    split; [|by intros []]. intros Ha. split; [done|by intros ?%elem_of_nil]. }
  destruct (next_event poll (setup s)) as [e|]; cbn [mbind option_bind] in Hn; [|by apply Hskip].
  destruct (startup_event e set) as [set'|]; [|by apply Hskip].
  destruct (status_update_fits interval next n Hfit) as [[nx k] ->].
  cbn [or_panic]. rewrite bind_ret_l. case_bool_decide as Hempty; [|by apply Hgo]. exists true, [poll], polls.
  split_and!; [done|done|]. split_and!; [|done|].
  - intros _ a Ha. destruct (decide (a ∈ connected_to [poll])); [done|].
    assert (a ∈ set') as Hin by by apply Hn. rewrite Hempty in Hin. by apply not_elem_of_empty in Hin.
  - intros [|q [|? ?]] p a Heq _ Hmore; [|done..]. injection Heq as -> <-. by destruct Hmore.
Qed.


Definition check_interval (cfg : P2PConfig) : Z :=
  default DEFAULT_CONNECTION_CHECK_INTERVAL (cfg_connection_check_interval cfg).

Lemma establish_run polls s :
  let cfg := config s in
  let max := default DEFAULT_MAX_RETRIES (cfg_max_retries cfg) in
  interval_fits (check_interval cfg) →
  ∃ did dialed connected before rest,
    establish_connections polls s
      = (upd_setup (setup_after before) (add_effects did s), Done (connected, rest)) ∧
    polls = before ++ rest ∧ Forall startup_effect did ∧
    in_turn (λ addr, retried (dial_attempt addr) (dial_succeeds addr)
                       (ESleep (default DEFAULT_DIAL_TIMEOUT (cfg_dial_timeout cfg))) max)
      (cfg_connect_to cfg) (trace s) dialed ∧
    retried (λ _, ESubscribe (topic s)) (subscribe_succeeds (topic s))
      (ESleep (check_interval cfg))
      max dialed (trace s ++ did) ∧
    waits_for (list_to_set (cfg_connect_to cfg)) before rest connected.
Proof.
  intros cfg max Hfit. unfold establish_connections. run_simpl. fold cfg. fold max.
  fold (check_interval cfg). set (d := default DEFAULT_DIAL_TIMEOUT _). set (c := check_interval cfg).
  destruct (records_iterM _ (λ addr, dial_loop d addr max) (cfg_connect_to cfg)
              (λ addr, dial_loop_records d addr max) s) as (l1 & H1 & F1 & R1).
  rewrite (bind_done _ _ _ _ _ H1). run_simpl.
  destruct (add_effects_frame l1 s) as (_ & Ht & _). rewrite Ht.
  destruct (subscribe_loop_records c (topic s) max (add_effects l1 s)) as (l2 & H2 & F2 & R2).
  rewrite (bind_done _ _ _ _ _ H2), <-add_effects_app. rewrite add_effects_trace, <-app_assoc in R2.
  destruct (wait_connected_run c polls (list_to_set (cfg_connect_to cfg)) (instant 1) 2
              (add_effects (l1 ++ l2) s) Hfit)
    as (connected & before & rest & Hp & Hw & Hf).
  exists (l1 ++ l2), (trace s ++ l1), connected, before, rest.
  split_and!; [exact Hw|done|by apply Forall_app|exact R1|exact R2|exact Hf].
Qed.


(** *** What is lost meanwhile *)

(** A setup outcome for which the event loop disconnects the peer. *)
Definition refused (s : P2P) (e : SetupHandlerEvent) : Prop :=
  match e with HAppKeyReceived k => k ∉ app_allowlist s | _ => True end.

Lemma loop_disconnects s p c e :
  refused s e →
  trace (wake WSetupPoll (wake (WSetupInput (FromHandler p c e)) s).1).1 = trace s ++ [EDisconnect p].
Proof.
  intros He. cbn [wake]. unfold poll_setup. run_simpl. simpl. unfold behaviour_poll.
  destruct e as [k| |e]; simpl; rewrite vec_pop_snoc; run_simpl; simpl; try done.
  run_simpl. simpl in *. by rewrite bool_decide_eq_false_2.
Qed.

Lemma setup_after_app l k sb : setup_after (l ++ k) sb = setup_after k (setup_after l sb).
Proof. apply foldl_app. Qed.

(** An input whose event the wait takes changes the tables and leaves nothing
    pending. *)
Lemma poll_drops_event p c e sb :
  setup_after [PollSetupInput (FromHandler p c e); PollSetup] sb
  = with_events (on_connection_handler_event p c e sb) (events sb).
Proof.
  unfold setup_after. simpl. unfold behaviour_poll.
  destruct e as [k| |e]; simpl; by rewrite vec_pop_snoc.
Qed.

Lemma poll_keeps_tables sb : transport_ids (behaviour_poll sb).1 = transport_ids sb.
Proof. unfold behaviour_poll. by destruct (vec_pop (events sb)) as [[]|]. Qed.

Lemma setup_after_tables polls sb p :
  transport_ids (setup_after polls sb) !! p
  = foldl (λ o i, last_key_step p i o) (transport_ids sb !! p) (setup_inputs polls).
Proof.
  revert sb. induction polls as [|[i| |e] polls IH]; intros sb; [done|..];
    cbn [setup_after foldl]; unfold setup_after in IH; rewrite IH; simpl.
  - by rewrite sb_step_transport.
  - by rewrite poll_keeps_tables.
  - done.
Qed.

(** C31. What the swarm reports while startup waits fills the setup tables, as
    it does later, but no handler is told: the node's only effects are its
    dialing and subscribing, and of its state only the setup behaviour moves.
    So a peer whose handshake fails, or that proves a key which is not on the
    allowlist, and whom the event loop disconnects for it, stays: its event is
    taken and dropped, its key is in the table, and it is not disconnected
    (gossip messages, and peers without the node's protocols, are passed over
    in the same way). *)
Theorem startup_drops_events polls s :
  interval_fits (check_interval (config s)) →
  ∃ s' connected before rest did,
    establish_connections polls s = (s', Done (connected, rest)) ∧ polls = before ++ rest ∧
    s' = upd_setup (setup_after before) (add_effects did s) ∧
    trace s' = trace s ++ did ∧ Forall startup_effect did ∧
    (∀ p, get_app_public_key_by_transport_id (setup s') p
          = foldl (λ o i, last_key_step p i o) (get_app_public_key_by_transport_id (setup s) p)
              (setup_inputs before)) ∧
    (∀ b p c e a, before = b ++ [PollSetupInput (FromHandler p c e); PollSetup] ++ a →
       let sb := setup_after b (setup s) in
       setup s' = setup_after a (with_events (on_connection_handler_event p c e sb) (events sb)) ∧
       EDisconnect p ∉ did ∧
       ∀ t, app_allowlist t = app_allowlist s → refused s e →
         trace (wake WSetupPoll (wake (WSetupInput (FromHandler p c e)) t).1).1
         = trace t ++ [EDisconnect p]).
Proof.
  intros Hfit. destruct (establish_run polls s Hfit) as (did & _ & connected & before & rest & H & Hp & Hf & _).
  destruct (add_effects_frame did s) as (_ & _ & Hs & _).
  eexists _, connected, before, rest, did. split_and!; [exact H|done|done| |done|..].
  - apply add_effects_trace.
  - intros p. simpl. rewrite Hs. apply setup_after_tables.
  - intros b p c e a -> sb. split_and!.
    + change (setup (upd_setup _ _)) with
        (setup_after (b ++ [PollSetupInput (FromHandler p c e); PollSetup] ++ a) (setup (add_effects did s))).
      by rewrite Hs, setup_after_app, (setup_after_app [_; _]), poll_drops_event.
    + intros Hin. rewrite Forall_forall in Hf. by apply Hf in Hin.
    + intros t Ht He. apply loop_disconnects. destruct e; simpl in *; [by rewrite Ht|done..].
Qed.
End Establish.

(** ** Examples on the toy node *)

Section EstablishExamples.
#[local] Existing Instances Toy.platform ToyNode.queue_inst.
#[local] Instance establish_env : Env := ToyNode.env true.

(** The node is to connect to address 4; meanwhile peer 109 proves key 9, which
    is not on the allowlist. *)
Definition startup_node : P2P := upd_config (push_connect_to (4%nat : Multiaddr)) ToyNode.node.
Definition startup_polls : list StartupPoll :=
  [PollSetupInput (FromHandler (109%nat : PeerId) (0%nat : ConnectionId)
                     (HAppKeyReceived (9%nat : PublicKey)));
   PollSetup;
   PollEvent (StartupConnected (107%nat : PeerId) (0%nat : ConnectionId) (Some (4%nat : Multiaddr)))].

Definition toy_instant (n : nat) : Z := from_secs 5.
Lemma toy_fits : interval_fits toy_instant (check_interval (config startup_node)).
Proof. intros n. vm_compute. discriminate. Qed.

Definition outcome_of (o : P2P * outcome SwarmError (bool * list StartupPoll)) :=
  match o.2 with Done r => Some r | _ => None end.


Lemma startup_drops_events_witness :
  let s' := (establish_connections toy_instant startup_polls startup_node).1 in
  get_app_public_key_by_transport_id (setup s') (109%nat : PeerId) = Some (9%nat : PublicKey) ∧
  EDisconnect (109%nat : PeerId) ∉ trace s'.
Proof.
  assert (outcome_of (establish_connections toy_instant startup_polls startup_node) = Some (true, [])) as Ho
    by (vm_compute; reflexivity).
  destruct (startup_drops_events toy_instant startup_polls startup_node toy_fits)
    as (s' & connected & before & rest & did & H & Hp & _ & Ht & _ & Htable & Hdrop).
  rewrite H in *. injection Ho as -> ->. rewrite app_nil_r in Hp. subst before. simpl.
  split; [rewrite Htable; vm_compute; reflexivity|]. rewrite Ht.
  exact (proj1 (proj2 (Hdrop [] _ _ _ (drop 2 startup_polls) eq_refl))).
Defined.
End EstablishExamples.
